(* ===== verification/_CoqProject ===== *)
-Q . S2P
Prelude.v
Kwargs.v
Selection.v
Arrow.v
Common.v
EncUnit.v
Bitpack.v
Dict.v
Footer.v
Options.v
Chunks.v
Writer.v
Reader.v
Wire.v
FileRoundtrip.v
WriterSpec.v
Float64.v
Sketch.v
Encoders.v
SharedDict.v
Buffers.v
PhysEnc.v
PhysEncFacts.v
DictColumn.v
LogicalEnc.v
LogicalEncFacts.v
Table.v
Decoders.v
DictCache.v
LogicalDec.v
ListStructDec.v
OpenFile.v
ReadFile.v
DecoderFacts.v
DictRead.v
EndToEnd.v
DictTable.v
Guest.v
GuestFacts.v
Wasm.v
WasmFacts.v
RuntimeFacts.v
WasmDecoding.v
Layout.v
ByteBuffers.v
Vortex.v
VortexFacts.v
VortexLists.v
VortexExample.v
ExampleCodecs.v
PatternCodec.v
PluginCodecs.v
PluginExample.v
Nested.v
NestedRead.v
NestedRoundtrip.v
NestedTable.v
NestedExample.v
Progress.v
WasmTable.v
SelectedRead.v
WasmExample.v
