(* ===== verification/Prelude.v ===== *)
(** * A verification library for F3, an open-source columnar data file format

    F3 stores Arrow record batches in a self-describing file.  A file is, from its
    start: the encoded column chunks of each row group, the chunks of the shared
    dictionaries, the WASM binaries that can decode the file, the table of those
    binaries, the metadata of every column of every row group, the footer, and a
    postscript of 32 bytes.  The code is the Rust workspace under src/.

    ** The parts of the program and the files that model them

    - Prelude.v: the outcome monad of Rust code, loops, machine integers, byte
      buffers; fff-core/src/errors.rs and util/bit_util.rs.
    - Kwargs.v: the keyword arguments handed to a decoder, fff-ude/src/kwargs.rs.
    - Selection.v: which rows of which row group a reader decodes,
      [process_selection] of fff-poc/src/reader/mod.rs and reader/selection.rs.
    - Arrow.v: the Arrow data that the code sees: types, fields, arrays, slices.
    - Common.v: column numbering, checksums, compression, counters and the
      [Reader] trait (fff-poc/src/common, compression, counter.rs, io/reader.rs).
    - EncUnit.v: the layout of an encoding unit, fff-encoding/src/enc_unit.rs and
      data_buffer.rs.
    - Bitpack.v: the bit-packing codec, fff-encoding/src/schemes/bp.rs.
    - Dict.v: dictionaries, fff-poc/src/dict.rs and dict/dict_hash.rs.
    - Footer.v: the metadata tables, the row group table, the footer and the
      postscript, fff-poc/src/file/footer.rs and fff-format/src/lib.rs.
    - Options.v: writer options and WASM contexts, fff-poc/src/options.rs, context.rs.
    - Chunks.v: encoded chunks (encoder/encoded_column_chunk.rs), and the
      interfaces [LogicalColEncoder], [EncoderContract], [SharedDictionaryOps] that
      column encoders and the shared dictionary context offer to the writer.
    - Writer.v: [FileWriteState] and [FileWriter] of fff-poc/src/writer.rs.
    - Reader.v: opening a file, fff-poc/src/reader/mod.rs and reader/builder.rs.
    - Wire.v: a concrete serialisation that meets the laws asked of flatbuffers.
    - FileRoundtrip.v: what [finish] writes is what a reader reads.
    - WriterSpec.v: the abstract writer, and that the writer refines it.
    - Float64.v: binary64, for the dictionary heuristics.
    - Sketch.v: the bottom-k sketches of dictionaries, dict/bottom_k_sketch.rs.
    - Encoders.v: the unit encoders (encoder/encunit.rs, custom.rs).
    - SharedDict.v: the pool of shared dictionaries, dict/shared_dictionary_context.rs.
    - PhysEnc.v: the physical column encoders, encoder/physical.rs.
    - PhysEncFacts.v: what the chunks of a physical encoder hold.
    - DictColumn.v: what the chunks of columns with dictionaries hold, over a pool that
      grows.
    - LogicalEnc.v: the logical column encoders, encoder/logical.rs.
    - LogicalEncFacts.v: the writer with its real encoders.
    - Table.v: which batches go to which row group.
    - Buffers.v: Arrow arrays from decoded buffers, fff-core/src/util/buffer_to_array.rs.
    - Decoders.v: the unit decoders and the physical column decoders,
      decoder/encunit.rs and decoder/physical.rs.
    - DictCache.v: the dictionary cache of a reader, dict/shared_dictionary_cache.rs.
    - LogicalDec.v: the logical column decoders, decoder/logical.rs.
    - ListStructDec.v: the decoder of lists of structs, decoder/logical.rs.
    - OpenFile.v: where a reader finds the chunks of an open file.
    - ReadFile.v: [FileReaderV2], reader/mod.rs.
    - DecoderFacts.v: a column decoder gives back what an encoder wrote.
    - Guest.v: what a WASM decoder binary exports, over the heap of the guest,
      fff-ude/src/ffi.rs and lib.rs; GuestFacts.v: what it keeps.
    - Wasm.v: the host of the WASM runtime, fff-ude-wasm/src; WasmFacts.v: calls on one
      instance; RuntimeFacts.v: the pool with its live iterators and buffers;
      WasmDecoding.v: decoding through the runtime, in any interleaving.
    - EndToEnd.v: the reader gives back the batches that the writer was given.
    - Progress.v: writing a table does not fail.
    - DictRead.v: the cache of a reader holds the dictionaries of the pool; DictTable.v:
      tables of columns with dictionaries.
    - Vortex.v: the built-in codec, fff-encoding/src/schemes/vortex.rs; VortexFacts.v
      (reading messages, flat arrays) and VortexLists.v (lists and lists of structs):
      it gives back what it was given; VortexExample.v: a small vortex library.
    - Nested.v: what the encoders of lists and structs write to which physical column;
      NestedRead.v: the decoders put it together again; NestedRoundtrip.v: both, for
      any codec and for the one of Vortex.v; NestedTable.v: tables of such columns;
      NestedExample.v: one of them.
    - Layout.v: the memory layouts of Arrow arrays; the host reads each of them.
    - ByteBuffers.v: the conversion of byte buffers, fff-core/src/util/buffer_to_array.rs,
      with strings as offsets and bytes and types of a fixed size.
    - ExampleCodecs.v: the plug-ins of wasm-libs: the codecs of wasm-test-encoders, the
      stateful decoder of adv-ude-fff, what the small crates export.  PatternCodec.v: the
      pattern codec; PluginCodecs.v: the others give back what they were given;
      PluginExample.v: the stateful one, applied.
    - WasmTable.v: tables of columns that a plug-in decodes; SelectedRead.v: reading one
      row of such a table; WasmExample.v: one of them, with the pattern codec.

    ** How they interact

    [FileWriter::write_batch] hands each column to its encoder, which buffers it
    and now and then returns chunks; the writer appends their bytes to the file and
    records them in the metadata of their physical column.  [finish] closes the
    last row group and writes the tail of the file.  A reader goes the other way:
    postscript, footer, column metadata, chunks.  The components meet in
    interfaces: the writer is proved against [LogicalColEncoder] and
    [EncoderContract], the readers against [Reader] and [ReaderOf], everything that
    serialises against [Flatbuffers], [Checksum] and [Codecs] with their laws.

    ** Conventions

    A Rust function that can fail returns an [outcome]: [Ok], [Err] with the
    program's error, or [Panic].  Arithmetic is that of a build with overflow
    checks: [uadd], [usub] and [umul] panic, an [as] cast wraps ([wrap]).  Machine
    integers are [Z], bytes are [list Z].  A HashMap is a [gmap]; where the program
    depends on an order the model keeps a list.  Sinks are in-memory buffers, so
    that [write_all] does not fail.  Recursion is structural and loops over
    ranges are folds over lists of indices.  Only the loops that decode a chunk until
    it has no unit left ([decode_chunk], [rows_of_chunk]) take fuel: one more than
    the number of units, which [decode_chunk_loop] shows to be enough.  So does
    [collect_buffers], one more than the number of buffers.  Computations that keep
    their state when they fail are in the monad [Run].  Undefined behaviour of the guest
    (a block given back with a wrong layout, a dangling box) is a panic.

    ** What the theorems show

    - Tables: [written_table_reads_back], [nested_table_reads_back],
      [wasm_table_reads_back] (custom encodings, decoded by the binaries in the file),
      [dict_table_reads_back] (columns with dictionaries of the file) and
      [projected_table_reads_back] (from batches to batches), [table_in_row_groups],
      [table_is_written] (writing does not fail).
    - Files: [written_file_reads_back], [writer_refines_spec],
      [written_tail_reads_back], [flush_chunks_correct], [new_writer_file_reads_back].
    - Columns: [encoder_dict_writes_column], [encode_dict_scope_indexes],
      [cast_index_lossless], [columns_numbered],
      [shared_column_reads_back], [decode_chunk_loop],
      [nested_column_reads_back], [nested_strings_panic].
    - The built-in codec: [encoded_lists_read_back], [encoded_list_struct_reads_back],
      [encoded_list_struct_row], [encoded_slice_rows].
    - Shared dictionaries: [merge_dicts_keeps_values],
      [written_dictionaries_cached], [sketch_bottom_k], [jaccard_walk_counts].
    - Data: [byte_buffers_read_back], [byte_buffers_agree] (buffers to arrays),
      [flat_encunit_roundtrip], [bitpack_roundtrip], [kwargs_roundtrip],
      [dictionary_index_roundtrip], [merge_with_correct].
    - Reading: [process_selection_correct], [selected_row_read] (point access).
    - WASM: [wasm_decode_transparent], [wasm_interleaving_safe],
      [wasm_undecodable_panics].
    - Plug-ins: [pattern_codec_roundtrip], [stateful_plugin_decodes_once].

    ** What is not modelled, and why

    Third-party code is a parameter with the laws the program relies on: xxhash,
    LZ4, Zstd, gzip and Pco, vortex ([VortexLib] with [VortexLibLaws]), flatbuffers,
    flexbuffers, rkyv, the fastlanes kernel, wasmtime (with [Engine], where it places the
    memory of an instance),
    Arrow's IPC schema encoding, random coefficients of the dictionary sketches.
    What a WASM binary computes is a parameter of the reader;
    [wasm_decode_transparent] says what the runtime makes of such a parameter, and
    ExampleCodecs.v what the plug-ins of the repository compute.  Of the
    guest, the allocator and the user functions are parameters, the Rust objects behind
    its boxes are not spelled out as bytes, and nothing is printed to its output.
    Addresses are modelled where the code depends on them: for the buffers of the WASM
    runtime, which keep a host address and dangle when the engine moves the memory
    ([moved_memory_dangles]), and for the words of the bit-packing decoder, which must be
    aligned.  Elsewhere alignment is left out, as in [scalar_buffer] of Buffers.v, which
    takes every buffer as aligned.  Object-store I/O, generated accessors, benchmarks and the older example plug-ins
    (wasm-libs/fff-ude-example, -example2, -vortex, -buff, -fsst) are outside the library.
    The conversion of decoded buffers to arrays is modelled for the one buffer type
    that the decoders use; its copies for other buffer types are not. *)

From Stdlib Require Export ZArith Lia Bool String.
From stdpp Require Export base tactics numbers option strings sorting gmap list.

Open Scope Z_scope.

(** ** Outcomes of Rust code

    A Rust function of the repository returns [Result<T, Error>] or panics.
    [outcome] has one constructor per case, so that an error path and a
    panicking path stay apart in every theorem. *)

Declare Scope rust_scope.
Delimit Scope rust_scope with rust.
Open Scope rust_scope.

(** [fff_core::errors::Error]; the payload of the boxed and foreign errors is
    reduced to its message. *)
Inductive Error :=
  | General (msg : string)
  | NYI (msg : string)
  | EOF (msg : string)
  | IndexOutOfBound (index size : Z)
  | ParseError (msg : string)
  | IO (msg : string)
  | External (msg : string)
  | CastSliceError (msg : string)
  | ObjectStore (msg : string).

#[export] Instance Error_eq_dec : EqDecision Error.
Proof. solve_decision. Defined.

(** Why a Rust computation panics. *)
Inductive panic_kind :=
  | PUnwrap            (* unwrap()/expect() of a None or of an Err *)
  | PIndex             (* slice or index out of range *)
  | POverflow          (* arithmetic overflow, checked in the dev profile *)
  | PAssert            (* assert!, debug_assert! *)
  | PTodo              (* todo!, unimplemented!, unreachable!, panic! *)
  | PDivZero.

#[export] Instance panic_kind_eq_dec : EqDecision panic_kind.
Proof. solve_decision. Defined.

Inductive outcome (A : Type) :=
  | Ok (a : A)
  | Err (e : Error)
  | Panic (p : panic_kind).
Arguments Ok {A} a.
Arguments Err {A} e.
Arguments Panic {A} p.

Definition obind {A B} (m : outcome A) (k : A → outcome B) : outcome B :=
  match m with
  | Ok a => k a
  | Err e => Err e
  | Panic p => Panic p
  end.

Definition omap_ok {A B} (f : A → B) (m : outcome A) : outcome B :=
  obind m (λ a, Ok (f a)).

Notation "'let!' x ':=' m 'in' k" := (obind m (λ x, k))
  (at level 10, x name, m at level 100, k at level 200,
   format "'[v' 'let!'  x  ':='  m  'in' '/' k ']'") : rust_scope.
Notation "'let!' ' p ':=' m 'in' k" := (obind m (λ p, k))
  (at level 10, p strict pattern, m at level 100, k at level 200,
   format "'[v' 'let!'  ' p  ':='  m  'in' '/' k ']'") : rust_scope.
(** [Option::unwrap], [Option::ok_or_else], [Result::unwrap]. *)
Definition unwrap {A} (o : option A) : outcome A :=
  match o with Some a => Ok a | None => Panic PUnwrap end.

Definition ok_or {A} (o : option A) (e : Error) : outcome A :=
  match o with Some a => Ok a | None => Err e end.

Definition unwrap_res {A} (m : outcome A) : outcome A :=
  match m with Err _ => Panic PUnwrap | _ => m end.

(** [assert!(b)] and [ensure]-like guards. *)
Definition assert (b : bool) : outcome unit := if b then Ok tt else Panic PAssert.

Definition is_ok {A} (m : outcome A) : bool :=
  match m with Ok _ => true | _ => false end.

(** [v[i]] *)
Definition index {A} (l : list A) (i : Z) : outcome A :=
  if i <? 0 then Panic PIndex
  else match l !! Z.to_nat i with Some a => Ok a | None => Panic PIndex end.

Section Loops.
Context {A B S : Type}.

(** A loop over a sequence that stops at the first error or panic:
    [iter().map(f).collect::<Result<Vec<_>>>()]. *)
Definition traverse (f : A → outcome B) : list A → outcome (list B) :=
  fix go l :=
    match l with
    | [] => Ok []
    | a :: l => let! b := f a in let! bs := go l in Ok (b :: bs)
    end.

(** A [for] loop that threads a state. *)
Definition fold_m (f : S → A → outcome S) : S → list A → outcome S :=
  fix go s l :=
    match l with
    | [] => Ok s
    | a :: l => let! s' := f s a in go s' l
    end.

(** The same with an output per iteration, in order. *)
Definition traverse_st (f : S → A → outcome (B * S)) : S → list A → outcome (list B * S) :=
  fix go s l :=
    match l with
    | [] => Ok ([], s)
    | a :: l =>
        let! '(b, s1) := f s a in
        let! '(bs, s2) := go s1 l in
        Ok (b :: bs, s2)
    end.
End Loops.

(** *** Equations and inversions of the monad *)

Lemma obind_Ok {A B} (m : outcome A) (k : A → outcome B) b :
  obind m k = Ok b ↔ ∃ a, m = Ok a ∧ k a = Ok b.
Proof. destruct m; simpl; naive_solver. Qed.

Lemma obind_assoc {A B C} (m : outcome A) (f : A → outcome B) (g : B → outcome C) :
  obind (obind m f) g = obind m (λ a, obind (f a) g).
Proof. by destruct m. Qed.

#[export] Instance Ok_inj {A} : Inj (=) (=) (@Ok A).
Proof. by intros a b [=]. Qed.

Lemma unwrap_Ok {A} (o : option A) a : unwrap o = Ok a ↔ o = Some a.
Proof. destruct o; naive_solver. Qed.

Lemma ok_or_Ok {A} (o : option A) e a : ok_or o e = Ok a ↔ o = Some a.
Proof. destruct o; naive_solver. Qed.

Lemma unwrap_res_Ok {A} (m : outcome A) a : unwrap_res m = Ok a ↔ m = Ok a.
Proof. destruct m; naive_solver. Qed.

Lemma assert_Ok b u : assert b = Ok u ↔ b = true.
Proof. destruct b, u; naive_solver. Qed.

(** [simplify_outcome] inverts every hypothesis that says a computation ended
    in [Ok], and closes the contradictory ones. *)
Ltac simplify_outcome :=
  repeat match goal with
  | Hob : obind _ _ = Ok _ |- _ =>
      apply obind_Ok in Hob; destruct Hob as (? & ? & Hob)
  | H : omap_ok _ _ = Ok _ |- _ => unfold omap_ok in H
  | H : Ok _ = Ok _ |- _ => injection H; clear H; intros
  | H : Err _ = Ok _ |- _ => discriminate H
  | H : Panic _ = Ok _ |- _ => discriminate H
  | H : unwrap _ = Ok _ |- _ => apply unwrap_Ok in H
  | H : ok_or _ _ = Ok _ |- _ => apply ok_or_Ok in H
  | H : unwrap_res _ = Ok _ |- _ => apply unwrap_res_Ok in H
  | H : assert _ = Ok _ |- _ => apply assert_Ok in H
  | H : (let '(_, _) := ?x in _) = Ok _ |- _ => destruct x eqn:?
  end; simplify_eq/=.

Lemma traverse_Ok {A B} (f : A → outcome B) l bs :
  traverse f l = Ok bs ↔ Forall2 (λ a b, f a = Ok b) l bs.
Proof.
  revert bs. induction l as [|a l IH]; intros bs; simpl.
  - split; [by intros [= <-]|by intros ->%Forall2_nil_inv_l].
  - split.
    + intros H. simplify_outcome. constructor; [done|by apply IH].
    + intros (b & bs' & Hb & Hbs & ->)%Forall2_cons_inv_l.
      simpl. rewrite Hb. simpl. apply IH in Hbs. by rewrite Hbs.
Qed.

Lemma traverse_length {A B} (f : A → outcome B) l bs :
  traverse f l = Ok bs → length bs = length l.
Proof. intros H%traverse_Ok. symmetry. by eapply Forall2_length. Qed.

Lemma traverse_pure {A B} (f : A → B) l : traverse (λ a, Ok (f a)) l = Ok (map f l).
Proof. induction l as [|a l IH]; simpl; [done|]. by rewrite IH. Qed.

Lemma Forall_choice {A B} (R : A → B → Prop) l :
  Forall (λ a, ∃ b, R a b) l → ∃ bs, Forall2 R l bs.
Proof.
  induction 1 as [|a l (b & Hb) _ (bs & IH)]; [by exists []|]. exists (b :: bs). by constructor.
Qed.

Lemma traverse_ext {A B} (f g : A → outcome B) l :
  (∀ a, a ∈ l → f a = g a) → traverse f l = traverse g l.
Proof.
  induction l as [|a l IH]; intros Hfg; simpl; [done|].
  rewrite Hfg; [|by left]. rewrite IH; [done|]. intros b Hb. apply Hfg. by right.
Qed.

Lemma traverse_map {A B C} (f : A → outcome B) (g : C → A) l :
  traverse f (map g l) = traverse (λ c, f (g c)) l.
Proof. induction l as [|a l IH]; simpl; [done|]. by rewrite IH. Qed.

Lemma traverse_app {A B} (f : A → outcome B) l k :
  traverse f (l ++ k) =
    let! bs := traverse f l in let! cs := traverse f k in Ok (bs ++ cs).
Proof.
  induction l as [|a l IH]; simpl.
  - by destruct (traverse f k).
  - destruct (f a); simpl; [|done|done]. rewrite IH.
    destruct (traverse f l); simpl; [|done|done]. by destruct (traverse f k).
Qed.

Lemma fold_m_app {A S} (f : S → A → outcome S) s l k :
  fold_m f s (l ++ k) = let! s' := fold_m f s l in fold_m f s' k.
Proof.
  revert s. induction l as [|a l IH]; intros s; simpl; [done|].
  destruct (f s a); simpl; [apply IH|done|done].
Qed.

(** Rule for a loop that threads a state: an invariant kept by every successful
    iteration holds at the end. *)
Lemma fold_m_inv {A S} (P : S → Prop) (f : S → A → outcome S) l s s' :
  P s → (∀ s a s', a ∈ l → P s → f s a = Ok s' → P s') →
  fold_m f s l = Ok s' → P s'.
Proof.
  revert s. induction l as [|a l IH]; intros s HP Hstep H; simpl in H.
  - by simplify_outcome.
  - simplify_outcome. eapply IH; [|intros ?????; eapply Hstep; [by right|done..]|done].
    eapply Hstep; [by left|done..].
Qed.

(** ... and for an invariant that speaks of the elements handled so far. *)
Lemma fold_m_prefix {A S} (P : list A → S → Prop) (f : S → A → outcome S) l s s' :
  P [] s → (∀ pre s a s', P pre s → f s a = Ok s' → P (pre ++ [a]) s') →
  fold_m f s l = Ok s' → P l s'.
Proof.
  intros Hs Hstep. assert (Hgen : ∀ pre s, P pre s → fold_m f s l = Ok s' → P (pre ++ l) s').
  { induction l as [|a l IH]; intros pre s0 HP Hf; cbn in Hf.
    - simplify_outcome. by rewrite app_nil_r.
    - simplify_outcome. rewrite cons_middle, app_assoc. eapply IH; [|done]. by eapply Hstep. }
  by apply (Hgen []).
Qed.

(** ** Machine integers

    An unsigned [w]-bit integer is a [Z] in [0, 2^w).  Arithmetic is that of the
    dev and test profiles, where overflow panics; an [as] cast truncates. *)

Definition in_u (w x : Z) : Prop := 0 ≤ x < 2 ^ w.
#[export] Instance in_u_dec w x : Decision (in_u w x).
Proof. unfold in_u. apply _. Defined.

Definition wrap (w x : Z) : Z := x mod 2 ^ w.

Definition uadd (w a b : Z) : outcome Z :=
  if a + b <? 2 ^ w then Ok (a + b) else Panic POverflow.

Definition usub (a b : Z) : outcome Z :=
  if b <=? a then Ok (a - b) else Panic POverflow.

Definition umul (w a b : Z) : outcome Z :=
  if a * b <? 2 ^ w then Ok (a * b) else Panic POverflow.

Definition udiv (a b : Z) : outcome Z :=
  if b =? 0 then Panic PDivZero else Ok (a / b).

Lemma uadd_Ok w a b c : uadd w a b = Ok c ↔ a + b < 2 ^ w ∧ c = a + b.
Proof. unfold uadd. destruct (Z.ltb_spec (a + b) (2 ^ w)); naive_solver lia. Qed.

Lemma usub_Ok a b c : usub a b = Ok c ↔ b ≤ a ∧ c = a - b.
Proof. unfold usub. destruct (Z.leb_spec b a); naive_solver lia. Qed.

Lemma umul_Ok w a b c : umul w a b = Ok c ↔ a * b < 2 ^ w ∧ c = a * b.
Proof. unfold umul. destruct (Z.ltb_spec (a * b) (2 ^ w)); naive_solver lia. Qed.

Lemma wrap_small w x : in_u w x → wrap w x = x.
Proof. apply Z.mod_small. Qed.

Lemma wrap_in_u w x : 0 ≤ w → in_u w (wrap w x).
Proof. intros. unfold in_u, wrap. apply Z.mod_pos_bound. by apply Z.pow_pos_nonneg. Qed.

(** ** Byte strings

    Bytes are [Z] in [0, 256); a buffer is a list of them. *)

Abbreviation byte_ok := (in_u 8).
Abbreviation bytes_ok := (Forall (in_u 8)).

Definition len {A} (l : list A) : Z := Z.of_nat (length l).
#[global] Arguments len {A} _ : simpl never.

Lemma len_nonneg {A} (l : list A) : 0 ≤ len l.
Proof. unfold len. lia. Qed.
Lemma len_app {A} (l k : list A) : len (l ++ k) = len l + len k.
Proof. unfold len. rewrite length_app. lia. Qed.
Lemma len_nil {A} : len (@nil A) = 0.
Proof. done. Qed.
Lemma len_cons {A} (a : A) l : len (a :: l) = 1 + len l.
Proof. unfold len. simpl. lia. Qed.
Lemma len_map {A B} (f : A → B) l : len (map f l) = len l.
Proof. unfold len. by rewrite length_map. Qed.
Lemma len_replicate {A} n (a : A) : len (replicate n a) = Z.of_nat n.
Proof. unfold len. by rewrite length_replicate. Qed.
Lemma len_0 {A} (l : list A) : len l = 0 ↔ l = [].
Proof. unfold len. destruct l; simpl; [done|]. split; [lia|done]. Qed.

(** [l[a..b]]: panics unless [a <= b <= len]. *)
Definition slice {A} (l : list A) (a b : Z) : outcome (list A) :=
  if (0 <=? a) && (a <=? b) && (b <=? len l)
  then Ok (take (Z.to_nat (b - a)) (drop (Z.to_nat a) l))
  else Panic PIndex.

(** [l[a..]] *)
Definition slice_from {A} (l : list A) (a : Z) : outcome (list A) := slice l a (len l).

Lemma slice_Ok {A} (l : list A) a b r :
  slice l a b = Ok r ↔
    (0 ≤ a ≤ b ∧ b ≤ len l) ∧ r = take (Z.to_nat (b - a)) (drop (Z.to_nat a) l).
Proof.
  unfold slice. destruct (Z.leb_spec 0 a), (Z.leb_spec a b), (Z.leb_spec b (len l));
    simpl; naive_solver lia.
Qed.

Lemma slice_len {A} (l : list A) a b r : slice l a b = Ok r → len r = b - a.
Proof.
  intros [Hb ->]%slice_Ok. unfold len in *. rewrite length_take, length_drop. lia.
Qed.

(** A slice of a concatenation that lands on the middle part. *)
Lemma slice_mid {A} (p m s : list A) a b :
  a = len p → b = len p + len m → slice (p ++ m ++ s) a b = Ok m.
Proof.
  intros -> ->. apply slice_Ok. pose proof (len_nonneg p). pose proof (len_nonneg m).
  pose proof (len_nonneg s). rewrite !len_app. split; [lia|].
  rewrite drop_app_length' by (unfold len; lia).
  by rewrite take_app_length' by (unfold len; lia).
Qed.

Lemma slice_prefix {A} (m s : list A) b : b = len m → slice (m ++ s) 0 b = Ok m.
Proof. intros ->. by apply (slice_mid []). Qed.

Lemma slice_suffix {A} (p m : list A) a b :
  a = len p → b = len p + len m → slice (p ++ m) a b = Ok m.
Proof. intros. rewrite <-(app_nil_r m) at 1. by apply slice_mid. Qed.

Lemma slice_full {A} (m : list A) b : b = len m → slice m 0 b = Ok m.
Proof. intros. rewrite <-(app_nil_r m) at 1. by apply slice_prefix. Qed.

(** Extending the buffer does not change a slice that was in range. *)
Lemma slice_app_l {A} (l k : list A) a b r :
  slice l a b = Ok r → slice (l ++ k) a b = Ok r.
Proof.
  intros [Hb ->]%slice_Ok. apply slice_Ok. pose proof (len_nonneg k).
  rewrite len_app. split; [lia|]. unfold len in *.
  rewrite drop_app_le by lia. rewrite take_app_le; [done|]. rewrite length_drop. lia.
Qed.

(** The [n] elements from position [offset] on, as far as they exist. *)
Definition sub_list {A} (l : list A) (offset n : Z) : list A :=
  take (Z.to_nat n) (drop (Z.to_nat offset) l).

Lemma sub_list_length {A} (l : list A) o n :
  0 ≤ o → 0 ≤ n → o + n ≤ len l → len (sub_list l o n) = n.
Proof. intros. unfold sub_list, len in *. rewrite length_take, length_drop. lia. Qed.

Lemma sub_list_app {A} (l : list A) o n m :
  0 ≤ o → 0 ≤ n → 0 ≤ m → sub_list l o n ++ sub_list l (o + n) m = sub_list l o (n + m).
Proof.
  intros. unfold sub_list. rewrite (Z2Nat.inj_add n m), (Z2Nat.inj_add o n) by lia.
  rewrite <-drop_drop, <-take_take_drop. done.
Qed.

Lemma sub_list_mid {A} (p m s : list A) o n :
  o = len p → n = len m → sub_list (p ++ m ++ s) o n = m.
Proof.
  intros -> ->. unfold sub_list, len. rewrite !Nat2Z.id.
  rewrite drop_app_length. by rewrite take_app_length.
Qed.

Lemma slice_sub_list {A} (l : list A) a b :
  0 ≤ a → a ≤ b → b ≤ len l → slice l a b = Ok (sub_list l a (b - a)).
Proof. intros. by apply slice_Ok. Qed.

(** Little-endian encoding: [to_le_bytes] and [from_le_bytes]. *)
Fixpoint le_bytes (n : nat) (x : Z) : list Z :=
  match n with
  | O => []
  | S n => x mod 256 :: le_bytes n (x / 256)
  end.

Fixpoint le_val (l : list Z) : Z :=
  match l with
  | [] => 0
  | b :: l => b + 256 * le_val l
  end.

Lemma le_bytes_length n x : length (le_bytes n x) = n.
Proof. revert x. induction n as [|n IH]; intros x; simpl; [done|]. by rewrite IH. Qed.

Lemma le_bytes_len n x : len (le_bytes n x) = Z.of_nat n.
Proof. unfold len. by rewrite le_bytes_length. Qed.

Lemma le_bytes_ok n x : bytes_ok (le_bytes n x).
Proof.
  revert x. induction n as [|n IH]; intros x; simpl; [constructor|].
  constructor; [|apply IH]. unfold in_u. apply Z.mod_pos_bound. lia.
Qed.

Lemma le_val_le_bytes_mod n x : le_val (le_bytes n x) = x mod 2 ^ (8 * Z.of_nat n).
Proof.
  revert x. induction n as [|n IH]; intros x; cbn [le_bytes le_val].
  - by rewrite Z.mod_1_r.
  - rewrite IH. replace (8 * Z.of_nat (S n)) with (8 + 8 * Z.of_nat n) by lia.
    rewrite Z.pow_add_r by lia. change (2 ^ 8) with 256.
    rewrite Z.rem_mul_r by (first [lia | apply Z.pow_pos_nonneg; lia]). lia.
Qed.

Lemma le_val_le_bytes n x : in_u (8 * Z.of_nat n) x → le_val (le_bytes n x) = x.
Proof. intros. rewrite le_val_le_bytes_mod. by apply Z.mod_small. Qed.

Lemma le_val_bound l : bytes_ok l → in_u (8 * len l) (le_val l).
Proof.
  induction 1 as [|b l Hb Hl IH]; simpl; [done|].
  rewrite len_cons. replace (8 * (1 + len l)) with (8 + 8 * len l) by lia.
  unfold in_u in *. pose proof (len_nonneg l).
  rewrite Z.pow_add_r by lia. change (2 ^ 8) with 256 in *. lia.
Qed.

Lemma le_bytes_le_val l : bytes_ok l → le_bytes (length l) (le_val l) = l.
Proof.
  induction 1 as [|b l Hb Hl IH]; cbn [le_bytes le_val length]; [done|].
  unfold in_u in Hb. change (2 ^ 8) with 256 in Hb. f_equal.
  - rewrite Z.mul_comm, Z.mod_add by lia. apply Z.mod_small. lia.
  - rewrite Z.mul_comm, Z.div_add by lia. by rewrite Z.div_small by lia.
Qed.

Lemma le_bytes_inj n x y :
  in_u (8 * Z.of_nat n) x → in_u (8 * Z.of_nat n) y → le_bytes n x = le_bytes n y → x = y.
Proof. intros Hx Hy He. rewrite <-(le_val_le_bytes n x), He by done. by apply le_val_le_bytes. Qed.

(** [bytes.split_to(at)]: the first [at] bytes and the rest; panics out of range. *)
Definition split_to {A} (l : list A) (at_ : Z) : outcome (list A * list A) :=
  if (0 <=? at_) && (at_ <=? len l)
  then Ok (take (Z.to_nat at_) l, drop (Z.to_nat at_) l)
  else Panic PIndex.

Lemma split_to_app {A} (p s : list A) n : n = len p → split_to (p ++ s) n = Ok (p, s).
Proof.
  intros ->. unfold split_to. pose proof (len_nonneg p). pose proof (len_nonneg s).
  rewrite (proj2 (Z.leb_le 0 _)), (proj2 (Z.leb_le _ (len (p ++ s))))
    by (rewrite ?len_app; lia).
  cbn [andb]. unfold len. rewrite Nat2Z.id, take_app_length, drop_app_length. done.
Qed.

(** [size.next_multiple_of(alignment) - size] (fff-core/src/util/bit_util.rs). *)
Definition next_multiple_of (size alignment : Z) : Z :=
  (size + alignment - 1) / alignment * alignment.
Definition padding_size (size alignment : Z) : Z := next_multiple_of size alignment - size.
Definition ceil (value divisor : Z) : Z := (value + divisor - 1) / divisor.

Lemma padding_size_bound size alignment :
  0 < alignment → 0 ≤ padding_size size alignment < alignment.
Proof.
  intros Ha. unfold padding_size, next_multiple_of.
  pose proof (Z_div_mod_eq_full (size + alignment - 1) alignment).
  pose proof (Z.mod_pos_bound (size + alignment - 1) alignment Ha). lia.
Qed.

Lemma padding_size_aligns size alignment :
  0 < alignment → (size + padding_size size alignment) mod alignment = 0.
Proof.
  intros Ha. unfold padding_size, next_multiple_of.
  replace (size + _) with ((size + alignment - 1) / alignment * alignment) by lia.
  apply Z.mod_mul. lia.
Qed.

(** *** The sum of a list of sizes *)
Definition zsum (l : list Z) : Z := foldr Z.add 0 l.
#[global] Arguments zsum _ : simpl never.

Lemma zsum_app l k : zsum (l ++ k) = zsum l + zsum k.
Proof. unfold zsum. induction l as [|a l IH]; simpl; lia. Qed.
Lemma zsum_cons a l : zsum (a :: l) = a + zsum l.
Proof. done. Qed.
Lemma zsum_nonneg l : Forall (λ n, 0 ≤ n) l → 0 ≤ zsum l.
Proof. induction 1 as [|n l Hn _ IH]; [done|]. rewrite zsum_cons. lia. Qed.

Lemma zsum_elem l n : Forall (λ n, 0 ≤ n) l → (∃ k, l !! k = Some n) → n ≤ zsum l.
Proof.
  intros Hl [k Hk]. rewrite <-(take_drop_middle l k n Hk), zsum_app, zsum_cons.
  pose proof (zsum_nonneg (take k l) (Forall_take _ _ _ Hl)).
  pose proof (zsum_nonneg (drop (S k) l) (Forall_drop _ _ _ Hl)). lia.
Qed.

(** ** Filters *)
Section Filters.
Context {A : Type} (P Q : A → Prop) `{!∀ x, Decision (P x)} `{!∀ x, Decision (Q x)}.

Lemma list_filter_iff_in (l : list A) :
  (∀ x, x ∈ l → P x ↔ Q x) → filter P l = filter Q l.
Proof.
  induction l as [|x l IH]; intros Hiff; [done|].
  assert (IHl : filter P l = filter Q l) by (apply IH; intros; apply Hiff; by right).
  destruct (decide (P x)) as [HP|HP].
  - rewrite !filter_cons_True; [by rewrite IHl| |done]. apply Hiff; [left|done].
  - rewrite !filter_cons_False; [done| |done]. rewrite <-Hiff; [done|left].
Qed.

Lemma list_filter_all (l : list A) : (∀ x, x ∈ l → P x) → filter P l = l.
Proof.
  induction l as [|x l IH]; intros Hall; [done|].
  rewrite filter_cons_True by (apply Hall; left). by rewrite IH by (intros; apply Hall; by right).
Qed.

Lemma list_filter_none (l : list A) : (∀ x, x ∈ l → ¬ P x) → filter P l = [].
Proof.
  induction l as [|x l IH]; intros Hall; [done|].
  rewrite filter_cons_False by (apply Hall; left). apply IH. intros y Hy. apply Hall. by right.
Qed.
End Filters.

(** ** Automation shared by the components *)
Create HintDb rust.
Create Rewrite HintDb rust_len.
#[export] Hint Resolve len_nonneg le_bytes_ok wrap_in_u : rust.
#[export] Hint Rewrite @len_app @len_nil @len_cons @len_map @len_replicate le_bytes_len
  zsum_app : rust_len.

(** Lengths of concatenations, then linear arithmetic. *)
Ltac solve_len :=
  autorewrite with rust_len in *;
  repeat match goal with
  | |- context [len ?l] =>
      lazymatch goal with
      | _ : 0 ≤ len l |- _ => fail
      | _ => pose proof (len_nonneg l)
      end
  end; lia.

Lemma index_Ok {A} (l : list A) i a :
  index l i = Ok a ↔ 0 ≤ i ∧ l !! Z.to_nat i = Some a.
Proof.
  unfold index. destruct (Z.ltb_spec i 0); [split; [done|lia]|].
  destruct (l !! Z.to_nat i); naive_solver.
Qed.

(** Indexing a list at the boundary of a concatenation. *)
Lemma index_app_here {A} (l : list A) a k i : i = len l → index (l ++ a :: k) i = Ok a.
Proof.
  intros ->. unfold index, len. destruct (Z.ltb_spec (Z.of_nat (length l)) 0); [lia|].
  rewrite Nat2Z.id, lookup_app_r by lia. by rewrite Nat.sub_diag.
Qed.

(** [for i in 0..n]: the loop indices. *)
Definition range (n : Z) : list Z := seqZ 0 n.

Lemma seqZ_sorted k n : StronglySorted Z.le (seqZ k n).
Proof.
  destruct (decide (0 ≤ n)) as [Hn|]; [|rewrite seqZ_nil by lia; constructor].
  revert k. pattern n. revert n Hn. apply natlike_ind; [intros k; constructor|].
  intros n Hn IH k. rewrite seqZ_cons by lia. rewrite Z.pred_succ. constructor; [apply IH|].
  apply Forall_forall. intros i Hi%elem_of_seqZ. lia.
Qed.

Lemma StronglySorted_map_inv {A B} (f : A → B) (R : relation A) (S : relation B) l :
  (∀ x y, S (f x) (f y) → R x y) → StronglySorted S (map f l) → StronglySorted R l.
Proof.
  intros HS. induction l as [|x l IH]; intros Hl; [constructor|]. inversion Hl as [|? ? Hs Hx]; subst.
  constructor; [by apply IH|]. apply (Forall_fmap f) in Hx.
  eapply Forall_impl; [exact Hx|]. intros y Hy. by apply HS.
Qed.

Lemma seqZ_app_len {A} d (l : list A) a (k : list A) :
  seqZ (d + len l) (len (a :: k)) = d + len l :: seqZ (d + len (l ++ [a])) (len k).
Proof.
  pose proof (len_nonneg k).
  rewrite seqZ_cons by (rewrite len_cons; lia).
  rewrite len_cons, len_app, len_cons, len_nil. f_equal. f_equal; lia.
Qed.

(** [x as i32] and friends: reinterpretation as a signed [w]-bit integer. *)
Definition as_signed (w x : Z) : Z :=
  let u := wrap w x in if u <? 2 ^ (w - 1) then u else u - 2 ^ w.

Lemma as_signed_small w x : 0 < w → 0 ≤ x < 2 ^ (w - 1) → as_signed w x = x.
Proof.
  intros Hw Hx. unfold as_signed.
  assert (2 ^ w = 2 * 2 ^ (w - 1)) by (rewrite <-Z.pow_succ_r by lia; f_equal; lia).
  rewrite wrap_small by (unfold in_u; lia).
  destruct (Z.ltb_spec x (2 ^ (w - 1))); lia.
Qed.

(** [chunks_exact(4)]: the remainder is dropped. *)
Fixpoint chunks4 (l : list Z) : list (list Z) :=
  match l with
  | a :: b :: c :: d :: l => [a; b; c; d] :: chunks4 l
  | _ => []
  end.

Lemma chunks4_concat (f : Z → list Z) l :
  (∀ x, length (f x) = 4%nat) → chunks4 (concat (map f l)) = map f l.
Proof.
  intros Hf. induction l as [|x l IH]; simpl; [done|].
  specialize (Hf x). destruct (f x) as [|a [|b [|c [|d [|]]]]]; simplify_eq/=.
  by rewrite IH.
Qed.

Lemma chunks4_le_val l :
  Forall (in_u 32) l → map le_val (chunks4 (concat (map (le_bytes 4) l))) = l.
Proof.
  intros Hl. rewrite chunks4_concat by (intros; apply le_bytes_length). rewrite map_map.
  induction Hl as [|x l Hx _ IH]; cbn [map]; [done|]. by rewrite IH, le_val_le_bytes.
Qed.

Lemma len_concat_const {A B} (f : A → list B) l n :
  (∀ x, len (f x) = n) → len (concat (map f l)) = n * len l.
Proof.
  intros Hf. induction l as [|x l IH]; simpl; [unfold len; simpl; lia|].
  rewrite len_app, len_cons, IH, Hf. lia.
Qed.

(** ** Where a file holds some bytes *)

(** [file[off .. off + size]] is [bytes]. *)
Definition located (file bytes : list Z) (off size : Z) : Prop :=
  ∃ p s, file = p ++ bytes ++ s ∧ off = len p ∧ size = len bytes.

Lemma located_app file bytes off size more :
  located file bytes off size → located (file ++ more) bytes off size.
Proof.
  intros (p & s & -> & -> & ->). exists p, (s ++ more). by rewrite <-!app_assoc.
Qed.

Lemma located_here p bytes : located (p ++ bytes) bytes (len p) (len bytes).
Proof. exists p, []. by rewrite app_nil_r. Qed.

Lemma located_slice file bytes off size :
  located file bytes off size → slice file off (off + size) = Ok bytes.
Proof. intros (p & s & -> & -> & ->). by apply slice_mid. Qed.

Lemma located_bounds file bytes off size :
  located file bytes off size → 0 ≤ off ∧ 0 ≤ size ∧ off + size ≤ len file.
Proof.
  intros (p & s & -> & -> & ->). rewrite !len_app.
  pose proof (len_nonneg p). pose proof (len_nonneg bytes). pose proof (len_nonneg s). lia.
Qed.

(** A range inside a located range. *)
Lemma located_sub file b1 b2 b3 off size :
  located file (b1 ++ b2 ++ b3) off size → located file b2 (off + len b1) (len b2).
Proof.
  intros (p & s & -> & -> & ->). exists (p ++ b1), (b3 ++ s).
  rewrite <-!app_assoc. split; [done|]. split; [by rewrite len_app|done].
Qed.
