(* ===== verification/Kwargs.v ===== *)
(** * fff-ude: the keyword arguments handed to a decoder

    [kwargs_serialize] and [kwargs_deserialize] of fff-ude/src/kwargs.rs, with
    the width of [usize] left open (the reader runs inside a wasm32 guest, the
    writer on the host).  The round-trip theorem is the contract between the
    two sides. *)

From S2P Require Import Prelude.

Section Kwargs.
(** The width of [usize] on the side that runs. *)
Context (usize : Z).

(** [x as i32], then [to_le_bytes]. *)
Definition i32_to_le_bytes (x : Z) : list Z := le_bytes 4 x.
Definition i32_from_le_bytes (l : list Z) : Z := as_signed 32 (le_val l).

Definition kwargs_serialize (kwargs : list (list Z * list Z)) : list Z :=
  let num_keys := as_signed 32 (len kwargs) in
  let key_lens := map (λ kw, as_signed 32 (len kw.1)) kwargs in
  let word_lens := map (λ kw, as_signed 32 (len kw.2)) kwargs in
  i32_to_le_bytes num_keys
    ++ concat (map i32_to_le_bytes key_lens)
    ++ concat (map i32_to_le_bytes word_lens)
    ++ concat (map (λ kw, kw.1 ++ kw.2) kwargs).

(** One iteration of the loop that cuts the keys and the words; the state is
    [data_offset] and [result]. *)
Definition kwargs_step (bytes : list Z) (key_lens word_lens : list Z)
    (st : Z * gmap (list Z) (list Z)) (i : Z)
    : outcome (Z * gmap (list Z) (list Z)) :=
  let '(data_offset, result) := st in
  let! key_len := index key_lens i in
  let! word_len := index word_lens i in
  let! key_end := uadd usize data_offset (wrap usize key_len) in
  let! key := slice bytes data_offset key_end in
  let! word_end := uadd usize key_end (wrap usize word_len) in
  let! word := slice bytes key_end word_end in
  Ok (word_end, <[key := word]> result).

Definition kwargs_deserialize (bytes : list Z) : outcome (gmap (list Z) (list Z)) :=
  let! num := slice bytes 0 4 in
  let num_keys := wrap usize (i32_from_le_bytes num) in
  let! size := umul usize num_keys 4 in
  let! key_lens_end := uadd usize 4 size in
  let! key_bytes := slice bytes 4 key_lens_end in
  let key_lens := map i32_from_le_bytes (chunks4 key_bytes) in
  let! word_lens_end := uadd usize key_lens_end size in
  let! word_bytes := slice bytes key_lens_end word_lens_end in
  let word_lens := map i32_from_le_bytes (chunks4 word_bytes) in
  let! '(_, result) :=
    fold_m (kwargs_step bytes key_lens word_lens) (word_lens_end, ∅) (range num_keys) in
  Ok result.
End Kwargs.

(** The map a caller means by a list of pairs: a later pair wins. *)
Definition kwargs_map (kwargs : list (list Z * list Z)) : gmap (list Z) (list Z) :=
  foldl (λ m kw, <[kw.1 := kw.2]> m) ∅ kwargs.

(** The sizes the format can express. *)
Record kwargs_fit (usize : Z) (kwargs : list (list Z * list Z)) : Prop := {
  fit_count : len kwargs < 2 ^ 31;
  fit_items : Forall (λ kw, len kw.1 < 2 ^ 31 ∧ len kw.2 < 2 ^ 31) kwargs;
  fit_total : len (kwargs_serialize kwargs) < 2 ^ usize;
}.

(** ** Lemmas *)

Lemma i32_le_roundtrip x :
  0 ≤ x < 2 ^ 31 → i32_from_le_bytes (i32_to_le_bytes (as_signed 32 x)) = x.
Proof.
  intros Hx. unfold i32_from_le_bytes, i32_to_le_bytes.
  rewrite (as_signed_small 32 x) by lia.
  rewrite le_val_le_bytes by (unfold in_u; simpl in *; lia).
  by apply as_signed_small.
Qed.

Lemma decoded_lens (f : list Z * list Z → list Z) kwargs :
  Forall (λ kw, len (f kw) < 2 ^ 31) kwargs →
  map i32_from_le_bytes
    (chunks4 (concat (map i32_to_le_bytes (map (λ kw, as_signed 32 (len (f kw))) kwargs))))
  = map (λ kw, len (f kw)) kwargs.
Proof.
  intros Hf. rewrite chunks4_concat by (intros; apply le_bytes_length).
  rewrite !map_map. induction Hf as [|kw l Hkw _ IH]; simpl; [done|].
  rewrite IH, i32_le_roundtrip; [done|]. pose proof (len_nonneg (f kw)). lia.
Qed.

Lemma index_map_app {A B} (f : A → B) l a k :
  index (map f (l ++ a :: k)) (len l) = Ok (f a).
Proof. rewrite map_app. apply index_app_here. by rewrite len_map. Qed.

Abbreviation payload := (λ kws, concat (map (λ kw : list Z * list Z, kw.1 ++ kw.2) kws)).

(** The loop, started after the pairs [before], inserts the pairs [after]. *)
Lemma kwargs_loop usize hdr before after m :
  32 ≤ usize →
  Forall (λ kw, len kw.1 < 2 ^ 31 ∧ len kw.2 < 2 ^ 31) (before ++ after) →
  len (hdr ++ payload (before ++ after)) < 2 ^ usize →
  fold_m (kwargs_step usize (hdr ++ payload (before ++ after))
            (map (λ kw, len kw.1) (before ++ after)) (map (λ kw, len kw.2) (before ++ after)))
    (len (hdr ++ payload before), m) (seqZ (0 + len before) (len after))
  = Ok (len (hdr ++ payload (before ++ after)),
        foldl (λ m kw, <[kw.1 := kw.2]> m) m after).
Proof.
  intros Hus Hfit Htot. revert before m Hfit Htot.
  induction after as [|[k w] after IH]; intros before m Hfit Htot.
  { simpl. by rewrite app_nil_r. }
  rewrite (seqZ_app_len 0 before). cbn [fold_m]. rewrite Z.add_0_l. unfold kwargs_step at 1.
  rewrite !index_map_app. cbn [obind fst snd].
  assert (Hkw : len k < 2 ^ 31 ∧ len w < 2 ^ 31)
    by (apply Forall_app in Hfit as [_ Hfit]; by inversion Hfit).
  assert (2 ^ 31 < 2 ^ usize) by (apply Z.pow_lt_mono_r; lia).
  rewrite !wrap_small by (unfold in_u; split; [apply len_nonneg|lia]).
  assert (Hbytes : hdr ++ payload (before ++ (k, w) :: after)
                   = (hdr ++ payload before) ++ k ++ w ++ payload after).
  { rewrite map_app, concat_app. cbn [map concat fst snd]. by rewrite <-!app_assoc. }
  pose proof (len_nonneg (payload after)). pose proof (len_nonneg w).
  rewrite Hbytes in *. set (pre := hdr ++ payload before) in *.
  rewrite !len_app in Htot.
  unfold uadd at 1. rewrite (proj2 (Z.ltb_lt _ _)) by lia. cbn [obind].
  rewrite slice_mid by done. cbn [obind].
  unfold uadd at 1. rewrite (proj2 (Z.ltb_lt _ _)) by lia. cbn [obind].
  rewrite (app_assoc pre k), slice_mid by (by rewrite ?len_app). cbn [obind foldl fst snd].
  specialize (IH (before ++ [(k, w)]) (<[k:=w]> m)).
  rewrite <-(app_assoc before) in IH. cbn [app] in IH. rewrite Hbytes in IH.
  replace (len (hdr ++ payload (before ++ [(k, w)]))) with (len pre + len k + len w) in IH.
  - rewrite <-!app_assoc, IH; [done|done|]. rewrite !len_app. lia.
  - unfold pre. rewrite map_app, concat_app. cbn. rewrite app_nil_r, !len_app. lia.
Qed.

(** ** The contract *)

(** What [kwargs_serialize] wrote is read back. *)
Lemma kwargs_back usize kwargs :
  32 ≤ usize → kwargs_fit usize kwargs →
  kwargs_deserialize usize (kwargs_serialize kwargs) = Ok (kwargs_map kwargs).
Proof.
  intros Hus [Hcount Hitems Htotal]. unfold kwargs_deserialize.
  assert (2 ^ 31 < 2 ^ usize) by (apply Z.pow_lt_mono_r; lia).
  set (n := i32_to_le_bytes (as_signed 32 (len kwargs))).
  set (ks := concat (map i32_to_le_bytes (map (λ kw, as_signed 32 (len kw.1)) kwargs))).
  set (ws := concat (map i32_to_le_bytes (map (λ kw, as_signed 32 (len kw.2)) kwargs))).
  change (kwargs_serialize kwargs) with (n ++ ks ++ ws ++ payload kwargs) in *.
  assert (Hn : len n = 4) by apply le_bytes_len.
  assert (Hks : len ks = 4 * len kwargs)
    by (unfold ks; rewrite (len_concat_const _ _ 4), len_map by (intros; apply le_bytes_len); lia).
  assert (Hws : len ws = 4 * len kwargs)
    by (unfold ws; rewrite (len_concat_const _ _ 4), len_map by (intros; apply le_bytes_len); lia).
  rewrite !len_app, Hn, Hks, Hws in Htotal.
  pose proof (len_nonneg kwargs). pose proof (len_nonneg (payload kwargs)).
  rewrite slice_prefix by done. cbn [obind].
  replace (i32_from_le_bytes n) with (len kwargs) by (symmetry; apply i32_le_roundtrip; lia).
  rewrite wrap_small by (unfold in_u; lia).
  unfold umul. rewrite (proj2 (Z.ltb_lt _ _)) by lia. cbn [obind].
  unfold uadd at 1. rewrite (proj2 (Z.ltb_lt _ _)) by lia. cbn [obind].
  rewrite slice_mid by lia. cbn [obind].
  unfold uadd at 1. rewrite (proj2 (Z.ltb_lt _ _)) by lia. cbn [obind].
  rewrite (app_assoc n ks), slice_mid by (rewrite len_app; lia). cbn [obind].
  replace (map i32_from_le_bytes (chunks4 ks)) with (map (λ kw, len kw.1) kwargs)
    by (symmetry; apply (decoded_lens fst); eapply Forall_impl; [exact Hitems|]; by intros ? []).
  replace (map i32_from_le_bytes (chunks4 ws)) with (map (λ kw, len kw.2) kwargs)
    by (symmetry; apply (decoded_lens snd); eapply Forall_impl; [exact Hitems|]; by intros ? []).
  pose proof (kwargs_loop usize (n ++ ks ++ ws) [] kwargs ∅ Hus Hitems) as Hl.
  cbn [app map concat] in Hl. rewrite app_nil_r, <-!app_assoc, Z.add_0_l, (len_nil (A:=list Z * list Z)) in Hl.
  rewrite <-app_assoc. unfold range.
  replace (4 + len kwargs * 4 + len kwargs * 4) with (len (n ++ ks ++ ws))
    by (rewrite !len_app; lia).
  rewrite Hl by (rewrite !len_app; lia). done.
Qed.

(** C37: reading back what [kwargs_serialize] wrote gives, for sizes the [i32] and
    [usize] fields can hold, exactly the map of the pairs (the last of several
    pairs with one key wins), with no panic. *)
Theorem kwargs_roundtrip usize kwargs :
  32 ≤ usize → kwargs_fit usize kwargs →
  kwargs_deserialize usize (kwargs_serialize kwargs) = Ok (kwargs_map kwargs).
Proof. apply kwargs_back. Qed.

Lemma kwargs_roundtrip_witness :
  kwargs_deserialize 32 (kwargs_serialize [([1], [2; 3]); ([4; 5], []); ([1], [9])])
  = Ok (kwargs_map [([1], [2; 3]); ([4; 5], []); ([1], [9])]).
Proof.
  apply (kwargs_roundtrip 32); [lia|].
  split; [by vm_compute|repeat constructor; by vm_compute|by vm_compute].
Defined.
