(* ===== verification/Selection.v ===== *)
(** * fff-poc/src/reader: which rows of which row group a selection asks for

    [Selection] is fff-poc/src/reader/selection.rs; [process_selection] is the
    function of that name in fff-poc/src/reader/mod.rs.  The metadata of a row
    group is any type with a [row_count]. *)

From S2P Require Import Prelude.

(** [enum Selection] *)
Inductive Selection :=
  | All
  | RowIndexes (row_indexes : list Z).

Definition Selection_new (indices : list Z) : Selection := RowIndexes indices.

(** The first [while] loop: drop the indexes below the group.  The position in
    [sorted_indexes] is kept as the suffix that starts there. *)
Fixpoint skip_below (start_row : Z) (rest : list Z) : list Z :=
  match rest with
  | i :: rest' => if i <? start_row then skip_below start_row rest' else rest
  | [] => []
  end.

(** The second [while] loop: the rebased indexes of the group, and the suffix it
    stops at. *)
Fixpoint collect_group (start_row end_row : Z) (rest : list Z)
  : outcome (list Z * list Z) :=
  match rest with
  | i :: rest' =>
      if i <? end_row then
        let! i' := usub i start_row in
        let! '(group_indexes, rest'') := collect_group start_row end_row rest' in
        Ok (i' :: group_indexes, rest'')
      else Ok ([], rest)
  | [] => Ok ([], [])
  end.

Section ProcessSelection.
Context {M : Type} (row_count : M → Z).

(** The [for] loop over the row groups. *)
Fixpoint process_groups (cumulative_row_count : Z) (rest : list Z) (grouped_metadata : list M)
  : outcome (list (M * Selection)) :=
  match grouped_metadata with
  | [] => Ok []
  | metadata :: grouped_metadata =>
      let start_row := cumulative_row_count in
      let! end_row := uadd 64 start_row (row_count metadata) in
      let rest := skip_below start_row rest in
      let! '(group_indexes, rest) := collect_group start_row end_row rest in
      let this := match group_indexes with
                  | [] => []
                  | _ => [(metadata, RowIndexes group_indexes)]
                  end in
      match rest with
      | [] => Ok this
      | _ => let! others := process_groups end_row rest grouped_metadata in
             Ok (this ++ others)
      end
  end.

Definition process_selection (selection : Selection) (grouped_metadata : list M)
  : outcome (list (M * Selection)) :=
  match selection with
  | All => Ok (map (λ metadata, (metadata, All)) grouped_metadata)
  | RowIndexes row_indexes =>
      match row_indexes with
      | [] => Ok []
      | _ => process_groups 0 (merge_sort Z.le row_indexes) grouped_metadata
      end
  end.

(** ** What a selection means

    [rows_of] is the content of a row group.  Reading with a selection takes
    the rows at the selected positions, in the order of the selection. *)
Section Meaning.
Context {A : Type} (rows_of : M → list A).

Definition take_rows (sel : Selection) (rows : list A) : list A :=
  match sel with
  | All => rows
  | RowIndexes idx => omap (λ i, rows !! Z.to_nat i) idx
  end.

Definition read_selected (groups : list (M * Selection)) : list A :=
  concat (map (λ ms, take_rows ms.2 (rows_of ms.1)) groups).

(** The whole table, and the selection applied to it in ascending order. *)
Definition table_rows (ms : list M) : list A := concat (map rows_of ms).

Definition select_table (sel : Selection) (ms : list M) : list A :=
  match sel with
  | All => table_rows ms
  | RowIndexes idx => omap (λ i, table_rows ms !! Z.to_nat i) (merge_sort Z.le idx)
  end.
End Meaning.
End ProcessSelection.

(** ** Lemmas *)

Lemma skip_below_id start rest :
  Forall (λ i, start ≤ i) rest → skip_below start rest = rest.
Proof.
  destruct 1 as [|i rest Hi _]; simpl; [done|].
  destruct (Z.ltb_spec i start); [lia|done].
Qed.

(** The group loop splits a sorted suffix at [end_row]. *)
Lemma collect_group_spec start end_row rest :
  StronglySorted Z.le rest → Forall (λ i, start ≤ i) rest →
  ∃ g rest', collect_group start end_row rest = Ok (map (λ i, i - start) g, rest') ∧
    rest = g ++ rest' ∧ Forall (λ i, start ≤ i < end_row) g ∧ Forall (λ i, end_row ≤ i) rest'.
Proof.
  induction 1 as [|i rest Hs IH Hi]; intros Hst; simpl.
  { by exists [], []. }
  inversion_clear Hst as [|?? Hst1 Hst2].
  destruct (Z.ltb_spec i end_row) as [Hlt|Hge].
  - destruct (IH Hst2) as (g & rest' & Hc & -> & Hg & Hr).
    exists (i :: g), rest'. unfold usub. rewrite (proj2 (Z.leb_le _ _)) by done.
    simpl. rewrite Hc. simpl. repeat split; [by constructor; [lia|]|done].
  - exists [], (i :: rest). repeat split; [done|].
    constructor; [done|]. eapply Forall_impl; [exact Hi|]. simpl. lia.
Qed.

Lemma StronglySorted_app_r {A} (R : relation A) l k :
  StronglySorted R (l ++ k) → StronglySorted R k.
Proof. induction l as [|a l IH]; simpl; [done|]. inversion 1; auto. Qed.

(** Rows of the first group, and of the groups after it. *)
Lemma omap_rows_group {A} (rows others : list A) start g :
  0 ≤ start → Forall (λ i, start ≤ i < start + len rows) g →
  omap (λ i, (rows ++ others) !! Z.to_nat (i - start)) g
  = omap (λ i, rows !! Z.to_nat i) (map (λ i, i - start) g).
Proof.
  intros Hs Hg. induction Hg as [|i g Hi Hg IH]; csimpl; [done|].
  rewrite lookup_app_l by (unfold len in *; lia). by rewrite IH.
Qed.

Lemma omap_rows_after {A} (rows others : list A) start g :
  0 ≤ start → Forall (λ i, start + len rows ≤ i) g →
  omap (λ i, (rows ++ others) !! Z.to_nat (i - start)) g
  = omap (λ i, others !! Z.to_nat (i - (start + len rows))) g.
Proof.
  intros Hs Hg. induction Hg as [|i g Hi Hg IH]; csimpl; [done|].
  rewrite lookup_app_r by (unfold len in *; lia).
  replace (Z.to_nat (i - start) - length rows)%nat
    with (Z.to_nat (i - (start + len rows))) by (unfold len in *; lia).
  by rewrite IH.
Qed.

Lemma omap_lookup_nil {A B} (f : B → nat) (l : list B) :
  omap (λ i, @nil A !! f i) l = [].
Proof. induction l as [|i l IH]; csimpl; [done|]. by rewrite IH. Qed.

Lemma process_groups_meaning {M A} (row_count : M → Z) (rows_of : M → list A) ms start rest :
  (∀ m, m ∈ ms → row_count m = len (rows_of m)) →
  0 ≤ start → start + zsum (map row_count ms) < 2 ^ 64 →
  StronglySorted Z.le rest → Forall (λ i, start ≤ i) rest →
  ∃ groups, process_groups row_count start rest ms = Ok groups ∧
    read_selected rows_of groups
    = omap (λ i, table_rows rows_of ms !! Z.to_nat (i - start)) rest ∧
    Forall (λ ms, ms.2 ≠ RowIndexes []) groups.
Proof.
  intros Hrc. revert start rest. induction ms as [|m ms IH]; intros start rest Hst Htot Hs Hge.
  { exists []. repeat split; [|done]. symmetry. apply omap_lookup_nil. }
  specialize (IH (λ m Hm, Hrc m (list_elem_of_further _ _ _ Hm))).
  pose proof (Hrc m (list_elem_of_here _ _)) as Hm.
  assert (Hrc' : ∀ m', m' ∈ m :: ms → 0 ≤ row_count m')
    by (intros m' Hm'; rewrite (Hrc m' Hm'); apply len_nonneg).
  assert (0 ≤ zsum (map row_count ms)).
  { apply zsum_nonneg, Forall_map, Forall_forall. intros m' Hm'. apply Hrc'. by right. }
  pose proof (len_nonneg (rows_of m)).
  simpl in Htot. rewrite zsum_cons in Htot. simpl. rewrite <-Hm in *.
  unfold uadd. rewrite (proj2 (Z.ltb_lt _ _)) by lia. simpl.
  rewrite skip_below_id by done.
  destruct (collect_group_spec start (start + row_count m) rest Hs Hge)
    as (g & rest' & -> & -> & Hg & Hr). simpl.
  apply StronglySorted_app_r in Hs.
  assert (Hthis : read_selected rows_of
      match map (λ i, i - start) g with
      | [] => [] | _ => [(m, RowIndexes (map (λ i, i - start) g))] end
    = omap (λ i, (rows_of m ++ table_rows rows_of ms) !! Z.to_nat (i - start)) g).
  { rewrite omap_rows_group by (by rewrite <-?Hm).
    unfold read_selected. destruct g; simpl; [done|]. by rewrite app_nil_r. }
  assert (Hne : Forall (λ ms, ms.2 ≠ RowIndexes [])
      match map (λ i, i - start) g with
      | [] => [] | _ => [(m, RowIndexes (map (λ i, i - start) g))] end).
  { destruct g; simpl; [done|]. by constructor. }
  change (table_rows rows_of (m :: ms)) with (rows_of m ++ table_rows rows_of ms).
  destruct (IH (start + row_count m) rest') as (others & Hothers & Hread & Hno);
    [lia|lia|done|done|].
  assert (Hmatch : (match map (λ i, i - start) g with
      | [] => [] | _ :: _ => [(m, RowIndexes (map (λ i, i - start) g))] end)
      = match map (λ i, i - start) g with
      | [] => [] | _ => [(m, RowIndexes (map (λ i, i - start) g))] end) by by destruct g.
  destruct rest' as [|i rest'].
  - eexists. split; [reflexivity|]. split; [|done]. rewrite app_nil_r. apply Hthis.
  - rewrite Hothers. simpl. eexists. split; [reflexivity|]. split.
    + unfold read_selected in *. rewrite map_app, concat_app, Hthis, Hread.
      rewrite omap_app. f_equal. symmetry. rewrite Hm.
      apply omap_rows_after; [done|]. by rewrite <-Hm.
    + by apply Forall_app.
Qed.

Lemma merge_sort_Z_sorted l : StronglySorted Z.le (merge_sort Z.le l).
Proof. apply (StronglySorted_merge_sort _). Qed.

(** ** The contract *)

(** C11: reading every row group with the selection [process_selection] gives it
    returns exactly the selected rows of the whole table, in ascending order of
    their position: the per-group rebasing loses, repeats or misplaces no row, an
    index past the end selects nothing, and no group is visited for nothing. *)
Theorem process_selection_correct {M A} (row_count : M → Z) (rows_of : M → list A) sel ms :
  (∀ m, m ∈ ms → row_count m = len (rows_of m)) →
  zsum (map row_count ms) < 2 ^ 64 →
  (∀ idx, sel = RowIndexes idx → Forall (in_u 64) idx) →
  ∃ groups, process_selection row_count sel ms = Ok groups ∧
    read_selected rows_of groups = select_table rows_of sel ms ∧
    Forall (λ ms, ms.2 ≠ RowIndexes []) groups.
Proof.
  intros Hrc Htot Hidx. destruct sel as [|idx].
  { eexists. split; [done|]. unfold read_selected, select_table, table_rows.
    rewrite map_map. split; [done|]. apply Forall_map, Forall_true. by intros. }
  assert (Hpos : Forall (λ i, 0 ≤ i) (merge_sort Z.le idx)).
  { rewrite (merge_sort_Permutation Z.le idx).
    eapply Forall_impl; [by apply Hidx|]. unfold in_u. simpl. lia. }
  destruct (process_groups_meaning row_count rows_of ms 0 (merge_sort Z.le idx))
    as (groups & Hg & Hr & Hne); [done|done|lia|apply merge_sort_Z_sorted|done|].
  destruct idx as [|i idx].
  { by exists []. }
  exists groups. split; [done|]. split; [|done]. rewrite Hr. unfold select_table.
  clear. induction (merge_sort Z.le _) as [|j l IH]; csimpl; [done|].
  by rewrite IH, Z.sub_0_r.
Qed.

Lemma process_selection_correct_witness :
  ∃ groups,
    process_selection len (RowIndexes [5; 0; 3; 9]) [[10; 11]; [12; 13]; [14; 15; 16]] = Ok groups ∧
    read_selected id groups =
      select_table id (RowIndexes [5; 0; 3; 9]) [[10; 11]; [12; 13]; [14; 15; 16]] ∧ Forall (λ ms, ms.2 ≠ RowIndexes []) groups.
Proof.
  apply (process_selection_correct len id); [done|by vm_compute|].
  intros idx [= <-]. repeat constructor; by vm_compute.
Defined.
