(* ===== verification/Arrow.v ===== *)
(** * The Arrow data the program manipulates

    Arrow's [DataType], [Field], arrays and the two compute kernels the program
    relies on are third-party; this file states what the code observes of them.
    A non-nested array is the sequence of optional values that iterating it
    yields; a list array keeps its raw offsets next to the values they point
    into, because the encoders write those offsets; a struct array keeps its
    columns. *)

From S2P Require Import Prelude.

(** ** Types *)

Inductive TimeUnit := Second | Millisecond | Microsecond | Nanosecond.
#[export] Instance TimeUnit_eq_dec : EqDecision TimeUnit.
Proof. solve_decision. Defined.

Inductive IntervalUnit := YearMonth | DayTime | MonthDayNano.
#[export] Instance IntervalUnit_eq_dec : EqDecision IntervalUnit.
Proof. solve_decision. Defined.

Inductive DataType :=
  | Null | Boolean
  | Int8 | Int16 | Int32 | Int64
  | UInt8 | UInt16 | UInt32 | UInt64
  | Float16 | Float32 | Float64
  | Timestamp (unit : TimeUnit) (tz : option string)
  | Date32 | Date64
  | Time32 (unit : TimeUnit) | Time64 (unit : TimeUnit)
  | Duration (unit : TimeUnit)
  | Interval (unit : IntervalUnit)
  | Binary | FixedSizeBinary (size : Z) | LargeBinary | BinaryView
  | Utf8 | LargeUtf8 | Utf8View
  | List (child : Field) | ListView (child : Field)
  | FixedSizeList (child : Field) (size : Z)
  | LargeList (child : Field) | LargeListView (child : Field)
  | Struct (fields : list Field)
  | Union (fields : list Field)
  | DictionaryType (key value : DataType)
  | Decimal128 (precision scale : Z) | Decimal256 (precision scale : Z)
  | Map (entries : Field) (sorted : bool)
  | RunEndEncoded (run_ends values : Field)
with Field := mkField (name : string) (data_type : DataType) (nullable : bool).

Definition name (f : Field) : string := let '(mkField n _ _) := f in n.
Definition data_type (f : Field) : DataType := let '(mkField _ dt _) := f in dt.
Definition nullable (f : Field) : bool := let '(mkField _ _ b) := f in b.

(** Induction over a type, its fields and the lists of them. *)
Section DataTypeInd.
Context (P : DataType → Prop).

(** What the hypothesis of a node says about the fields below it. *)
Definition field_all (Q : DataType → Prop) (f : Field) : Prop := Q (data_type f).

Context (Hflat : ∀ dt, match dt with
    | List _ | ListView _ | FixedSizeList _ _ | LargeList _ | LargeListView _ | Struct _
    | Union _ | DictionaryType _ _ | Map _ _ | RunEndEncoded _ _ => True
    | _ => P dt
    end).
Context (HList : ∀ f, field_all P f → P (List f)).
Context (HListView : ∀ f, field_all P f → P (ListView f)).
Context (HFixed : ∀ f n, field_all P f → P (FixedSizeList f n)).
Context (HLarge : ∀ f, field_all P f → P (LargeList f)).
Context (HLargeView : ∀ f, field_all P f → P (LargeListView f)).
Context (HStruct : ∀ fs, Forall (field_all P) fs → P (Struct fs)).
Context (HUnion : ∀ fs, Forall (field_all P) fs → P (Union fs)).
Context (HDict : ∀ k v, P k → P v → P (DictionaryType k v)).
Context (HMap : ∀ f b, field_all P f → P (Map f b)).
Context (HRun : ∀ f g, field_all P f → field_all P g → P (RunEndEncoded f g)).

Fixpoint DataType_nested_ind (dt : DataType) : P dt :=
  let on_field (f : Field) : field_all P f :=
    match f with mkField _ dt _ => DataType_nested_ind dt end in
  let fix on_fields (fs : list Field) : Forall (field_all P) fs :=
    match fs with
    | [] => @List.Forall_nil _ _
    | f :: fs => @List.Forall_cons _ (field_all P) f fs (on_field f) (on_fields fs)
    end in
  match dt with
  | List f => HList f (on_field f)
  | ListView f => HListView f (on_field f)
  | FixedSizeList f n => HFixed f n (on_field f)
  | LargeList f => HLarge f (on_field f)
  | LargeListView f => HLargeView f (on_field f)
  | Struct fs => HStruct fs (on_fields fs)
  | Union fs => HUnion fs (on_fields fs)
  | DictionaryType k v => HDict k v (DataType_nested_ind k) (DataType_nested_ind v)
  | Map f b => HMap f b (on_field f)
  | RunEndEncoded f g => HRun f g (on_field f) (on_field g)
  | dt => Hflat dt
  end.
End DataTypeInd.

(** Equality of types is decidable: [PartialEq for DataType]. *)
Fixpoint DataType_dec (a b : DataType) {struct a} : {a = b} + {a ≠ b}
with Field_dec (f g : Field) {struct f} : {f = g} + {f ≠ g}.
Proof.
  - assert (Hfs : ∀ fs gs : list Field, {fs = gs} + {fs ≠ gs}).
    { fix go 1. intros [|f fs] [|g gs]; [by left|by right|by right|].
      destruct (Field_dec f g) as [->|]; [|by right; congruence].
      destruct (go fs gs) as [->|]; [by left|by right; congruence]. }
    decide equality; try apply Field_dec; try apply Hfs; try apply DataType_dec;
      try (apply decide; apply _).
  - decide equality; [apply decide; apply _|apply decide; apply _].
Defined.

#[export] Instance DataType_eq_dec : EqDecision DataType := DataType_dec.
#[export] Instance Field_eq_dec : EqDecision Field := Field_dec.

(** [non_nest_types!] of fff-core/src/macros.rs. *)
Definition non_nest_types (dt : DataType) : bool :=
  match dt with
  | Boolean | Date32 | Date64 | Decimal128 _ _ | Decimal256 _ _ | Duration _ | Float16 | Float32
  | Float64 | Int16 | Int32 | Int64 | Int8 | Interval _ | Time32 _ | Time64 _ | Timestamp _ _
  | UInt16 | UInt32 | UInt64 | UInt8 | Binary | LargeBinary | Utf8 | LargeUtf8 => true
  | _ => false
  end.

(** ** Values and arrays *)

(** One value of a non-nested array.  A float is its bit pattern, because the
    program compares floats by [to_bits]; a string or a binary value is its
    bytes. *)
Inductive value :=
  | VInt (x : Z)
  | VFloat (bits : Z)
  | VStr (bytes : string)
  | VBool (b : bool).

#[export] Instance value_eq_dec : EqDecision value.
Proof. solve_decision. Defined.

#[export] Program Instance value_countable : Countable value :=
  inj_countable'
    (λ v, match v with
          | VInt x => inl (inl x) | VFloat x => inl (inr x)
          | VStr s => inr (inl s) | VBool b => inr (inr b)
          end)
    (λ s, match s with
          | inl (inl x) => VInt x | inl (inr x) => VFloat x
          | inr (inl s) => VStr s | inr (inr b) => VBool b
          end) _.
Next Obligation. by intros []. Qed.

Inductive Array :=
  | PrimArray (dt : DataType) (vals : list (option value))
  | ListArray (large : bool) (child : Field) (offsets : list Z) (values : Array)
      (nulls : option (list bool))
  | StructArray (fields : list Field) (columns : list Array) (nulls : option (list bool))
      (rows : Z).

Definition arr_data_type (a : Array) : DataType :=
  match a with
  | PrimArray dt _ => dt
  | ListArray false child _ _ _ => List child
  | ListArray true child _ _ _ => LargeList child
  | StructArray fields _ _ _ => Struct fields
  end.

Definition arr_len (a : Array) : Z :=
  match a with
  | PrimArray _ vals => len vals
  | ListArray _ _ offsets _ _ => len offsets - 1
  | StructArray _ _ _ rows => rows
  end.

(** [Array::slice]: a list array keeps its values and shifts the window of its
    offsets; a struct array slices every column.  It panics out of range. *)
Fixpoint slice_array (a : Array) (offset n : Z) : Array :=
  match a with
  | PrimArray dt vals => PrimArray dt (sub_list vals offset n)
  | ListArray large child offsets values nulls =>
      ListArray large child (sub_list offsets offset (n + 1)) values
        (option_map (λ b, sub_list b offset n) nulls)
  | StructArray fields columns nulls rows =>
      StructArray fields (map (λ c, slice_array c offset n) columns)
        (option_map (λ b, sub_list b offset n) nulls) n
  end.

Definition arr_slice (a : Array) (offset n : Z) : outcome Array :=
  let! _ := assert ((0 <=? offset) && (0 <=? n) && (offset + n <=? arr_len a)) in
  Ok (slice_array a offset n).

(** The null values of an array come without a datum. *)
Definition arr_vals (a : Array) : option (list (option value)) :=
  match a with PrimArray _ vals => Some vals | _ => None end.

(** ** Looking a dictionary up

    [lookup_rows dict idx]: the rows an index column stands for. *)
Definition lookup_row (dict : list value) (i : option value) : option value :=
  match i with
  | Some (VInt i) => dict !! Z.to_nat i
  | _ => None
  end.

Definition lookup_rows (dict : list value) (idx : list (option value)) : list (option value) :=
  map (lookup_row dict) idx.

(** ** Data types as keys

    A [HashMap] keyed by [DataType] is a [gmap]: types are countable through
    their syntax trees. *)

Definition unit_code (u : TimeUnit) : Z :=
  match u with Second => 0 | Millisecond => 1 | Microsecond => 2 | Nanosecond => 3 end.
Definition interval_code (u : IntervalUnit) : Z :=
  match u with YearMonth => 0 | DayTime => 1 | MonthDayNano => 2 end.
Definition interval_of (z : Z) : IntervalUnit :=
  if z =? 0 then YearMonth else if z =? 1 then DayTime else MonthDayNano.
Definition unit_of (z : Z) : TimeUnit :=
  if z =? 0 then Second else if z =? 1 then Millisecond
  else if z =? 2 then Microsecond else Nanosecond.

Abbreviation tree := (gen_tree (string + Z)).
Definition leaf_z (z : Z) : tree := GenLeaf (inr z).
Definition leaf_s (s : string) : tree := GenLeaf (inl s).

Definition nullary : list DataType :=
  [Null; Boolean; Int8; Int16; Int32; Int64; UInt8; UInt16; UInt32; UInt64; Float16; Float32;
   Float64; Date32; Date64; Binary; LargeBinary; BinaryView; Utf8; LargeUtf8; Utf8View].

Definition nullary_code (dt : DataType) : Z :=
  match dt with
  | Null => 0 | Boolean => 1 | Int8 => 2 | Int16 => 3 | Int32 => 4 | Int64 => 5 | UInt8 => 6
  | UInt16 => 7 | UInt32 => 8 | UInt64 => 9 | Float16 => 10 | Float32 => 11 | Float64 => 12
  | Date32 => 13 | Date64 => 14 | Binary => 15 | LargeBinary => 16
  | BinaryView => 17 | Utf8 => 18 | LargeUtf8 => 19 | _ => 20
  end.

Fixpoint type_tree (dt : DataType) : tree :=
  match dt with
  | Timestamp u None => GenNode 1 [leaf_z (unit_code u)]
  | Timestamp u (Some tz) => GenNode 1 [leaf_z (unit_code u); leaf_s tz]
  | Time32 u => GenNode 2 [leaf_z (unit_code u)]
  | Time64 u => GenNode 3 [leaf_z (unit_code u)]
  | Duration u => GenNode 4 [leaf_z (unit_code u)]
  | Interval u => GenNode 19 [leaf_z (interval_code u)]
  | FixedSizeBinary n => GenNode 5 [leaf_z n]
  | List f => GenNode 6 [field_tree f]
  | ListView f => GenNode 7 [field_tree f]
  | FixedSizeList f n => GenNode 8 [field_tree f; leaf_z n]
  | LargeList f => GenNode 9 [field_tree f]
  | LargeListView f => GenNode 10 [field_tree f]
  | Struct fs => GenNode 11 (map field_tree fs)
  | Union fs => GenNode 12 (map field_tree fs)
  | DictionaryType k v => GenNode 13 [type_tree k; type_tree v]
  | Decimal128 p s => GenNode 14 [leaf_z p; leaf_z s]
  | Decimal256 p s => GenNode 15 [leaf_z p; leaf_z s]
  | Map f b => GenNode 16 [field_tree f; leaf_z (Z.b2z b)]
  | RunEndEncoded f g => GenNode 17 [field_tree f; field_tree g]
  | dt => GenNode 0 [leaf_z (nullary_code dt)]
  end
with field_tree (f : Field) : tree :=
  match f with mkField n dt b => GenNode 18 [leaf_s n; type_tree dt; leaf_z (Z.b2z b)] end.

Fixpoint tree_type (t : tree) : option DataType :=
  let field (t : tree) : option Field :=
    match t with
    | GenNode 18 [GenLeaf (inl n); t; GenLeaf (inr b)] =>
        dt ← tree_type t; Some (mkField n dt (b =? 1))
    | _ => None
    end in
  let fix fields (ts : list tree) : option (list Field) :=
    match ts with
    | [] => Some []
    | t :: ts => f ← field t; fs ← fields ts; Some (f :: fs)
    end in
  match t with
  | GenNode 0 [GenLeaf (inr z)] => nullary !! Z.to_nat z
  | GenNode 1 [GenLeaf (inr u)] => Some (Timestamp (unit_of u) None)
  | GenNode 1 [GenLeaf (inr u); GenLeaf (inl tz)] => Some (Timestamp (unit_of u) (Some tz))
  | GenNode 2 [GenLeaf (inr u)] => Some (Time32 (unit_of u))
  | GenNode 3 [GenLeaf (inr u)] => Some (Time64 (unit_of u))
  | GenNode 4 [GenLeaf (inr u)] => Some (Duration (unit_of u))
  | GenNode 19 [GenLeaf (inr u)] => Some (Interval (interval_of u))
  | GenNode 5 [GenLeaf (inr n)] => Some (FixedSizeBinary n)
  | GenNode 6 [t] => f ← field t; Some (List f)
  | GenNode 7 [t] => f ← field t; Some (ListView f)
  | GenNode 8 [t; GenLeaf (inr n)] => f ← field t; Some (FixedSizeList f n)
  | GenNode 9 [t] => f ← field t; Some (LargeList f)
  | GenNode 10 [t] => f ← field t; Some (LargeListView f)
  | GenNode 11 ts => fs ← fields ts; Some (Struct fs)
  | GenNode 12 ts => fs ← fields ts; Some (Union fs)
  | GenNode 13 [k; v] => k ← tree_type k; v ← tree_type v; Some (DictionaryType k v)
  | GenNode 14 [GenLeaf (inr p); GenLeaf (inr s)] => Some (Decimal128 p s)
  | GenNode 15 [GenLeaf (inr p); GenLeaf (inr s)] => Some (Decimal256 p s)
  | GenNode 16 [t; GenLeaf (inr b)] => f ← field t; Some (Map f (b =? 1))
  | GenNode 17 [t; u] => f ← field t; g ← field u; Some (RunEndEncoded f g)
  | _ => None
  end.

Lemma b2z_eqb b : (Z.b2z b =? 1) = b.
Proof. by destruct b. Qed.
Lemma interval_of_code u : interval_of (interval_code u) = u.
Proof. by destruct u. Qed.
Lemma unit_of_code u : unit_of (unit_code u) = u.
Proof. by destruct u. Qed.

Lemma tree_fields fs :
  Forall (field_all (λ dt, tree_type (type_tree dt) = Some dt)) fs →
  (fix fields (ts : list tree) : option (list Field) :=
     match ts with
     | [] => Some []
     | t :: ts => f ← match t with
           | GenNode 18 [GenLeaf (inl n); t; GenLeaf (inr b)] =>
               dt ← tree_type t; Some (mkField n dt (b =? 1))
           | _ => None
           end; fs ← fields ts; Some (f :: fs)
     end) (map field_tree fs) = Some fs.
Proof.
  induction 1 as [|[n dt b] fs Hf _ IH]; cbn; [done|]. cbn in Hf. rewrite Hf. cbn.
  rewrite IH. cbn. by rewrite b2z_eqb.
Qed.

Lemma tree_type_tree dt : tree_type (type_tree dt) = Some dt.
Proof.
  revert dt. apply (DataType_nested_ind (λ dt, tree_type (type_tree dt) = Some dt));
    try (first [intros [n dt b] IH; cbn in *; rewrite IH
               |intros [n dt b] k IH; cbn in *; rewrite IH]; cbn; by rewrite ?b2z_eqb).
  - intros dt. destruct dt; try done; cbn; rewrite ?unit_of_code, ?interval_of_code; try done.
    by destruct tz; cbn; rewrite unit_of_code.
  - intros fs Hfs. exact (f_equal (λ o, o ≫= λ fs, Some (Struct fs)) (tree_fields fs Hfs)).
  - intros fs Hfs. exact (f_equal (λ o, o ≫= λ fs, Some (Union fs)) (tree_fields fs Hfs)).
  - intros k v IHk IHv. cbn. by rewrite IHk, IHv.
  - intros [n dt b] [n' dt' b'] IHf IHg. cbn in *. rewrite IHf. cbn. rewrite IHg. cbn.
    by rewrite !b2z_eqb.
Qed.

#[export] Instance DataType_countable : Countable DataType :=
  inj_countable type_tree tree_type tree_type_tree.

#[export] Program Instance Field_countable : Countable Field :=
  inj_countable' (λ f, (name f, data_type f, nullable f)) (λ '(n, dt, b), mkField n dt b) _.
Next Obligation. by intros []. Qed.
