(* ===== verification/Common.v ===== *)
(** * Parts shared by the writer and the reader

    fff-poc/src/common (column numbering, checksums), fff-poc/src/compression,
    fff-poc/src/counter.rs, and the [Reader] trait of fff-poc/src/io/reader.rs.
    XxHash, LZ4 and Zstd are third-party: classes with the laws they document. *)

From S2P Require Import Prelude.

(** ** ColumnIndexSequence: numbering the physical columns *)

Record ColumnIndexSequence := mkColumnIndex { current_index : Z }.

Definition ColumnIndexSequence_default : ColumnIndexSequence := mkColumnIndex 0.
Definition new_start_from (start : Z) : ColumnIndexSequence := mkColumnIndex start.

Definition next_column_index (s : ColumnIndexSequence) : outcome (Z * ColumnIndexSequence) :=
  let! next := uadd 32 (current_index s) 1 in
  Ok (current_index s, mkColumnIndex next).

Definition get_current_index (s : ColumnIndexSequence) : Z := current_index s.

(** ** Checksums *)

Inductive ChecksumType := XxHash.

(** [From<u8>]: panics on anything but 0. *)
Definition ChecksumType_from (v : Z) : outcome ChecksumType :=
  if v =? 0 then Ok XxHash else Panic PTodo.
Definition ChecksumType_as_u8 (t : ChecksumType) : Z := match t with XxHash => 0 end.

(** [trait Checksum], over the streaming state of xxh64. *)
Class Checksum := {
  checksum_state : Type;
  create_checksum : ChecksumType → checksum_state;
  update : checksum_state → list Z → checksum_state;
  finalize : checksum_state → Z;
}.

(** The hash depends on the bytes only, not on how they were cut into updates
    (what the unit test of common/checksum.rs checks on one input), and is a
    64-bit value. *)
Class ChecksumLaws `{Checksum} := {
  update_split t chunks :
    finalize (foldl update (create_checksum t) chunks)
    = finalize (update (create_checksum t) (concat chunks));
  finalize_u64 s : in_u 64 (finalize s);
}.

Definition reset `{Checksum} (s : checksum_state) : checksum_state := create_checksum XxHash.

(** The checksum of a whole buffer. *)
Definition checksum_of `{Checksum} (t : ChecksumType) (data : list Z) : Z :=
  finalize (update (create_checksum t) data).

(** A checksum that satisfies the laws: the sum of the bytes, modulo [2^64]. *)
Definition sum_checksum : Checksum := {|
  checksum_state := Z;
  create_checksum _ := 0;
  update s data := s + zsum data;
  finalize s := wrap 64 s;
|}.

Lemma sum_checksum_laws : @ChecksumLaws sum_checksum.
Proof.
  split.
  - intros t chunks. simpl. f_equal.     assert (∀ a, foldl (λ s data, s + zsum data) a chunks = a + zsum (concat chunks)) as H;
      [|by rewrite H].
    induction chunks as [|c chunks IH]; intros a; simpl; [unfold zsum; simpl; lia|].
    rewrite IH, zsum_app. lia.
  - intros s. by apply wrap_in_u.
Qed.

(** ** Compression of an encoding unit *)

(** [fb::CompressionType]: a byte, of which the format names three values. *)
Definition CompressionType := Z.
Definition Uncompressed : CompressionType := 0.
Definition Zstd : CompressionType := 1.
Definition Lz4 : CompressionType := 2.

Class Codecs := {
  lz4_compress : list Z → list Z;
  lz4_decompress : list Z → option (list Z);
  zstd_encode : list Z → option (list Z);
  zstd_decode : list Z → option (list Z);
}.

Class CodecsLaws `{Codecs} := {
  lz4_roundtrip d : lz4_decompress (lz4_compress d) = Some d;
  zstd_roundtrip d c : zstd_encode d = Some c → zstd_decode c = Some d;
}.

Section Compression.
Context `{Codecs}.

Definition compress_data (data : list Z) (t : CompressionType) : outcome (list Z) :=
  if t =? Uncompressed then Ok data
  else if t =? Lz4 then Ok (lz4_compress data)
  else if t =? Zstd then ok_or (zstd_encode data) (IO "zstd")
  else Err (General "Unsupported compression type").

Definition decompress_data (data : list Z) (t : CompressionType) : outcome (list Z) :=
  if t =? Uncompressed then Ok data
  else if t =? Lz4 then ok_or (lz4_decompress data) (External "lz4")
  else if t =? Zstd then ok_or (zstd_decode data) (IO "zstd")
  else Err (General "Unsupported compression type").

Lemma compress_roundtrip `{!CodecsLaws} data t c :
  compress_data data t = Ok c → decompress_data c t = Ok data.
Proof.
  unfold compress_data, decompress_data. repeat case_match; intros Hc; simplify_outcome; try done.
  - by rewrite lz4_roundtrip.
  - by erewrite zstd_roundtrip.
Qed.
End Compression.

(** ** Encoding types *)

(** [fb::EncodingType]: a byte, of which the format names two values. *)
Definition EncodingType := Z.
Definition CASCADE : EncodingType := 0.
Definition CUSTOM_WASM : EncodingType := 255.

(** ** EncodingCounter: sizes reported by the encoders *)

Inductive DictionaryTypeOptions :=
  | NoDictionaryOption
  | EncoderDictionary
  | LocalDictionary
  | GlobalDictionary
  | FixedScopeDictionary (scope : Z)
  | GlobalDictionaryMultiColSharing
  | GLBest (sampling : option (Z * Z)).
#[export] Instance DictionaryTypeOptions_eq_dec : EqDecision DictionaryTypeOptions.
Proof. solve_decision. Defined.

Record EncodingCounter := mkCounter {
  dict_type : DictionaryTypeOptions;
  dict_size : Z;
  index_size : Z;
}.

Definition EncodingCounter_default : EncodingCounter := mkCounter EncoderDictionary 0 0.

Definition EncodingCounter_add (c other : EncodingCounter) : outcome EncodingCounter :=
  let! d := uadd 64 (dict_size c) (dict_size other) in
  let! i := uadd 64 (index_size c) (index_size other) in
  Ok (mkCounter (dict_type c) d i).

Definition total_size (c : EncodingCounter) : outcome Z := uadd 64 (dict_size c) (index_size c).

(** ** The Reader trait

    [read_exact_at] fills a buffer of [n] bytes from an offset. *)
Class Reader (R : Type) := {
  read_exact_at : R → Z → Z → outcome (list Z);
  reader_size : R → outcome Z;
}.

(** What the readers of the program rely on: a reader over [bytes] knows its size
    and serves every range inside it; a range outside is an error or a panic,
    never other bytes. *)
Class ReaderOf (R : Type) `{Reader R} (r : R) (bytes : list Z) := {
  reader_size_ok : reader_size r = Ok (len bytes);
  read_inside n off : 0 ≤ n → 0 ≤ off → off + n ≤ len bytes →
    read_exact_at r n off = Ok (sub_list bytes off n);
  read_outside n off b : 0 < n → 0 ≤ off → read_exact_at r n off = Ok b → off + n ≤ len bytes;
}.

(** The implementation for [[u8]]: out of range panics. *)
#[global] Instance slice_reader : Reader (list Z) := {
  read_exact_at r n off := let! end_ := uadd 64 off n in slice r off end_;
  reader_size r := Ok (len r);
}.

(** The implementation for a file: out of range is an I/O error. *)
Record FileHandle := mkFile { file_bytes : list Z }.
#[global] Instance file_reader : Reader FileHandle := {
  read_exact_at f n off :=
    if (off + n <=? len (file_bytes f)) || (n =? 0)
    then Ok (sub_list (file_bytes f) off n)
    else Err (IO "failed to fill whole buffer");
  reader_size f := Ok (len (file_bytes f));
}.

#[global] Instance slice_reader_of (r : list Z) : len r < 2 ^ 64 → ReaderOf (list Z) r r.
Proof.
  intros Hr. split; [done| |].
  - intros n off Hn Ho Hb. simpl. unfold uadd. rewrite (proj2 (Z.ltb_lt _ _)) by lia. simpl.
    rewrite slice_sub_list by lia. do 2 f_equal. lia.
  - intros n off b Hn Ho Hread. simpl in Hread. simplify_outcome.
    apply uadd_Ok in H as [_ ->]. apply slice_Ok in Hread. lia.
Qed.

#[global] Instance file_reader_of (bytes : list Z) : ReaderOf FileHandle (mkFile bytes) bytes.
Proof.
  split; [done| |]; intros n off; simpl; destruct (Z.leb_spec (off + n) (len bytes)); simpl.
  - done.
  - intros. lia.
  - by intros.
  - intros b Hn Ho. destruct (Z.eqb_spec n 0); [lia|done].
Qed.

Lemma reader_range {R} `{Reader R} (r : R) (bytes p m s : list Z) off n :
  ReaderOf R r bytes → bytes = p ++ m ++ s → off = len p → n = len m →
  read_exact_at r n off = Ok m.
Proof.
  intros Hr -> -> ->. pose proof (len_nonneg p). pose proof (len_nonneg m).
  pose proof (len_nonneg s). rewrite (read_inside (r:=r)) by (rewrite ?len_app; lia).
  by rewrite sub_list_mid.
Qed.
