(* ===== verification/EncUnit.v ===== *)
(** * fff-encoding: encoding units and their flat serialisation

    [EncUnit], [FlatEncUnit] and their serialisation are
    fff-encoding/src/enc_unit.rs, [DataBuffer] is fff-encoding/src/data_buffer.rs.
    The flexbuffers encoding of the encoding tree is third-party code: a pair of
    functions with the law that reading back gives the tree.  The sink is an
    in-memory buffer, as in every caller of the repository, so writing to it
    does not fail; what a function writes is returned as bytes. *)

From S2P Require Import Prelude Common.

Inductive Encoding := BP | Vortex | Custom.
#[export] Instance Encoding_eq_dec : EqDecision Encoding.
Proof. solve_decision. Defined.

Definition to_fbs_encoding (e : Encoding) : outcome EncodingType :=
  match e with
  | Vortex => Ok CASCADE
  | Custom => Ok CUSTOM_WASM
  | BP => Panic PTodo
  end.

Definition Encoding_from (t : EncodingType) : outcome Encoding :=
  if t =? CASCADE then Ok Vortex
  else if t =? CUSTOM_WASM then Ok Custom
  else Panic PTodo.

Inductive EncUnit :=
  mkEncUnit (buffers : list (list Z)) (encoding : Encoding) (children : list EncUnit).

Inductive EncodingTree := mkTree (root : Encoding) (children : list EncodingTree).

Inductive DataBuffer :=
  | Sparse (buffers : list (list Z))
  | Dense (bytes : list Z).

Record FlatEncUnit := mkFlat {
  encoding_tree : EncodingTree;
  buffer_sizes : option (list Z);
  buffers : list DataBuffer;
}.

(** ** DataBuffer *)

(** [DataBuffersIter]: a buffer and a position in it. *)
Record DataBuffersIter := mkIter { iter_buffer : DataBuffer; iter_index : Z }.

Definition DataBuffersIter_next (it : DataBuffersIter) : option (list Z) * DataBuffersIter :=
  let '(mkIter b i) := it in
  match b with
  | Sparse vec =>
      match vec !! Z.to_nat i with
      | Some item => (Some item, mkIter b (i + 1))
      | None => (None, it)
      end
  | Dense bytes => if i =? 0 then (Some bytes, mkIter b 1) else (None, it)
  end.

Definition DataBuffer_iter (b : DataBuffer) : DataBuffersIter := mkIter b 0.

Definition try_to_dense (b : DataBuffer) : outcome (list Z) :=
  match b with
  | Dense bytes => Ok bytes
  | Sparse _ => Err (General "Cannot convert sparse buffer to dense")
  end.

(** What a [for] loop over the iterator visits: at most [fuel] steps. *)
Fixpoint iter_collect (fuel : nat) (it : DataBuffersIter) : list (list Z) :=
  match fuel with
  | O => []
  | S fuel =>
      match DataBuffersIter_next it with
      | (Some b, it) => b :: iter_collect fuel it
      | (None, _) => []
      end
  end.

Definition data_buffer_len (b : DataBuffer) : nat :=
  match b with Sparse vec => length vec | Dense _ => 1%nat end.

(** The buffers a [for] loop writes; the fuel is one more than their number, so
    that the loop ends on the iterator's [None]. *)
Definition written_buffers (b : DataBuffer) : list (list Z) :=
  iter_collect (S (data_buffer_len b)) (DataBuffer_iter b).

(** ** EncUnit *)

(** [iter().map(|b| b.len() as u32).sum::<u32>()] *)
Definition sum_u32 (l : list Z) : outcome Z := fold_m (uadd 32) 0 l.

(** [_into_flat] *)
Fixpoint into_flat (u : EncUnit) : outcome FlatEncUnit :=
  match u with
  | mkEncUnit bufs encoding children =>
      let! '(buffer_sizes0, buffers0) :=
        match bufs with
        | [] => Ok ([], [])
        | _ => let! size := sum_u32 (map (λ b, wrap 32 (len b)) bufs) in
               Ok ([size], [Sparse bufs])
        end in
      let! '(buffers, sizes, trees) :=
        fold_m (λ st child,
            let '(buffers, sizes, trees) := st in
            let! child_flat := into_flat child in
            let! child_sizes := unwrap (buffer_sizes child_flat) in
            Ok (buffers ++ child_flat.(EncUnit.buffers),
                sizes ++ child_sizes,
                trees ++ [encoding_tree child_flat]))
          (buffers0, buffer_sizes0, []) children in
      Ok (mkFlat (mkTree encoding trees) (Some sizes) buffers)
  end.

(** [EncUnit::try_serialize]: the buffers of the root, one after the other. *)
Definition EncUnit_try_serialize (u : EncUnit) : list Z :=
  match u with mkEncUnit bufs _ _ => concat bufs end.

Definition ALIGNMENT : Z := 4.
Definition ZEROS : list Z := replicate 512 0.

Section Flexbuffers.
Context (ser : EncodingTree → list Z) (deser : list Z → option EncodingTree).

Definition serialize (f : FlatEncUnit) : outcome (list Z) :=
  let count := le_bytes 4 (wrap 32 (len (buffers f))) in
  let! sizes := unwrap (buffer_sizes f) in
  let size_table := concat (map (le_bytes 4) sizes) in
  let tree := ser (encoding_tree f) in
  let tree_size := le_bytes 4 (wrap 32 (len tree)) in
  let written_len := 4 + len sizes * 4 + 4 + len tree in
  let! padding := slice ZEROS 0 (padding_size written_len ALIGNMENT) in
  let data := concat (map (λ b, concat (written_buffers b)) (buffers f)) in
  let written := count ++ size_table ++ tree_size ++ tree ++ padding ++ data in
  let! padding := slice ZEROS 0 (padding_size (len written) ALIGNMENT) in
  Ok (written ++ padding).

(** [bytemuck::try_cast_slice::<u8, u32>] refuses a misaligned slice;
    [aligned] says whether the size table starts at a multiple of 4. *)
Definition cast_u32 (aligned : bool) (bytes : list Z) : outcome (list Z) :=
  if aligned then Ok (map le_val (chunks4 bytes))
  else Err (CastSliceError "TargetAlignmentGreaterAndInputNotAligned").

(** One [bytes.split_to(size)] per buffer. *)
Definition cut_step (st : list (list Z) * list Z) (size : Z)
    : outcome (list (list Z) * list Z) :=
  let '(acc, bytes) := st in
  let! '(buffer, bytes) := split_to bytes size in
  Ok (acc ++ [buffer], bytes).

Definition try_deserialize (aligned : bool) (bytes : list Z) : outcome FlatEncUnit :=
  let! '(b, bytes) := split_to bytes 4 in
  let num_buffers := le_val b in
  let! '(buffer_sizes_bytes, bytes) := split_to bytes (num_buffers * 4) in
  let! sizes := cast_u32 aligned buffer_sizes_bytes in
  let! '(b, bytes) := split_to bytes 4 in
  let size_encoding_tree := le_val b in
  let! '(tree_bytes, bytes) := split_to bytes size_encoding_tree in
  let! tree := unwrap (deser tree_bytes) in
  let written_len := 4 + size_encoding_tree + 4 + num_buffers * 4 in
  let! '(_, bytes) := split_to bytes (padding_size written_len ALIGNMENT) in
  let! '(bufs, _) := fold_m cut_step ([], bytes) sizes in
  Ok (mkFlat tree None (map Dense bufs)).

Definition read_first_buffer (aligned : bool) (bytes : list Z) : outcome (list Z) :=
  let! f := unwrap_res (try_deserialize aligned bytes) in
  let! b := index (buffers f) 0 in
  try_to_dense b.

Definition try_deserialize_first_bytesmut (aligned : bool) (bytes : list Z)
    : outcome (list Z) :=
  let! '(b, bytes) := split_to bytes 4 in
  let num_buffers := le_val b in
  let! '(buffer_sizes_bytes, bytes) := split_to bytes (num_buffers * 4) in
  let! sizes := cast_u32 aligned buffer_sizes_bytes in
  let! '(b, bytes) := split_to bytes 4 in
  let size_encoding_tree := le_val b in
  let written_len := 4 + size_encoding_tree + 4 + num_buffers * 4 in
  let! '(_, bytes) := split_to bytes (padding_size written_len ALIGNMENT) in
  let! '(bufs, _) := fold_m cut_step ([], bytes) sizes in
  unwrap (head bufs).
End Flexbuffers.

(** ** The layout the comment on [serialize] documents

    [flat_buffers] lists the dense buffer of every node that has one, in
    preorder; [tree_of] is the shape of the unit. *)

Fixpoint flat_buffers (u : EncUnit) : list (list Z) :=
  match u with
  | mkEncUnit bufs _ children =>
      (match bufs with [] => [] | _ => [concat bufs] end) ++ concat (map flat_buffers children)
  end.

Fixpoint tree_of (u : EncUnit) : EncodingTree :=
  match u with mkEncUnit _ e children => mkTree e (map tree_of children) end.

Definition layout (ser : EncodingTree → list Z) (u : EncUnit) : list Z :=
  let bufs := flat_buffers u in
  let tree := ser (tree_of u) in
  let header := le_bytes 4 (len bufs) ++ concat (map (λ b, le_bytes 4 (len b)) bufs)
                  ++ le_bytes 4 (len tree) ++ tree in
  let written := header ++ replicate (Z.to_nat (padding_size (len header) 4)) 0
                   ++ concat bufs in
  written ++ replicate (Z.to_nat (padding_size (len written) 4)) 0.

(** ** Lemmas *)

Section EncUnitInd.
Context (P : EncUnit → Prop)
  (Hnode : ∀ bufs e children, Forall P children → P (mkEncUnit bufs e children)).

Fixpoint EncUnit_nested_ind (u : EncUnit) : P u :=
  match u with
  | mkEncUnit bufs e children =>
      Hnode bufs e children
        ((fix go l : Forall P l :=
            match l with
            | [] => @List.Forall_nil _ P
            | c :: l => @List.Forall_cons _ P c l (EncUnit_nested_ind c) (go l)
            end) children)
  end.
End EncUnitInd.

Lemma iter_collect_S fuel it :
  iter_collect (S fuel) it =
    match DataBuffersIter_next it with
    | (Some b, it) => b :: iter_collect fuel it
    | (None, _) => []
    end.
Proof. done. Qed.

Lemma iter_collect_sparse vec i :
  iter_collect (S (length vec - i)) (mkIter (Sparse vec) (Z.of_nat i)) = drop i vec.
Proof.
  remember (length vec - i)%nat as n eqn:Hn. revert i Hn.
  induction n as [|n IH]; intros i Hn; rewrite iter_collect_S; cbn [DataBuffersIter_next].
  - rewrite Nat2Z.id, lookup_ge_None_2 by lia. by rewrite drop_ge by lia.
  - rewrite Nat2Z.id. destruct (lookup_lt_is_Some_2 vec i) as [b Hb]; [lia|].
    rewrite Hb. replace (Z.of_nat i + 1) with (Z.of_nat (S i)) by lia.
    rewrite IH by lia. by rewrite (drop_S vec b i Hb).
Qed.

(** The loop over [iter()] writes every buffer of a node once, in order. *)
Lemma written_buffers_eq b :
  written_buffers b = match b with Sparse vec => vec | Dense bytes => [bytes] end.
Proof.
  destruct b as [vec|bytes]; [|done]. unfold written_buffers, DataBuffer_iter. simpl data_buffer_len.
  pose proof (iter_collect_sparse vec 0) as H. by rewrite Nat.sub_0_r in H.
Qed.

Lemma sum_u32_concat acc bufs :
  0 ≤ acc → acc + len (concat bufs) < 2 ^ 32 →
  fold_m (uadd 32) acc (map (λ b : list Z, wrap 32 (len b)) bufs)
  = Ok (acc + len (concat bufs)).
Proof.
  revert acc. induction bufs as [|b bufs IH]; intros acc Hacc H; simpl.
  { by rewrite len_nil, Z.add_0_r. }
  simpl in H. rewrite len_app in *. pose proof (len_nonneg b). pose proof (len_nonneg (concat bufs)).
  rewrite wrap_small by (unfold in_u; lia). unfold uadd at 1.
  rewrite (proj2 (Z.ltb_lt _ _)) by lia. simpl. rewrite IH by lia. f_equal. lia.
Qed.

Abbreviation data_of := (λ b, concat (written_buffers b)).

Lemma into_flat_spec u :
  Forall (λ b, len b < 2 ^ 32) (flat_buffers u) →
  ∃ bs, into_flat u = Ok (mkFlat (tree_of u) (Some (map len (flat_buffers u))) bs) ∧
    map data_of bs = flat_buffers u.
Proof.
  induction u as [bufs e children IH] using EncUnit_nested_ind. intros Hsmall.
  cbn [into_flat flat_buffers tree_of] in *.
  apply Forall_app in Hsmall as [Hown Hch].
  assert (∃ bs0, match bufs with
      | [] => Ok ([], [])
      | _ => let! size := sum_u32 (map (λ b, wrap 32 (len b)) bufs) in Ok ([size], [Sparse bufs])
      end = Ok (map len match bufs with [] => [] | _ => [concat bufs] end, bs0) ∧
      map data_of bs0 = match bufs with [] => [] | _ => [concat bufs] end)
    as (bs0 & -> & Hbs0).
  { destruct bufs as [|b bufs]; [by exists []|].
    unfold sum_u32. rewrite sum_u32_concat by (inversion Hown; simpl in *; lia).
    exists [Sparse (b :: bufs)]. cbn [obind map]. by rewrite written_buffers_eq. }
  cbn [obind]. set (own := match bufs with [] => [] | _ => [concat bufs] end) in *. clearbody own.
  assert (∀ cs bs1 own1 trees, Forall (λ u, Forall (λ b, len b < 2 ^ 32) (flat_buffers u) →
        ∃ bs, into_flat u = Ok (mkFlat (tree_of u) (Some (map len (flat_buffers u))) bs) ∧
          map data_of bs = flat_buffers u) cs →
      Forall (λ b, len b < 2 ^ 32) (concat (map flat_buffers cs)) →
      map data_of bs1 = own1 →
      ∃ bs, fold_m (λ st child,
            let '(buffers, sizes, trees) := st in
            let! child_flat := into_flat child in
            let! child_sizes := unwrap (buffer_sizes child_flat) in
            Ok (buffers ++ child_flat.(EncUnit.buffers), sizes ++ child_sizes,
                trees ++ [encoding_tree child_flat]))
          (bs1, map len own1, trees) cs
        = Ok (bs, map len (own1 ++ concat (map flat_buffers cs)), trees ++ map tree_of cs) ∧
        map data_of bs = own1 ++ concat (map flat_buffers cs)) as Hloop.
  { clear. intros cs. induction cs as [|c cs IHcs]; intros bs1 own1 trees HIH Hsm Hbs1.
    { exists bs1. cbn. by rewrite !app_nil_r. }
    inversion_clear HIH as [|?? Hc Hcs]. cbn [map concat] in Hsm. apply Forall_app in Hsm as [Hsc Hscs].
    destruct (Hc Hsc) as (bsc & Hfc & Hbsc). cbn [fold_m]. rewrite Hfc. cbn [obind unwrap buffer_sizes
      EncUnit.buffers encoding_tree].
    rewrite <-map_app.
    destruct (IHcs (bs1 ++ bsc) (own1 ++ flat_buffers c) (trees ++ [tree_of c]) Hcs Hscs)
      as (bs & Hbs & Hdata); [by rewrite map_app, Hbs1, Hbsc|].
    exists bs. cbn [map concat]. rewrite app_assoc, Hbs, Hdata, <-!app_assoc. done. }
  destruct (Hloop children bs0 own [] IH Hch Hbs0) as (bs & -> & Hdata).
  exists bs. cbn [obind]. by rewrite app_nil_l.
Qed.

Lemma zeros_padding size :
  slice ZEROS 0 (padding_size size ALIGNMENT) = Ok (replicate (Z.to_nat (padding_size size 4)) 0).
Proof.
  pose proof (padding_size_bound size 4 ltac:(lia)). unfold ZEROS, ALIGNMENT.
  apply slice_Ok. rewrite len_replicate. split; [lia|].
  rewrite Z.sub_0_r, drop_0, take_replicate. f_equal. lia.
Qed.

Lemma size_table_len {A} (f : A → Z) l : len (concat (map (λ a, le_bytes 4 (f a)) l)) = 4 * len l.
Proof. apply len_concat_const. intros. apply le_bytes_len. Qed.

Lemma layout_aligned ser u : len (layout ser u) mod 4 = 0.
Proof.
  unfold layout. cbv zeta. rewrite len_app, len_replicate, Z2Nat.id.
  - apply padding_size_aligns. lia.
  - by apply padding_size_bound.
Qed.

(** The parts of the header fit in the buffer. *)
Lemma layout_fits ser u :
  len (layout ser u) < 2 ^ 32 →
  in_u 32 (len (flat_buffers u)) ∧ in_u 32 (len (ser (tree_of u))) ∧
  Forall (λ b, len b < 2 ^ 32) (flat_buffers u).
Proof.
  unfold layout, in_u. cbv zeta. rewrite !len_app, size_table_len. intros H.
  pose proof (len_nonneg (flat_buffers u)). pose proof (len_nonneg (ser (tree_of u))).
  rewrite !len_replicate, !le_bytes_len in H.
  pose proof (len_nonneg (concat (flat_buffers u))).
  split; [lia|]. split; [lia|].
  assert (Hc : len (concat (flat_buffers u)) < 2 ^ 32) by lia. clear - Hc.
  induction (flat_buffers u) as [|b l IH]; [constructor|]. simpl in Hc. rewrite len_app in Hc.
  pose proof (len_nonneg b). pose proof (len_nonneg (concat l)). constructor; [|apply IH]; lia.
Qed.

Section Contract.
Context (ser : EncodingTree → list Z) (deser : list Z → option EncodingTree).

Lemma serialize_layout u :
  len (layout ser u) < 2 ^ 32 →
  (let! f := into_flat u in serialize ser f) = Ok (layout ser u).
Proof.
  intros Hlen. destruct (layout_fits ser u Hlen) as (Hn & Ht & Hb).
  destruct (into_flat_spec u Hb) as (bs & -> & Hbs). cbn [obind]. unfold serialize.
  cbn [buffer_sizes buffers encoding_tree unwrap obind].
  assert (length bs = length (flat_buffers u)) as Hl by by rewrite <-Hbs, length_map.
  assert (len bs = len (flat_buffers u)) as -> by (unfold len; lia).
  rewrite !wrap_small by done. rewrite zeros_padding. cbn [obind].
  rewrite map_map, Hbs, zeros_padding. cbn [obind]. unfold layout. cbv zeta.
  rewrite len_map. f_equal.
  set (hdr := le_bytes 4 (len (flat_buffers u)) ++ _ ++ _ ++ ser (tree_of u)).
  assert (4 + len (flat_buffers u) * 4 + 4 + len (ser (tree_of u)) = len hdr) as ->.
  { unfold hdr. rewrite !len_app, size_table_len, !le_bytes_len. lia. }
  unfold hdr. by rewrite <-!app_assoc.
Qed.

Lemma cut_step_all bufs acc rest :
  fold_m cut_step (acc, concat bufs ++ rest) (map len bufs) = Ok (acc ++ bufs, rest).
Proof.
  revert acc. induction bufs as [|b bufs IH]; intros acc; cbn [map concat fold_m app].
  - by rewrite app_nil_r.
  - unfold cut_step at 1. rewrite <-app_assoc, split_to_app by done. cbn [obind].
    by rewrite IH, <-app_assoc.
Qed.

Lemma cast_u32_sizes (l : list (list Z)) :
  Forall (λ b, len b < 2 ^ 32) l →
  cast_u32 true (concat (map (λ b, le_bytes 4 (len b)) l)) = Ok (map len l).
Proof.
  intros Hl. unfold cast_u32. f_equal.
  rewrite <-(map_map len (le_bytes 4)), chunks4_concat by (intros; apply le_bytes_length).
  rewrite !map_map. induction Hl as [|b l Hb _ IH]; cbn [map]; [done|].
  rewrite IH, le_val_le_bytes; [done|]. pose proof (len_nonneg b). unfold in_u. simpl in *. lia.
Qed.
End Contract.

(** ** The contract *)

(** C26: a unit whose flat form stays below 4 GiB serialises without panic to the
    documented layout (count, size table, tree, padding, buffers, padding; a
    whole number of 4-byte words), and [try_deserialize] of that layout, with
    any bytes after it, gives back its encoding tree and, in preorder, the dense
    bytes of every node that has buffers. *)
Theorem flat_encunit_roundtrip ser deser u rest :
  deser (ser (tree_of u)) = Some (tree_of u) → len (layout ser u) < 2 ^ 32 →
  (let! f := into_flat u in serialize ser f) = Ok (layout ser u) ∧
  len (layout ser u) mod 4 = 0 ∧
  try_deserialize deser true (layout ser u ++ rest)
  = Ok (mkFlat (tree_of u) None (map Dense (flat_buffers u))).
Proof.
  intros Hser Hlen. split; [by apply serialize_layout|]. split; [apply layout_aligned|].
  destruct (layout_fits ser u Hlen) as (Hn & Ht & Hb).
  unfold layout, try_deserialize. cbv zeta. rewrite <-!app_assoc.
  rewrite split_to_app by done. cbn [obind]. rewrite le_val_le_bytes by done.
  rewrite split_to_app by (rewrite size_table_len; lia). cbn [obind].
  rewrite cast_u32_sizes by done. cbn [obind].
  rewrite split_to_app by done. cbn [obind]. rewrite le_val_le_bytes by done.
  rewrite split_to_app by done. cbn [obind]. rewrite Hser. cbn [unwrap obind].
  rewrite split_to_app.
  - cbn [obind]. by rewrite cut_step_all.
  - rewrite !len_app, size_table_len, !le_bytes_len, len_replicate. unfold ALIGNMENT.
    rewrite Z2Nat.id by (by apply padding_size_bound). f_equal. lia.
Qed.

Lemma flat_encunit_roundtrip_witness :
  let u := mkEncUnit [[1; 2]; [3]] Vortex [mkEncUnit [] Custom [mkEncUnit [[4]] BP []]] in
  let ser := λ _, [7; 7; 7] in
  (let! f := into_flat u in serialize ser f) = Ok (layout ser u) ∧
  len (layout ser u) mod 4 = 0 ∧
  try_deserialize (λ _, Some (tree_of u)) true (layout ser u ++ [9; 9])
  = Ok (mkFlat (tree_of u) None (map Dense (flat_buffers u))).
Proof. intros u ser. apply (flat_encunit_roundtrip ser); by vm_compute. Defined.

(** [try_deserialize_first_bytesmut] skips the padding but not the encoding tree
    before it cuts the buffers: on a written unit it returns bytes of the tree
    where [read_first_buffer] returns the first buffer. *)
Lemma first_bytesmut_reads_tree :
  let u := mkEncUnit [[1; 2; 3]] Vortex [] in
  let ser := λ _, [7; 8; 9; 10] in
  read_first_buffer (λ _, Some (tree_of u)) true (layout ser u) = Ok [1; 2; 3] ∧
  try_deserialize_first_bytesmut true (layout ser u) = Ok [7; 8; 9].
Proof. by vm_compute. Qed.
