(* ===== verification/Bitpack.v ===== *)
(** * fff-encoding: the legacy bit-packing codec

    [BPEncoder] and [BPDecoder] of fff-encoding/src/schemes/bp.rs and the state
    of non-null decoders of fff-encoding/src/schemes/mod.rs.  The fastlanes
    kernel that packs one block of 1024 values and rkyv's encoding of the
    metadata are third-party code: parameters with their documented laws.  Both
    the words and the metadata are read in place, so the address of the bytes that
    are decoded is part of the model. *)

From S2P Require Import Prelude EncUnit.

Definition MINIBLOCK_SIZE : Z := 1024.

(** [EncUnitMetadata] *)
Record EncUnitMetadata := mkMetadata {
  num_values : Z;
  mini_blocks_offsets : list Z;
  metadata : option (list Z);
}.

(** [32 - x.leading_zeros()]: the position of the highest set bit. *)
Definition significant_bits (x : Z) : Z := if x =? 0 then 0 else Z.log2 x + 1.

Definition bit_width_of (mini_block : list Z) : Z :=
  foldl (λ acc x, Z.max acc (significant_bits x)) 0 mini_block.

(** [(0..len).step_by(1024)] with [min(i + 1024, len)]: the blocks, the last one
    shorter when the length is not a multiple of 1024. *)
Fixpoint mini_blocks (fuel : nat) (data : list Z) : list (list Z) :=
  match fuel with
  | O => []
  | S fuel =>
      match data with
      | [] => []
      | _ => take 1024 data :: mini_blocks fuel (drop 1024 data)
      end
  end.

(** A word buffer viewed as bytes and back. *)
Definition words_to_bytes (l : list Z) : list Z := concat (map (le_bytes 4) l).

(** [bytemuck::cast_slice::<u8, u32>] of the bytes at an address: panics on a misaligned
    slice and on a length that is no multiple of four. *)
Definition bytes_to_words (addr : Z) (l : list Z) : outcome (list Z) :=
  let! _ := assert ((addr mod 4 =? 0) && (len l mod 4 =? 0)) in
  Ok (map le_val (chunks4 l)).

Section Codec.
(** [BitPacking::unchecked_pack], [unchecked_unpack] and rkyv, which reads an archive at
    an address and may refuse one that is misaligned. *)
Context (pack : Z → list Z → list Z) (unpack : Z → list Z → list Z).
Context (to_bytes : EncUnitMetadata → list Z) (from_bytes : Z → list Z → option EncUnitMetadata).

(** The state of the encoder's loop: the widths, the offsets and the words. *)
Definition encode_block (st : list Z * list Z * list Z) (mini_block : list Z)
    : list Z * list Z * list Z :=
  let '(bw_per_mini_block, offsets, encoded_data) := st in
  let bit_width := bit_width_of mini_block in
  (bw_per_mini_block ++ [wrap 8 bit_width], offsets ++ [wrap 32 (len encoded_data)],
   encoded_data ++ pack bit_width mini_block).

Definition BPEncoder_encode (data : list Z) : outcome EncUnit :=
  let! _ := assert (len data mod MINIBLOCK_SIZE =? 0) in
  let '(bw, offsets, encoded_data) :=
    foldl encode_block ([], [], []) (mini_blocks (S (length data)) data) in
  let meta := to_bytes (mkMetadata (wrap 32 (len data))
                          (offsets ++ [wrap 32 (len encoded_data)]) (Some bw)) in
  let metadata_size := le_bytes 4 (wrap 32 (len meta)) in
  let padding := replicate (Z.to_nat (padding_size (len metadata_size + len meta) ALIGNMENT)) 0 in
  Ok (mkEncUnit [metadata_size; meta; padding; words_to_bytes encoded_data] BP []).

(** [encode_to_bytes] of schemes/mod.rs, for this encoder. *)
Definition encode_to_bytes (data : list Z) : outcome (list Z) :=
  let! encblock := unwrap_res (BPEncoder_encode data) in
  Ok (EncUnit_try_serialize encblock).

(** The bytes of the metadata and of the data, with their addresses. *)
Record NonNullDecoderState := mkState {
  metadata_addr : Z;
  metadata_bytes : list Z;
  data_addr : Z;
  state_data : list Z;
}.

(** The address of what [Bytes::split_to] leaves: when nothing is left no address is
    promised (bytes 1.7), and [empty_addr] stands for the one it has. *)
Definition rest_addr (empty_addr addr : Z) (rest : list Z) : Z :=
  match rest with [] => empty_addr | _ => addr end.

Definition NonNullDecoderState_new (empty_addr addr : Z) (encblock : list Z)
  : outcome NonNullDecoderState :=
  let! '(b, encblock) := split_to encblock 4 in
  let metadata_size := le_val b in
  let! '(meta, encblock) := split_to encblock metadata_size in
  let! '(_, encblock) := split_to encblock (padding_size (4 + len meta) ALIGNMENT) in
  let end_ := addr + 4 + metadata_size + padding_size (4 + len meta) ALIGNMENT in
  Ok (mkState (addr + 4) meta (rest_addr empty_addr end_ encblock) encblock).

Definition state_metadata (st : NonNullDecoderState) : outcome EncUnitMetadata :=
  unwrap (from_bytes (metadata_addr st) (metadata_bytes st)).

(** [dst[a..b]] overwritten by [src] (of that length). *)
Definition write_at (dst : list Z) (a : Z) (src : list Z) : list Z :=
  take (Z.to_nat a) dst ++ src ++ drop (Z.to_nat a + length src) dst.

(** The loop of [decode_all] over [1..offsets.len()]. *)
Definition decode_block (bw offsets words : list Z) (out : list Z) (i : Z) : outcome (list Z) :=
  let! start := index offsets (i - 1) in
  let! end_ := index offsets i in
  let! bit_width := index bw (i - 1) in
  let! packed := slice words start end_ in
  let! _ := slice out (MINIBLOCK_SIZE * (i - 1)) (MINIBLOCK_SIZE * i) in
  Ok (write_at out (MINIBLOCK_SIZE * (i - 1)) (unpack bit_width packed)).

(** The output buffer, as the words it holds; it starts uninitialised, and
    [fill] stands for what it happens to contain. *)
Definition BPDecoder_decode_all (fill : Z → Z) (st : NonNullDecoderState) : outcome (list Z) :=
  let! meta := state_metadata st in
  let out := map fill (range (num_values meta)) in
  let! bw := unwrap (metadata meta) in
  let offsets := mini_blocks_offsets meta in
  let! words := bytes_to_words (data_addr st) (state_data st) in
  fold_m (decode_block bw offsets words) out (seqZ 1 (len offsets - 1)).
End Codec.

(** ** Lemmas *)

Lemma significant_bits_spec x :
  in_u 32 x → 0 ≤ significant_bits x ≤ 32 ∧ x < 2 ^ significant_bits x.
Proof.
  unfold in_u, significant_bits. intros Hx. destruct (Z.eqb_spec x 0) as [->|]; [done|].
  pose proof (Z.log2_nonneg x). assert (Z.log2 x < 32) by (apply Z.log2_lt_pow2; lia).
  split; [lia|]. apply Z.log2_spec. lia.
Qed.

Lemma bit_width_of_ge acc l : acc ≤ foldl (λ acc x, Z.max acc (significant_bits x)) acc l.
Proof.
  revert acc. induction l as [|x l IH]; intros acc; simpl; [lia|]. specialize (IH (Z.max acc (significant_bits x))). lia.
Qed.

Lemma bit_width_of_spec l :
  Forall (in_u 32) l → 0 ≤ bit_width_of l ≤ 32 ∧ Forall (in_u (bit_width_of l)) l.
Proof.
  intros Hl. unfold bit_width_of.
  assert (∀ acc, 0 ≤ acc ≤ 32 →
    0 ≤ foldl (λ acc x, Z.max acc (significant_bits x)) acc l ≤ 32 ∧
    Forall (in_u (foldl (λ acc x, Z.max acc (significant_bits x)) acc l)) l) as H;
    [|by apply H].
  induction Hl as [|x l Hx _ IH]; intros acc Hacc; simpl; [done|].
  pose proof (significant_bits_spec x Hx) as [Hb Hlt].
  destruct (IH (Z.max acc (significant_bits x))) as [Hr Hall]; [lia|]. split; [done|].
  constructor; [|done].
  pose proof (bit_width_of_ge (Z.max acc (significant_bits x)) l).
  unfold in_u in *. split; [lia|]. eapply Z.lt_le_trans; [apply Hlt|].
  apply Z.pow_le_mono_r; lia.
Qed.

Lemma mini_blocks_spec fuel data :
  (length data < fuel)%nat → len data mod 1024 = 0 →
  concat (mini_blocks fuel data) = data ∧
  Forall (λ b, len b = 1024) (mini_blocks fuel data).
Proof.
  revert data. induction fuel as [|fuel IH]; intros data Hf Hmod; [lia|].
  destruct data as [|x data]; [done|]. set (l := x :: data) in *.
  change (mini_blocks (S fuel) l) with (take 1024 l :: mini_blocks fuel (drop 1024 l)).
  assert (Hpos : 0 < len l) by (unfold l; rewrite len_cons; pose proof (len_nonneg data); lia).
  assert (1024 ≤ len l) as Hlen by (apply Z.mod_divide in Hmod as [q Hq]; lia).
  assert (Hd : len (drop 1024 l) = len l - 1024) by (unfold len in *; rewrite length_drop; lia).
  destruct (IH (drop 1024 l)) as [Hc Hall].
  { unfold len in *. lia. }
  { rewrite Hd. rewrite <-Hmod. rewrite <-(Z.mod_add (len l - 1024) 1) by lia. f_equal. lia. }
  cbn [concat]. rewrite Hc, take_drop. split; [done|]. constructor; [|done].
  unfold len in *. rewrite length_take. lia.
Qed.

Section Roundtrip.
Context (pack : Z → list Z → list Z) (unpack : Z → list Z → list Z).

(** What the kernel documents: packing a block of 1024 values of at most [bw]
    bits takes [32 * bw] words and unpacking gives the block back. *)
Record codec_laws : Prop := {
  pack_len : ∀ bw b, 0 ≤ bw ≤ 32 → len b = 1024 → len (pack bw b) = 32 * bw;
  pack_words : ∀ bw b, 0 ≤ bw ≤ 32 → len b = 1024 → Forall (in_u 32) (pack bw b);
  unpack_pack : ∀ bw b, 0 ≤ bw ≤ 32 → len b = 1024 → Forall (in_u bw) b →
    unpack bw (pack bw b) = b;
}.

Definition block_ok (b : list Z) : Prop := len b = 1024 ∧ Forall (in_u 32) b.

Definition packed (blocks : list (list Z)) : list Z :=
  concat (map (λ b, pack (bit_width_of b) b) blocks).

(** The start offset of every block, in words. *)
Fixpoint offsets_from (start : Z) (blocks : list (list Z)) : list Z :=
  match blocks with
  | [] => []
  | b :: blocks => start :: offsets_from (start + len (pack (bit_width_of b) b)) blocks
  end.

(** The metadata of a buffer of whole blocks. *)
Definition block_metadata (data : list Z) : EncUnitMetadata :=
  let blocks := mini_blocks (S (length data)) data in
  mkMetadata (len data) (offsets_from 0 blocks ++ [len (packed blocks)])
    (Some (map bit_width_of blocks)).

Lemma offsets_from_app s l k :
  offsets_from s (l ++ k) = offsets_from s l ++ offsets_from (s + len (packed l)) k.
Proof.
  revert s. induction l as [|b l IH]; intros s; simpl.
  - by rewrite Z.add_0_r.
  - rewrite IH. unfold packed. simpl. rewrite len_app. do 3 f_equal. lia.
Qed.

Lemma offsets_from_len s l : len (offsets_from s l) = len l.
Proof. revert s. induction l as [|b l IH]; intros s; simpl; [done|]. by rewrite !len_cons, IH. Qed.

Context (laws : codec_laws).

Lemma packed_len l : Forall block_ok l → 0 ≤ len (packed l) ≤ 1024 * len l.
Proof.
  induction 1 as [|b l [Hb Hu] Hl IH]; unfold packed in *; simpl; [done|].
  destruct (bit_width_of_spec b Hu) as [Hw _].
  rewrite len_app, len_cons, (pack_len laws) by done. lia.
Qed.

Lemma packed_words l : Forall block_ok l → Forall (in_u 32) (packed l).
Proof.
  induction 1 as [|b l [Hb Hu] Hl IH]; unfold packed in *; simpl; [done|].
  destruct (bit_width_of_spec b Hu) as [Hw _].
  apply Forall_app. split; [by apply (pack_words laws)|done].
Qed.

Lemma encode_blocks bs w o e :
  Forall block_ok bs → len e + 1024 * len bs < 2 ^ 32 →
  foldl (encode_block pack) (w, o, e) bs
  = (w ++ map bit_width_of bs, o ++ offsets_from (len e) bs, e ++ packed bs).
Proof.
  intros Hbs. revert w o e. induction Hbs as [|b bs [Hb Hu] Hbs IH]; intros w o e Hlen.
  { cbn. by rewrite !app_nil_r. }
  destruct (bit_width_of_spec b Hu) as [Hw _]. rewrite len_cons in Hlen.
  pose proof (len_nonneg e). pose proof (len_nonneg bs).
  cbn [foldl encode_block offsets_from map].
  rewrite (wrap_small 8) by (unfold in_u; lia).
  rewrite (wrap_small 32) by (unfold in_u; lia).
  rewrite IH by (rewrite len_app, (pack_len laws) by done; lia).
  rewrite <-!app_assoc. unfold packed. simpl. by rewrite len_app.
Qed.

(** The decoder's loop, started after the blocks [before]. *)
Lemma decode_blocks before after tail total :
  Forall block_ok (before ++ after) →
  total = len (packed (before ++ after)) → len tail = 1024 * len after →
  fold_m (decode_block unpack (map bit_width_of (before ++ after))
            (offsets_from 0 (before ++ after) ++ [total]) (packed (before ++ after)))
    (concat before ++ tail) (seqZ (1 + len before) (len after))
  = Ok (concat (before ++ after)).
Proof.
  intros Hok Htot. revert before Hok Htot tail.
  induction after as [|b after IH]; intros before Hok Htot tail Htail.
  { rewrite (len_nil (A:=list Z)) in Htail. replace tail with (@nil Z) by (symmetry; apply len_0; lia).
    cbn. by rewrite !app_nil_r. }
  rewrite (seqZ_app_len 1 before). cbn [fold_m]. unfold decode_block at 1.
  assert (block_ok b) as [Hb Hu] by (apply Forall_app in Hok as [_ Hok]; by inversion Hok).
  destruct (bit_width_of_spec b Hu) as [Hw Hbw].
  assert (Hpk : packed (before ++ b :: after)
      = packed before ++ pack (bit_width_of b) b ++ packed after)
    by (unfold packed; by rewrite map_app, concat_app).
  assert (Hbefore : len (concat before) = 1024 * len before).
  { apply Forall_app in Hok as [Hok _]. clear - Hok.
    induction Hok as [|c l [Hc _] Hl IHl]; simpl; [done|]. rewrite len_app, len_cons. lia. }
  rewrite len_cons in Htail. pose proof (len_nonneg after). pose proof (len_nonneg before).
  rewrite Z.add_simpl_l.
  set (P := len (packed before)) in *. set (w := bit_width_of b) in *.
  assert (Hnext : ∃ rest, offsets_from 0 (before ++ b :: after) ++ [total]
      = (offsets_from 0 before ++ [P]) ++ (P + len (pack w b)) :: rest).
  { rewrite offsets_from_app, Z.add_0_l, <-!app_assoc. fold P. cbn [offsets_from app]. fold w.
    destruct after as [|c after]; cbn [offsets_from app].
    - exists []. assert (total = P + len (pack w b)) as ->; [|by rewrite <-app_assoc].
      rewrite Htot, Hpk, !len_app. change (packed []) with (@nil Z). rewrite len_nil. lia.
    - eexists. by rewrite <-app_assoc. }
  destruct Hnext as [rest Hoffs]. rewrite Hoffs.
  rewrite <-(app_assoc (offsets_from 0 before)) at 1. cbn [app].
  rewrite index_app_here by (by rewrite offsets_from_len). cbn [obind].
  rewrite index_app_here by (rewrite len_app, offsets_from_len, len_cons, len_nil; lia).
  cbn [obind]. rewrite map_app. cbn [map]. rewrite index_app_here by (by rewrite len_map).
  cbn [obind]. fold w. rewrite Hpk, slice_mid by done. cbn [obind].
  unfold slice at 1, MINIBLOCK_SIZE. rewrite len_app, Hbefore.
  rewrite !(proj2 (Z.leb_le _ _)) by lia. cbn [andb obind].
  rewrite (unpack_pack laws) by done.
  specialize (IH (before ++ [b])). rewrite <-!(app_assoc before) in IH. cbn [app] in IH.
  specialize (IH Hok Htot (drop 1024 tail)). rewrite Hoffs, Hpk, map_app in IH. cbn [map] in IH.
  fold w in IH. rewrite <-IH; [|unfold len in *; rewrite length_drop; lia].
  f_equal. unfold write_at. rewrite concat_app. cbn [concat]. rewrite app_nil_r.
  rewrite take_app_length' by (unfold len in *; lia).
  rewrite <-app_assoc. do 2 f_equal.
  rewrite drop_app_ge by (unfold len in *; lia). f_equal. unfold len in *. lia.
Qed.
End Roundtrip.

Lemma blocks_facts data blocks :
  concat blocks = data → Forall (λ b, len b = 1024) blocks → Forall (in_u 32) data →
  Forall block_ok blocks ∧ len data = 1024 * len blocks.
Proof.
  intros <- Hblk. induction Hblk as [|b l Hb Hl IH]; intros Hu; [done|].
  cbn [concat] in *. apply Forall_app in Hu as [Hub Hul]. destruct (IH Hul) as [Hok Hn].
  rewrite len_app, len_cons. split; [by constructor|lia].
Qed.

(** ** A kernel that satisfies the laws

    The block is read as one number in base [2^bw] and written in base [2^32]. *)

Fixpoint digits (base : Z) (n : nat) (x : Z) : list Z :=
  match n with O => [] | S n => x mod base :: digits base n (x / base) end.

Definition undigits (base : Z) (l : list Z) : Z := foldr (λ d v, d + base * v) 0 l.

Definition pack_ref (bw : Z) (b : list Z) : list Z :=
  digits (2 ^ 32) (Z.to_nat (32 * bw)) (undigits (2 ^ bw) b).
Definition unpack_ref (bw : Z) (w : list Z) : list Z :=
  digits (2 ^ bw) 1024 (undigits (2 ^ 32) w).

Lemma digits_length base n x : length (digits base n x) = n.
Proof. revert x. induction n as [|n IH]; intros x; simpl; [done|]. by rewrite IH. Qed.

Lemma digits_bound base n x : 0 < base → Forall (λ d, 0 ≤ d < base) (digits base n x).
Proof.
  intros Hb. revert x. induction n as [|n IH]; intros x; simpl; constructor; [|done].
  by apply Z.mod_pos_bound.
Qed.

Lemma undigits_digits base n x :
  0 < base → undigits base (digits base n x) = x mod base ^ Z.of_nat n.
Proof.
  intros Hb. revert x. induction n as [|n IH]; intros x; cbn [digits].
  { cbn. by rewrite Z.mod_1_r. }
  change (undigits base (?d :: ?l)) with (d + base * undigits base l).
  rewrite IH, Nat2Z.inj_succ, Z.pow_succ_r by lia.
  assert (0 < base ^ Z.of_nat n) by (apply Z.pow_pos_nonneg; lia).
  rewrite Z.rem_mul_r by lia. lia.
Qed.

Lemma undigits_bound base l :
  0 < base → Forall (λ d, 0 ≤ d < base) l → 0 ≤ undigits base l < base ^ len l.
Proof.
  intros Hb. induction 1 as [|d l Hd _ IH]; [unfold len; simpl; lia|].
  change (undigits base (d :: l)) with (d + base * undigits base l).
  pose proof (len_nonneg l). rewrite len_cons, Z.pow_add_r, Z.pow_1_r by lia. nia.
Qed.

Lemma digits_undigits base l :
  0 < base → Forall (λ d, 0 ≤ d < base) l → digits base (length l) (undigits base l) = l.
Proof.
  intros Hb. induction 1 as [|d l Hd _ IH]; [done|].
  change (undigits base (d :: l)) with (d + base * undigits base l). cbn [digits length].
  rewrite Z.mul_comm, Z.mod_add, Z.div_add by lia.
  rewrite Z.mod_small, Z.div_small, Z.add_0_l by lia. by rewrite IH.
Qed.

Lemma ref_codec_laws : codec_laws pack_ref unpack_ref.
Proof.
  split; intros bw b Hbw Hb; unfold pack_ref.
  - unfold len. rewrite digits_length. lia.
  - apply digits_bound. lia.
  - intros Hu. unfold unpack_ref. rewrite undigits_digits by lia.
    assert (0 < 2 ^ bw) by (apply Z.pow_pos_nonneg; lia).
    pose proof (undigits_bound (2 ^ bw) b H Hu) as Hbound.
    rewrite Hb, <-Z.pow_mul_r in Hbound by lia.
    rewrite Z.mod_small.
    + replace 1024%nat with (length b) by (unfold len in Hb; lia). by apply digits_undigits.
    + rewrite <-Z.pow_mul_r, Z2Nat.id by lia. by replace (32 * (32 * bw)) with (bw * 1024) by lia.
Qed.

(** ** The contract *)

(** The words of the data follow the metadata at a multiple of four. *)
Lemma data_aligned addr meta :
  (addr + 4 + meta + padding_size (4 + meta) ALIGNMENT) mod 4 = addr mod 4.
Proof.
  pose proof (padding_size_aligns (4 + meta) ALIGNMENT ltac:(done)) as Ha. unfold ALIGNMENT in *.
  replace (addr + 4 + meta + padding_size (4 + meta) 4)
    with (addr + (4 + meta + padding_size (4 + meta) 4)) by lia.
  rewrite Z.add_mod, Ha, Z.add_0_r, Z.mod_mod by lia. done.
Qed.

(** A block of width zero is one of zeros. *)
Lemma bit_width_zero b : Forall (in_u 32) b → bit_width_of b = 0 ↔ forallb (λ x, x =? 0) b = true.
Proof.
  intros Hu. destruct (bit_width_of_spec b Hu) as [_ Hb]. rewrite forallb_forall. split.
  - intros Hw x Hx%list_elem_of_In. rewrite Hw in Hb. rewrite Forall_forall in Hb.
    specialize (Hb x Hx). unfold in_u in Hb. cbn in Hb. apply Z.eqb_eq. lia.
  - intros Hz. clear Hu Hb. unfold bit_width_of. induction b as [|x b IH]; [done|]. cbn [foldl].
    rewrite (proj1 (Z.eqb_eq x 0)) by (apply Hz; by left). apply IH. intros y Hy. apply Hz. by right.
Qed.

(** There are no packed words when all values are zero. *)
Lemma packed_empty pack unpack blocks :
  codec_laws pack unpack → Forall block_ok blocks →
  len (packed pack blocks) = 0 ↔ forallb (λ x, x =? 0) (concat blocks) = true.
Proof.
  intros laws. induction 1 as [|b l [Hb Hu] Hl IH]; [done|]. unfold packed in *. cbn [map concat].
  destruct (bit_width_of_spec b Hu) as [Hw _].
  rewrite len_app, (pack_len _ _ laws), forallb_app, andb_true_iff, <-IH, <-bit_width_zero by done.
  pose proof (len_nonneg (concat (map (λ b, pack (bit_width_of b) b) l))). lia.
Qed.

(** C35: decoding what the bit-packing encoder wrote for a whole number of blocks
    of 32-bit values gives the values back, whatever the output buffer held
    before, when the bytes are handed to the decoder as they are and the metadata and the
    words lie at multiples of four: the block widths, the word offsets and the padded
    metadata header that the encoder lays out are the ones the decoder reads.  The words
    are aligned as the bytes are, by the padding, except that values that are all zero
    have no words and nothing is promised about where these lie.  Words that are not
    aligned make the decoder panic. *)
Theorem bitpack_roundtrip pack unpack to_bytes from_bytes fill data empty_addr addr :
  codec_laws pack unpack →
  Forall (in_u 32) data → len data mod 1024 = 0 → len data < 2 ^ 32 →
  (∀ a, a mod 4 = 0 →
     from_bytes a (to_bytes (block_metadata pack data)) = Some (block_metadata pack data)) →
  len (to_bytes (block_metadata pack data)) < 2 ^ 32 →
  ∃ bytes st,
    encode_to_bytes pack to_bytes data = Ok bytes ∧
    NonNullDecoderState_new empty_addr addr bytes = Ok st ∧
    data_addr st mod 4 = (if forallb (λ x, x =? 0) data then empty_addr else addr) mod 4 ∧
    (addr mod 4 = 0 → data_addr st mod 4 = 0 → BPDecoder_decode_all unpack from_bytes fill st = Ok data) ∧
    (data_addr st mod 4 ≠ 0 → ∃ p, BPDecoder_decode_all unpack from_bytes fill st = Panic p).
Proof.
  intros laws Hu Hmod Hlen Hmeta Hml. unfold encode_to_bytes, BPEncoder_encode.
  unfold MINIBLOCK_SIZE. rewrite (proj2 (Z.eqb_eq _ _) Hmod). cbn [assert obind].
  destruct (mini_blocks_spec (S (length data)) data ltac:(lia) Hmod) as [Hcat Hblk].
  unfold block_metadata in *. cbv zeta in *.
  set (blocks := mini_blocks (S (length data)) data) in *. clearbody blocks.
  destruct (blocks_facts data blocks Hcat Hblk Hu) as [Hok Hnum].
  pose proof (packed_len pack unpack laws blocks Hok) as Hpl.
  pose proof (len_nonneg data). pose proof (len_nonneg blocks).
  rewrite (encode_blocks pack unpack laws) by (rewrite ?len_nil; done || lia).
  rewrite !app_nil_l, len_nil. cbn [unwrap_res obind EncUnit_try_serialize concat].
  rewrite (wrap_small 32 (len data)) by done.
  rewrite (wrap_small 32 (len (packed pack blocks))) by (unfold in_u; lia).
  set (m := mkMetadata _ _ _) in *. pose proof (len_nonneg (to_bytes m)).
  rewrite (wrap_small 32 (len (to_bytes m))) by done.
  set (end_ := addr + 4 + len (to_bytes m) + padding_size (4 + len (to_bytes m)) ALIGNMENT).
  set (words := packed pack blocks) in *.
  assert (Hw4 : len (words_to_bytes words) = 4 * len words)
    by (apply len_concat_const; intros; apply le_bytes_len).
  eexists _, (mkState (addr + 4) (to_bytes m) (rest_addr empty_addr end_ (words_to_bytes words))
    (words_to_bytes words)).
  split; [reflexivity|]. cbn [data_addr]. split_and!.
  - unfold NonNullDecoderState_new. rewrite app_nil_r, split_to_app by done. cbn [obind].
    rewrite le_val_le_bytes by done. rewrite split_to_app by done. cbn [obind].
    rewrite split_to_app; [done|]. rewrite le_bytes_len, len_replicate, Z2Nat.id; [done|].
    by apply padding_size_bound.
  - pose proof (packed_empty pack unpack blocks laws Hok) as Hz. rewrite Hcat in Hz. fold words in Hz.
    destruct (words_to_bytes words) as [|x l] eqn:Hwords; cbn [rest_addr].
    + rewrite (proj1 Hz); [done|]. rewrite (len_nil (A:=Z)) in Hw4. lia.
    + destruct (forallb _ data); [|apply data_aligned]. rewrite (proj2 Hz) in Hw4 by done.
      by apply len_0 in Hw4.
  - intros Haddr Hdata. unfold BPDecoder_decode_all, state_metadata.
    cbn [metadata_addr metadata_bytes data_addr state_data].
    rewrite Hmeta by (by rewrite Z.add_mod, Haddr by lia).
    cbn [unwrap obind metadata mini_blocks_offsets num_values m].
    unfold bytes_to_words. rewrite Hdata, Hw4.
    rewrite Z.mul_comm, Z.mod_mul by lia. cbn [Z.eqb andb assert obind]. unfold words_to_bytes.
    rewrite chunks4_le_val by (by apply (packed_words pack unpack laws)).
    pose proof (decode_blocks pack unpack laws [] blocks
      (map fill (range (len data))) (len (packed pack blocks)) Hok eq_refl) as Hdec.
    cbn [concat app] in Hdec. rewrite (len_nil (A:=list Z)), Hcat in Hdec.
    rewrite len_app, offsets_from_len, len_cons, (len_nil (A:=Z)).
    replace (len blocks + (1 + 0) - 1) with (len blocks) by lia.
    apply Hdec. rewrite len_map. unfold range, len in *. rewrite length_seqZ. lia.
  - intros Haddr. unfold BPDecoder_decode_all, state_metadata.
    cbn [metadata_addr metadata_bytes data_addr state_data].
    destruct (from_bytes _ _) as [meta|]; [|by eexists]. cbn [unwrap obind].
    destruct (metadata meta); [|by eexists]. cbn [unwrap obind].
    unfold bytes_to_words. rewrite (proj2 (Z.eqb_neq _ _)) by done. by eexists.
Qed.

Lemma bitpack_roundtrip_witness :
  let data := map (λ i, i * i mod 1000) (range 1024) in
  ∃ bytes st,
    encode_to_bytes pack_ref (λ _, [1; 2; 3]) data = Ok bytes ∧
    NonNullDecoderState_new 1 64 bytes = Ok st ∧
    BPDecoder_decode_all unpack_ref
      (λ a _, if a mod 4 =? 0 then Some (block_metadata pack_ref data) else None) (λ _, 7) st
    = Ok data.
Proof.
  intros data.
  destruct (bitpack_roundtrip pack_ref unpack_ref (λ _, [1; 2; 3])
    (λ a _, if a mod 4 =? 0 then Some (block_metadata pack_ref data) else None) (λ _, 7) data 1 64)
    as (bytes & st & Hb & Hst & Ha & Hdec & _).
  - apply ref_codec_laws.
  - apply (bool_decide_unpack _). by vm_compute.
  - by vm_compute.
  - by vm_compute.
  - intros a ->. done.
  - by vm_compute.
  - exists bytes, st. split; [exact Hb|]. split; [exact Hst|]. apply Hdec; [reflexivity|].
    rewrite Ha. by vm_compute.
Defined.

(** ** The encoder's bytes are no flat unit

    The test of bp.rs and the benchmarks take the encoder's bytes apart with
    [FlatEncUnit::read_first_buffer] first.  [try_serialize] writes the buffers of a unit
    without the header that this asks for: the size of the metadata is taken for a number
    of buffers, and packed words for the size of the encoding tree. *)

(** Metadata as its fields one after the other, in place of rkyv. *)
Definition plain_metadata (m : EncUnitMetadata) : list Z :=
  le_bytes 4 (num_values m) ++ concat (map (le_bytes 4) (mini_blocks_offsets m))
  ++ default [] (metadata m).

Lemma bp_bytes_are_no_flat_unit deser :
  (let! bytes := encode_to_bytes pack_ref plain_metadata (map (λ i, (i + 1) mod 128) (range 1024)) in
   read_first_buffer deser true bytes) = Panic PIndex.
Proof. vm_compute. reflexivity. Qed.
