(* ===== verification/Dict.v ===== *)
(** * fff-poc/src/dict.rs: building dictionaries

    [DictHash] is fff-poc/src/dict/dict_hash.rs.  [TypedDict] is the generic
    dictionary builder, [Dictionary] the dynamically typed wrapper that the
    encoders and the shared-dictionary context hold: a [DataType] and a boxed
    [TypedDict], of which the wrapper's methods downcast to the store and hash
    types of their table. *)

From S2P Require Import Prelude Arrow.

(** [trait DictHash<U>]: the key a value is deduplicated by, and the hash the
    similarity sketch uses.  What the builder relies on is that two values with
    one key are the same value. *)
Class DictHash (T U : Type) := {
  dict_hash : T → U;
  hash_to_u64 : T → Z;
}.
Class DictHashLaws (T U : Type) `{DictHash T U} :=
  #[global] dict_hash_inj :: Inj (=) (=) (dict_hash (T:=T) (U:=U)).

(** ** TypedDict *)

Section TypedDict.
Context {T U : Type} `{Countable U} `{DictHash T U}.

Record TypedDict := mkTyped {
  dictionary : list T;
  indices : list (option Z);
  key_to_ind : gmap U Z;
}.

Definition TypedDict_new : TypedDict := mkTyped [] [] ∅.

Definition TypedDict_len (d : TypedDict) : Z := len (dictionary d).

(** One iteration of the loop of [extend]. *)
Definition extend_step (d : TypedDict) (val : option T) : TypedDict :=
  match val with
  | Some val =>
      let hash_val := dict_hash val in
      match key_to_ind d !! hash_val with
      | Some ind => mkTyped (dictionary d) (indices d ++ [Some ind]) (key_to_ind d)
      | None =>
          let ind := len (dictionary d) in
          mkTyped (dictionary d ++ [val]) (indices d ++ [Some ind])
            (<[hash_val := ind]> (key_to_ind d))
      end
  | None => mkTyped (dictionary d) (indices d ++ [None]) (key_to_ind d)
  end.

(** [extend]: the new state, and the slice of the indices it pushed. *)
Definition TypedDict_extend (d : TypedDict) (arr : list (option T))
    : TypedDict * list (option Z) :=
  let slice_begin_idx := length (indices d) in
  let d' := foldl extend_step d arr in
  (d', drop slice_begin_idx (indices d')).

Definition submit_step (d : TypedDict) (val : T) : TypedDict :=
  let hash_val := dict_hash val in
  match key_to_ind d !! hash_val with
  | Some _ => d
  | None =>
      let ind := len (dictionary d) in
      mkTyped (dictionary d ++ [val]) (indices d) (<[hash_val := ind]> (key_to_ind d))
  end.

(** [arr.flatten()] *)
Definition flatten (arr : list (option T)) : list T := omap id arr.

Definition TypedDict_submit_values (d : TypedDict) (arr : list (option T)) : TypedDict :=
  foldl submit_step d (flatten arr).

Definition submit_values_no_null (d : TypedDict) (arr : list T) : TypedDict :=
  foldl submit_step d arr.

Definition common_values (self other : TypedDict) : list T :=
  filter (λ val, is_Some (key_to_ind self !! dict_hash val)) (dictionary other).

(** [merge_with]: both states and the number of common values. *)
Definition TypedDict_merge_with (self other : TypedDict) : TypedDict * TypedDict * Z :=
  let common := common_values self other in
  match common with
  | [] => (self, other, 0)
  | _ =>
      let self0 := mkTyped [] (indices self) ∅ in
      let other0 := mkTyped [] (indices other) ∅ in
      let self' := submit_values_no_null
                     (submit_values_no_null self0 common) (dictionary self) in
      let other' := submit_values_no_null
                      (submit_values_no_null other0 common) (dictionary other) in
      (self', other', len common)
  end.

Definition TypedDict_peek_dict (d : TypedDict) : list T := dictionary d.

Definition TypedDict_finish (d : TypedDict) : list T * list (option Z) :=
  (dictionary d, indices d).

Definition hash_iter (d : TypedDict) : list Z := map hash_to_u64 (dictionary d).

(** ** Its invariant: [key_to_ind] inverts [dictionary] *)
Definition wf_dict (d : TypedDict) : Prop :=
  ∀ k i, key_to_ind d !! k = Some i ↔
    0 ≤ i ∧ ∃ v, dictionary d !! Z.to_nat i = Some v ∧ dict_hash v = k.

(** An index stands for a row: a null for a null, a position of the dictionary
    for the value there. *)
Definition decodes (dict : list T) (o : option Z) (v : option T) : Prop :=
  match o with
  | None => v = None
  | Some i => 0 ≤ i ∧ is_Some v ∧ dict !! Z.to_nat i = v
  end.

(** What deduplication means: every value once, at its first occurrence. *)
Fixpoint distinct_from (seen : list U) (arr : list T) : list T :=
  match arr with
  | [] => []
  | v :: arr =>
      if decide (dict_hash v ∈ seen) then distinct_from seen arr
      else v :: distinct_from (dict_hash v :: seen) arr
  end.

Lemma wf_new : wf_dict TypedDict_new.
Proof.
  intros k i. unfold TypedDict_new. simpl. rewrite lookup_empty.
  split; [done|]. by intros (_ & v & Hv & _).
Qed.

Lemma wf_push d v :
  wf_dict d → key_to_ind d !! dict_hash v = None → ∀ ind,
  wf_dict (mkTyped (dictionary d ++ [v]) ind (<[dict_hash v := len (dictionary d)]> (key_to_ind d))).
Proof.
  intros Hwf Hnone ind k i. simpl. rewrite lookup_insert_Some. split.
  - intros [[<- <-]|[Hne Hi]].
    + split; [apply len_nonneg|]. exists v. split; [|done]. unfold len.
      by rewrite Nat2Z.id, list_lookup_middle.
    + apply Hwf in Hi as (Hi & w & Hw & Hk). split; [done|]. exists w. split; [|done].
      apply lookup_app_Some. by left.
  - intros (Hi & w & [Hw|[Hge Hw]]%lookup_app_Some & Hk).
    + right. split; [|apply Hwf; eauto]. intros Heq.
      assert (key_to_ind d !! dict_hash v = Some i) by (apply Hwf; subst; eauto). congruence.
    + left. apply list_lookup_singleton_Some in Hw as [Hz ->]. split; [done|].
      unfold len. lia.
Qed.

Lemma wf_bound d k i : wf_dict d → key_to_ind d !! k = Some i → 0 ≤ i < len (dictionary d).
Proof.
  intros Hwf Hk. apply Hwf in Hk as (Hi & v & Hv & _).
  apply lookup_lt_Some in Hv. unfold len. lia.
Qed.

(** Two states with the same values differ only in their row indices. *)
Lemma wf_indices d ind : wf_dict d → wf_dict (mkTyped (dictionary d) ind (key_to_ind d)).
Proof. done. Qed.

Lemma wf_nodup d : wf_dict d → NoDup (map dict_hash (dictionary d)).
Proof.
  intros Hwf. apply NoDup_alt. intros i j k Hi Hj.
  apply list_lookup_fmap_Some in Hi as (v & -> & Hv).
  apply list_lookup_fmap_Some in Hj as (w & Hk & Hw).
  assert (key_to_ind d !! dict_hash v = Some (Z.of_nat i))
    by (apply Hwf; split; [lia|]; exists v; by rewrite Nat2Z.id).
  assert (key_to_ind d !! dict_hash v = Some (Z.of_nat j))
    by (apply Hwf; split; [lia|]; exists w; rewrite Nat2Z.id; by split).
  simplify_eq. lia.
Qed.

Lemma wf_key_elem d k : wf_dict d → is_Some (key_to_ind d !! k) ↔ k ∈ map dict_hash (dictionary d).
Proof.
  intros Hwf. rewrite list_elem_of_fmap. split.
  - intros [i Hi]. apply Hwf in Hi as (_ & v & Hv & Hk). exists v. split; [done|].
    by eapply list_elem_of_lookup_2.
  - intros (v & -> & Hv). apply list_elem_of_lookup in Hv as [i Hi].
    exists (Z.of_nat i). apply Hwf. split; [lia|]. exists v. by rewrite Nat2Z.id.
Qed.

(** Only the set of the keys seen matters. *)
Lemma distinct_from_seen seen seen' arr :
  (∀ k, k ∈ seen ↔ k ∈ seen') → distinct_from seen arr = distinct_from seen' arr.
Proof.
  revert seen seen'. induction arr as [|v arr IH]; intros seen seen' Hs; simpl; [done|].
  pose proof (Hs (dict_hash v)) as Hv.
  destruct (decide (dict_hash v ∈ seen)), (decide (dict_hash v ∈ seen')); [|tauto..|].
  { by apply IH. }
  f_equal. apply IH. intros k. set_solver.
Qed.
End TypedDict.
Arguments TypedDict : clear implicits.
Arguments TypedDict T U {_ _}.

(** *** What the operations do to a well-formed builder *)

Section TypedDictLemmas.
Context {T U : Type} `{Countable U} `{!DictHash T U} `{!DictHashLaws T U}.
Implicit Types (d : TypedDict T U).

Lemma decodes_app (l k : list T) o v : decodes l o v → decodes (l ++ k) o v.
Proof.
  destruct o as [i|]; simpl; [|done]. intros (Hi & [x ->] & Hl). split; [done|].
  split; [done|]. apply lookup_app_Some. by left.
Qed.

Lemma decode_stable d (new : list T) k i :
  wf_dict d → key_to_ind d !! k = Some i →
  ∃ v, dict_hash v = k ∧ (dictionary d ++ new) !! Z.to_nat i = Some v.
Proof.
  intros Hwf (_ & v & Hv & Hk)%Hwf. exists v. split; [done|]. apply lookup_app_Some. by left.
Qed.

Lemma extend_loop d arr :
  wf_dict d →
  let d' := foldl extend_step d arr in
  wf_dict d' ∧
  dictionary d' = dictionary d
    ++ distinct_from (map dict_hash (dictionary d)) (flatten arr) ∧
  ∃ slice, indices d' = indices d ++ slice ∧ Forall2 (decodes (dictionary d')) slice arr.
Proof.
  revert d. induction arr as [|[v|] arr IH]; intros d Hwf; cbn [foldl].
  - split; [done|]. split; [by rewrite app_nil_r|]. exists []. by rewrite app_nil_r.
  - destruct (key_to_ind d !! dict_hash v) as [i|] eqn:Hk.
    + replace (extend_step d (Some v)) with
        (mkTyped (dictionary d) (indices d ++ [Some i]) (key_to_ind d))
        by (unfold extend_step; by rewrite Hk).
      destruct (IH _ (wf_indices d (indices d ++ [Some i]) Hwf)) as (Hwf' & Hd & sl & Hsl & Hdec).
      cbn [dictionary indices key_to_ind] in *. split; [done|]. split.
      { rewrite Hd. f_equal. unfold flatten. csimpl.
        rewrite decide_True; [done|]. apply wf_key_elem; [done|]. by rewrite Hk. }
      exists (Some i :: sl). split; [by rewrite Hsl, <-app_assoc|].
      constructor; [|done]. simpl. rewrite Hd. split; [by apply (wf_bound d _ _ Hwf Hk)|].
      split; [done|].
      destruct (decode_stable d (distinct_from (map dict_hash (dictionary d)) (flatten arr)) _ _ Hwf Hk)
        as (w & Hw & ->). by apply dict_hash_inj in Hw as ->.
    + replace (extend_step d (Some v)) with
        (mkTyped (dictionary d ++ [v]) (indices d ++ [Some (len (dictionary d))])
           (<[dict_hash v := len (dictionary d)]> (key_to_ind d)))
        by (unfold extend_step; by rewrite Hk).
      destruct (IH _ (wf_push d v Hwf Hk (indices d ++ [Some (len (dictionary d))])))
        as (Hwf' & Hd & sl & Hsl & Hdec).
      cbn [dictionary indices key_to_ind] in *.
      assert (Hnew : dict_hash v ∉ map dict_hash (dictionary d)).
      { rewrite <-wf_key_elem by done. rewrite Hk. by intros []. }
      split; [done|]. split.
      { rewrite Hd. unfold flatten at 2. csimpl. rewrite decide_False by done.
        rewrite <-app_assoc. do 2 f_equal. apply distinct_from_seen.
        intros k. rewrite map_app, elem_of_app. cbn [map]. set_solver. }
      exists (Some (len (dictionary d)) :: sl). split; [by rewrite Hsl, <-app_assoc|].
      constructor; [|done]. simpl. split; [apply len_nonneg|]. split; [done|].
      rewrite Hd, <-app_assoc. unfold len.
      rewrite Nat2Z.id. by apply list_lookup_middle.
  - cbn [extend_step]. destruct (IH _ (wf_indices d (indices d ++ [None]) Hwf)) as (Hwf' & Hd & sl & Hsl & Hdec).
    cbn [dictionary indices key_to_ind] in *. split; [done|]. split; [done|].
    exists (None :: sl). split; [by rewrite Hsl, <-app_assoc|]. by constructor.
Qed.

Lemma submit_loop d (arr : list T) :
  wf_dict d →
  let d' := foldl submit_step d arr in
  wf_dict d' ∧
  dictionary d' = dictionary d ++ distinct_from (map dict_hash (dictionary d)) arr ∧
  indices d' = indices d.
Proof.
  revert d. induction arr as [|v arr IH]; intros d Hwf; cbn [foldl].
  { split; [done|]. split; [by rewrite app_nil_r|done]. }
  cbn [distinct_from]. destruct (key_to_ind d !! dict_hash v) as [i|] eqn:Hk.
  - replace (submit_step d v) with d by (unfold submit_step; by rewrite Hk).
    rewrite decide_True; [by apply IH|]. apply wf_key_elem; [done|]. by rewrite Hk.
  - replace (submit_step d v) with
      (mkTyped (dictionary d ++ [v]) (indices d)
         (<[dict_hash v := len (dictionary d)]> (key_to_ind d)))
      by (unfold submit_step; by rewrite Hk).
    destruct (IH _ (wf_push d v Hwf Hk (indices d))) as (Hwf' & Hd & Hi).
    cbn [dictionary indices] in *. split; [done|]. split; [|done].
    rewrite decide_False by (rewrite <-wf_key_elem, Hk by done; by intros []).
    rewrite Hd, <-app_assoc. do 2 f_equal. apply distinct_from_seen.
    intros k. rewrite map_app, elem_of_app. cbn [map]. set_solver.
Qed.

Lemma distinct_from_nodup seen (arr : list T) :
  NoDup (map dict_hash arr) →
  distinct_from seen arr = filter (λ v, dict_hash v ∉ seen) arr.
Proof.
  revert seen. induction arr as [|v arr IH]; intros seen Hnd; [done|].
  cbn [map] in Hnd. apply NoDup_cons in Hnd as [Hv Hnd]. cbn [distinct_from].
  case_decide as Hs.
  - rewrite filter_cons_False by (intros Hn; by apply Hn). by apply IH.
  - rewrite filter_cons_True by done. f_equal. rewrite IH by done.
    apply list_filter_iff_in. intros w Hw. rewrite not_elem_of_cons. split; [by intros []|].
    intros Hws. split; [|done]. intros Heq. apply Hv. rewrite <-Heq.
    by apply list_elem_of_fmap_2.
Qed.

Lemma NoDup_of_hashes (l : list T) : NoDup (map dict_hash l) → NoDup l.
Proof. apply NoDup_fmap_1. Qed.

Lemma elem_of_hashes (v : T) (l : list T) : dict_hash v ∈ map dict_hash l ↔ v ∈ l.
Proof. apply (list_elem_of_fmap_inj dict_hash). Qed.

Lemma common_values_spec d1 d2 v :
  wf_dict d1 → v ∈ common_values d1 d2 ↔ v ∈ dictionary d1 ∧ v ∈ dictionary d2.
Proof.
  intros Hwf. unfold common_values. rewrite list_elem_of_filter, wf_key_elem by done.
  by rewrite elem_of_hashes.
Qed.

(** The common values first, then what only this side has. *)
Lemma rebuild_spec d (common : list T) ind :
  wf_dict d → NoDup common → (∀ v, v ∈ common → v ∈ dictionary d) →
  let d' := submit_values_no_null
              (submit_values_no_null (mkTyped [] ind ∅) common) (dictionary d) in
  wf_dict d' ∧ indices d' = ind ∧ take (length common) (dictionary d') = common ∧
  dictionary d' ≡ₚ dictionary d.
Proof.
  intros Hwf Hnd Hin d'.
  destruct (submit_loop (mkTyped [] ind ∅) common) as (Hwf1 & Hd1 & Hi1).
  { apply (wf_indices TypedDict_new), wf_new. }
  destruct (submit_loop _ (dictionary d) Hwf1) as (Hwf2 & Hd2 & Hi2).
  fold (submit_values_no_null (mkTyped [] ind ∅) common) in *.
  fold (submit_values_no_null (submit_values_no_null (mkTyped [] ind ∅) common) (dictionary d)) in *.
  fold d' in Hwf2, Hd2, Hi2.
  assert (NoDup (map dict_hash common)) as Hndh by (apply NoDup_fmap_2; [apply dict_hash_inj|done]).
  rewrite distinct_from_nodup in Hd1 by done. cbn [dictionary map app] in Hd1.
  rewrite list_filter_all in Hd1 by (intros ? _; apply not_elem_of_nil).
  rewrite Hd1 in Hd2. rewrite distinct_from_nodup in Hd2 by (by apply wf_nodup).
  split; [done|]. split; [by rewrite Hi2, Hi1|]. rewrite Hd2.
  split; [by rewrite take_app_length|].
  assert (Hp : common ≡ₚ filter (λ v, dict_hash v ∈ map dict_hash common) (dictionary d)).
  { apply NoDup_Permutation; [done| |].
    - apply NoDup_filter, NoDup_of_hashes. by apply wf_nodup.
    - intros v. rewrite list_elem_of_filter, elem_of_hashes. naive_solver. }
  rewrite Hp at 1. apply filter_app_complement.
Qed.
End TypedDictLemmas.

(** ** Dictionary: the dynamically typed wrapper *)

(** The pairs [(store_type, hash_type)] a boxed [TypedDict] is built with. *)
Inductive StoreType := Store_i32 | Store_i64 | Store_f32 | Store_f64 | Store_String | Store_bool.
#[export] Instance StoreType_eq_dec : EqDecision StoreType.
Proof. solve_decision. Defined.

(** The Arrow array types the methods downcast to. *)
Inductive ArrayType :=
  | Int32Array | Int64Array | Float32Array | Float64Array | StringArray | LargeStringArray
  | TimestampSecondArray | TimestampMillisecondArray
  | TimestampMicrosecondArray | TimestampNanosecondArray
  | Time32SecondArray | Time32MillisecondArray
  | Time64MicrosecondArray | Time64NanosecondArray
  | Date32Array | BooleanArray | UInt64Array.

(** The data type an array built by [<array_type>::from(vec)] has. *)
Definition default_type (t : ArrayType) : DataType :=
  match t with
  | Int32Array => Int32 | Int64Array => Int64
  | Float32Array => Float32 | Float64Array => Float64
  | StringArray => Utf8 | LargeStringArray => LargeUtf8
  | TimestampSecondArray => Timestamp Second None
  | TimestampMillisecondArray => Timestamp Millisecond None
  | TimestampMicrosecondArray => Timestamp Microsecond None
  | TimestampNanosecondArray => Timestamp Nanosecond None
  | Time32SecondArray => Time32 Second
  | Time32MillisecondArray => Time32 Millisecond
  | Time64MicrosecondArray => Time64 Microsecond
  | Time64NanosecondArray => Time64 Nanosecond
  | Date32Array => Date32 | BooleanArray => Boolean | UInt64Array => UInt64
  end.

(** [arr.as_any().downcast_ref::<array_type>()]: a timestamp array type covers
    every time zone. *)
Definition downcast_array (t : ArrayType) (a : Array) : option (list (option value)) :=
  match a with
  | PrimArray dt vals =>
      let dt := match dt with Timestamp u _ => Timestamp u None | dt => dt end in
      if decide (dt = default_type t) then Some vals else None
  | _ => None
  end.

(** The store types [try_new] picks. *)
Definition try_new_table (dt : DataType) : option StoreType :=
  match dt with
  | Int32 => Some Store_i32
  | Int64 => Some Store_i64
  | Float32 => Some Store_f32
  | Float64 => Some Store_f64
  | Utf8 | LargeUtf8 => Some Store_String
  | Timestamp _ _ => Some Store_i64
  | Time32 _ => Some Store_i32
  | Time64 _ => Some Store_i64
  | Date32 => Some Store_i32
  | Boolean => Some Store_bool
  | _ => None
  end.

(** The array and store types that every other method repeats. *)
Definition method_table (dt : DataType) : option (ArrayType * StoreType) :=
  match dt with
  | Int32 => Some (Int32Array, Store_i32)
  | Int64 => Some (Int64Array, Store_i64)
  | Float32 => Some (Float32Array, Store_f32)
  | Float64 => Some (Float64Array, Store_f64)
  | Utf8 => Some (StringArray, Store_String)
  | LargeUtf8 => Some (LargeStringArray, Store_String)
  | Timestamp Second _ => Some (TimestampSecondArray, Store_i64)
  | Timestamp Millisecond _ => Some (TimestampMillisecondArray, Store_i64)
  | Timestamp Microsecond _ => Some (TimestampMicrosecondArray, Store_i64)
  | Timestamp Nanosecond _ => Some (TimestampNanosecondArray, Store_i64)
  | Time32 Second => Some (Time32SecondArray, Store_i32)
  | Time32 Millisecond => Some (Time32MillisecondArray, Store_i32)
  | Time64 Microsecond => Some (Time64MicrosecondArray, Store_i64)
  | Time64 Nanosecond => Some (Time64NanosecondArray, Store_i64)
  | Date32 => Some (Date32Array, Store_i32)
  | Boolean => Some (BooleanArray, Store_bool)
  | _ => None
  end.

Section Dictionary.
(** [std::hash::DefaultHasher] on a string. *)
Context (string_hash : string → Z).

(** The implementations of [DictHash] for i32, i64, f32, f64, String and bool;
    a float is its bit pattern already. *)
#[local] Instance value_dict_hash : DictHash value value := {
  dict_hash v := v;
  hash_to_u64 v :=
    match v with
    | VInt x => wrap 64 x
    | VFloat bits => bits
    | VStr s => string_hash s
    | VBool b => Z.b2z b
    end;
}.
#[local] Instance value_dict_hash_laws : DictHashLaws value value.
Proof. by intros x y. Qed.

Record Dictionary := mkDictionary {
  datatype : DataType;
  store : StoreType;
  typed_dict : TypedDict value value;
}.

Definition downcast_dict (s : StoreType) (d : Dictionary) : option (TypedDict value value) :=
  if decide (store d = s) then Some (typed_dict d) else None.

Definition with_typed (d : Dictionary) (td : TypedDict value value) : Dictionary :=
  mkDictionary (datatype d) (store d) td.

Definition index_array (idx : list (option Z)) : Array :=
  PrimArray UInt64 (map (option_map VInt) idx).
Definition dict_array (t : ArrayType) (dict : list value) : Array :=
  PrimArray (default_type t) (map Some dict).

(** The head of every method: the row of its table, and the downcast of the
    boxed builder. *)
Definition method_entry (d : Dictionary) (msg : string)
    : outcome (ArrayType * TypedDict value value) :=
  match method_table (datatype d) with
  | Some (t, s) =>
      let! td := ok_or (downcast_dict s d) (General msg) in Ok (t, td)
  | None => Err (NYI "Other datatypes are not supported")
  end.

Definition Dictionary_try_new (dt : DataType) : outcome Dictionary :=
  match try_new_table dt with
  | Some s => Ok (mkDictionary dt s TypedDict_new)
  | None => Err (NYI "datatype")
  end.

Definition Dictionary_extend (d : Dictionary) (arr : Array) : outcome Dictionary :=
  if decide (arr_data_type arr = datatype d) then
    let! '(t, td) := method_entry d "Dict type mismatch in extend" in
    let! vals := ok_or (downcast_array t arr) (General "Array type mismatch in extend") in
    Ok (with_typed d (TypedDict_extend td vals).1)
  else Err (General "Data type mismatch").

Definition Dictionary_extend_and_get_index (d : Dictionary) (arr : Array)
    : outcome (Array * Dictionary) :=
  if decide (arr_data_type arr = datatype d) then
    let! '(t, td) := method_entry d "Dict type mismatch in extend and get index" in
    let! vals := ok_or (downcast_array t arr)
                   (General "Array type mismatch in extend and get index") in
    let '(td, slice) := TypedDict_extend td vals in
    Ok (index_array slice, with_typed d td)
  else Err (General "Data type mismatch").

Definition Dictionary_submit_values (d : Dictionary) (arr : Array) : outcome Dictionary :=
  let! '(t, td) := method_entry d "Dict type mismatch in submit values" in
  let! vals := ok_or (downcast_array t arr)
                 (General "Array type mismatch in submit values") in
  Ok (with_typed d (TypedDict_submit_values td vals)).

(** [merge_with] looks the table up for [self] only. *)
Definition Dictionary_merge_with (self other : Dictionary)
    : outcome (Z * Dictionary * Dictionary) :=
  match method_table (datatype self) with
  | Some (_, s) =>
      let! td := ok_or (downcast_dict s self) (General "Self dict type mismatch in merge") in
      let! otd := ok_or (downcast_dict s other) (General "Other dict type mismatch in merge") in
      let '(td, otd, n) := TypedDict_merge_with td otd in
      Ok (n, with_typed self td, with_typed other otd)
  | None => Err (NYI "Other datatypes are not supported")
  end.

Definition Dictionary_peek_dict (d : Dictionary) : outcome Array :=
  let! '(t, td) := method_entry d "Self dict type mismatch in peek dict" in
  Ok (dict_array t (TypedDict_peek_dict td)).

Definition Dictionary_finish (d : Dictionary) : outcome (Array * Array) :=
  let! '(t, td) := method_entry d "Dict type mismatch in finish" in
  let '(dict_vec, index_vec) := TypedDict_finish td in
  Ok (dict_array t dict_vec, index_array index_vec).

Definition Dictionary_len (d : Dictionary) : outcome Z :=
  let! '(_, td) := method_entry d "Dict type mismatch in len" in
  Ok (TypedDict_len td).

Definition Dictionary_dict_hash_iter (d : Dictionary) : outcome (list Z) :=
  let! '(_, td) := method_entry d "Dict type mismatch in hash iter" in
  Ok (hash_iter td).

(** A dictionary as the operations keep it. *)
Definition dictionary_ok (d : Dictionary) : Prop :=
  (∃ t, method_table (datatype d) = Some (t, store d)) ∧ wf_dict (typed_dict d).

(** *** Lemmas *)

Lemma method_table_try_new dt t s :
  method_table dt = Some (t, s) → try_new_table dt = Some s.
Proof.
  destruct dt; try match goal with u : TimeUnit |- _ => destruct u end;
    intros [=]; subst; reflexivity.
Qed.

Lemma method_table_downcast dt t s vals :
  method_table dt = Some (t, s) → downcast_array t (PrimArray dt vals) = Some vals.
Proof.
  destruct dt; try match goal with u : TimeUnit |- _ => destruct u end;
    intros H; simplify_eq/=; done.
Qed.

Lemma dictionary_entry d msg :
  dictionary_ok d → ∃ t, method_table (datatype d) = Some (t, store d) ∧
    method_entry d msg = Ok (t, typed_dict d).
Proof.
  intros [[t Ht] Hwf]. exists t. split; [done|]. unfold method_entry. rewrite Ht.
  unfold downcast_dict. by rewrite decide_True.
Qed.

Lemma try_new_ok dt :
  is_Some (method_table dt) →
  ∃ d, Dictionary_try_new dt = Ok d ∧ dictionary_ok d ∧ datatype d = dt ∧
    dictionary (typed_dict d) = [].
Proof.
  intros [[t s] Ht]. unfold Dictionary_try_new. rewrite (method_table_try_new _ _ _ Ht).
  eexists. split; [done|]. split; [|done]. split; [by exists t|apply wf_new].
Qed.

(** The rows an index array stands for. *)
Definition decodes_to (dict : list value) (vals : list (option value)) (idx : Array) : Prop :=
  ∃ rows, idx = PrimArray UInt64 rows ∧ lookup_rows dict rows = vals.

Lemma decodes_rows dict sl vals :
  Forall2 (decodes dict) sl vals → decodes_to dict vals (index_array sl).
Proof.
  intros Hdec. eexists. split; [done|]. unfold lookup_rows. rewrite map_map.
  induction Hdec as [|o v sl vals Ho _ IH]; cbn [map]; [done|]. rewrite IH. f_equal.
  destruct o as [i|]; simpl in *; [by destruct Ho as (_ & _ & ?)|done].
Qed.

Lemma extend_and_get_index_ok d vals :
  dictionary_ok d →
  ∃ sl d', Dictionary_extend_and_get_index d (PrimArray (datatype d) vals)
      = Ok (index_array sl, d') ∧
    dictionary_ok d' ∧ datatype d' = datatype d ∧
    (∃ new, dictionary (typed_dict d') = dictionary (typed_dict d) ++ new) ∧
    Forall2 (decodes (dictionary (typed_dict d'))) sl vals.
Proof.
  intros Hok. unfold Dictionary_extend_and_get_index. simpl arr_data_type.
  rewrite decide_True by done.
  destruct (dictionary_entry d "Dict type mismatch in extend and get index" Hok)
    as (t & Ht & ->). cbn [obind].
  rewrite (method_table_downcast _ _ _ _ Ht). cbn [ok_or obind].
  destruct Hok as [_ Hwf]. destruct (extend_loop (typed_dict d) vals Hwf)
    as (Hwf' & Hd & sl & Hsl & Hdec).
  unfold TypedDict_extend. rewrite Hsl, drop_app_length. exists sl. eexists.
  split; [reflexivity|]. split; [split; [by exists t|done]|]. split; [done|].
  split; [by eexists|done].
Qed.

(** The columns are indexed one after the other; the indexes of an earlier one
    stay valid while the dictionary grows. *)
Lemma extend_all_ok d cols :
  dictionary_ok d →
  ∃ sls d', traverse_st Dictionary_extend_and_get_index d (map (PrimArray (datatype d)) cols)
      = Ok (map index_array sls, d') ∧
    dictionary_ok d' ∧ datatype d' = datatype d ∧
    (∃ new, dictionary (typed_dict d') = dictionary (typed_dict d) ++ new) ∧
    Forall2 (λ vals sl, Forall2 (decodes (dictionary (typed_dict d'))) sl vals) cols sls.
Proof.
  revert d. induction cols as [|vals cols IH]; intros d Hok.
  { exists [], d. split; [done|]. split; [done|]. split; [done|]. split; [|done].
    exists []. by rewrite app_nil_r. }
  destruct (extend_and_get_index_ok d vals Hok) as (sl & d1 & Hstep & Hok1 & Hdt & [new Hnew] & Hdec).
  destruct (IH d1 Hok1) as (sls & d2 & Hrun & Hok2 & Hdt2 & [new2 Hnew2] & Hall).
  exists (sl :: sls), d2. cbn [map traverse_st]. rewrite Hstep. cbn [obind].
  rewrite <-Hdt, Hrun. split; [done|]. split; [done|]. split; [congruence|].
  split; [rewrite Hnew2, Hnew, <-app_assoc; by eexists|].
  constructor; [|done]. rewrite Hnew2. eapply Forall2_impl; [exact Hdec|].
  intros. by apply decodes_app.
Qed.

Lemma peek_dict_ok d :
  dictionary_ok d →
  ∃ t, Dictionary_peek_dict d = Ok (dict_array t (dictionary (typed_dict d))) ∧
    Dictionary_len d = Ok (len (dictionary (typed_dict d))).
Proof.
  intros Hok. destruct (dictionary_entry d "Self dict type mismatch in peek dict" Hok) as (t & _ & H1).
  destruct (dictionary_entry d "Dict type mismatch in len" Hok) as (t' & _ & H2).
  exists t. unfold Dictionary_peek_dict, Dictionary_len. by rewrite H1, H2.
Qed.
End Dictionary.

(** ** The contracts *)

(** C27: index columns decode.  For every supported data type, indexing any
    number of columns one after the other through one shared dictionary
    succeeds, and the index arrays handed out, the earlier ones included, give
    back exactly their columns (nulls as nulls) against the final dictionary,
    which holds every value once. *)
Theorem dictionary_index_roundtrip string_hash dt cols :
  is_Some (method_table dt) →
  ∃ d0 d idxs t dict,
    Dictionary_try_new dt = Ok d0 ∧
    traverse_st (Dictionary_extend_and_get_index string_hash) d0 (map (PrimArray dt) cols) = Ok (idxs, d) ∧
    Dictionary_peek_dict d = Ok (dict_array t dict) ∧ Dictionary_len d = Ok (len dict) ∧
    NoDup dict ∧ Forall2 (decodes_to dict) cols idxs.
Proof.
  intros Hdt. destruct (try_new_ok string_hash dt Hdt) as (d0 & Hnew & Hok & <- & _).
  destruct (extend_all_ok string_hash d0 cols Hok) as (sls & d & Hrun & Hokd & _ & _ & Hall).
  destruct (peek_dict_ok string_hash d Hokd) as (t & Hpeek & Hlen).
  exists d0, d, (map index_array sls), t, (dictionary (typed_dict d)).
  repeat split; [done..| |].
  - destruct Hokd as [_ Hwf]. by apply wf_nodup, NoDup_of_hashes in Hwf.
  - apply Forall2_fmap_r. eapply Forall2_impl; [exact Hall|]. intros vals sl.
    apply decodes_rows.
Qed.

Lemma dictionary_index_roundtrip_witness :
  let string_hash := λ s, Z.of_nat (String.length s) in
  ∃ d0 d idxs t dict,
    Dictionary_try_new Utf8 = Ok d0 ∧
    traverse_st (Dictionary_extend_and_get_index string_hash) d0
      (map (PrimArray Utf8) [[Some (VStr "a"); None; Some (VStr "b")]; [Some (VStr "b")]])
    = Ok (idxs, d) ∧
    Dictionary_peek_dict d = Ok (dict_array t dict) ∧ Dictionary_len d = Ok (len dict) ∧
    NoDup dict ∧
    Forall2 (decodes_to dict) [[Some (VStr "a"); None; Some (VStr "b")]; [Some (VStr "b")]] idxs.
Proof. intros string_hash. apply (dictionary_index_roundtrip string_hash Utf8). by eexists. Defined.

Lemma merge_with_facts {T U} `{Countable U} `{!DictHash T U} `{!DictHashLaws T U}
    (self other : TypedDict T U) :
  wf_dict self → wf_dict other →
  let '(self', other', n) := TypedDict_merge_with self other in
  ∃ common,
    n = len common ∧ (∀ v, v ∈ common ↔ v ∈ dictionary self ∧ v ∈ dictionary other) ∧
    (common = [] → self' = self ∧ other' = other) ∧
    (common ≠ [] →
      take (length common) (dictionary self') = common ∧
      take (length common) (dictionary other') = common) ∧
    wf_dict self' ∧ wf_dict other' ∧
    dictionary self' ≡ₚ dictionary self ∧ dictionary other' ≡ₚ dictionary other ∧
    indices self' = indices self ∧ indices other' = indices other.
Proof.
  intros Hs Ho. unfold TypedDict_merge_with.
  pose proof (λ v, common_values_spec self other v Hs) as Hc.
  assert (Hnd : NoDup (common_values self other))
    by (apply NoDup_filter, NoDup_of_hashes; by apply wf_nodup).
  destruct (common_values self other) as [|v common].
  - exists []. naive_solver.
  - destruct (rebuild_spec self (v :: common) (indices self) Hs Hnd) as (? & ? & ? & ?);
      [naive_solver|].
    destruct (rebuild_spec other (v :: common) (indices other) Ho Hnd) as (? & ? & ? & ?);
      [naive_solver|].
    exists (v :: common). by split_and!.
Qed.

(** C28: merging two builders that share a value makes their common values, in one
    common order, the prefix of both dictionaries (whose length is returned),
    keeps the set of values and the well-formedness of each, and leaves the row
    indices alone; builders with no common value are left unchanged. *)
Theorem merge_with_correct {T U} `{Countable U} `{!DictHash T U} `{!DictHashLaws T U}
    (self other : TypedDict T U) :
  wf_dict self → wf_dict other →
  let '(self', other', n) := TypedDict_merge_with self other in
  ∃ common,
    n = len common ∧ (∀ v, v ∈ common ↔ v ∈ dictionary self ∧ v ∈ dictionary other) ∧
    (common = [] → self' = self ∧ other' = other) ∧
    (common ≠ [] →
      take (length common) (dictionary self') = common ∧
      take (length common) (dictionary other') = common) ∧
    wf_dict self' ∧ wf_dict other' ∧
    dictionary self' ≡ₚ dictionary self ∧ dictionary other' ≡ₚ dictionary other ∧
    indices self' = indices self ∧ indices other' = indices other.
Proof. apply merge_with_facts. Qed.

(** The merge of the unit test of dict.rs. *)
#[local] Instance Z_dict_hash : DictHash Z Z := {| dict_hash := id; hash_to_u64 := id |}.
#[local] Instance Z_dict_hash_laws : DictHashLaws Z Z.
Proof. by intros x y. Qed.

Definition merge_left : TypedDict Z Z :=
  TypedDict_submit_values TypedDict_new (map Some [11; 1; 3; 4; 2; 6; 4; 3]).
Definition merge_right : TypedDict Z Z :=
  TypedDict_submit_values TypedDict_new (map Some [3; 5; 1; 2; 19; 2; 6]).

Lemma merge_with_correct_witness :
  ∃ d1 d2 n, TypedDict_merge_with merge_left merge_right = (d1, d2, n) ∧
    n = 4 ∧ dictionary d1 = [3; 1; 2; 6; 11; 4] ∧ dictionary d2 = [3; 1; 2; 6; 5; 19] ∧
    wf_dict d1 ∧ wf_dict d2.
Proof.
  assert (wf_dict merge_left) as H1 by apply (submit_loop _ _ wf_new).
  assert (wf_dict merge_right) as H2 by apply (submit_loop _ _ wf_new).
  assert (Hrun : (λ '(d1, d2, n), (n, dictionary d1, dictionary d2))
      (TypedDict_merge_with merge_left merge_right)
    = (4, [3; 1; 2; 6; 11; 4], [3; 1; 2; 6; 5; 19])) by by vm_compute.
  pose proof (merge_with_correct merge_left merge_right H1 H2) as Hm.
  destruct (TypedDict_merge_with merge_left merge_right) as [[d1 d2] n].
  injection Hrun as Hn Hd1 Hd2. destruct Hm as (c & _ & _ & _ & _ & Hw1 & Hw2 & _).
  exists d1, d2, n. by split_and!.
Defined.
