(* ===== verification/Footer.v ===== *)
(** * fff-poc/src/file/footer.rs: the metadata of a file

    The tables of format/File.fbs that the code reads and writes are the records
    of [Module fb]; an accessor of an absent vector or table gives [None].  The
    writer's own structures follow with their [to_fb], then the reader's
    [Footer].  The flatbuffers wire encoding and Arrow's IPC schema message are
    third-party: encoders and parsers with the law that parsing what was encoded
    gives the table back. *)

From S2P Require Import Prelude Arrow Common.

(** ** The tables of format/File.fbs *)
Module fb.

Record MetadataSection := mkMetadataSection {
  offset : Z;
  size_ : Z;
  compression_type : CompressionType;
}.

Record OptionalMetadataSections := mkOptionalSections {
  names : option (list string);
  offsets : option (list Z);
  sizes : option (list Z);
  compression_types : option (list CompressionType);
}.

Record SemVer := mkSemVer { major : Z; minor : Z; patch : Z }.

Record EncodingVersion := mkEncodingVersion {
  ev_encoding_type : EncodingType;
  ev_version : SemVer;
}.

Record WASMEncoding := mkWASMEncoding {
  wasm_id : Z;
  mini_encunit_sizes : option (list Z);
}.

Record Encoding := mkEncoding {
  type_ : EncodingType;
  wasm_encoding : option WASMEncoding;
}.

Record EncUnit := mkEncUnit {
  eu_size : Z;
  eu_num_rows : Z;
  eu_encoding : option Encoding;
  eu_compression : CompressionType;
}.

(** The union of the dictionary encodings of a chunk. *)
Inductive DictionaryEncoding :=
  | NoDictionary
  | LocalDictionary (dictionary_encunit_idxs : option (list Z))
  | SharedDictionary (shared_dictionary_idx : Z).

Record Chunk := mkChunk {
  chunk_offset : Z;
  chunk_size : Z;
  chunk_num_rows : Z;
  chunk_encoding : DictionaryEncoding;
  encunits : option (list EncUnit);
  checksum : option Z;
}.

Record ColumnMetadata := mkColumnMetadata { column_chunks : option (list Chunk) }.

Record RowGroupMetadata := mkRowGroupMetadata { col_metadatas : option (list MetadataSection) }.

Record RowGroups := mkRowGroups {
  row_counts : option (list Z);
  rg_offsets : option (list Z);
  rg_sizes : option (list Z);
  row_group_metadatas : option (list RowGroupMetadata);
}.

Record SharedDictionaryTable := mkSharedDictionaryTable {
  dictionary_chunks : option (list Chunk);
  dictionary_positions : option (list (option (list Z)));
  dictionary_schema : option (list Z);
}.

Inductive LogicalId := FLAT | LIST | STRUCT | LIST_OF_STRUCT_OF_PRIMITIVE.

Inductive LogicalTree := mkLogicalTree (id : LogicalId) (children : list LogicalTree).

Record Footer := mkFooter {
  schema : option (list Z);
  logical_tree : option LogicalTree;
  row_groups : option RowGroups;
  optional_sections : option OptionalMetadataSections;
  shared_dictionary_table : option SharedDictionaryTable;
  encoding_versions : option (list EncodingVersion);
}.

Record WASMBinaries := mkWASMBinaries { wasm_binaries : option (list MetadataSection) }.

End fb.

(** The wire encodings, and the Arrow IPC message of a schema: [None] for bytes
    that are no message, [Some None] for a message that is not a schema. *)
Class Flatbuffers := {
  enc_column_metadata : fb.ColumnMetadata → list Z;
  root_column_metadata : list Z → option fb.ColumnMetadata;
  enc_footer : fb.Footer → list Z;
  root_as_footer : list Z → option fb.Footer;
  enc_wasm_binaries : fb.WASMBinaries → list Z;
  root_wasm_binaries : list Z → option fb.WASMBinaries;
  schema_to_bytes : list Field → list Z;
  root_as_message : list Z → option (option (list Field));
}.

Class FlatbuffersLaws `{Flatbuffers} := {
  column_metadata_roundtrip m : root_column_metadata (enc_column_metadata m) = Some m;
  footer_roundtrip f : root_as_footer (enc_footer f) = Some f;
  wasm_binaries_roundtrip w : root_wasm_binaries (enc_wasm_binaries w) = Some w;
  schema_roundtrip s : root_as_message (schema_to_bytes s) = Some (Some s);
}.

(** ** The writer's structures and their [to_fb] *)

(** [semver::Version], without pre-release and build tags. *)
Abbreviation Version := fb.SemVer.
Abbreviation mkVersion := fb.mkSemVer.

Record EncodingVersion := mkEncodingVersion {
  encoding_type_of : EncodingType;
  version : Version;
}.

Definition DEFAULT_ENCODING_VERSIONS : gmap EncodingType Version :=
  {[ CASCADE := mkVersion 0 21 0; CUSTOM_WASM := mkVersion 1 0 0 ]}.

(** The order in which the map is visited is that of [map_to_list]. *)
Definition create_default_encoding_versions : list EncodingVersion :=
  map (λ '(t, v), mkEncodingVersion t v) (map_to_list DEFAULT_ENCODING_VERSIONS).

Definition EncodingVersion_to_fb (e : EncodingVersion) : fb.EncodingVersion :=
  fb.mkEncodingVersion (encoding_type_of e) (version e).

Inductive DictionaryEncoding :=
  | NoDictionary
  | Dictionary (encunit_idxs : list Z)
  | SharedDictionary (idx : Z).

Record WASMEncoding := mkWASMEncoding {
  wasm_id : Z;
  mini_encunit_sizes : list Z;
}.

Definition WASMEncoding_to_fb (w : WASMEncoding) : fb.WASMEncoding :=
  fb.mkWASMEncoding (wasm_id w) (Some (mini_encunit_sizes w)).

Definition WASMEncoding_from (w : fb.WASMEncoding) : outcome WASMEncoding :=
  let! sizes := unwrap (fb.mini_encunit_sizes w) in
  Ok (mkWASMEncoding (fb.wasm_id w) sizes).

Record Encoding := mkEncoding {
  encoding_type : EncodingType;
  wasm_encoding : option WASMEncoding;
}.

Definition Encoding_default : Encoding := mkEncoding CASCADE None.

Definition Encoding_try_new (t : EncodingType) (w : option WASMEncoding) : outcome Encoding :=
  Ok (mkEncoding t w).

Definition Encoding_from (e : fb.Encoding) : outcome Encoding :=
  match fb.wasm_encoding e with
  | Some w => let! w := WASMEncoding_from w in Ok (mkEncoding (fb.type_ e) (Some w))
  | None => Ok (mkEncoding (fb.type_ e) None)
  end.

Definition Encoding_to_fb (e : Encoding) : fb.Encoding :=
  fb.mkEncoding (encoding_type e) (option_map WASMEncoding_to_fb (wasm_encoding e)).

Record EncUnit := mkEncUnit {
  eu_size : Z;
  eu_num_rows : Z;
  eu_encoding : Encoding;
  eu_compression : CompressionType;
}.

Definition EncUnit_to_fb (u : EncUnit) : fb.EncUnit :=
  fb.mkEncUnit (eu_size u) (eu_num_rows u) (Some (Encoding_to_fb (eu_encoding u)))
    (eu_compression u).

Record Chunk := mkChunk {
  chunk_offset : Z;
  chunk_size : Z;
  chunk_num_rows : Z;
  chunk_encoding : DictionaryEncoding;
  blocks : list EncUnit;
  chunk_checksum : option Z;
}.

Definition Chunk_to_fb (c : Chunk) : fb.Chunk :=
  fb.mkChunk (chunk_offset c) (chunk_size c) (chunk_num_rows c)
    (match chunk_encoding c with
     | NoDictionary => fb.NoDictionary
     | Dictionary idxs => fb.LocalDictionary (Some idxs)
     | SharedDictionary i => fb.SharedDictionary i
     end)
    (Some (map EncUnit_to_fb (blocks c))) (chunk_checksum c).

Record ColumnMetadata := mkColumnMetadata { column_chunks : list Chunk }.

Definition ColumnMetadata_default : ColumnMetadata := mkColumnMetadata [].
Definition add_chunk (m : ColumnMetadata) (c : Chunk) : ColumnMetadata :=
  mkColumnMetadata (column_chunks m ++ [c]).
Definition ColumnMetadata_to_fb (m : ColumnMetadata) : fb.ColumnMetadata :=
  fb.mkColumnMetadata (Some (map Chunk_to_fb (column_chunks m))).

Record MetadataSection := mkMetadataSection {
  ms_offset : Z;
  ms_size : Z;
  ms_compression_type : CompressionType;
}.

Definition MetadataSection_to_fb (m : MetadataSection) : fb.MetadataSection :=
  fb.mkMetadataSection (ms_offset m) (ms_size m) (ms_compression_type m).
Definition MetadataSection_from (m : fb.MetadataSection) : MetadataSection :=
  mkMetadataSection (fb.offset m) (fb.size_ m) (fb.compression_type m).

Record IndirectRowGroupMetadata := mkIndirect { col_sections : list MetadataSection }.

Definition add_col_meta (m : IndirectRowGroupMetadata) (s : MetadataSection) :=
  mkIndirect (col_sections m ++ [s]).
Definition Indirect_from (m : fb.RowGroupMetadata) : IndirectRowGroupMetadata :=
  mkIndirect (map MetadataSection_from (default [] (fb.col_metadatas m))).
Definition Indirect_to_fb (m : IndirectRowGroupMetadata) : fb.RowGroupMetadata :=
  fb.mkRowGroupMetadata (Some (map MetadataSection_to_fb (col_sections m))).

(** [RowGroupMetadata]: the metadata of the columns of one row group. *)
Record RowGroupMetadata := mkRowGroupMetadata { col_metadatas : list ColumnMetadata }.

Record RowGroupsTable := mkRowGroupsTable {
  row_counts : list Z;
  offsets : list Z;
  sizes : list Z;
  indirect_row_group_metadata : list IndirectRowGroupMetadata;
  row_group_metadata : list RowGroupMetadata;
}.

Definition RowGroupsTable_default : RowGroupsTable := mkRowGroupsTable [] [] [] [] [].

Definition add_meta (t : RowGroupsTable) (row_count offset size : Z) (m : RowGroupMetadata)
  : RowGroupsTable :=
  mkRowGroupsTable (row_counts t ++ [row_count]) (offsets t ++ [offset]) (sizes t ++ [size])
    (indirect_row_group_metadata t) (row_group_metadata t ++ [m]).

(** ** Writing the column metadata *)

(** The file being written and the running checksum of what was written. *)
Record Sink `{Checksum} := mkSink {
  out : list Z;
  data_checksum : checksum_state;
}.

(** [stream_position()] *)
Definition stream_position `{Checksum} (s : Sink) : Z := len (out s).

(** [write_all] and [checksum.update] of the same bytes. *)
Definition write_checked `{Checksum} (s : Sink) (buf : list Z) : Sink :=
  mkSink _ (out s ++ buf) (update (data_checksum s) buf).

Section FlushMetadata.
Context `{Checksum} `{Flatbuffers}.

(** One column of [to_indirect_and_flush]. *)
Definition flush_col_meta (st : Sink * IndirectRowGroupMetadata) (col_meta : ColumnMetadata)
  : Sink * IndirectRowGroupMetadata :=
  let '(s, indirect) := st in
  let data := enc_column_metadata (ColumnMetadata_to_fb col_meta) in
  let offset := stream_position s in
  (write_checked s data,
   add_col_meta indirect (mkMetadataSection offset (wrap 32 (len data)) Uncompressed)).

(** One row group. *)
Definition flush_row_group (st : Sink * list IndirectRowGroupMetadata) (rg : RowGroupMetadata)
  : Sink * list IndirectRowGroupMetadata :=
  let '(s, acc) := st in
  let '(s, indirect) := foldl flush_col_meta (s, mkIndirect []) (col_metadatas rg) in
  (s, acc ++ [indirect]).

(** The table with its indirect metadata, the sink, and the start offset. *)
Definition to_indirect_and_flush (t : RowGroupsTable) (s : Sink) : RowGroupsTable * Sink * Z :=
  let start_offset := stream_position s in
  let '(s, indirect) :=
    foldl flush_row_group (s, indirect_row_group_metadata t) (row_group_metadata t) in
  (mkRowGroupsTable (row_counts t) (offsets t) (sizes t) indirect (row_group_metadata t),
   s, start_offset).
End FlushMetadata.

(** ** The postscript *)

Record PostScript := mkPostScript {
  metadata_size : Z;
  footer_size : Z;
  ps_compression : CompressionType;
  checksum_type : ChecksumType;
  ps_data_checksum : Z;
  schema_checksum : Z;
  major_version : Z;
  minor_version : Z;
}.

Definition MAJOR_VERSION : Z := 0.
Definition MINOR_VERSION : Z := 1.
(** ["F3"] *)
Definition MAGIC : list Z := [70; 51].
Definition POSTSCRIPT_SIZE : Z := 32.

(** ** Reading the footer *)

Record GroupedColumnMetadata := mkGrouped {
  column_metadatas : list fb.ColumnMetadata;
  row_count : Z;
  group_offset : Z;
  group_size : Z;
}.

Record Footer := mkFooter {
  footer_schema : list Field;
  row_group_metadatas : list GroupedColumnMetadata;
}.

Record ParsedFooter := mkParsed {
  parsed_schema : list Field;
  parsed_tree : fb.LogicalTree;
  parsed_row_groups : fb.RowGroups;
  parsed_dict : option fb.SharedDictionaryTable;
  parsed_sections : option fb.OptionalMetadataSections;
  parsed_versions : option (gmap EncodingType Version);
}.

(** [izip!] of four sequences: as long as the shortest. *)
Fixpoint zip4 {A B C D} (a : list A) (b : list B) (c : list C) (d : list D)
  : list (A * B * C * D) :=
  match a, b, c, d with
  | a :: as_, b :: bs, c :: cs, d :: ds => (a, b, c, d) :: zip4 as_ bs cs ds
  | _, _, _, _ => []
  end.

Section ReadFooter.
Context `{Flatbuffers}.

Definition parse_footer (footer_fbs : fb.Footer) : outcome ParsedFooter :=
  let! schema_bytes := ok_or (fb.schema footer_fbs) (ParseError "Schema not found") in
  let! message := ok_or (root_as_message schema_bytes)
                    (ParseError "Unable to get root as message") in
  let! schema := ok_or message (ParseError "Unable to read IPC message as schema") in
  let! logical_tree := unwrap (fb.logical_tree footer_fbs) in
  let shared_dict := fb.shared_dictionary_table footer_fbs in
  let! row_groups_pointer := ok_or (fb.row_groups footer_fbs)
                               (ParseError "Row groups not found in footer") in
  let encoding_versions :=
    option_map
      (foldl (λ m v, <[fb.ev_encoding_type v := fb.ev_version v]> m) ∅)
      (fb.encoding_versions footer_fbs) in
  Ok (mkParsed schema logical_tree row_groups_pointer shared_dict
        (fb.optional_sections footer_fbs) encoding_versions).

(** The metadata of one column, cut out of the metadata buffer. *)
Definition column_metadata_at (buf : list Z) (data_size : Z) (s : fb.MetadataSection)
  : outcome fb.ColumnMetadata :=
  let! start := usub (fb.offset s) data_size in
  let! end_ := uadd 64 start (fb.size_ s) in
  let! bytes := slice buf start end_ in
  unwrap (root_column_metadata bytes).

Definition Footer_try_new (buf : list Z) (file_size : Z) (ps : PostScript) : outcome Footer :=
  let! without_ps := usub file_size POSTSCRIPT_SIZE in
  let! data_size := usub without_ps (metadata_size ps) in
  let! footer_start := usub (metadata_size ps) (footer_size ps) in
  let! footer_bytes := slice_from buf footer_start in
  let! footer_fbs := ok_or (root_as_footer footer_bytes)
                       (ParseError "Unable to get root as footer") in
  let! parsed := parse_footer footer_fbs in
  let rgs := parsed_row_groups parsed in
  let! metas := ok_or (fb.row_group_metadatas rgs) (ParseError "Row group metadatas not found") in
  let! counts := ok_or (fb.row_counts rgs) (ParseError "Row counts not found") in
  let! offs := ok_or (fb.rg_offsets rgs) (ParseError "Offsets not found") in
  let! szs := ok_or (fb.rg_sizes rgs) (ParseError "Sizes not found") in
  let! row_group_metadata :=
    traverse (λ '(meta, row_count, offset, size),
        let! sections := unwrap (fb.col_metadatas meta) in
        let! cols := traverse (column_metadata_at buf data_size) sections in
        Ok (mkGrouped cols row_count offset size))
      (zip4 metas counts offs szs) in
  Ok (mkFooter (parsed_schema parsed) row_group_metadata).

(** [RowGroupCntNPointer] of reader/mod.rs. *)
Record RowGroupCntNPointer := mkPointer {
  ptr_row_count : Z;
  ptr_offset : Z;
  ptr_size : Z;
}.

Definition Footer_try_new_with_projection (pointers : list RowGroupCntNPointer)
    (bufs : list (list (list Z))) (schema : list Field) : outcome Footer :=
  let! row_group_metadata :=
    traverse (λ '(row_group_bufs, p),
        let! cols := traverse (λ b, unwrap (root_column_metadata b)) row_group_bufs in
        Ok (mkGrouped cols (ptr_row_count p) (ptr_offset p) (ptr_size p)))
      (zip bufs pointers) in
  Ok (mkFooter schema row_group_metadata).
End ReadFooter.
