(* ===== verification/Options.v ===== *)
(** * fff-poc/src/context.rs and fff-poc/src/options.rs

    The WASM binaries a writer embeds and a reader compiles, and the options of a
    writer.  Compiling a binary into a runtime is a parameter. *)

From S2P Require Import Prelude Arrow Common Footer.

(** ** The writing context *)

(** [WASMId(u32)] *)
Definition WASMId := Z.

Record WasmLib := mkWasmLib {
  encode_lib_path : string;
  decode_wasm_binary : list Z;
}.

Record WASMWritingContext := mkWriting {
  wasms : gmap WASMId WasmLib;
  data_type_to_wasm_ids : gmap DataType WASMId;
  always_set_custom_wasm_for_built_in : bool;
  builtin_wasm_id : option WASMId;
}.

Section Builtin.
(** The contents of the built-in WASM file ([std::fs::read(..).unwrap()]). *)
Context (builtin_wasm : outcome (list Z)).

Definition WASMWritingContext_default : outcome WASMWritingContext :=
  let! binary := unwrap_res builtin_wasm in
  Ok (mkWriting {[ 0 := mkWasmLib "/" binary ]} ∅ false (Some 0)).

Definition default_with_always_set_custom_wasm : outcome WASMWritingContext :=
  let! c := WASMWritingContext_default in
  Ok (mkWriting (wasms c) (data_type_to_wasm_ids c) true (builtin_wasm_id c)).
End Builtin.

Definition WASMWritingContext_empty : WASMWritingContext := mkWriting ∅ ∅ false None.

Definition with_custom_wasms (ws : gmap WASMId WasmLib) (ids : gmap DataType WASMId)
  : WASMWritingContext := mkWriting ws ids false None.

(** [sort_by_key(|(k, _)| k.0)] *)
Definition by_id {A} (a b : WASMId * A) : Prop := a.1 ≤ b.1.
#[export] Instance by_id_dec {A} : RelDecision (@by_id A).
Proof. intros a b. unfold by_id. apply _. Defined.
#[export] Instance by_id_trans {A} : Transitive (@by_id A).
Proof. intros a b c. unfold by_id. lia. Qed.
#[export] Instance by_id_total {A} : Total (@by_id A).
Proof. intros a b. unfold by_id. lia. Qed.

Definition get_sorted_wasms (c : WASMWritingContext) : list (list Z) :=
  map (λ kv, decode_wasm_binary kv.2) (merge_sort by_id (map_to_list (wasms c))).

Definition data_type_to_wasm_id (c : WASMWritingContext) (dt : DataType) : option WASMId :=
  data_type_to_wasm_ids c !! dt.

Definition data_type_to_wasm_lib (c : WASMWritingContext) (dt : DataType) : option WasmLib :=
  data_type_to_wasm_ids c !! dt ≫= λ id, wasms c !! id.

(** ** Writer options *)

Definition DEFAULT_IOUNIT_SIZE : Z := 8 * 1024 * 1024.
Definition DEFAULT_ENCODING_UNIT_LEN : Z := 64 * 1024.
Definition DEFAULT_CHECKSUM_TYPE : ChecksumType := XxHash.

Record CustomEncodingOptions := mkCustom {
  custom_wasms : gmap WASMId WasmLib;
  custom_data_types : gmap DataType WASMId;
}.

Definition CustomEncodingOptions_default : CustomEncodingOptions := mkCustom ∅ ∅.
Definition CustomEncodingOptions_len (o : CustomEncodingOptions) : Z :=
  Z.of_nat (size (custom_wasms o)).
Definition CustomEncodingOptions_is_empty (o : CustomEncodingOptions) : bool :=
  CustomEncodingOptions_len o =? 0.
Definition into_context (o : CustomEncodingOptions) : WASMWritingContext :=
  with_custom_wasms (custom_wasms o) (custom_data_types o).

(** [FileWriterOptions], and its builder, which has the same fields. *)
Record FileWriterOptions := mkOptions {
  iounit_size : Z;
  encoding_unit_len : Z;
  opt_checksum_type : ChecksumType;
  write_built_in_wasm : bool;
  opt_custom_encunit_len : gmap Z Z;
  opt_row_group_size : Z;
  custom_encoding_options : CustomEncodingOptions;
  dictionary_type : DictionaryTypeOptions;
  opt_enable_io_unit_checksum : bool;
  opt_compression_type : CompressionType;
}.
Definition FileWriterOptionsBuilder := FileWriterOptions.

Definition with_defaults : FileWriterOptionsBuilder :=
  mkOptions DEFAULT_IOUNIT_SIZE DEFAULT_ENCODING_UNIT_LEN DEFAULT_CHECKSUM_TYPE false ∅
    (2 ^ 64 - 1) CustomEncodingOptions_default EncoderDictionary false Uncompressed.

(** [build] refuses built-in and custom binaries together. *)
Definition build (b : FileWriterOptionsBuilder) : outcome FileWriterOptions :=
  let! _ := assert (negb (write_built_in_wasm b)
                    || CustomEncodingOptions_is_empty (custom_encoding_options b)) in
  Ok b.

(** The setters of the builder. *)
Definition set_iounit_size (b : FileWriterOptionsBuilder) (v : Z)
  : FileWriterOptionsBuilder :=
  mkOptions v (encoding_unit_len b) (opt_checksum_type b) (write_built_in_wasm b)
    (opt_custom_encunit_len b) (opt_row_group_size b) (custom_encoding_options b)
    (dictionary_type b) (opt_enable_io_unit_checksum b) (opt_compression_type b).
Definition set_encoding_unit_len (b : FileWriterOptionsBuilder) (v : Z)
  : FileWriterOptionsBuilder :=
  mkOptions (iounit_size b) v (opt_checksum_type b) (write_built_in_wasm b)
    (opt_custom_encunit_len b) (opt_row_group_size b) (custom_encoding_options b)
    (dictionary_type b) (opt_enable_io_unit_checksum b) (opt_compression_type b).
Definition set_checksum_type (b : FileWriterOptionsBuilder) (v : ChecksumType)
  : FileWriterOptionsBuilder :=
  mkOptions (iounit_size b) (encoding_unit_len b) v (write_built_in_wasm b)
    (opt_custom_encunit_len b) (opt_row_group_size b) (custom_encoding_options b)
    (dictionary_type b) (opt_enable_io_unit_checksum b) (opt_compression_type b).
Definition set_write_built_in_wasm (b : FileWriterOptionsBuilder) (v : bool)
  : FileWriterOptionsBuilder :=
  mkOptions (iounit_size b) (encoding_unit_len b) (opt_checksum_type b) v
    (opt_custom_encunit_len b) (opt_row_group_size b) (custom_encoding_options b)
    (dictionary_type b) (opt_enable_io_unit_checksum b) (opt_compression_type b).
Definition set_custom_encunit_len (b : FileWriterOptionsBuilder) (v : gmap Z Z)
  : FileWriterOptionsBuilder :=
  mkOptions (iounit_size b) (encoding_unit_len b) (opt_checksum_type b) (write_built_in_wasm b)
    v (opt_row_group_size b) (custom_encoding_options b) (dictionary_type b)
    (opt_enable_io_unit_checksum b) (opt_compression_type b).
Definition set_row_group_size (b : FileWriterOptionsBuilder) (v : Z)
  : FileWriterOptionsBuilder :=
  mkOptions (iounit_size b) (encoding_unit_len b) (opt_checksum_type b) (write_built_in_wasm b)
    (opt_custom_encunit_len b) v (custom_encoding_options b) (dictionary_type b)
    (opt_enable_io_unit_checksum b) (opt_compression_type b).
Definition set_custom_encoding_options (b : FileWriterOptionsBuilder) (v : CustomEncodingOptions)
  : FileWriterOptionsBuilder :=
  mkOptions (iounit_size b) (encoding_unit_len b) (opt_checksum_type b) (write_built_in_wasm b)
    (opt_custom_encunit_len b) (opt_row_group_size b) v (dictionary_type b)
    (opt_enable_io_unit_checksum b) (opt_compression_type b).
Definition set_dictionary_type (b : FileWriterOptionsBuilder) (v : DictionaryTypeOptions)
  : FileWriterOptionsBuilder :=
  mkOptions (iounit_size b) (encoding_unit_len b) (opt_checksum_type b) (write_built_in_wasm b)
    (opt_custom_encunit_len b) (opt_row_group_size b) (custom_encoding_options b) v
    (opt_enable_io_unit_checksum b) (opt_compression_type b).
Definition set_enable_io_unit_checksum (b : FileWriterOptionsBuilder) (v : bool)
  : FileWriterOptionsBuilder :=
  mkOptions (iounit_size b) (encoding_unit_len b) (opt_checksum_type b) (write_built_in_wasm b)
    (opt_custom_encunit_len b) (opt_row_group_size b) (custom_encoding_options b)
    (dictionary_type b) v (opt_compression_type b).
Definition set_compression_type (b : FileWriterOptionsBuilder) (v : CompressionType)
  : FileWriterOptionsBuilder :=
  mkOptions (iounit_size b) (encoding_unit_len b) (opt_checksum_type b) (write_built_in_wasm b)
    (opt_custom_encunit_len b) (opt_row_group_size b) (custom_encoding_options b)
    (dictionary_type b) (opt_enable_io_unit_checksum b) v.

(** [take_custom_encoding_options] *)
Definition take_custom_encoding_options (o : FileWriterOptions)
  : CustomEncodingOptions * FileWriterOptions :=
  (custom_encoding_options o,
   mkOptions (iounit_size o) (encoding_unit_len o) (opt_checksum_type o) (write_built_in_wasm o)
     (opt_custom_encunit_len o) (opt_row_group_size o) CustomEncodingOptions_default
     (dictionary_type o) (opt_enable_io_unit_checksum o) (opt_compression_type o)).

(** The context [FileWriter::try_new] picks. *)
Definition writing_context (builtin_wasm : outcome (list Z)) (o : FileWriterOptions)
  : outcome WASMWritingContext :=
  match write_built_in_wasm o,
        negb (CustomEncodingOptions_is_empty (custom_encoding_options o)) with
  | true, false => default_with_always_set_custom_wasm builtin_wasm
  | false, true => Ok (into_context (custom_encoding_options o))
  | false, false => Ok WASMWritingContext_empty
  | true, true => Panic PTodo
  end.

(** ** The reading context *)

Section Reading.
Context {R RT : Type} `{Reader R} `{Flatbuffers}.
(** [Runtime::try_new] *)
Context (Runtime_try_new : list Z → outcome RT).

(** [lazy_wasm] is a [OnceLock]: filled by the first use. *)
Record WASMReadingContext := mkReading {
  lazy_wasm : option (gmap WASMId RT);
  wasm_locations : option MetadataSection;
  reading_r : option R;
  encoding_versions : option (gmap EncodingType Version);
}.

Definition new_with_versions (loc : MetadataSection) (r : R)
    (versions : option (gmap EncodingType Version)) : WASMReadingContext :=
  mkReading None (Some loc) (Some r) versions.

Definition WASMReadingContext_new (loc : MetadataSection) (r : R) : WASMReadingContext :=
  new_with_versions loc r None.

Definition new_with_rt_and_versions (rts : gmap WASMId RT)
    (versions : option (gmap EncodingType Version)) : WASMReadingContext :=
  mkReading (Some rts) None None versions.

Definition new_with_rt (rts : gmap WASMId RT) : WASMReadingContext :=
  new_with_rt_and_versions rts None.

(** One iteration of the loop over the embedded binaries: the id of a binary is
    its position. *)
Definition load_wasm (read : R) (st : Z * gmap WASMId RT) (loc : fb.MetadataSection)
  : outcome (Z * gmap WASMId RT) :=
  let '(id, ws) := st in
  let! buf := unwrap_res (read_exact_at read (fb.size_ loc) (fb.offset loc)) in
  let! rt := unwrap_res (Runtime_try_new buf) in
  Ok (id + 1, <[wrap 32 id := rt]> ws).

Definition init_runtimes (c : WASMReadingContext) : outcome (gmap WASMId RT) :=
  let! locations := unwrap (wasm_locations c) in
  let! read := unwrap (reading_r c) in
  let! buf := unwrap_res (read_exact_at read (ms_size locations) (ms_offset locations)) in
  let! binaries := unwrap (root_wasm_binaries buf) in
  let! locs := unwrap (fb.wasm_binaries binaries) in
  let! '(_, ws) := fold_m (load_wasm read) (0, ∅) locs in
  Ok ws.

Definition get_runtime (c : WASMReadingContext) (id : WASMId)
  : outcome (RT * WASMReadingContext) :=
  let! ws := match lazy_wasm c with Some ws => Ok ws | None => init_runtimes c end in
  let! rt := unwrap (ws !! id) in
  Ok (rt, mkReading (Some ws) (wasm_locations c) (reading_r c) (encoding_versions c)).

Definition get_encoding_versions (c : WASMReadingContext) : option (gmap EncodingType Version) :=
  encoding_versions c.

End Reading.
Arguments WASMReadingContext : clear implicits.
