(* ===== verification/Chunks.v ===== *)
(** * fff-poc/src/encoder: encoded chunks, and what an encoder promises the writer

    [SerializedEncUnit] and [EncodedColumnChunk] are
    fff-poc/src/encoder/encoded_column_chunk.rs.  [LogicalColEncoder] is the
    trait of fff-poc/src/encoder/logical.rs, against which the writer is
    proved. *)

From S2P Require Import Prelude Arrow Common Footer Options.

Record SerializedEncUnit := mkSerialized {
  bytes : list Z;
  su_num_rows : Z;
  su_encoding : Encoding;
  su_compression_type : CompressionType;
}.

Record EncodedColumnChunk := mkChunkData {
  encunits : list SerializedEncUnit;
  num_rows : Z;
  dict_encoding : DictionaryEncoding;
  column_index : Z;
}.

(** [EncodedColumnChunkBuilder] has the same fields. *)
Definition builder : EncodedColumnChunk := mkChunkData [] 0 NoDictionary 0.
Definition set_dict_encoding (c : EncodedColumnChunk) (e : DictionaryEncoding)
  : EncodedColumnChunk := mkChunkData (encunits c) (num_rows c) e (column_index c).
Definition EncodedColumnChunk_default : EncodedColumnChunk := builder.
Definition update_column_index (c : EncodedColumnChunk) (i : Z) : EncodedColumnChunk :=
  mkChunkData (encunits c) (num_rows c) (dict_encoding c) i.

(** The bytes of a chunk, one unit after the other. *)
Definition chunk_bytes (c : EncodedColumnChunk) : list Z := concat (map bytes (encunits c)).

(** ** The interface of the column encoders

    [Ctx] is the shared dictionary context that the writer hands to every
    encoder. *)
Class LogicalColEncoder (E Ctx : Type) := {
  encode : E → Array → EncodingCounter → Ctx →
    outcome (option (list EncodedColumnChunk) * E * EncodingCounter * Ctx);
  finish : E → EncodingCounter → Ctx →
    outcome (option (list EncodedColumnChunk) * E * EncodingCounter * Ctx);
  submit_dict : E → Ctx → outcome (E * Ctx);
  memory_size : E → outcome Z;
}.

(** Sizes a 32-bit field holds. *)
Definition chunk_fits (c : EncodedColumnChunk) : Prop := len (chunk_bytes c) < 2 ^ 32.

(** What the writer relies on: the chunks of an encoder belong to the [n] physical
    columns of the file and stay below 4 GiB, as long as the encoder is in a state
    [ok] that its operations keep. *)
Definition chunks_ok (n : Z) (res : option (list EncodedColumnChunk)) : Prop :=
  Forall (λ c, 0 ≤ column_index c < n ∧ chunk_fits c) (default [] res).

Class EncoderContract (E Ctx : Type) `{LogicalColEncoder E Ctx} (n : Z) (ok : E → Prop) := {
  encode_contract e arr c ctx res e' c' ctx' :
    ok e → encode e arr c ctx = Ok (res, e', c', ctx') → chunks_ok n res ∧ ok e';
  finish_contract e c ctx res e' c' ctx' :
    ok e → finish e c ctx = Ok (res, e', c', ctx') → chunks_ok n res ∧ ok e';
  submit_contract e ctx e' ctx' : ok e → submit_dict e ctx = Ok (e', ctx') → ok e';
}.

(** The operations of the shared dictionary context that [FileWriter::finish]
    calls. *)
Class SharedDictionaryOps (Ctx : Type) := {
  is_multi_col_sharing : Ctx → bool;
  merge_dicts : Ctx → outcome Ctx;
  finish_and_flush : WASMWritingContext → Ctx →
    outcome (list (list EncodedColumnChunk) * list (option Z) * list DataType * Ctx);
}.
