(* ===== verification/Writer.v ===== *)
(** * fff-poc/src/writer.rs: writing a file

    [FileWriteState] and [FileWriter] over any column encoders and shared
    dictionary context that implement the interfaces of Chunks.v.  The sink is
    an in-memory buffer, so that [write_all] does not fail; its position is the
    number of bytes written. *)

From S2P Require Import Prelude Arrow Common Footer Options Chunks.

Section Writer.
Context `{Checksum} `{Flatbuffers}.
Context {E Ctx : Type} `{LogicalColEncoder E Ctx} `{SharedDictionaryOps Ctx}.

(** ** FileWriteState *)

Record FileWriteState := mkState {
  sink : Sink;
  row_groups_table : RowGroupsTable;
  num_rows_in_file : Z;
  num_physical_columns : Z;
  column_counters : list EncodingCounter;
  enable_io_unit_checksum : bool;
  column_metadatas_in_cur_row_group : list ColumnMetadata;
  start_offset_of_cur_row_group : Z;
  num_rows_in_cur_row_group : Z;
}.

Definition set_sink (st : FileWriteState) (s : Sink) : FileWriteState :=
  mkState s (row_groups_table st) (num_rows_in_file st) (num_physical_columns st)
    (column_counters st) (enable_io_unit_checksum st) (column_metadatas_in_cur_row_group st)
    (start_offset_of_cur_row_group st) (num_rows_in_cur_row_group st).

Definition set_columns (st : FileWriteState) (m : list ColumnMetadata) : FileWriteState :=
  mkState (sink st) (row_groups_table st) (num_rows_in_file st) (num_physical_columns st)
    (column_counters st) (enable_io_unit_checksum st) m
    (start_offset_of_cur_row_group st) (num_rows_in_cur_row_group st).

Definition set_counters (st : FileWriteState) (c : list EncodingCounter) : FileWriteState :=
  mkState (sink st) (row_groups_table st) (num_rows_in_file st) (num_physical_columns st)
    c (enable_io_unit_checksum st) (column_metadatas_in_cur_row_group st)
    (start_offset_of_cur_row_group st) (num_rows_in_cur_row_group st).

Definition write_and_update_file_level_checksum (st : FileWriteState) (buf : list Z)
  : FileWriteState := set_sink st (write_checked (sink st) buf).

(** One encoding unit of a chunk: the state, the running checksum of the IO unit
    and the metadata so far. *)
Definition flush_encunit
    (acc : FileWriteState * option checksum_state * list EncUnit) (unit : SerializedEncUnit)
  : FileWriteState * option checksum_state * list EncUnit :=
  let '(st, iounit_checksum, metas) := acc in
  let buf := bytes unit in
  (write_and_update_file_level_checksum st buf,
   option_map (λ c, update c buf) iounit_checksum,
   metas ++ [mkEncUnit (wrap 32 (len buf)) (su_num_rows unit) (su_encoding unit)
               (su_compression_type unit)]).

Definition flush_chunk_and_get_metadata (st : FileWriteState) (chunk : EncodedColumnChunk)
  : Chunk * FileWriteState :=
  let offset := stream_position (sink st) in
  let iounit_checksum :=
    if enable_io_unit_checksum st then Some (create_checksum XxHash) else None in
  let '(st, iounit_checksum, metas) :=
    foldl flush_encunit (st, iounit_checksum, []) (encunits chunk) in
  let size := stream_position (sink st) - offset in
  (mkChunk offset (wrap 32 size) (num_rows chunk) (dict_encoding chunk) metas
     (option_map finalize iounit_checksum), st).

Definition flush_chunk (st : FileWriteState) (chunk : EncodedColumnChunk)
  : outcome FileWriteState :=
  let idx := column_index chunk in
  let '(chunk_meta, st) := flush_chunk_and_get_metadata st chunk in
  let cols := column_metadatas_in_cur_row_group st in
  let! m := index cols idx in
  Ok (set_columns st (<[Z.to_nat idx := add_chunk m chunk_meta]> cols)).

Definition finish_row_group (st : FileWriteState) : FileWriteState :=
  let pos := stream_position (sink st) in
  mkState (sink st)
    (add_meta (row_groups_table st) (num_rows_in_cur_row_group st)
       (start_offset_of_cur_row_group st) (wrap 32 (pos - start_offset_of_cur_row_group st))
       (mkRowGroupMetadata (column_metadatas_in_cur_row_group st)))
    (num_rows_in_file st) (num_physical_columns st) (column_counters st)
    (enable_io_unit_checksum st)
    (replicate (Z.to_nat (num_physical_columns st)) ColumnMetadata_default)
    pos 0.

(** ** FileWriter *)

Record FileWriter := mkWriter {
  schema : list Field;
  column_encoders : list E;
  logical_tree : fb.LogicalTree;
  state : FileWriteState;
  writer_schema_checksum : checksum_state;
  wasm_context : WASMWritingContext;
  custom_encunit_len : gmap Z Z;
  row_group_size : Z;
  shared_dictionary_context : Ctx;
}.

Definition set_writer (w : FileWriter) (es : list E) (st : FileWriteState) (ctx : Ctx)
  : FileWriter :=
  mkWriter (schema w) es (logical_tree w) st (writer_schema_checksum w) (wasm_context w)
    (custom_encunit_len w) (row_group_size w) ctx.

(** [FileWriter::try_new]; [create] is [create_logical_encoder] and [new_ctx] is
    [SharedDictionaryContext::new]. *)
Section TryNew.
Context (create : Field → Z → Z → ColumnIndexSequence → WASMWritingContext →
                  DictionaryTypeOptions → CompressionType →
                  outcome (E * fb.LogicalTree * ColumnIndexSequence)).
Context (new_ctx : Z → Z → bool → CompressionType → Ctx).
Context (builtin_wasm : outcome (list Z)).

Definition create_encoders (wasm : WASMWritingContext) (o : FileWriterOptions)
    (schema : list Field) : outcome (list (E * fb.LogicalTree) * ColumnIndexSequence) :=
  traverse_st (λ idx '(field_id, field),
      let! '(encoder, child_tree, idx) :=
        create field (as_signed 32 field_id) (iounit_size o) idx wasm (dictionary_type o)
          (opt_compression_type o) in
      Ok ((encoder, child_tree), idx))
    ColumnIndexSequence_default (zip (range (len schema)) schema).

Definition FileWriter_try_new (schema : list Field) (o : FileWriterOptions)
  : outcome FileWriter :=
  let checksum_type := opt_checksum_type o in
  let! wasm := writing_context builtin_wasm o in
  let ctx := new_ctx (encoding_unit_len o) (iounit_size o)
               (bool_decide (dictionary_type o = GlobalDictionaryMultiColSharing))
               (opt_compression_type o) in
  let! '(encoders, idx) := create_encoders wasm o schema in
  let num_physical_columns := get_current_index idx in
  Ok (mkWriter schema (map fst encoders) (fb.mkLogicalTree fb.STRUCT (map snd encoders))
        (mkState (mkSink _ [] (create_checksum checksum_type)) RowGroupsTable_default 0
           num_physical_columns
           (replicate (Z.to_nat num_physical_columns) EncodingCounter_default)
           (opt_enable_io_unit_checksum o)
           (replicate (Z.to_nat num_physical_columns) ColumnMetadata_default) 0 0)
        (create_checksum checksum_type) wasm (opt_custom_encunit_len o) (opt_row_group_size o)
        ctx).
End TryNew.

(** [if let Some(res) = encoder.encode(..)? { for chunk in res { flush_chunk } }],
    for column [i]; [run] is [encode] of a column or [finish]. *)
Definition run_encoder
    (run : E → EncodingCounter → Ctx →
           outcome (option (list EncodedColumnChunk) * E * EncodingCounter * Ctx))
    (w : FileWriter) (i : Z) : outcome FileWriter :=
  let! e := index (column_encoders w) i in
  let! counter := index (column_counters (state w)) i in
  let! '(res, e, counter, ctx) := run e counter (shared_dictionary_context w) in
  let st := set_counters (state w) (<[Z.to_nat i := counter]> (column_counters (state w))) in
  let! st := fold_m flush_chunk st (default [] res) in
  Ok (set_writer w (<[Z.to_nat i := e]> (column_encoders w)) st ctx).

(** One column of [write_batch]: cut into slices when the column has a custom
    encoding unit length. *)
Definition write_column (batch_rows : Z) (w : FileWriter) (icol : Z * Array)
  : outcome FileWriter :=
  let '(i, col) := icol in
  let! _ := index (column_encoders w) i in
  match custom_encunit_len w !! i with
  | Some encunit_len =>
      if batch_rows <? encunit_len
      then Err (NYI "Batch size should be larger than the custom encunit size")
      else
        let! slices := udiv batch_rows encunit_len in
        fold_m (λ w j,
            let! start := umul 64 j encunit_len in
            let! rest := usub (arr_len col) start in
            let! col_sliced := arr_slice col start (Z.min encunit_len rest) in
            run_encoder (λ e, encode e col_sliced) w i)
          w (range slices)
  | None => run_encoder (λ e, encode e col) w i
  end.

Definition flush_pending_chunks (w : FileWriter) : outcome FileWriter :=
  fold_m (run_encoder finish) w (range (len (column_encoders w))).

(** The rows of the batch are counted in [u32]. *)
Definition add_rows (st : FileWriteState) (rows : Z) : outcome FileWriteState :=
  let! in_file := uadd 32 (num_rows_in_file st) (wrap 32 rows) in
  let! in_group := uadd 32 (num_rows_in_cur_row_group st) (wrap 32 rows) in
  Ok (mkState (sink st) (row_groups_table st) in_file (num_physical_columns st)
        (column_counters st) (enable_io_unit_checksum st) (column_metadatas_in_cur_row_group st)
        (start_offset_of_cur_row_group st) in_group).

(** [enumerate()] *)
Definition enumerate {A} (l : list A) : list (Z * A) := zip (range (len l)) l.

Definition write_batch (w : FileWriter) (columns : list Array) (batch_rows : Z)
  : outcome FileWriter :=
  let! w := fold_m (write_column batch_rows) w (enumerate columns) in
  let! st := add_rows (state w) batch_rows in
  let w := set_writer w (column_encoders w) st (shared_dictionary_context w) in
  if row_group_size w <=? num_rows_in_cur_row_group st then
    let! w := flush_pending_chunks w in
    Ok (set_writer w (column_encoders w) (finish_row_group (state w))
          (shared_dictionary_context w))
  else Ok w.

Definition writer_memory_size (w : FileWriter) : outcome Z :=
  fold_m (λ acc e, let! n := memory_size e in uadd 64 acc n) 0 (column_encoders w).

(** ** FileWriter::finish *)

(** [encoder.submit_dict(ctx)?] for every encoder. *)
Definition submit_all (w : FileWriter) : outcome FileWriter :=
  fold_m (λ w i,
      let! e := index (column_encoders w) i in
      let! '(e, ctx) := submit_dict e (shared_dictionary_context w) in
      Ok (set_writer w (<[Z.to_nat i := e]> (column_encoders w)) (state w) ctx))
    w (range (len (column_encoders w))).

(** The chunks of one dictionary, then of all of them. *)
Definition flush_dict (acc : list Chunk * FileWriteState) (chunk : EncodedColumnChunk)
  : list Chunk * FileWriteState :=
  let '(metas, st) := acc in
  let '(meta, st) := flush_chunk_and_get_metadata st chunk in
  (metas ++ [meta], st).

Definition flush_dicts (acc : list (list Chunk) * FileWriteState)
    (chunks : list EncodedColumnChunk) : list (list Chunk) * FileWriteState :=
  let '(all, st) := acc in
  let '(metas, st) := foldl flush_dict ([], st) chunks in
  (all ++ [metas], st).

(** The WASM binaries, each with the section that points to it. *)
Definition write_wasm (acc : list fb.MetadataSection * FileWriteState) (wasm : list Z)
  : list fb.MetadataSection * FileWriteState :=
  let '(sections, st) := acc in
  let offset := stream_position (sink st) in
  let st := write_and_update_file_level_checksum st wasm in
  let size := stream_position (sink st) - offset in
  (sections ++ [fb.mkMetadataSection offset (wrap 32 size) Uncompressed], st).

(** [scan]: the index of the first chunk of every dictionary. *)
Fixpoint start_indexes (begin : Z) (lens : list Z) : list Z :=
  match lens with
  | [] => []
  | n :: lens => begin :: start_indexes (begin + n) lens
  end.

(** The chunks of dictionary [i]: those of its own, after the first chunk of the
    peer it was merged with. *)
Definition dict_position (dict_start_idx : list Z) (merge_peers : list (option Z))
    (dict_chunks : list (list Chunk)) (ibegin : Z * Z) : outcome (list Z) :=
  let '(i, begin) := ibegin in
  let! own := index dict_chunks i in
  let own_range := map (wrap 32) (seqZ begin (len own)) in
  match merge_peers !! Z.to_nat i with
  | Some (Some peer) =>
      let! peer_start := index dict_start_idx peer in
      Ok (wrap 32 peer_start :: own_range)
  | _ => Ok own_range
  end.

Definition dict_positions (merge_peers : list (option Z)) (dict_chunks : list (list Chunk))
  : outcome (list (list Z)) :=
  let dict_start_idx := start_indexes 0 (map len dict_chunks) in
  traverse (dict_position dict_start_idx merge_peers dict_chunks) (enumerate dict_start_idx).

(** [SharedDictionaryTable::to_fb] of dict/shared_dictionary.rs. *)
Definition SharedDictionaryTable_to_fb (chunks : list Chunk) (positions : list (list Z))
    (dtypes : list DataType) : fb.SharedDictionaryTable :=
  fb.mkSharedDictionaryTable (Some (map Chunk_to_fb chunks)) (Some (map Some positions))
    (Some (schema_to_bytes (map (λ dt, mkField "" dt false) dtypes))).

(** The row groups table of the footer. *)
Definition row_groups_fb (t : RowGroupsTable) : fb.RowGroups :=
  fb.mkRowGroups (Some (row_counts t)) (Some (offsets t)) (Some (sizes t))
    (Some (map Indirect_to_fb (indirect_row_group_metadata t))).

Definition optional_metadata_section (start size : Z) : fb.OptionalMetadataSections :=
  fb.mkOptionalSections (Some ["WASMBinaries"%string]) (Some [start]) (Some [wrap 32 size])
    (Some [Uncompressed]).

(** The postscript, as written field by field. *)
Definition postscript_bytes (metadata_size footer_size data_checksum schema_checksum : Z)
  : list Z :=
  le_bytes 4 metadata_size ++ le_bytes 4 footer_size ++ le_bytes 1 Uncompressed
    ++ le_bytes 1 (ChecksumType_as_u8 XxHash) ++ le_bytes 8 data_checksum
    ++ le_bytes 8 schema_checksum ++ le_bytes 2 MAJOR_VERSION ++ le_bytes 2 MINOR_VERSION
    ++ MAGIC.

(** From the end of the last row group to the end of the file: the dictionaries,
    the WASM binaries, the metadata, the footer and the postscript. *)
Definition write_tail (schema : list Field) (tree : fb.LogicalTree)
    (schema_checksum_state : checksum_state) (wasm_binaries : list (list Z))
    (dicts : list (list EncodedColumnChunk)) (merge_peers : list (option Z))
    (dict_dtypes : list DataType) (st : FileWriteState) : outcome (list Z) :=
  let '(dict_chunks, st) := foldl flush_dicts ([], st) dicts in
  let '(wasm_sections, st) := foldl write_wasm ([], st) wasm_binaries in
  let wasms := enc_wasm_binaries (fb.mkWASMBinaries (Some wasm_sections)) in
  let wasm_meta_start := stream_position (sink st) in
  let st := write_and_update_file_level_checksum st wasms in
  let wasm_meta_size := stream_position (sink st) - wasm_meta_start in
  let '(table, s, metadata_start) := to_indirect_and_flush (row_groups_table st) (sink st) in
  let! positions := dict_positions merge_peers dict_chunks in
  let shared_dict_table :=
    SharedDictionaryTable_to_fb (concat dict_chunks) positions dict_dtypes in
  let schema_bytes := schema_to_bytes schema in
  let schema_checksum := finalize (update schema_checksum_state schema_bytes) in
  let footer_data := enc_footer
    (fb.mkFooter (Some schema_bytes) (Some tree) (Some (row_groups_fb table))
       (Some (optional_metadata_section wasm_meta_start wasm_meta_size))
       (Some shared_dict_table)
       (Some (map EncodingVersion_to_fb create_default_encoding_versions))) in
  let s := write_checked s footer_data in
  let metadata_size := wrap 32 (stream_position s - metadata_start) in
  let footer_size := wrap 32 (len footer_data) in
  Ok (out s ++ postscript_bytes metadata_size footer_size (finalize (data_checksum s))
        schema_checksum).

(** The file and the counters. *)
Definition finish_file (w : FileWriter) : outcome (list Z * list EncodingCounter) :=
  let! w :=
    if is_multi_col_sharing (shared_dictionary_context w) then
      let! w := submit_all w in
      let! ctx := merge_dicts (shared_dictionary_context w) in
      Ok (set_writer w (column_encoders w) (state w) ctx)
    else Ok w in
  let! w := flush_pending_chunks w in
  let st := finish_row_group (state w) in
  let! '(dicts, merge_peers, dict_dtypes, _) :=
    finish_and_flush (wasm_context w) (shared_dictionary_context w) in
  let! file := write_tail (schema w) (logical_tree w) (writer_schema_checksum w)
                 (get_sorted_wasms (wasm_context w)) dicts merge_peers dict_dtypes st in
  Ok (file, column_counters st).

End Writer.

(** ** What flushing a chunk records *)

Section FlushSpec.
Context `{Checksum} `{!ChecksumLaws}.

Definition unit_meta (u : SerializedEncUnit) : EncUnit :=
  mkEncUnit (wrap 32 (len (bytes u))) (su_num_rows u) (su_encoding u) (su_compression_type u).

(** The metadata of a chunk written at [off]. *)
Definition chunk_meta (ck : bool) (off : Z) (c : EncodedColumnChunk) : Chunk :=
  mkChunk off (wrap 32 (len (chunk_bytes c))) (num_rows c) (dict_encoding c)
    (map unit_meta (encunits c))
    (if ck then Some (checksum_of XxHash (chunk_bytes c)) else None).

(** A sink after several writes. *)
Definition write_all_checked (s : Sink) (bufs : list (list Z)) : Sink := foldl write_checked s bufs.

(** Everything written so far went through the running checksum. *)
Definition sink_ok (s : Sink) : Prop :=
  ∃ bufs, out s = concat bufs ∧ data_checksum s = foldl update (create_checksum XxHash) bufs.

Lemma sink_ok_write s buf : sink_ok s → sink_ok (write_checked s buf).
Proof.
  intros (bufs & Ho & Hc). exists (bufs ++ [buf]). unfold write_checked. simpl.
  rewrite concat_app, foldl_app, Ho, Hc. simpl. by rewrite app_nil_r.
Qed.

Lemma sink_ok_writes s bufs : sink_ok s → sink_ok (write_all_checked s bufs).
Proof. revert s. induction bufs as [|b bufs IH]; intros s Hs; [done|]. by apply IH, sink_ok_write. Qed.

Lemma sink_ok_checksum s : sink_ok s → finalize (data_checksum s) = checksum_of XxHash (out s).
Proof. intros (bufs & -> & ->). apply update_split. Qed.

Lemma out_writes s bufs : out (write_all_checked s bufs) = out s ++ concat bufs.
Proof.
  revert s. induction bufs as [|b bufs IH]; intros s; simpl; [by rewrite app_nil_r|].
  unfold write_all_checked in *. simpl. rewrite IH. unfold write_checked. simpl.
  by rewrite <-app_assoc.
Qed.

Lemma flush_encunits_spec st ck metas units :
  foldl flush_encunit (st, ck, metas) units
  = (set_sink st (write_all_checked (sink st) (map bytes units)),
     option_map (λ c, foldl update c (map bytes units)) ck, metas ++ map unit_meta units).
Proof.
  revert st ck metas. induction units as [|u units IH]; intros st ck metas; simpl.
  { rewrite app_nil_r. destruct st, ck; done. }
  rewrite IH. unfold write_and_update_file_level_checksum. simpl. rewrite <-app_assoc.
  by destruct ck.
Qed.

Lemma flush_chunk_and_get_metadata_spec st c :
  flush_chunk_and_get_metadata st c
  = (chunk_meta (enable_io_unit_checksum st) (len (out (sink st))) c,
     set_sink st (write_all_checked (sink st) (map bytes (encunits c)))).
Proof.
  unfold flush_chunk_and_get_metadata. rewrite flush_encunits_spec. simpl.
  unfold stream_position, chunk_meta, checksum_of, chunk_bytes. rewrite out_writes, len_app.
  f_equal. f_equal.
  - f_equal. lia.
  - destruct (enable_io_unit_checksum st); [|done]. simpl. f_equal. apply update_split.
Qed.

(** The metadata of chunks written one after the other from [off] on, each with
    its column. *)
Fixpoint placed (ck : bool) (off : Z) (chunks : list EncodedColumnChunk) : list (Z * Chunk) :=
  match chunks with
  | [] => []
  | c :: chunks =>
      (column_index c, chunk_meta ck off c) :: placed ck (off + len (chunk_bytes c)) chunks
  end.

(** Those of column [i]. *)
Definition of_column (i : Z) (l : list (Z * Chunk)) : list Chunk :=
  map snd (filter (λ ic, ic.1 = i) l).

(** The state after flushing chunks. *)
Definition flushed (st : FileWriteState) (chunks : list EncodedColumnChunk) : FileWriteState :=
  let metas := placed (enable_io_unit_checksum st) (len (out (sink st))) chunks in
  set_columns
    (set_sink st (write_all_checked (sink st) (concat (map (map bytes ∘ encunits) chunks))))
    (imap (λ i m, mkColumnMetadata (column_chunks m ++ of_column (Z.of_nat i) metas))
       (column_metadatas_in_cur_row_group st)).

Lemma imap_add_chunk (cols : list ColumnMetadata) i m c :
  cols !! i = Some m →
  <[i := add_chunk m c]> cols
  = imap (λ j m, mkColumnMetadata (column_chunks m ++ if decide (i = j) then [c] else [])) cols.
Proof.
  intros Hi. apply list_eq. intros j. rewrite list_lookup_imap.
  destruct (decide (i = j)) as [<-|Hne].
  - rewrite list_lookup_insert_eq by (by eapply lookup_lt_Some). by rewrite Hi.
  - rewrite list_lookup_insert_ne by done. destruct (cols !! j) as [[]|]; simpl; [|done].
    by rewrite app_nil_r.
Qed.

(** Flushing chunks whose columns exist succeeds and records each of them, at the
    place it was written to, in its own column. *)
Lemma flush_chunks_spec st chunks :
  Forall (λ c, 0 ≤ column_index c < len (column_metadatas_in_cur_row_group st)) chunks →
  fold_m flush_chunk st chunks = Ok (flushed st chunks).
Proof.
  revert st. induction chunks as [|c chunks IH]; intros st Hcols.
  { simpl. f_equal. unfold flushed. simpl. destruct st. unfold set_columns, set_sink. simpl.
    f_equal. apply list_eq. intros j. rewrite list_lookup_imap.
    destruct (_ !! j) as [[]|]; simpl; [|done]. by rewrite app_nil_r. }
  inversion_clear Hcols as [|?? Hc Hcols']. cbn [fold_m]. unfold flush_chunk at 1.
  rewrite flush_chunk_and_get_metadata_spec. cbv zeta.
  cbn [column_metadatas_in_cur_row_group set_sink].
  destruct (lookup_lt_is_Some_2 (column_metadatas_in_cur_row_group st) (Z.to_nat (column_index c)))
    as [m Hm]; [unfold len in Hc; lia|].
  unfold index. destruct (Z.ltb_spec (column_index c) 0); [lia|]. rewrite Hm. cbn [obind].
  rewrite (imap_add_chunk _ _ _ _ Hm). rewrite IH.
  - f_equal. unfold flushed. cbn. unfold set_columns, set_sink. cbn. f_equal.
    + unfold write_all_checked. by rewrite <-foldl_app.
    + apply list_eq. intros j. rewrite !list_lookup_imap.
      destruct (_ !! j) as [[cs]|]; cbn; [|done]. rewrite <-app_assoc. do 3 f_equal.
      rewrite out_writes, len_app. repeat case_decide; done || lia.
  - cbn. eapply Forall_impl; [exact Hcols'|]. cbn. unfold len. by rewrite length_imap.
Qed.

(** The metadata [m] describes chunk [c] of the file: where its bytes are, what
    each of its units is, and the checksum of its bytes when there is one. *)
Definition records (ck : bool) (file : list Z) (c : EncodedColumnChunk) (m : Chunk) : Prop :=
  located file (chunk_bytes c) (chunk_offset m) (chunk_size m) ∧
  chunk_num_rows m = num_rows c ∧ chunk_encoding m = dict_encoding c ∧
  Forall2 (λ u b, eu_size b = len (bytes u) ∧ eu_num_rows b = su_num_rows u ∧
                  eu_encoding b = su_encoding u ∧ eu_compression b = su_compression_type u)
    (encunits c) (blocks m) ∧
  chunk_checksum m = if ck then Some (checksum_of XxHash (chunk_bytes c)) else None.

Lemma unit_fits c : chunk_fits c → Forall (λ u, len (bytes u) < 2 ^ 32) (encunits c).
Proof.
  unfold chunk_fits, chunk_bytes. induction (encunits c) as [|u l IH]; simpl; [done|].
  rewrite len_app. intros Hl. pose proof (len_nonneg (bytes u)).
  pose proof (len_nonneg (concat (map bytes l))). constructor; [lia|apply IH; lia].
Qed.

Lemma chunk_meta_records ck file off c :
  chunk_fits c → located file (chunk_bytes c) off (len (chunk_bytes c)) →
  records ck file c (chunk_meta ck off c).
Proof.
  intros Hfit Hloc. unfold records, chunk_meta. cbn.
  rewrite wrap_small by (split; [apply len_nonneg|done]).
  split_and!; try done. apply unit_fits in Hfit. clear Hloc.
  induction Hfit as [|u l Hu _ IH]; cbn; constructor; [|done]. cbn.
  rewrite wrap_small by (split; [apply len_nonneg|done]). done.
Qed.

Lemma placed_records ck i pre chunks post :
  Forall chunk_fits chunks →
  Forall2 (records ck (pre ++ concat (map chunk_bytes chunks) ++ post))
    (filter (λ c, column_index c = i) chunks) (of_column i (placed ck (len pre) chunks)).
Proof.
  intros Hfit. revert pre. induction Hfit as [|c chunks Hc Hfit IH]; intros pre; [constructor|].
  assert (Hrec : records ck (pre ++ concat (map chunk_bytes (c :: chunks)) ++ post) c
                   (chunk_meta ck (len pre) c)).
  { apply chunk_meta_records; [done|]. cbn. rewrite <-app_assoc.
    exists pre, (concat (map chunk_bytes chunks) ++ post). done. }
  specialize (IH (pre ++ chunk_bytes c)).
  rewrite len_app, <-app_assoc in IH. cbn [map concat] in *. rewrite <-app_assoc in *.
  unfold of_column in *. cbn [placed]. rewrite !filter_cons. cbn.
  case_decide; [|done]. by constructor.
Qed.

Lemma flush_chunks_facts st chunks :
  Forall (λ c, 0 ≤ column_index c < len (column_metadatas_in_cur_row_group st)) chunks →
  Forall chunk_fits chunks → sink_ok (sink st) →
  let st' := flushed st chunks in
  out (sink st') = out (sink st) ++ concat (map chunk_bytes chunks) ∧
  sink_ok (sink st') ∧
  ∀ i m, column_metadatas_in_cur_row_group st !! i = Some m →
    ∃ new, column_metadatas_in_cur_row_group st' !! i
           = Some (mkColumnMetadata (column_chunks m ++ new)) ∧
      Forall2 (records (enable_io_unit_checksum st) (out (sink st')))
        (filter (λ c, column_index c = Z.of_nat i) chunks) new.
Proof.
  intros Hcols Hfit Hok st'.
  assert (Hout : out (sink st') = out (sink st) ++ concat (map chunk_bytes chunks)).
  { unfold st', flushed. cbn. rewrite out_writes. f_equal. clear.
    induction chunks as [|c chunks IH]; [done|]. cbn. by rewrite concat_app, IH. }
  split; [done|]. split; [by apply sink_ok_writes|].
  intros i m Hm. rewrite Hout. unfold st', flushed. cbn. rewrite list_lookup_imap, Hm. cbn.
  eexists. split; [done|].
  rewrite <-(app_nil_r (concat (map chunk_bytes chunks))). by apply placed_records.
Qed.
End FlushSpec.

(** ** The contracts of the writer *)

(** C32: flushing chunks appends exactly their bytes to the file, keeps the running
    file checksum that of the bytes written, and appends to the metadata of each
    column, in order, one entry per chunk of that column, whose offset and size
    locate the chunk's bytes in the file and whose unit entries and checksum
    describe them. *)
Theorem flush_chunks_correct `{Checksum} `{!ChecksumLaws} st chunks :
  Forall (λ c, 0 ≤ column_index c < len (column_metadatas_in_cur_row_group st)) chunks →
  Forall chunk_fits chunks → sink_ok (sink st) →
  ∃ st', fold_m flush_chunk st chunks = Ok st' ∧
    out (sink st') = out (sink st) ++ concat (map chunk_bytes chunks) ∧
    finalize (data_checksum (sink st')) = checksum_of XxHash (out (sink st')) ∧
    sink_ok (sink st') ∧
    ∀ i m, column_metadatas_in_cur_row_group st !! i = Some m →
      ∃ new, column_metadatas_in_cur_row_group st' !! i
             = Some (mkColumnMetadata (column_chunks m ++ new)) ∧
        Forall2 (records (enable_io_unit_checksum st) (out (sink st')))
          (filter (λ c, column_index c = Z.of_nat i) chunks) new.
Proof.
  intros Hcols Hfit Hok. exists (flushed st chunks). split; [by apply flush_chunks_spec|].
  destruct (flush_chunks_facts st chunks Hcols Hfit Hok) as (Hout & Hok' & Hrec).
  split_and!; [done|by apply sink_ok_checksum|done|done].
Qed.

Lemma flush_chunks_correct_witness :
  let _ := sum_checksum in
  let unit b := mkSerialized b 1 Encoding_default Uncompressed in
  let chunk i us := mkChunkData us (len us) NoDictionary i in
  let st := mkState (mkSink _ [9] (update (create_checksum XxHash) [9]))
              RowGroupsTable_default 0 2 [] true
              [ColumnMetadata_default; ColumnMetadata_default] 0 0 in
  let chunks := [chunk 1 [unit [1; 2]; unit [3]]; chunk 0 [unit [4]]; chunk 1 [unit [5]]] in
  ∃ st', fold_m flush_chunk st chunks = Ok st' ∧
    out (sink st') = [9; 1; 2; 3; 4; 5] ∧
    map (map chunk_offset ∘ column_chunks) (column_metadatas_in_cur_row_group st')
    = [[4]; [1; 5]].
Proof.
  intros HC unit chunk st chunks.
  destruct (@flush_chunks_correct HC sum_checksum_laws st chunks) as (st' & Hst & Hout & _).
  - repeat constructor; by vm_compute.
  - repeat constructor; by vm_compute.
  - exists [[9]]. done.
  - exists st'. split; [done|]. split; [done|].
    assert (Hcols : Forall (λ c, 0 ≤ column_index c < 2) chunks)
      by (repeat constructor; by vm_compute).
    rewrite (@flush_chunks_spec HC sum_checksum_laws st chunks Hcols) in Hst.
    injection Hst as <-. done.
Defined.
