(* ===== verification/Reader.v ===== *)
(** * fff-poc/src/reader: opening a file

    [read_postscript] and [get_metadata_buffer] of reader/mod.rs and the metadata
    half of [FileReaderV2Builder] (reader/builder.rs), over any implementation of
    the [Reader] trait.  What [build] does with the shared dictionaries is a
    parameter here (dict/shared_dictionary_cache.rs decodes them). *)

From S2P Require Import Prelude Arrow Common Footer Options Selection.

(** ** The postscript *)

Section ReadMetadata.
Context {R : Type} `{Reader R}.

(** The fields are at fixed positions of the 32 bytes. *)
Definition parse_postscript (b : list Z) : outcome PostScript :=
  let! magic := slice b (len b - 2) (len b) in
  if negb (bool_decide (magic = MAGIC)) then Err (General "Magic number incorrect")
  else
    let! f1 := slice b 0 4 in
    let! f2 := slice b 4 8 in
    let! compression := index b 8 in
    let! checksum_byte := index b 9 in
    let! f3 := slice b 10 18 in
    let! f4 := slice b 18 26 in
    let! f5 := slice b 26 28 in
    let! f6 := slice b 28 30 in
    let! checksum_type := ChecksumType_from checksum_byte in
    Ok (mkPostScript (le_val f1) (le_val f2) compression checksum_type (le_val f3) (le_val f4)
          (le_val f5) (le_val f6)).

Definition read_postscript (r : R) (file_size : Z) : outcome PostScript :=
  let! off := usub file_size POSTSCRIPT_SIZE in
  let! postscript_buffer := read_exact_at r POSTSCRIPT_SIZE off in
  parse_postscript postscript_buffer.

Definition get_metadata_buffer (r : R) (ps : PostScript) : outcome (list Z) :=
  if negb (ps_compression ps =? Uncompressed)
  then Err (General "Compression type not supported")
  else
    let! size := reader_size r in
    let! off := usub size POSTSCRIPT_SIZE in
    let! off := usub off (metadata_size ps) in
    read_exact_at r (metadata_size ps) off.

(** [verify_file_checksum]: everything before the postscript. *)
Definition verify_file_checksum `{Checksum} (r : R) (file_size checksum_in_ps : Z)
    (t : ChecksumType) : outcome () :=
  let! n := usub file_size POSTSCRIPT_SIZE in
  let! data_exclude_ps := read_exact_at r n 0 in
  let computed_checksum := finalize (update (create_checksum t) data_exclude_ps) in
  if negb (checksum_in_ps =? computed_checksum)
  then Err (General "File level Checksum verification failed")
  else Ok tt.

(** The footer of a file, read in one piece: the head of the two utility
    functions below and of the legacy [FileReader]. *)
Definition read_footer `{Flatbuffers} (r : R) : outcome Footer :=
  let! file_size := reader_size r in
  let! ps := read_postscript r file_size in
  let! owner := get_metadata_buffer r ps in
  let! file_size := reader_size r in
  Footer_try_new owner file_size ps.

(** The sizes of the chunks of one column. *)
Definition chunk_sizes (m : fb.ColumnMetadata) : outcome (list Z) :=
  let! chunks := unwrap (fb.column_chunks m) in
  Ok (map fb.chunk_size chunks).

Definition get_max_chunk_size `{Flatbuffers} (r : R) : outcome Z :=
  let! footer := read_footer r in
  fold_m (λ acc rg,
      fold_m (λ acc m, let! ss := chunk_sizes m in Ok (foldl Z.max acc ss)) acc
        (column_metadatas rg))
    0 (row_group_metadatas footer).

Definition get_avg_io_unit_size `{Flatbuffers} (r : R) (col_idx : Z) : outcome Z :=
  let! footer := read_footer r in
  let! '(total_size, total_count) :=
    fold_m (λ acc rg,
        let '(total_size, total_count) := acc in
        let! m := unwrap (column_metadatas rg !! Z.to_nat col_idx) in
        let! ss := chunk_sizes m in
        fold_m (λ acc size,
            let! total_size := uadd 64 acc.1 size in
            let! total_count := uadd 64 acc.2 1 in
            Ok (total_size, total_count)) (total_size, total_count) ss)
      (0, 0) (row_group_metadatas footer) in
  udiv total_size total_count.
End ReadMetadata.

(** ** FileReaderV2Builder *)

(** [enum Projection] *)
Inductive Projection :=
  | ProjectAll
  | LeafColumnIndexes (indices : list Z).

Definition Projection_new (indices : list Z) : Projection := LeafColumnIndexes indices.

Section Builder.
Context {R RT Cache : Type} `{Reader R} `{Checksum} `{Flatbuffers}.
(** [SharedDictionaryCache::try_new_read_all] *)
Context (read_all : R → fb.SharedDictionaryTable → option (WASMReadingContext R RT) →
                    outcome Cache).

Record FileReaderV2Builder := mkBuilder {
  b_reader : R;
  b_projections : Projection;
  b_selection : Selection;
  read_ahead : bool;
  wasm_rts : option (gmap WASMId RT);
  b_verify_io_unit_checksum : bool;
  b_verify_file_checksum : bool;
}.

Definition FileReaderV2Builder_new (r : R) : FileReaderV2Builder :=
  mkBuilder r ProjectAll All false None false false.

Definition with_projections (b : FileReaderV2Builder) (p : Projection) : FileReaderV2Builder :=
  mkBuilder (b_reader b) p (b_selection b) (read_ahead b) (wasm_rts b)
    (b_verify_io_unit_checksum b) (b_verify_file_checksum b).

(** A selection of rows must select one. *)
Definition with_selection (b : FileReaderV2Builder) (s : Selection)
  : outcome FileReaderV2Builder :=
  let! _ := match s with
            | RowIndexes row_indexes => assert (len row_indexes =? 1)
            | All => Ok tt
            end in
  Ok (mkBuilder (b_reader b) (b_projections b) s (read_ahead b) (wasm_rts b)
        (b_verify_io_unit_checksum b) (b_verify_file_checksum b)).

Definition with_read_ahead (b : FileReaderV2Builder) (v : bool) : FileReaderV2Builder :=
  mkBuilder (b_reader b) (b_projections b) (b_selection b) v (wasm_rts b)
    (b_verify_io_unit_checksum b) (b_verify_file_checksum b).

Definition with_existing_runtimes (b : FileReaderV2Builder) (rts : gmap WASMId RT)
  : FileReaderV2Builder :=
  mkBuilder (b_reader b) (b_projections b) (b_selection b) (read_ahead b) (Some rts)
    (b_verify_io_unit_checksum b) (b_verify_file_checksum b).

Definition with_verify_io_unit_checksum (b : FileReaderV2Builder) (v : bool)
  : FileReaderV2Builder :=
  mkBuilder (b_reader b) (b_projections b) (b_selection b) (read_ahead b) (wasm_rts b)
    v (b_verify_file_checksum b).

Definition with_verify_file_checksum (b : FileReaderV2Builder) (v : bool)
  : FileReaderV2Builder :=
  mkBuilder (b_reader b) (b_projections b) (b_selection b) (read_ahead b) (wasm_rts b)
    (b_verify_io_unit_checksum b) v.

Record FileReaderV2 := mkReaderV2 {
  reader : R;
  reader_schema : list Field;
  projections : Projection;
  selection : Selection;
  grouped_column_metadata_buffers : list (list (list Z));
  row_group_cnt_n_pointers : list RowGroupCntNPointer;
  reader_wasm_context : option (WASMReadingContext R RT);
  shared_dictionary_cache : option Cache;
  reader_checksum_type : option ChecksumType;
}.

(** The footer table, from the read-ahead buffer or from the file. *)
Definition read_footer_fbs (b : FileReaderV2Builder) (ahead : list Z) (file_size : Z)
    (ps : PostScript) : outcome fb.Footer :=
  let! footer_bytes :=
    if read_ahead b then
      let! _ := assert (footer_size ps <? wrap 32 (DEFAULT_IOUNIT_SIZE - 32)) in
      let! end_ := usub (len ahead) POSTSCRIPT_SIZE in
      let! start := usub end_ (footer_size ps) in
      slice ahead start end_
    else
      let! off := usub file_size POSTSCRIPT_SIZE in
      let! off := usub off (footer_size ps) in
      read_exact_at (b_reader b) (footer_size ps) off in
  ok_or (root_as_footer footer_bytes) (ParseError "Unable to get root as footer").

(** All column metadata at once, when more than 60% of the columns are projected
    or there are at most 100: [projected / total > 0.6] in exact arithmetic. *)
Definition read_all_metadata (b : FileReaderV2Builder) (ahead : list Z) (file_size : Z)
    (ps : PostScript) (total_columns : Z) : outcome (option (list Z)) :=
  let many := match b_projections b with
              | ProjectAll => true
              | LeafColumnIndexes p => 3 * total_columns <? 5 * len p
              end in
  if many || (total_columns <=? 100) then
    let! n := usub (metadata_size ps) (footer_size ps) in
    let! res :=
      if read_ahead b then
        let! off := usub (len ahead) POSTSCRIPT_SIZE in
        let! off := usub off (metadata_size ps) in
        read_exact_at ahead n off
      else
        let! off := usub file_size POSTSCRIPT_SIZE in
        let! off := usub off (metadata_size ps) in
        read_exact_at (b_reader b) n off in
    Ok (Some res)
  else Ok None.

(** The metadata buffer of one column, read on its own or cut from the buffer. *)
Definition column_meta_buffer (b : FileReaderV2Builder) (all : option (list Z))
    (file_size : Z) (ps : PostScript) (ptr : fb.MetadataSection) : outcome (list Z) :=
  match all with
  | None => read_exact_at (b_reader b) (fb.size_ ptr) (fb.offset ptr)
  | Some buf =>
      let! d := usub file_size POSTSCRIPT_SIZE in
      let! data_size := usub d (metadata_size ps) in
      let! start := usub (fb.offset ptr) data_size in
      let! end_ := uadd 64 start (fb.size_ ptr) in
      slice buf start end_
  end.

(** The columns of one row group that the projection asks for. *)
Definition projected_columns (p : Projection) (sections : list fb.MetadataSection)
  : outcome (list fb.MetadataSection) :=
  match p with
  | ProjectAll => Ok sections
  | LeafColumnIndexes idx => traverse (index sections) idx
  end.

Fixpoint zip3 {A B C} (a : list A) (b : list B) (c : list C) : list (A * B * C) :=
  match a, b, c with
  | a :: as_, b :: bs, c :: cs => (a, b, c) :: zip3 as_ bs cs
  | _, _, _ => []
  end.

(** [names().iter().position(|v| v == name)] *)
Fixpoint position (name : string) (names : list string) : option Z :=
  match names with
  | [] => None
  | n :: names => if decide (n = name) then Some 0 else (Z.add 1) <$> position name names
  end.

Definition wasm_reading_context (b : FileReaderV2Builder)
    (sections : option fb.OptionalMetadataSections)
    (versions : option (gmap EncodingType Version))
  : outcome (option (WASMReadingContext R RT)) :=
  match wasm_rts b with
  | Some rts => Ok (Some (new_with_rt_and_versions rts versions))
  | None =>
      match sections with
      | None => Ok None
      | Some s =>
          let! names := unwrap (fb.names s) in
          let! pos := unwrap (position "WASMBinaries" names) in
          let! offs := unwrap (fb.offsets s) in
          let! off := index offs pos in
          let! szs := unwrap (fb.sizes s) in
          let! sz := index szs pos in
          let! cts := unwrap (fb.compression_types s) in
          let! ct := index cts pos in
          Ok (Some (new_with_versions (mkMetadataSection off sz ct) (b_reader b) versions))
      end
  end.

Definition build (b : FileReaderV2Builder) : outcome FileReaderV2 :=
  let! file_size := reader_size (b_reader b) in
  let! ahead :=
    if read_ahead b then
      let n := Z.min DEFAULT_IOUNIT_SIZE file_size in
      let! off := usub file_size n in
      read_exact_at (b_reader b) n off
    else Ok [] in
  let! ps :=
    if read_ahead b then read_postscript ahead (len ahead)
    else read_postscript (b_reader b) file_size in
  let! _ :=
    if b_verify_file_checksum b
    then verify_file_checksum (b_reader b) file_size (ps_data_checksum ps) (checksum_type ps)
    else Ok tt in
  let! footer_fbs := read_footer_fbs b ahead file_size ps in
  let! parsed := parse_footer footer_fbs in
  let rgs := parsed_row_groups parsed in
  let! metas := unwrap (fb.row_group_metadatas rgs) in
  let! first := index metas 0 in
  let! first_cols := unwrap (fb.col_metadatas first) in
  let total_columns := len first_cols in
  let! counts := unwrap (fb.row_counts rgs) in
  let! offs := unwrap (fb.rg_offsets rgs) in
  let! szs := unwrap (fb.rg_sizes rgs) in
  let pointers := map (λ '(row_count, offset, size), mkPointer row_count offset size)
                    (zip3 counts offs szs) in
  let! all := read_all_metadata b ahead file_size ps total_columns in
  let! buffers :=
    traverse (λ rg,
        let! sections := unwrap (fb.col_metadatas rg) in
        let! ptrs := projected_columns (b_projections b) sections in
        traverse (column_meta_buffer b all file_size ps) ptrs)
      metas in
  let! wasm_context :=
    wasm_reading_context b (parsed_sections parsed) (parsed_versions parsed) in
  let! cache :=
    match parsed_dict parsed with
    | Some t => let! c := unwrap_res (read_all (b_reader b) t wasm_context) in Ok (Some c)
    | None => Ok None
    end in
  Ok (mkReaderV2 (b_reader b) (parsed_schema parsed) (b_projections b) (b_selection b)
        buffers pointers wasm_context cache
        (if b_verify_io_unit_checksum b then Some (checksum_type ps) else None)).
End Builder.
