(* ===== verification/Wire.v ===== *)
(** * A concrete wire format

    An instance of [Flatbuffers] for which the laws hold, so that theorems proved
    against the interface can be applied: a table is encoded as the one symbol
    that numbers it (every table type is countable). *)

From S2P Require Import Prelude Arrow Common Footer.

Section Symbols.
Context {A : Type} `{Countable A}.
Definition symbol (a : A) : list Z := [Zpos (encode a)].
Definition unsymbol (l : list Z) : option A :=
  match l with [Zpos p] => decode p | _ => None end.
Lemma unsymbol_symbol a : unsymbol (symbol a) = Some a.
Proof. apply decode_encode. Qed.
End Symbols.

(** Countability of the tables, one projection tuple each. *)
Ltac solve_countable := intros []; reflexivity.

#[export] Instance ms_eq : EqDecision fb.MetadataSection.
Proof. solve_decision. Defined.
#[export] Program Instance ms_countable : Countable fb.MetadataSection :=
  inj_countable' (λ x, (fb.offset x, fb.size_ x, fb.compression_type x))
    (λ '(a, b, c), fb.mkMetadataSection a b c) _.
Next Obligation. solve_countable. Qed.

#[export] Instance sv_eq : EqDecision fb.SemVer.
Proof. solve_decision. Defined.
#[export] Program Instance sv_countable : Countable fb.SemVer :=
  inj_countable' (λ x, (fb.major x, fb.minor x, fb.patch x)) (λ '(a, b, c), fb.mkSemVer a b c) _.
Next Obligation. solve_countable. Qed.

#[export] Instance ev_eq : EqDecision fb.EncodingVersion.
Proof. solve_decision. Defined.
#[export] Program Instance ev_countable : Countable fb.EncodingVersion :=
  inj_countable' (λ x, (fb.ev_encoding_type x, fb.ev_version x))
    (λ '(a, b), fb.mkEncodingVersion a b) _.
Next Obligation. solve_countable. Qed.

#[export] Instance oms_eq : EqDecision fb.OptionalMetadataSections.
Proof. solve_decision. Defined.
#[export] Program Instance oms_countable : Countable fb.OptionalMetadataSections :=
  inj_countable' (λ x, (fb.names x, fb.offsets x, fb.sizes x, fb.compression_types x))
    (λ '(a, b, c, d), fb.mkOptionalSections a b c d) _.
Next Obligation. solve_countable. Qed.

#[export] Instance we_eq : EqDecision fb.WASMEncoding.
Proof. solve_decision. Defined.
#[export] Program Instance we_countable : Countable fb.WASMEncoding :=
  inj_countable' (λ x, (fb.wasm_id x, fb.mini_encunit_sizes x))
    (λ '(a, b), fb.mkWASMEncoding a b) _.
Next Obligation. solve_countable. Qed.

#[export] Instance en_eq : EqDecision fb.Encoding.
Proof. solve_decision. Defined.
#[export] Program Instance en_countable : Countable fb.Encoding :=
  inj_countable' (λ x, (fb.type_ x, fb.wasm_encoding x)) (λ '(a, b), fb.mkEncoding a b) _.
Next Obligation. solve_countable. Qed.

#[export] Instance eu_eq : EqDecision fb.EncUnit.
Proof. solve_decision. Defined.
#[export] Program Instance eu_countable : Countable fb.EncUnit :=
  inj_countable' (λ x, (fb.eu_size x, fb.eu_num_rows x, fb.eu_encoding x, fb.eu_compression x))
    (λ '(a, b, c, d), fb.mkEncUnit a b c d) _.
Next Obligation. solve_countable. Qed.

#[export] Instance de_eq : EqDecision fb.DictionaryEncoding.
Proof. solve_decision. Defined.
#[export] Program Instance de_countable : Countable fb.DictionaryEncoding :=
  inj_countable'
    (λ x, match x with
          | fb.NoDictionary => inl ()
          | fb.LocalDictionary l => inr (inl l)
          | fb.SharedDictionary i => inr (inr i)
          end)
    (λ s, match s with
          | inl () => fb.NoDictionary
          | inr (inl l) => fb.LocalDictionary l
          | inr (inr i) => fb.SharedDictionary i
          end) _.
Next Obligation. solve_countable. Qed.

#[export] Instance ch_eq : EqDecision fb.Chunk.
Proof. solve_decision. Defined.
#[export] Program Instance ch_countable : Countable fb.Chunk :=
  inj_countable' (λ x, (fb.chunk_offset x, fb.chunk_size x, fb.chunk_num_rows x,
                        fb.chunk_encoding x, fb.encunits x, fb.checksum x))
    (λ '(a, b, c, d, e, f), fb.mkChunk a b c d e f) _.
Next Obligation. solve_countable. Qed.

#[export] Instance cm_eq : EqDecision fb.ColumnMetadata.
Proof. solve_decision. Defined.
#[export] Program Instance cm_countable : Countable fb.ColumnMetadata :=
  inj_countable' fb.column_chunks fb.mkColumnMetadata _.
Next Obligation. solve_countable. Qed.

#[export] Instance rgm_eq : EqDecision fb.RowGroupMetadata.
Proof. solve_decision. Defined.
#[export] Program Instance rgm_countable : Countable fb.RowGroupMetadata :=
  inj_countable' fb.col_metadatas fb.mkRowGroupMetadata _.
Next Obligation. solve_countable. Qed.

#[export] Instance rg_eq : EqDecision fb.RowGroups.
Proof. solve_decision. Defined.
#[export] Program Instance rg_countable : Countable fb.RowGroups :=
  inj_countable' (λ x, (fb.row_counts x, fb.rg_offsets x, fb.rg_sizes x, fb.row_group_metadatas x))
    (λ '(a, b, c, d), fb.mkRowGroups a b c d) _.
Next Obligation. solve_countable. Qed.

#[export] Instance sdt_eq : EqDecision fb.SharedDictionaryTable.
Proof. solve_decision. Defined.
#[export] Program Instance sdt_countable : Countable fb.SharedDictionaryTable :=
  inj_countable'
    (λ x, (fb.dictionary_chunks x, fb.dictionary_positions x, fb.dictionary_schema x))
    (λ '(a, b, c), fb.mkSharedDictionaryTable a b c) _.
Next Obligation. solve_countable. Qed.

#[export] Instance wb_eq : EqDecision fb.WASMBinaries.
Proof. solve_decision. Defined.
#[export] Program Instance wb_countable : Countable fb.WASMBinaries :=
  inj_countable' fb.wasm_binaries fb.mkWASMBinaries _.
Next Obligation. solve_countable. Qed.

#[export] Instance li_eq : EqDecision fb.LogicalId.
Proof. solve_decision. Defined.
Definition li_code (x : fb.LogicalId) : Z :=
  match x with
  | fb.FLAT => 0 | fb.LIST => 1 | fb.STRUCT => 2 | fb.LIST_OF_STRUCT_OF_PRIMITIVE => 3
  end.
Definition li_of (z : Z) : fb.LogicalId :=
  if z =? 0 then fb.FLAT else if z =? 1 then fb.LIST
  else if z =? 2 then fb.STRUCT else fb.LIST_OF_STRUCT_OF_PRIMITIVE.
#[export] Program Instance li_countable : Countable fb.LogicalId := inj_countable' li_code li_of _.
Next Obligation. solve_countable. Qed.

(** Logical trees, through their syntax trees. *)
Fixpoint lt_tree (t : fb.LogicalTree) : gen_tree fb.LogicalId :=
  match t with fb.mkLogicalTree i cs => GenNode 0 (GenLeaf i :: map lt_tree cs) end.
Fixpoint tree_lt (t : gen_tree fb.LogicalId) : fb.LogicalTree :=
  match t with
  | GenNode _ (GenLeaf i :: ts) => fb.mkLogicalTree i (map tree_lt ts)
  | _ => fb.mkLogicalTree fb.FLAT []
  end.

Fixpoint lt_tree_lt (t : fb.LogicalTree) : tree_lt (lt_tree t) = t.
Proof.
  destruct t as [i cs]. cbn. f_equal. induction cs as [|c cs IH]; [done|].
  cbn. f_equal; [apply lt_tree_lt|done].
Qed.

#[export] Instance lt_eq : EqDecision fb.LogicalTree.
Proof.
  refine (λ x y, cast_if (decide (lt_tree x = lt_tree y))).
  - by rewrite <-(lt_tree_lt x), e, lt_tree_lt.
  - congruence.
Defined.
#[export] Program Instance lt_countable : Countable fb.LogicalTree :=
  inj_countable' lt_tree tree_lt _.
Next Obligation. apply lt_tree_lt. Qed.

#[export] Instance ft_eq : EqDecision fb.Footer.
Proof. solve_decision. Defined.
#[export] Program Instance ft_countable : Countable fb.Footer :=
  inj_countable' (λ x, (fb.schema x, fb.logical_tree x, fb.row_groups x, fb.optional_sections x,
                        fb.shared_dictionary_table x, fb.encoding_versions x))
    (λ '(a, b, c, d, e, f), fb.mkFooter a b c d e f) _.
Next Obligation. solve_countable. Qed.

(** ** The instance *)

Definition symbol_flatbuffers : Flatbuffers := {|
  enc_column_metadata := symbol;
  root_column_metadata := unsymbol;
  enc_footer := symbol;
  root_as_footer := unsymbol;
  enc_wasm_binaries := symbol;
  root_wasm_binaries := unsymbol;
  schema_to_bytes := symbol;
  root_as_message b := Some (unsymbol b);
|}.

Lemma symbol_flatbuffers_laws : @FlatbuffersLaws symbol_flatbuffers.
Proof. split; intros; cbn; f_equal; apply unsymbol_symbol. Qed.
