(* ===== verification/FileRoundtrip.v ===== *)
(** * What a reader finds in a written file

    The tail that [FileWriter::finish] writes, read back: postscript, file
    checksum, footer and column metadata. *)

From S2P Require Import Prelude Arrow Common Footer Options Chunks Writer Selection Reader Wire.

(** ** The postscript *)

Lemma parse_postscript_bytes m f d s :
  in_u 32 m → in_u 32 f → in_u 64 d → in_u 64 s →
  parse_postscript (postscript_bytes m f d s)
  = Ok (mkPostScript m f Uncompressed XxHash d s MAJOR_VERSION MINOR_VERSION).
Proof.
  intros Hm Hf Hd Hs. unfold parse_postscript, postscript_bytes.
  set (m4 := le_bytes 4 m). set (f4 := le_bytes 4 f). set (d8 := le_bytes 8 d).
  set (s8 := le_bytes 8 s).
  assert (Hm4 : length m4 = 4%nat) by apply le_bytes_length.
  assert (Hf4 : length f4 = 4%nat) by apply le_bytes_length.
  assert (Hd8 : length d8 = 8%nat) by apply le_bytes_length.
  assert (Hs8 : length s8 = 8%nat) by apply le_bytes_length.
  rewrite <-(le_val_le_bytes 4 m), <-(le_val_le_bytes 4 f), <-(le_val_le_bytes 8 d),
    <-(le_val_le_bytes 8 s) by done.
  fold m4 f4 d8 s8. clearbody m4 f4 d8 s8.
  destruct m4 as [|? [|? [|? [|? [|]]]]]; try discriminate Hm4.
  destruct f4 as [|? [|? [|? [|? [|]]]]]; try discriminate Hf4.
  destruct d8 as [|? [|? [|? [|? [|? [|? [|? [|? [|]]]]]]]]]; try discriminate Hd8.
  destruct s8 as [|? [|? [|? [|? [|? [|? [|? [|? [|]]]]]]]]]; try discriminate Hs8.
  reflexivity.
Qed.

Lemma postscript_bytes_len m f d s : len (postscript_bytes m f d s) = 32.
Proof. unfold postscript_bytes. by rewrite !len_app, !le_bytes_len. Qed.

(** ** The column metadata *)

Section Metadata.
Context `{Checksum} `{Flatbuffers} `{!FlatbuffersLaws}.

Definition enc_meta (m : ColumnMetadata) : list Z := enc_column_metadata (ColumnMetadata_to_fb m).

(** The sections of column metadata written one after the other from [off] on. *)
Fixpoint sections_from (off : Z) (ms : list ColumnMetadata) : list MetadataSection :=
  match ms with
  | [] => []
  | m :: ms => mkMetadataSection off (wrap 32 (len (enc_meta m))) Uncompressed
                 :: sections_from (off + len (enc_meta m)) ms
  end.

Definition group_bytes (rg : RowGroupMetadata) : list (list Z) := map enc_meta (col_metadatas rg).

Fixpoint groups_from (off : Z) (rgs : list RowGroupMetadata) : list IndirectRowGroupMetadata :=
  match rgs with
  | [] => []
  | rg :: rgs => mkIndirect (sections_from off (col_metadatas rg))
                   :: groups_from (off + len (concat (group_bytes rg))) rgs
  end.

Lemma flush_cols_spec s acc ms :
  foldl flush_col_meta (s, mkIndirect acc) ms
  = (write_all_checked s (map enc_meta ms), mkIndirect (acc ++ sections_from (len (out s)) ms)).
Proof.
  revert s acc. induction ms as [|m ms IH]; intros s acc.
  { cbn. by rewrite app_nil_r. }
  cbn [foldl map sections_from].
  change (flush_col_meta (s, mkIndirect acc) m) with
    (write_checked s (enc_meta m),
     mkIndirect (acc ++ [mkMetadataSection (len (out s)) (wrap 32 (len (enc_meta m))) Uncompressed])).
  rewrite IH. cbn. rewrite len_app, <-app_assoc. done.
Qed.

Lemma flush_groups_spec s acc rgs :
  foldl flush_row_group (s, acc) rgs
  = (write_all_checked s (concat (map group_bytes rgs)), acc ++ groups_from (len (out s)) rgs).
Proof.
  revert s acc. induction rgs as [|rg rgs IH]; intros s acc.
  { cbn. by rewrite app_nil_r. }
  cbn [foldl map concat groups_from]. unfold flush_row_group at 2. rewrite flush_cols_spec.
  rewrite IH, out_writes, len_app. unfold write_all_checked. rewrite foldl_app, <-app_assoc. done.
Qed.

Lemma sections_read buf data_size a ms b :
  buf = a ++ concat (map enc_meta ms) ++ b → len buf < 2 ^ 64 →
  Forall (λ m, len (enc_meta m) < 2 ^ 32) ms →
  traverse (column_metadata_at buf data_size)
    (map MetadataSection_to_fb (sections_from (data_size + len a) ms))
  = Ok (map ColumnMetadata_to_fb ms).
Proof.
  intros -> Hlen Hfit. revert a Hlen. induction Hfit as [|m ms Hm Hfit IH]; intros a Hlen; [done|].
  cbn [sections_from map traverse concat] in *. rewrite <-app_assoc in *.
  pose proof (len_nonneg a). pose proof (len_nonneg (enc_meta m)).
  pose proof (len_nonneg (concat (map enc_meta ms) ++ b)).
  assert (Hb : len a + len (enc_meta m) < 2 ^ 64) by (rewrite !len_app in Hlen; rewrite len_app in *; lia).
  assert (Hat : column_metadata_at (a ++ enc_meta m ++ concat (map enc_meta ms) ++ b) data_size
      (MetadataSection_to_fb (mkMetadataSection (data_size + len a) (wrap 32 (len (enc_meta m)))
         Uncompressed)) = Ok (ColumnMetadata_to_fb m)).
  { unfold column_metadata_at. cbn [MetadataSection_to_fb fb.offset fb.size_ ms_offset ms_size].
    rewrite wrap_small by done. unfold usub. rewrite (proj2 (Z.leb_le _ _)) by lia. cbn [obind].
    replace (data_size + len a - data_size) with (len a) by lia.
    unfold uadd. rewrite (proj2 (Z.ltb_lt _ _)) by lia. cbn [obind].
    rewrite slice_mid by done. cbn [obind]. unfold enc_meta. by rewrite column_metadata_roundtrip. }
  rewrite Hat. cbn [obind].
  specialize (IH (a ++ enc_meta m)). rewrite <-app_assoc, (len_app a (enc_meta m)), Z.add_assoc in IH.
  by rewrite IH.
Qed.

(** The row groups as the reader sees them. *)
Fixpoint grouped (rgs : list RowGroupMetadata) (counts offs szs : list Z)
  : list GroupedColumnMetadata :=
  match rgs, counts, offs, szs with
  | rg :: rgs, c :: counts, o :: offs, s :: szs =>
      mkGrouped (map ColumnMetadata_to_fb (col_metadatas rg)) c o s :: grouped rgs counts offs szs
  | _, _, _, _ => []
  end.

Lemma groups_read buf data_size a rgs counts offs szs b :
  buf = a ++ concat (concat (map group_bytes rgs)) ++ b → len buf < 2 ^ 64 →
  Forall (λ rg, Forall (λ m, len (enc_meta m) < 2 ^ 32) (col_metadatas rg)) rgs →
  traverse (λ '(meta, row_count, offset, size),
        let! sections := unwrap (fb.col_metadatas meta) in
        let! cols := traverse (column_metadata_at buf data_size) sections in
        Ok (mkGrouped cols row_count offset size))
    (zip4 (map Indirect_to_fb (groups_from (data_size + len a) rgs)) counts offs szs)
  = Ok (grouped rgs counts offs szs).
Proof.
  intros -> Hlen Hfit. revert a counts offs szs Hlen.
  induction Hfit as [|rg rgs Hrg Hfit IH]; intros a counts offs szs Hlen; [done|].
  destruct counts as [|c counts]; [done|]. destruct offs as [|o offs]; [done|].
  destruct szs as [|z szs]; [done|].
  cbn [groups_from map zip4 traverse grouped Indirect_to_fb fb.col_metadatas unwrap obind
    col_sections concat] in *.
  rewrite concat_app, <-app_assoc in *.
  rewrite (sections_read _ data_size a (col_metadatas rg) (concat (concat (map group_bytes rgs)) ++ b))
    by done. cbn [obind].
  specialize (IH (a ++ concat (group_bytes rg)) counts offs szs).
  rewrite <-app_assoc, (len_app a (concat (group_bytes rg))), Z.add_assoc in IH.
  by rewrite IH.
Qed.

Context `{!ChecksumLaws}.

(** ** The dictionaries and the WASM binaries *)

Definition units_of (cs : list EncodedColumnChunk) : list (list Z) :=
  concat (map (map bytes ∘ encunits) cs).

Lemma units_of_bytes cs : concat (units_of cs) = concat (map chunk_bytes cs).
Proof.
  unfold units_of. induction cs as [|c cs IH]; [done|]. cbn. by rewrite concat_app, IH.
Qed.

Lemma write_all_app s a b :
  write_all_checked (write_all_checked s a) b = write_all_checked s (a ++ b).
Proof. unfold write_all_checked. by rewrite foldl_app. Qed.

Lemma flush_dict_spec acc st cs :
  foldl flush_dict (acc, st) cs
  = (acc ++ map snd (placed (enable_io_unit_checksum st) (len (out (sink st))) cs),
     set_sink st (write_all_checked (sink st) (units_of cs))).
Proof.
  revert acc st. induction cs as [|c cs IH]; intros acc st.
  { cbn. rewrite app_nil_r. by destruct st. }
  cbn [foldl]. unfold flush_dict at 2. rewrite flush_chunk_and_get_metadata_spec, IH.
  cbn [sink set_sink enable_io_unit_checksum placed map].
  rewrite out_writes, len_app, write_all_app, <-app_assoc. done.
Qed.

Definition dicts_bytes (dicts : list (list EncodedColumnChunk)) : list Z :=
  concat (map (λ d, concat (map chunk_bytes d)) dicts).

(** The metadata of the dictionaries, one list per dictionary. *)
Fixpoint dict_metas (ck : bool) (off : Z) (dicts : list (list EncodedColumnChunk))
  : list (list Chunk) :=
  match dicts with
  | [] => []
  | d :: dicts => map snd (placed ck off d)
                    :: dict_metas ck (off + len (concat (map chunk_bytes d))) dicts
  end.

Lemma flush_dicts_spec acc st dicts :
  foldl flush_dicts (acc, st) dicts
  = (acc ++ dict_metas (enable_io_unit_checksum st) (len (out (sink st))) dicts,
     set_sink st (write_all_checked (sink st) (concat (map units_of dicts)))).
Proof.
  revert acc st. induction dicts as [|d dicts IH]; intros acc st.
  { cbn. rewrite app_nil_r. by destruct st. }
  cbn [foldl]. unfold flush_dicts at 2. rewrite flush_dict_spec, IH.
  cbn [sink set_sink enable_io_unit_checksum dict_metas map concat].
  rewrite out_writes, len_app, write_all_app, <-app_assoc, units_of_bytes. done.
Qed.

Fixpoint wasm_sections_from (off : Z) (wasms : list (list Z)) : list fb.MetadataSection :=
  match wasms with
  | [] => []
  | w :: wasms => fb.mkMetadataSection off (wrap 32 (len w)) Uncompressed
                    :: wasm_sections_from (off + len w) wasms
  end.

Lemma write_wasms_spec acc st wasms :
  foldl write_wasm (acc, st) wasms
  = (acc ++ wasm_sections_from (len (out (sink st))) wasms,
     set_sink st (write_all_checked (sink st) wasms)).
Proof.
  revert acc st. induction wasms as [|w wasms IH]; intros acc st.
  { cbn. rewrite app_nil_r. by destruct st. }
  assert (Hstep : write_wasm (acc, st) w
    = (acc ++ [fb.mkMetadataSection (len (out (sink st))) (wrap 32 (len w)) Uncompressed],
       set_sink st (write_checked (sink st) w))).
  { cbn. unfold stream_position. cbn. rewrite len_app.
    by replace (len (out (sink st)) + len w - len (out (sink st))) with (len w) by lia. }
  cbn [foldl]. rewrite Hstep, IH. cbn [sink set_sink wasm_sections_from].
  rewrite <-app_assoc. cbn. by rewrite len_app.
Qed.

(** ** The whole tail *)

(** The parts of a finished file. *)
Record TailLayout (schema : list Field) (tree : fb.LogicalTree) (scs : checksum_state)
    (wasm_binaries : list (list Z)) (dicts : list (list EncodedColumnChunk))
    (peers : list (option Z)) (dtypes : list DataType) (st : FileWriteState)
    (file : list Z) := mkTail {
  tl_data : list Z;       (* row groups, dictionaries, binaries and their table *)
  tl_meta : list Z;       (* column metadata *)
  tl_footer : fb.Footer;
  tl_positions : list (list Z);
  tl_data_eq :
    let data0 := out (sink st) ++ dicts_bytes dicts in
    tl_data = data0 ++ concat wasm_binaries ++
      enc_wasm_binaries (fb.mkWASMBinaries (Some (wasm_sections_from (len data0) wasm_binaries)));
  tl_meta_eq : tl_meta = concat (concat (map group_bytes (row_group_metadata (row_groups_table st))));
  tl_positions_eq :
    dict_positions peers
      (dict_metas (enable_io_unit_checksum st) (len (out (sink st))) dicts) = Ok tl_positions;
  tl_schema : fb.schema tl_footer = Some (schema_to_bytes schema);
  tl_tree : fb.logical_tree tl_footer = Some tree;
  tl_row_groups : fb.row_groups tl_footer
    = Some (fb.mkRowGroups (Some (row_counts (row_groups_table st)))
        (Some (offsets (row_groups_table st))) (Some (sizes (row_groups_table st)))
        (Some (map Indirect_to_fb (indirect_row_group_metadata (row_groups_table st)
           ++ groups_from (len tl_data) (row_group_metadata (row_groups_table st))))));
  tl_sections : fb.optional_sections tl_footer
    = Some (optional_metadata_section
        (len (out (sink st) ++ dicts_bytes dicts
              ++ concat wasm_binaries))
        (len (enc_wasm_binaries (fb.mkWASMBinaries (Some (wasm_sections_from
           (len (out (sink st) ++ dicts_bytes dicts))
           wasm_binaries))))));
  tl_dicts : fb.shared_dictionary_table tl_footer
    = Some (SharedDictionaryTable_to_fb
        (concat (dict_metas (enable_io_unit_checksum st) (len (out (sink st))) dicts))
        tl_positions dtypes);
  tl_versions : fb.encoding_versions tl_footer
    = Some (map EncodingVersion_to_fb create_default_encoding_versions);
  tl_file : file = (tl_data ++ tl_meta ++ enc_footer tl_footer) ++
    postscript_bytes (wrap 32 (len (tl_meta ++ enc_footer tl_footer)))
      (wrap 32 (len (enc_footer tl_footer)))
      (checksum_of XxHash (tl_data ++ tl_meta ++ enc_footer tl_footer))
      (finalize (update scs (schema_to_bytes schema)));
}.

Lemma write_tail_layout schema tree scs wasm_binaries dicts peers dtypes st file :
  sink_ok (sink st) →
  write_tail schema tree scs wasm_binaries dicts peers dtypes st = Ok file →
  TailLayout schema tree scs wasm_binaries dicts peers dtypes st file.
Proof.
  intros Hok. unfold write_tail.
  rewrite flush_dicts_spec, write_wasms_spec. rewrite !app_nil_l.
  cbn [sink set_sink row_groups_table enable_io_unit_checksum].
  unfold write_and_update_file_level_checksum.
  cbn [sink set_sink row_groups_table enable_io_unit_checksum].
  unfold to_indirect_and_flush. rewrite flush_groups_spec.
  destruct (dict_positions _ _) as [positions|e|p] eqn:Hpos; cbn [obind]; [|done|done].
  set (bufs := concat (map units_of dicts)).
  assert (Hbufs : concat bufs = dicts_bytes dicts).
  { unfold bufs, dicts_bytes. clear. induction dicts as [|d dicts IH]; [done|]. cbn.
    by rewrite concat_app, units_of_bytes, IH. }
  set (s1 := write_all_checked (sink st) bufs).
  set (s2 := write_all_checked s1 wasm_binaries).
  assert (Hs1 : out s1 = out (sink st) ++ dicts_bytes dicts)
    by (unfold s1; by rewrite out_writes, Hbufs).
  assert (Hs2 : out s2 = out s1 ++ concat wasm_binaries) by (unfold s2; by rewrite out_writes).
  set (wmeta := enc_wasm_binaries _).
  set (s3 := write_checked s2 wmeta).
  assert (Hs3 : out s3 = out s2 ++ wmeta) by done.
  set (rgs := row_group_metadata (row_groups_table st)).
  set (s4 := write_all_checked s3 (concat (map group_bytes rgs))).
  assert (Hs4 : out s4 = out s3 ++ concat (concat (map group_bytes rgs)))
    by (unfold s4; by rewrite out_writes).
  set (ffb := fb.mkFooter _ _ _ _ _ _). intros Hfile. injection Hfile as <-.
  set (s5 := write_checked s4 (enc_footer ffb)).
  assert (Hs5 : out s5 = out s4 ++ enc_footer ffb) by done.
  assert (Hok5 : sink_ok s5) by (apply sink_ok_write, sink_ok_writes, sink_ok_write,
    sink_ok_writes, sink_ok_writes; done).
  apply (mkTail _ _ _ _ _ _ _ _ _ (out s3) (concat (concat (map group_bytes rgs))) ffb positions);
    try reflexivity.
  - cbv zeta. rewrite Hs3, Hs2, <-app_assoc, <-Hs1. done.
  - done.
  - unfold ffb. cbn. unfold stream_position. rewrite Hs3, Hs2, Hs1, <-app_assoc.
    f_equal. f_equal. unfold wmeta. rewrite Hs1, !len_app. lia.
  - change (update (data_checksum s4) (enc_footer ffb)) with (data_checksum s5).
    rewrite sink_ok_checksum by done. unfold stream_position.
    rewrite Hs5, Hs4, <-!app_assoc, !len_app. repeat f_equal. lia.
Qed.

(** ** Reading the tail back *)

Section ReadBack.
Context {R : Type} `{Reader R} (r : R).

Lemma read_postscript_ok pre m f d s :
  ReaderOf R r (pre ++ postscript_bytes m f d s) →
  in_u 32 m → in_u 32 f → in_u 64 d → in_u 64 s →
  read_postscript r (len (pre ++ postscript_bytes m f d s))
  = Ok (mkPostScript m f Uncompressed XxHash d s MAJOR_VERSION MINOR_VERSION).
Proof.
  intros Hr Hm Hf Hd Hs. unfold read_postscript, POSTSCRIPT_SIZE.
  rewrite len_app, postscript_bytes_len. pose proof (len_nonneg pre).
  unfold usub. rewrite (proj2 (Z.leb_le _ _)) by lia. cbn [obind].
  rewrite (reader_range r (pre ++ postscript_bytes m f d s) pre (postscript_bytes m f d s) []);
    [|done|by rewrite app_nil_r|lia|by rewrite postscript_bytes_len].
  cbn [obind]. by apply parse_postscript_bytes.
Qed.

Lemma verify_file_checksum_ok pre m f s ps_sum :
  ReaderOf R r (pre ++ postscript_bytes m f ps_sum s) → ps_sum = checksum_of XxHash pre →
  verify_file_checksum r (len (pre ++ postscript_bytes m f ps_sum s)) ps_sum XxHash = Ok tt.
Proof.
  intros Hr Hsum. unfold verify_file_checksum, POSTSCRIPT_SIZE.
  rewrite len_app, postscript_bytes_len. pose proof (len_nonneg pre).
  unfold usub. rewrite (proj2 (Z.leb_le _ _)) by lia. cbn [obind].
  rewrite (reader_range r (pre ++ postscript_bytes m f ps_sum s) [] pre
    (postscript_bytes m f ps_sum s)); [|done..|lia].
  cbn [obind]. fold (checksum_of XxHash pre). rewrite <-Hsum, Z.eqb_refl. done.
Qed.

Lemma metadata_buffer_ok data meta ps_rest ps :
  ReaderOf R r (data ++ meta ++ ps_rest) → len ps_rest = 32 →
  ps_compression ps = Uncompressed → metadata_size ps = len meta →
  get_metadata_buffer r ps = Ok meta.
Proof.
  intros Hr Hps Hc Hm. unfold get_metadata_buffer, POSTSCRIPT_SIZE.
  rewrite Hc, Z.eqb_refl. cbn [negb]. rewrite (reader_size_ok (r:=r)). cbn [obind].
  pose proof (len_nonneg data). pose proof (len_nonneg meta).
  rewrite !len_app, Hps, Hm. unfold usub at 1. rewrite (proj2 (Z.leb_le _ _)) by lia. cbn [obind].
  unfold usub. rewrite (proj2 (Z.leb_le _ _)) by lia. cbn [obind].
  apply (reader_range r (data ++ meta ++ ps_rest) data meta ps_rest); [done..|lia|done].
Qed.

(** The footer of a buffer of column metadata followed by the footer table. *)
Lemma Footer_try_new_ok data meta ffb ps schema tree counts offs szs rgs :
  meta = concat (concat (map group_bytes rgs)) →
  fb.schema ffb = Some (schema_to_bytes schema) → fb.logical_tree ffb = Some tree →
  fb.row_groups ffb = Some (fb.mkRowGroups (Some counts) (Some offs) (Some szs)
    (Some (map Indirect_to_fb (groups_from (len data) rgs)))) →
  metadata_size ps = len (meta ++ enc_footer ffb) → footer_size ps = len (enc_footer ffb) →
  len (meta ++ enc_footer ffb) < 2 ^ 32 →
  Footer_try_new (meta ++ enc_footer ffb) (len (data ++ meta ++ enc_footer ffb) + 32) ps
  = Ok (mkFooter schema (grouped rgs counts offs szs)).
Proof.
  intros Hmeta Hs Ht Hrg Hms Hfs Hlen. unfold Footer_try_new, POSTSCRIPT_SIZE.
  pose proof (len_nonneg data). pose proof (len_nonneg meta). pose proof (len_nonneg (enc_footer ffb)).
  rewrite Hms, Hfs. rewrite !len_app in *.
  unfold usub at 1. rewrite (proj2 (Z.leb_le _ _)) by lia. cbn [obind].
  unfold usub at 1. rewrite (proj2 (Z.leb_le _ _)) by lia. cbn [obind].
  unfold usub at 1. rewrite (proj2 (Z.leb_le _ _)) by lia. cbn [obind].
  unfold slice_from. rewrite slice_suffix by (rewrite ?len_app; lia). cbn [obind].
  rewrite footer_roundtrip. cbn [ok_or obind]. unfold parse_footer.
  rewrite Hs. cbn [ok_or obind]. rewrite schema_roundtrip. cbn [ok_or obind].
  rewrite Ht, Hrg. cbn [ok_or unwrap obind parsed_row_groups parsed_schema fb.row_group_metadatas
    fb.row_counts fb.rg_offsets fb.rg_sizes].
  assert (Hds : len data + (len meta + len (enc_footer ffb)) + 32 - 32
     - (len meta + len (enc_footer ffb)) = len data + len (@nil Z))
    by (rewrite (len_nil (A:=Z)); lia).
  pose proof (groups_read (meta ++ enc_footer ffb) (len data) [] rgs counts offs szs
    (enc_footer ffb)) as Hgr.
  rewrite (len_nil (A:=Z)), Z.add_0_r in Hgr, Hds. rewrite Hds, Hgr; [done|by rewrite Hmeta| |].
  - rewrite len_app. assert (2 ^ 32 < 2 ^ 64) by done. lia.
  - assert (Hm32 : len meta < 2 ^ 32) by lia. rewrite Hmeta in Hm32. clear - Hm32.
    induction rgs as [|rg rgs IH]; [constructor|]. cbn [map concat] in Hm32.
    rewrite concat_app, len_app in Hm32.
    pose proof (len_nonneg (concat (group_bytes rg))).
    pose proof (len_nonneg (concat (concat (map group_bytes rgs)))).
    constructor; [|apply IH; lia].
    assert (Hg : len (concat (group_bytes rg)) < 2 ^ 32) by lia. clear - Hg.
    unfold group_bytes in Hg. induction (col_metadatas rg) as [|m ms IH]; [constructor|].
    cbn [map concat] in Hg. rewrite len_app in Hg. pose proof (len_nonneg (enc_meta m)).
    pose proof (len_nonneg (concat (map enc_meta ms))). constructor; [lia|apply IH; lia].
Qed.
End ReadBack.
End Metadata.

(** ** The contract *)

Lemma tail_reads_back `{!Checksum} `{!Flatbuffers} `{!FlatbuffersLaws} `{!ChecksumLaws}
    {R} `{!Reader R} (r : R) schema tree wasm_binaries dicts peers dtypes st file :
  sink_ok (sink st) → indirect_row_group_metadata (row_groups_table st) = [] →
  write_tail schema tree (create_checksum XxHash) wasm_binaries dicts peers dtypes st = Ok file →
  len file - len (out (sink st)) < 2 ^ 32 → ReaderOf R r file →
  ∃ ps, read_postscript r (len file) = Ok ps ∧
    ps_compression ps = Uncompressed ∧
    (major_version ps, minor_version ps) = (MAJOR_VERSION, MINOR_VERSION) ∧
    schema_checksum ps = checksum_of XxHash (schema_to_bytes schema) ∧
    verify_file_checksum r (len file) (ps_data_checksum ps) (checksum_type ps) = Ok tt ∧
    read_footer r = Ok (mkFooter schema
      (grouped (row_group_metadata (row_groups_table st)) (row_counts (row_groups_table st))
         (offsets (row_groups_table st)) (sizes (row_groups_table st)))).
Proof.
  intros Hok Hind Htail Hlen Hr.
  destruct (write_tail_layout _ _ _ _ _ _ _ _ _ Hok Htail)
    as [data meta ffb positions Hdata Hmeta _ Hs Ht Hrg _ _ _ Hfile].
  rewrite Hind, app_nil_l in Hrg.
  set (m := wrap 32 _) in Hfile. set (f := wrap 32 _) in Hfile. set (d := checksum_of _ _) in Hfile.
  set (sc := finalize _) in Hfile.
  assert (Hprefix : len (out (sink st)) ≤ len data).
  { cbv zeta in Hdata. rewrite Hdata, !len_app. pose proof (len_nonneg (dicts_bytes dicts)).
    pose proof (len_nonneg (concat wasm_binaries)).
    match goal with |- context [len (enc_wasm_binaries ?x)] =>
      pose proof (len_nonneg (enc_wasm_binaries x)) end. lia. }
  assert (Hm : len (meta ++ enc_footer ffb) < 2 ^ 32).
  { rewrite Hfile, !len_app, postscript_bytes_len in Hlen. rewrite len_app. lia. }
  assert (Hmm : m = len (meta ++ enc_footer ffb))
    by (apply wrap_small; split; [apply len_nonneg|done]).
  assert (Hff : f = len (enc_footer ffb)).
  { apply wrap_small. split; [apply len_nonneg|]. rewrite len_app in Hm.
    pose proof (len_nonneg meta). lia. }
  assert (Hps : read_postscript r (len file)
    = Ok (mkPostScript m f Uncompressed XxHash d sc MAJOR_VERSION MINOR_VERSION)).
  { rewrite Hfile in Hr |- *. apply read_postscript_ok; [done|apply wrap_in_u; lia..| |];
      apply finalize_u64. }
  exists (mkPostScript m f Uncompressed XxHash d sc MAJOR_VERSION MINOR_VERSION).
  split_and!; [done|done|done|done| |].
  - cbn [ps_data_checksum checksum_type]. rewrite Hfile in Hr |- *.
    by apply verify_file_checksum_ok.
  - unfold read_footer. rewrite (reader_size_ok (r:=r)). cbn [obind]. rewrite Hps. cbn [obind].
    rewrite (metadata_buffer_ok r data (meta ++ enc_footer ffb) (postscript_bytes m f d sc));
      [|by rewrite Hfile, <-!app_assoc in Hr; rewrite <-!app_assoc|apply postscript_bytes_len|done|done].
    cbn [obind]. replace (len file) with (len (data ++ meta ++ enc_footer ffb) + 32)
      by (rewrite Hfile, (len_app (_ ++ _)), postscript_bytes_len; done).
    by apply Footer_try_new_ok with (tree := tree).
Qed.

(** The tail only appends. *)
Lemma write_tail_extends `{!Checksum} `{!Flatbuffers} `{!ChecksumLaws}
    schema tree scs wasm_binaries dicts peers dtypes st file :
  sink_ok (sink st) →
  write_tail schema tree scs wasm_binaries dicts peers dtypes st = Ok file →
  ∃ more, file = out (sink st) ++ more.
Proof.
  intros Hok Htail. destruct (write_tail_layout _ _ _ _ _ _ _ _ _ Hok Htail)
    as [data meta ffb positions Hdata _ _ _ _ _ _ _ _ Hfile].
  cbv zeta in Hdata. rewrite Hfile, Hdata, <-!app_assoc. by eexists.
Qed.

(** C15: reading back what the writer appends after the last row group.  For any
    reader over the file, the postscript parses to the versions, sizes and
    checksums that were written, the file-level checksum verifies, and the footer
    gives the schema and, per row group, its row count and the metadata of every
    column, unchanged. *)
Theorem written_tail_reads_back `{!Checksum} `{!Flatbuffers} `{!FlatbuffersLaws} `{!ChecksumLaws}
    {R} `{!Reader R} (r : R) schema tree wasm_binaries dicts peers dtypes st file :
  sink_ok (sink st) → indirect_row_group_metadata (row_groups_table st) = [] →
  write_tail schema tree (create_checksum XxHash) wasm_binaries dicts peers dtypes st = Ok file →
  len file - len (out (sink st)) < 2 ^ 32 → ReaderOf R r file →
  ∃ ps, read_postscript r (len file) = Ok ps ∧
    ps_compression ps = Uncompressed ∧
    (major_version ps, minor_version ps) = (MAJOR_VERSION, MINOR_VERSION) ∧
    schema_checksum ps = checksum_of XxHash (schema_to_bytes schema) ∧
    verify_file_checksum r (len file) (ps_data_checksum ps) (checksum_type ps) = Ok tt ∧
    read_footer r = Ok (mkFooter schema
      (grouped (row_group_metadata (row_groups_table st)) (row_counts (row_groups_table st))
         (offsets (row_groups_table st)) (sizes (row_groups_table st)))).
Proof. apply tail_reads_back. Qed.

Lemma written_tail_reads_back_witness :
  let HC := sum_checksum in
  let HF := symbol_flatbuffers in
  let cm := mkColumnMetadata [mkChunk 0 2 1 NoDictionary [mkEncUnit 2 1 Encoding_default Uncompressed]
                                None] in
  let st := mkState (mkSink HC [7; 8] (update (create_checksum XxHash) [7; 8]))
              (mkRowGroupsTable [1] [0] [2] [] [mkRowGroupMetadata [cm]]) 1 1 [] false
              [ColumnMetadata_default] 2 0 in
  let schema := [mkField "c" Int32 true] in
  ∃ file ps,
    write_tail schema (fb.mkLogicalTree fb.STRUCT []) (create_checksum XxHash) [[1; 2; 3]] [] [] []
      st = Ok file ∧
    read_postscript (mkFile file) (len file) = Ok ps ∧
    verify_file_checksum (mkFile file) (len file) (ps_data_checksum ps) (checksum_type ps) = Ok tt ∧
    read_footer (mkFile file) = Ok (mkFooter schema
      [mkGrouped [ColumnMetadata_to_fb cm] 1 0 2]).
Proof.
  intros HC HF cm st schema.
  assert (∃ file, write_tail schema (fb.mkLogicalTree fb.STRUCT []) (create_checksum XxHash)
      [[1; 2; 3]] [] [] [] st = Ok file ∧ len file - 2 < 2 ^ 32) as (file & Htail & Hlen).
  { eexists. split; [reflexivity|]. by lazy. }
  destruct (@written_tail_reads_back HC HF symbol_flatbuffers_laws sum_checksum_laws FileHandle _
    (mkFile file) schema (fb.mkLogicalTree fb.STRUCT []) [[1; 2; 3]] [] [] [] st file)
    as (ps & Hps & _ & _ & _ & Hv & Hf); [by exists [[7; 8]]|done|done|done|apply file_reader_of|].
  by exists file, ps.
Defined.
