(* ===== verification/WriterSpec.v ===== *)
(** * What a writer promises, and that it keeps the promise

    [Spec] is the abstract writer: the row groups finished so far and the chunks
    of the current one, in the order the encoders emit them, with no bytes,
    offsets or metadata.  The operations of writer.rs are shown to implement the
    operations of [Spec], error for error, for any column encoders that meet
    [EncoderContract]; and a file so written reads back as the row groups of
    [Spec]. *)

From S2P Require Import Prelude Arrow Common Footer Options Chunks Writer Selection Reader.
From S2P Require Import FileRoundtrip Wire.

(** ** Outcomes that agree *)

(** Both sides succeed, with related results, or fail alike. *)
Definition agree {A B} (R : A → B → Prop) (x : outcome A) (y : outcome B) : Prop :=
  match x, y with
  | Ok a, Ok b => R a b
  | Err e, Err e' => e = e'
  | Panic p, Panic p' => p = p'
  | _, _ => False
  end.

Lemma agree_bind {A B C D} (R : A → B → Prop) (Q : C → D → Prop) x y f g :
  agree R x y → (∀ a b, x = Ok a → y = Ok b → R a b → agree Q (f a) (g b)) →
  agree Q (obind x f) (obind y g).
Proof. destruct x, y; cbn; try done; naive_solver. Qed.

Lemma agree_same {A C D} (Q : C → D → Prop) (x : outcome A) f g :
  (∀ a, x = Ok a → agree Q (f a) (g a)) → agree Q (obind x f) (obind x g).
Proof. destruct x; cbn; try done; naive_solver. Qed.

Lemma agree_fold_m {A S T} (R : S → T → Prop) (f : S → A → outcome S) (g : T → A → outcome T) l s t :
  R s t → (∀ s t a, R s t → agree R (f s a) (g t a)) → agree R (fold_m f s l) (fold_m g t l).
Proof.
  intros Hst Hstep. revert s t Hst. induction l as [|a l IH]; intros s t Hst; [done|].
  cbn. apply agree_bind with (R := R); [by apply Hstep|]. intros s' t' _ _. apply IH.
Qed.

(** ** The abstract writer *)

Section Spec.
Context {E Ctx : Type} `{LogicalColEncoder E Ctx} `{SharedDictionaryOps Ctx}.

(** A row group: its rows and its chunks in the order they were emitted. *)
Record Group := mkGroup { g_rows : Z; g_chunks : list EncodedColumnChunk }.

Definition group_data (g : Group) : list Z := concat (map chunk_bytes (g_chunks g)).

Record Spec := mkSpec {
  sp_encoders : list E;
  sp_counters : list EncodingCounter;
  sp_ctx : Ctx;
  sp_rows : Z;
  sp_groups : list Group;
  sp_current : Group;
}.

Definition sp_run_encoder
    (run : E → EncodingCounter → Ctx →
           outcome (option (list EncodedColumnChunk) * E * EncodingCounter * Ctx))
    (s : Spec) (i : Z) : outcome Spec :=
  let! e := index (sp_encoders s) i in
  let! counter := index (sp_counters s) i in
  let! '(res, e, counter, ctx) := run e counter (sp_ctx s) in
  Ok (mkSpec (<[Z.to_nat i := e]> (sp_encoders s)) (<[Z.to_nat i := counter]> (sp_counters s)) ctx
        (sp_rows s) (sp_groups s)
        (mkGroup (g_rows (sp_current s)) (g_chunks (sp_current s) ++ default [] res))).

Definition sp_write_column (custom : gmap Z Z) (batch_rows : Z) (s : Spec) (icol : Z * Array)
  : outcome Spec :=
  let '(i, col) := icol in
  let! _ := index (sp_encoders s) i in
  match custom !! i with
  | Some encunit_len =>
      if batch_rows <? encunit_len
      then Err (NYI "Batch size should be larger than the custom encunit size")
      else
        let! slices := udiv batch_rows encunit_len in
        fold_m (λ s j,
            let! start := umul 64 j encunit_len in
            let! rest := usub (arr_len col) start in
            let! col_sliced := arr_slice col start (Z.min encunit_len rest) in
            sp_run_encoder (λ e, encode e col_sliced) s i)
          s (range slices)
  | None => sp_run_encoder (λ e, encode e col) s i
  end.

Definition sp_flush_pending (s : Spec) : outcome Spec :=
  fold_m (sp_run_encoder finish) s (range (len (sp_encoders s))).

Definition sp_close_group (s : Spec) : Spec :=
  mkSpec (sp_encoders s) (sp_counters s) (sp_ctx s) (sp_rows s) (sp_groups s ++ [sp_current s])
    (mkGroup 0 []).

Definition sp_add_rows (s : Spec) (rows : Z) : outcome Spec :=
  let! in_file := uadd 32 (sp_rows s) (wrap 32 rows) in
  let! in_group := uadd 32 (g_rows (sp_current s)) (wrap 32 rows) in
  Ok (mkSpec (sp_encoders s) (sp_counters s) (sp_ctx s) in_file (sp_groups s)
        (mkGroup in_group (g_chunks (sp_current s)))).

(** A batch goes to the encoders; a full row group is closed. *)
Definition sp_write_batch (custom : gmap Z Z) (row_group_size : Z) (s : Spec)
    (columns : list Array) (batch_rows : Z) : outcome Spec :=
  let! s := fold_m (sp_write_column custom batch_rows) s (enumerate columns) in
  let! s := sp_add_rows s batch_rows in
  if row_group_size <=? g_rows (sp_current s) then
    let! s := sp_flush_pending s in Ok (sp_close_group s)
  else Ok s.

Definition sp_submit_all (s : Spec) : outcome Spec :=
  fold_m (λ s i,
      let! e := index (sp_encoders s) i in
      let! '(e, ctx) := submit_dict e (sp_ctx s) in
      Ok (mkSpec (<[Z.to_nat i := e]> (sp_encoders s)) (sp_counters s) ctx (sp_rows s)
            (sp_groups s) (sp_current s)))
    s (range (len (sp_encoders s))).

(** The last row group is closed, also when it is empty. *)
Definition sp_finish (s : Spec) : outcome Spec :=
  let! s :=
    if is_multi_col_sharing (sp_ctx s) then
      let! s := sp_submit_all s in
      let! ctx := merge_dicts (sp_ctx s) in
      Ok (mkSpec (sp_encoders s) (sp_counters s) ctx (sp_rows s) (sp_groups s) (sp_current s))
    else Ok s in
  let! s := sp_flush_pending s in
  Ok (sp_close_group s).

(** The rows of all groups. *)
Definition sp_all_rows (s : Spec) : Z :=
  zsum (map g_rows (sp_groups s)) + g_rows (sp_current s).
End Spec.
Arguments Spec : clear implicits.

(** ** What it means to implement the abstract writer *)

Section Refinement.
Context `{Checksum} `{!ChecksumLaws} `{Flatbuffers}.
Context {E Ctx : Type} `{LogicalColEncoder E Ctx} `{SharedDictionaryOps Ctx}.
Context (n : Z) (ok : E → Prop) `{!EncoderContract E Ctx n ok}.
Context (ck : bool) (Hn : 0 ≤ n).

(** What no operation of the writer changes. *)
Record Setup := mkSetup {
  su_schema : list Field;
  su_tree : fb.LogicalTree;
  su_schema_checksum : checksum_state;
  su_wasm : WASMWritingContext;
  su_custom : gmap Z Z;
  su_row_group_size : Z;
}.

Definition setup (w : FileWriter (E:=E) (Ctx:=Ctx)) : Setup :=
  mkSetup (schema w) (logical_tree w) (writer_schema_checksum w) (wasm_context w)
    (custom_encunit_len w) (row_group_size w).
Context (su : Setup).

(** The metadata of the columns records the chunks, in order, each in its column. *)
Definition cols_record (file : list Z) (chunks : list EncodedColumnChunk)
    (cols : list ColumnMetadata) : Prop :=
  len cols = n ∧
  ∀ i m, cols !! i = Some m →
    Forall2 (records ck file) (filter (λ c, column_index c = Z.of_nat i) chunks) (column_chunks m).

Definition group_len (g : Group) : Z := len (group_data g).

(** The state implements the groups and the current group. *)
Record holds (rows : Z) (groups : list Group) (cur : Group) (counters : list EncodingCounter)
    (st : FileWriteState) : Prop := {
  h_sink : sink_ok (sink st);
  h_out : out (sink st) = concat (map group_data groups) ++ group_data cur;
  h_counts : row_counts (row_groups_table st) = map g_rows groups;
  h_offsets : offsets (row_groups_table st) = start_indexes 0 (map group_len groups);
  h_sizes : sizes (row_groups_table st) = map (wrap 32 ∘ group_len) groups;
  h_indirect : indirect_row_group_metadata (row_groups_table st) = [];
  h_groups : Forall2 (λ g rg, cols_record (out (sink st)) (g_chunks g) (col_metadatas rg))
               groups (row_group_metadata (row_groups_table st));
  h_current : cols_record (out (sink st)) (g_chunks cur) (column_metadatas_in_cur_row_group st);
  h_start : start_offset_of_cur_row_group st = zsum (map group_len groups);
  h_rows : num_rows_in_file st = rows;
  h_cur_rows : num_rows_in_cur_row_group st = g_rows cur;
  h_counters : column_counters st = counters;
  h_n : num_physical_columns st = n;
  h_ck : enable_io_unit_checksum st = ck;
}.

Record implements (s : Spec E Ctx) (w : FileWriter) : Prop := {
  im_setup : setup w = su;
  im_encoders : column_encoders w = sp_encoders s;
  im_ctx : shared_dictionary_context w = sp_ctx s;
  im_ok : Forall ok (sp_encoders s);
  im_state : holds (sp_rows s) (sp_groups s) (sp_current s) (sp_counters s) (state w);
}.

Lemma records_app file c m more : records ck file c m → records ck (file ++ more) c m.
Proof. intros (Hl & Hrest). split; [by apply located_app|done]. Qed.

Lemma cols_record_app file chunks cols more :
  cols_record file chunks cols → cols_record (file ++ more) chunks cols.
Proof.
  intros [Hl Hc]. split; [done|]. intros i m Hm. eapply Forall2_impl; [by apply Hc|].
  intros c m' Hr. by apply records_app.
Qed.

Lemma start_indexes_app b l x :
  start_indexes b (l ++ [x]) = start_indexes b l ++ [b + zsum l].
Proof.
  revert b. induction l as [|y l IH]; intros b; cbn.
  - by rewrite Z.add_0_r.
  - rewrite IH, zsum_cons, Z.add_assoc. done.
Qed.

Lemma len_concat_data groups :
  len (concat (map group_data groups)) = zsum (map group_len groups).
Proof.
  induction groups as [|g gs IH]; [done|]. cbn [map concat]. by rewrite len_app, zsum_cons, IH.
Qed.

(** ** Each operation *)

Lemma flush_holds rows groups cur counters st chunks :
  holds rows groups cur counters st →
  Forall (λ c, 0 ≤ column_index c < n ∧ chunk_fits c) chunks →
  ∃ st', fold_m flush_chunk st chunks = Ok st' ∧
    holds rows groups (mkGroup (g_rows cur) (g_chunks cur ++ chunks)) counters st'.
Proof.
  intros Hst Hch. apply Forall_and in Hch as [Hcols Hfit].
  destruct (h_current _ _ _ _ _ Hst) as [Hlen Hcur]. rewrite <-Hlen in Hcols.
  destruct (flush_chunks_facts st chunks Hcols Hfit (h_sink _ _ _ _ _ Hst)) as (Hout & Hsink & Hrec).
  exists (flushed st chunks). split; [by apply flush_chunks_spec|].
  destruct Hst. split; try done.
  - rewrite Hout, h_out0, <-app_assoc. unfold group_data. cbn. by rewrite map_app, concat_app.
  - rewrite Hout. eapply Forall2_impl; [exact h_groups0|]. intros. by apply cols_record_app.
  - split; [cbn; unfold len; rewrite length_imap; exact Hlen|]. intros i m' Hm'.
    assert (is_Some (column_metadatas_in_cur_row_group st !! i)) as [m Hm].
    { apply lookup_lt_is_Some. apply lookup_lt_Some in Hm'. cbn in Hm'.
      by rewrite length_imap in Hm'. }
    destruct (Hrec i m Hm) as (new & Hnew & Hnewrec). rewrite Hm' in Hnew. injection Hnew as ->.
    rewrite h_ck0 in Hnewrec. cbn [column_chunks g_chunks]. rewrite filter_app.
    apply Forall2_app; [|done]. rewrite Hout. eapply Forall2_impl; [by apply Hcur|].
    intros. by apply records_app.
Qed.

Lemma close_holds rows groups cur counters st :
  holds rows groups cur counters st →
  holds rows (groups ++ [cur]) (mkGroup 0 []) counters (finish_row_group st).
Proof.
  intros []. split; cbn; try done.
  - rewrite h_out0, map_app, concat_app. unfold group_data. cbn. by rewrite !app_nil_r.
  - by rewrite map_app, h_counts0, h_cur_rows0.
  - rewrite map_app. cbn. by rewrite start_indexes_app, h_offsets0, h_start0.
  - rewrite map_app, h_sizes0. cbn. do 3 f_equal. unfold stream_position.
    rewrite h_out0, h_start0, len_app, len_concat_data. unfold group_len. lia.
  - by apply Forall2_app; [|constructor; [|constructor]].
  - split; [rewrite len_replicate; lia|]. intros i m Hm.
    apply lookup_replicate in Hm as [-> _]. constructor.
  - unfold stream_position. rewrite h_out0, len_app, len_concat_data, map_app, zsum_app.
    cbn. rewrite zsum_cons. unfold group_len, zsum. cbn. lia.
Qed.

Lemma set_counters_holds rows groups cur counters st counters' :
  holds rows groups cur counters st → holds rows groups cur counters' (set_counters st counters').
Proof. intros []. by split. Qed.

Lemma run_encoder_agree run s w i :
  (∀ e c ctx res e' c' ctx', ok e → run e c ctx = Ok (res, e', c', ctx') → chunks_ok n res ∧ ok e') →
  implements s w → agree implements (sp_run_encoder run s i) (run_encoder run w i).
Proof.
  intros Hrun []. unfold sp_run_encoder, run_encoder.
  rewrite im_encoders0, im_ctx0, (h_counters _ _ _ _ _ im_state0).
  apply agree_same. intros e He. apply agree_same. intros c Hc.
  apply agree_same. intros [[[res e'] c'] ctx'] Hr.
  apply index_Ok in He as [_ He].
  destruct (Hrun e c (sp_ctx s) res e' c' ctx') as [Hres He']; [by eapply Forall_lookup_1|done|].
  destruct (flush_holds _ _ _ _ _ (default [] res)
    (set_counters_holds _ _ _ _ _ (<[Z.to_nat i:=c']> (sp_counters s)) im_state0) Hres)
    as (st' & -> & Hst'). cbn [obind agree]. split; cbn; try done.
  by apply Forall_insert.
Qed.

Lemma write_column_agree rows s w icol :
  implements s w →
  agree implements (sp_write_column (su_custom su) rows s icol) (write_column rows w icol).
Proof.
  intros Him. destruct icol as [i col]. unfold sp_write_column, write_column.
  rewrite (im_encoders _ _ Him). apply agree_same. intros e _.
  rewrite <-(im_setup _ _ Him). cbn. destruct (custom_encunit_len w !! i) as [unit_len|].
  - destruct (rows <? unit_len); [done|]. apply agree_same. intros slices _.
    apply agree_fold_m; [done|]. clear s w Him. intros s w j Him.
    do 3 (apply agree_same; intros ? _). apply run_encoder_agree; [|done].
    intros *. apply encode_contract.
  - apply run_encoder_agree; [|done]. intros *. apply encode_contract.
Qed.

Lemma flush_pending_agree s w :
  implements s w → agree implements (sp_flush_pending s) (flush_pending_chunks w).
Proof.
  intros Him. unfold sp_flush_pending, flush_pending_chunks. rewrite (im_encoders _ _ Him).
  apply agree_fold_m; [done|]. intros. apply run_encoder_agree; [|done].
  intros *. apply finish_contract.
Qed.

Lemma add_rows_agree s w rows :
  implements s w →
  agree (λ s' st', implements s' (set_writer w (column_encoders w) st' (shared_dictionary_context w))
                   ∧ num_rows_in_cur_row_group st' = g_rows (sp_current s'))
    (sp_add_rows s rows) (add_rows (state w) rows).
Proof.
  intros []. unfold sp_add_rows, add_rows.
  rewrite (h_rows _ _ _ _ _ im_state0), (h_cur_rows _ _ _ _ _ im_state0).
  do 2 (apply agree_same; intros ? _). cbn. split; [|done]. split; cbn; try done.
  destruct im_state0. by split.
Qed.

Lemma close_implements s w :
  implements s w →
  implements (sp_close_group s)
    (set_writer w (column_encoders w) (finish_row_group (state w)) (shared_dictionary_context w)).
Proof. intros []. split; cbn; try done. by apply close_holds. Qed.

Lemma write_batch_agree s w columns rows :
  implements s w →
  agree implements (sp_write_batch (su_custom su) (su_row_group_size su) s columns rows)
    (write_batch w columns rows).
Proof.
  intros Him. unfold sp_write_batch, write_batch. apply agree_bind with (R := implements).
  { apply agree_fold_m; [done|]. intros. by apply write_column_agree. }
  intros s1 w1 _ _ Him1. clear s w Him.
  eapply agree_bind; [by apply add_rows_agree|]. intros s' st' _ _ [Him' Hg]. cbv zeta.
  rewrite <-(im_setup _ _ Him1). cbn [setup su_row_group_size row_group_size set_writer].
  rewrite Hg. destruct (_ <=? _); [|done].
  apply agree_bind with (R := implements); [by apply flush_pending_agree|].
  intros s'' w'' _ _ Him''. by apply close_implements.
Qed.

Lemma submit_all_agree s w :
  implements s w → agree implements (sp_submit_all s) (submit_all w).
Proof.
  intros Him. unfold sp_submit_all, submit_all. rewrite (im_encoders _ _ Him).
  apply agree_fold_m; [done|]. clear s w Him. intros s w i []. rewrite im_encoders0, im_ctx0.
  apply agree_same. intros e He. apply agree_same. intros [e' ctx'] Hr. split; cbn; try done.
  apply index_Ok in He as [_ He]. apply Forall_insert; [done|].
  eapply submit_contract; [|done]. by eapply Forall_lookup_1.
Qed.

(** [FileWriter::finish] up to the last row group. *)
Definition finish_groups (w : FileWriter (E:=E) (Ctx:=Ctx)) : outcome FileWriter :=
  let! w :=
    if is_multi_col_sharing (shared_dictionary_context w) then
      let! w := submit_all w in
      let! ctx := merge_dicts (shared_dictionary_context w) in
      Ok (set_writer w (column_encoders w) (state w) ctx)
    else Ok w in
  let! w := flush_pending_chunks w in
  Ok (set_writer w (column_encoders w) (finish_row_group (state w)) (shared_dictionary_context w)).

Lemma finish_groups_agree s w :
  implements s w → agree implements (sp_finish s) (finish_groups w).
Proof.
  intros Him. unfold sp_finish, finish_groups. apply agree_bind with (R := implements).
  - rewrite (im_ctx _ _ Him). destruct (is_multi_col_sharing _); [|done].
    apply agree_bind with (R := implements); [by apply submit_all_agree|].
    intros s' w' _ _ Him'. rewrite (im_ctx _ _ Him'). apply agree_same. intros ctx _.
    destruct Him'. by split.
  - intros s' w' _ _ Him'. apply agree_bind with (R := implements); [by apply flush_pending_agree|].
    intros s'' w'' _ _ Him''. by apply close_implements.
Qed.

Lemma finish_file_split w :
  finish_file w =
  (let! w := finish_groups w in
   let! '(dicts, merge_peers, dict_dtypes, _) :=
     finish_and_flush (wasm_context w) (shared_dictionary_context w) in
   let! file := write_tail (schema w) (logical_tree w) (writer_schema_checksum w)
                  (get_sorted_wasms (wasm_context w)) dicts merge_peers dict_dtypes (state w) in
   Ok (file, column_counters (state w))).
Proof.
  unfold finish_file, finish_groups. destruct (if is_multi_col_sharing _ then _ else _); [|done..].
  cbn [obind]. destruct (flush_pending_chunks _); done.
Qed.
End Refinement.

(** ** Whole files *)

Section WriteFile.
Context `{Checksum} `{Flatbuffers}.
Context {E Ctx : Type} `{LogicalColEncoder E Ctx} `{SharedDictionaryOps Ctx}.

(** One [write_batch] per batch, then [finish]. *)
Definition write_batches (w : FileWriter (E:=E) (Ctx:=Ctx)) (batches : list (list Array * Z))
  : outcome FileWriter :=
  fold_m (λ w b, write_batch w b.1 b.2) w batches.

Definition write_file (w : FileWriter (E:=E) (Ctx:=Ctx)) (batches : list (list Array * Z))
  : outcome (list Z * list EncodingCounter) :=
  let! w := write_batches w batches in finish_file w.

Definition sp_write_batches (custom : gmap Z Z) (row_group_size : Z) (s : Spec E Ctx)
    (batches : list (list Array * Z)) : outcome (Spec E Ctx) :=
  fold_m (λ s b, sp_write_batch custom row_group_size s b.1 b.2) s batches.

(** The abstract writer a new writer starts as. *)
Definition sp_new (w : FileWriter (E:=E) (Ctx:=Ctx)) : Spec E Ctx :=
  mkSpec (column_encoders w) (column_counters (state w)) (shared_dictionary_context w) 0 []
    (mkGroup 0 []).

(** The groups of a file, with their offsets. *)
Definition placed_groups (groups : list Group) : list (Z * Group) :=
  zip (start_indexes 0 (map group_len groups)) groups.

(** What the footer says of a row group: its rows, where its bytes are, and, column
    by column, entries that record its chunks in order. *)
Definition group_entry (n : Z) (ck : bool) (file : list Z) (og : Z * Group)
    (m : GroupedColumnMetadata) : Prop :=
  let '(off, g) := og in
  row_count m = g_rows g ∧ group_offset m = off ∧ group_size m = wrap 32 (group_len g) ∧
  located file (group_data g) off (group_len g) ∧
  ∃ cols, column_metadatas m = map ColumnMetadata_to_fb cols ∧
          cols_record n ck file (g_chunks g) cols.

Lemma new_implements `{!ChecksumLaws} create new_ctx builtin sch o w ok :
  FileWriter_try_new create new_ctx builtin sch o = Ok w →
  0 ≤ num_physical_columns (state w) → Forall ok (column_encoders w) →
  implements (num_physical_columns (state w)) ok (opt_enable_io_unit_checksum o) (setup w)
    (sp_new w) w.
Proof.
  intros Hnew Hn Hok. unfold FileWriter_try_new in Hnew. simplify_outcome. cbn in *.
  split; cbn; try done. split; cbn; try done.
  - exists []. cbn. by destruct (opt_checksum_type o).
  - split; [rewrite len_replicate; lia|]. intros i m Hm.
    apply lookup_replicate in Hm as [-> _]. constructor.
Qed.

(** ** The rows of the abstract writer *)

(** Every operation but [sp_add_rows] keeps both counts. *)
Definition same_rows (s s' : Spec E Ctx) : Prop :=
  sp_all_rows s' = sp_all_rows s ∧ sp_rows s' = sp_rows s.

Lemma same_rows_trans s1 s2 s3 : same_rows s1 s2 → same_rows s2 s3 → same_rows s1 s3.
Proof. unfold same_rows. lia. Qed.

Lemma same_rows_fold {A} (f : Spec E Ctx → A → outcome (Spec E Ctx)) l s s' :
  (∀ s a s', f s a = Ok s' → same_rows s s') → fold_m f s l = Ok s' → same_rows s s'.
Proof.
  intros Hf Hrun. apply (fold_m_inv (λ t, same_rows s t) f l s s'); [done| |done].
  intros t a t' _ Ht Hstep. by eapply same_rows_trans; [|apply (Hf t a)].
Qed.

Lemma run_encoder_rows run s i s' : sp_run_encoder run s i = Ok s' → same_rows s s'.
Proof. unfold sp_run_encoder. intros Hr. simplify_outcome. done. Qed.

Lemma write_column_rows custom rows s icol s' :
  sp_write_column custom rows s icol = Ok s' → same_rows s s'.
Proof.
  destruct icol as [i col]. unfold sp_write_column. intros Hr.
  apply obind_Ok in Hr as (e & _ & Hr). revert Hr. destruct (custom !! i); [|apply run_encoder_rows].
  destruct (rows <? z); [done|]. intros Hr. simplify_outcome.
  eapply same_rows_fold; [|done]. clear. intros s a s' Hr. cbv beta in Hr. simplify_outcome.
  eapply run_encoder_rows. eassumption.
Qed.

Lemma close_rows s : same_rows s (sp_close_group s).
Proof.
  unfold same_rows, sp_all_rows, sp_close_group. cbn. rewrite map_app, zsum_app. cbn.
  rewrite zsum_cons. unfold zsum. cbn. lia.
Qed.

Lemma flush_pending_rows s s' : sp_flush_pending s = Ok s' → same_rows s s'.
Proof. apply same_rows_fold. intros ???. apply run_encoder_rows. Qed.

Lemma write_batch_rows custom rgs s columns rows s' :
  sp_write_batch custom rgs s columns rows = Ok s' →
  sp_all_rows s' = sp_all_rows s + wrap 32 rows ∧ sp_rows s' = sp_rows s + wrap 32 rows.
Proof.
  unfold sp_write_batch. intros Hr. apply obind_Ok in Hr as (s1 & Hs1 & Hr).
  apply same_rows_fold in Hs1; [|intros ???; apply write_column_rows].
  apply obind_Ok in Hr as (s2 & Hs2 & Hr). unfold sp_add_rows in Hs2. simplify_outcome.
  assert (Hs3 : same_rows (mkSpec (sp_encoders s1) (sp_counters s1) (sp_ctx s1) x (sp_groups s1)
    (mkGroup x0 (g_chunks (sp_current s1)))) s').
  { destruct (rgs <=? _); simplify_outcome; [|done].
    eapply same_rows_trans; [by apply flush_pending_rows|apply close_rows]. }
  repeat match goal with Hu : uadd _ _ _ = Ok _ |- _ => apply uadd_Ok in Hu as [_ ->] end.
  unfold same_rows, sp_all_rows in *. cbn in *. lia.
Qed.

Lemma finish_rows s s' : sp_finish s = Ok s' → same_rows s s' ∧ g_rows (sp_current s') = 0.
Proof.
  unfold sp_finish. intros Hr. apply obind_Ok in Hr as (s1 & Hs1 & Hr). simplify_outcome.
  split; [|done]. eapply same_rows_trans; [|eapply same_rows_trans;
    [by apply flush_pending_rows|apply close_rows]].
  destruct (is_multi_col_sharing _); simplify_outcome; [|done].
  match goal with Hs : sp_submit_all _ = Ok _ |- _ => apply same_rows_fold in Hs; [done|] end.
  clear. intros s i s' Hr. cbv beta in Hr. simplify_outcome. done.
Qed.

(** Every row of every batch is in a row group once the file is finished. *)
Lemma sp_write_rows custom rgs s batches s1 s2 :
  sp_write_batches custom rgs s batches = Ok s1 → sp_finish s1 = Ok s2 → sp_all_rows s = 0 →
  zsum (map g_rows (sp_groups s2)) = zsum (map (wrap 32 ∘ snd) batches).
Proof.
  intros Hw Hf Hzero. apply finish_rows in Hf as [[Hf _] Hz].
  assert (Hall : sp_all_rows s1 = sp_all_rows s + zsum (map (wrap 32 ∘ snd) batches)).
  { clear - Hw. revert s Hw. induction batches as [|b bs IH]; intros s Hw; cbn in *.
    - simplify_outcome. unfold zsum. cbn. lia.
    - apply obind_Ok in Hw as (s' & Hb & Hw). apply write_batch_rows in Hb as [Hb _].
      rewrite (IH s' Hw), Hb, zsum_cons. cbn. lia. }
  unfold sp_all_rows in *. lia.
Qed.

(** ** Every group has its entry *)

Lemma grouped_entries n ck file pre groups rgs off :
  Forall2 (λ g rg, cols_record n ck file (g_chunks g) (col_metadatas rg)) groups rgs →
  (∃ post, file = pre ++ concat (map group_data groups) ++ post) → off = len pre →
  Forall2 (group_entry n ck file) (zip (start_indexes off (map group_len groups)) groups)
    (grouped rgs (map g_rows groups) (start_indexes off (map group_len groups))
       (map (wrap 32 ∘ group_len) groups)).
Proof.
  intros Hrec. revert pre off. induction Hrec as [|g rg gs rgs Hg _ IH]; intros pre off [post Hf] ->;
    [constructor|]. cbn. constructor.
  - cbn. split_and!; try done; [|by eexists]. exists pre, (concat (map group_data gs) ++ post).
    split; [|done]. rewrite Hf. cbn. by rewrite <-app_assoc.
  - apply (IH (pre ++ group_data g)); [|by rewrite len_app].
    exists post. rewrite Hf. cbn. by rewrite <-!app_assoc.
Qed.
End WriteFile.

(** ** The contracts *)

Lemma write_batches_agree `{!Checksum} `{!ChecksumLaws} `{!Flatbuffers} {E Ctx}
    `{!LogicalColEncoder E Ctx} `{!SharedDictionaryOps Ctx} ok create new_ctx builtin sch o
    (w : FileWriter (E:=E) (Ctx:=Ctx)) batches
    (HE : EncoderContract E Ctx (num_physical_columns (state w)) ok) :
  FileWriter_try_new create new_ctx builtin sch o = Ok w →
  0 ≤ num_physical_columns (state w) → Forall ok (column_encoders w) →
  agree (implements (num_physical_columns (state w)) ok (opt_enable_io_unit_checksum o) (setup w))
    (sp_write_batches (custom_encunit_len w) (row_group_size w) (sp_new w) batches)
    (write_batches w batches).
Proof.
  intros Hnew Hn Hok. apply agree_fold_m; [by eapply new_implements|].
  intros s w' b Him. by apply write_batch_agree.
Qed.

(** The last group of a finished abstract writer is closed. *)
Lemma sp_finish_current {E Ctx} `{!LogicalColEncoder E Ctx} `{!SharedDictionaryOps Ctx}
    (s1 s : Spec E Ctx) : sp_finish s1 = Ok s → sp_current s = mkGroup 0 [].
Proof. unfold sp_finish. intros Hs. apply obind_Ok in Hs as (s' & _ & Hs). by simplify_outcome. Qed.

Lemma try_new_schema `{!Checksum} `{!Flatbuffers} {E Ctx} `{!LogicalColEncoder E Ctx}
    create new_ctx builtin sch o (w : FileWriter (E:=E) (Ctx:=Ctx)) :
  FileWriter_try_new create new_ctx builtin sch o = Ok w →
  writer_schema_checksum w = create_checksum XxHash ∧ schema w = sch.
Proof.
  intros Hnew. unfold FileWriter_try_new in Hnew. simplify_outcome.
  split; [|done]. by destruct (opt_checksum_type o).
Qed.

(** C8: the writer implements the abstract writer.  From a new writer on, whatever
    batches are written, [write_batch] fails exactly when the abstract writer does
    and with the same error, and otherwise keeps [implements]: the bytes written
    are the chunks of the row groups, one group after the other; the running
    checksum is theirs; and the table of row groups holds their row counts,
    offsets, sizes and, in order, the metadata of each chunk of each column. *)
Theorem writer_refines_spec `{!Checksum} `{!ChecksumLaws} `{!Flatbuffers} {E Ctx}
    `{!LogicalColEncoder E Ctx} `{!SharedDictionaryOps Ctx} ok create new_ctx builtin sch o
    (w : FileWriter (E:=E) (Ctx:=Ctx)) batches
    (HE : EncoderContract E Ctx (num_physical_columns (state w)) ok) :
  FileWriter_try_new create new_ctx builtin sch o = Ok w →
  0 ≤ num_physical_columns (state w) → Forall ok (column_encoders w) →
  agree (implements (num_physical_columns (state w)) ok (opt_enable_io_unit_checksum o) (setup w))
    (sp_write_batches (custom_encunit_len w) (row_group_size w) (sp_new w) batches)
    (write_batches w batches).
Proof. by apply write_batches_agree. Qed.

(** What a finished file holds, of the groups of the abstract writer. *)
Definition file_holds `{!Checksum} `{!Flatbuffers} {E Ctx} `{!LogicalColEncoder E Ctx}
    `{!SharedDictionaryOps Ctx} sch o (w : FileWriter (E:=E) (Ctx:=Ctx)) batches file counters : Prop :=
  ∃ s1 s, sp_write_batches (custom_encunit_len w) (row_group_size w) (sp_new w) batches = Ok s1 ∧
    sp_finish s1 = Ok s ∧ counters = sp_counters s ∧
    zsum (map g_rows (sp_groups s)) = zsum (map (wrap 32 ∘ snd) batches) ∧
    (len file - zsum (map group_len (sp_groups s)) < 2 ^ 32 →
     ∀ R (HR : Reader R) (r : R), ReaderOf R r file →
     ∃ ps groups, read_postscript r (len file) = Ok ps ∧
       verify_file_checksum r (len file) (ps_data_checksum ps) (checksum_type ps) = Ok tt ∧
       read_footer r = Ok (mkFooter sch groups) ∧
       Forall2 (group_entry (num_physical_columns (state w)) (opt_enable_io_unit_checksum o) file)
         (placed_groups (sp_groups s)) groups).

(** The parts of a finished file: the abstract writer that it implements, and the
    tail after the last row group. *)
Lemma written_parts `{!Checksum} `{!ChecksumLaws} `{!Flatbuffers}
    {E Ctx} `{!LogicalColEncoder E Ctx} `{!SharedDictionaryOps Ctx}
    ok create new_ctx builtin sch o (w : FileWriter (E:=E) (Ctx:=Ctx)) batches file counters
    (HE : EncoderContract E Ctx (num_physical_columns (state w)) ok) :
  FileWriter_try_new create new_ctx builtin sch o = Ok w →
  0 ≤ num_physical_columns (state w) → Forall ok (column_encoders w) →
  write_file w batches = Ok (file, counters) →
  ∃ s1 s st dicts peers dtypes ctx,
    sp_write_batches (custom_encunit_len w) (row_group_size w) (sp_new w) batches = Ok s1 ∧
    sp_finish s1 = Ok s ∧ counters = sp_counters s ∧
    holds (num_physical_columns (state w)) (opt_enable_io_unit_checksum o) (sp_rows s) (sp_groups s)
      (mkGroup 0 []) (sp_counters s) st ∧
    finish_and_flush (wasm_context w) (sp_ctx s) = Ok (dicts, peers, dtypes, ctx) ∧
    write_tail sch (logical_tree w) (create_checksum XxHash) (get_sorted_wasms (wasm_context w))
      dicts peers dtypes st = Ok file.
Proof.
  intros Hnew Hn Hok Hwrite. unfold write_file in Hwrite.
  apply obind_Ok in Hwrite as (w1 & Hw1 & Hfin). rewrite finish_file_split in Hfin.
  apply obind_Ok in Hfin as (w2 & Hw2 & Hfin).
  apply obind_Ok in Hfin as ([[[dicts peers] dtypes] ctx] & Hdicts & Hfin).
  apply obind_Ok in Hfin as (file' & Htail & Hfin). injection Hfin as -> <-.
  pose proof (write_batches_agree _ _ _ _ _ _ _ batches HE Hnew Hn Hok) as Hag.
  rewrite Hw1 in Hag.
  destruct (sp_write_batches _ _ _ _) as [s1| |] eqn:Hs1; [|done|done]. cbn in Hag.
  pose proof (finish_groups_agree _ _ _ Hn _ _ _ Hag) as Hag2. rewrite Hw2 in Hag2.
  destruct (sp_finish s1) as [s| |] eqn:Hs; [|done|done]. cbn in Hag2.
  destruct Hag2 as [Hsu _ Hctx _ Hst]. injection Hsu as Hsch Htree Hsc Hwasm _ _.
  destruct (try_new_schema _ _ _ _ _ _ Hnew) as [Hchk Hsch'].
  rewrite Hsch, Htree, Hsc, Hwasm, Hchk, Hsch' in Htail. rewrite Hctx, Hwasm in Hdicts.
  rewrite (sp_finish_current _ _ Hs) in Hst.
  exists s1, s, (state w2), dicts, peers, dtypes, ctx. split_and!; try done.
  apply (h_counters _ _ _ _ _ _ _ Hst).
Qed.

Lemma file_reads_back `{!Checksum} `{!ChecksumLaws} `{!Flatbuffers} `{!FlatbuffersLaws}
    {E Ctx} `{!LogicalColEncoder E Ctx} `{!SharedDictionaryOps Ctx}
    ok create new_ctx builtin sch o (w : FileWriter (E:=E) (Ctx:=Ctx)) batches file counters
    (HE : EncoderContract E Ctx (num_physical_columns (state w)) ok) :
  FileWriter_try_new create new_ctx builtin sch o = Ok w →
  0 ≤ num_physical_columns (state w) → Forall ok (column_encoders w) →
  write_file w batches = Ok (file, counters) → file_holds sch o w batches file counters.
Proof.
  intros Hnew Hn Hok Hwrite.
  destruct (written_parts _ _ _ _ _ _ _ _ _ _ HE Hnew Hn Hok Hwrite)
    as (s1 & s & st & dicts & peers & dtypes & ctx & Hs1 & Hs & Hcnt & Hst & _ & Htail).
  exists s1, s. split; [done|]. split; [done|]. split; [done|].
  split; [by eapply sp_write_rows|]. intros Hlen R HR r Hr.
  pose proof (h_out _ _ _ _ _ _ _ Hst) as Hout. cbn in Hout. rewrite app_nil_r in Hout.
  destruct (write_tail_extends _ _ _ _ _ _ _ _ _ (h_sink _ _ _ _ _ _ _ Hst) Htail) as [more Hmore].
  destruct (tail_reads_back r _ _ _ _ _ _ _ _ (h_sink _ _ _ _ _ _ _ Hst)
    (h_indirect _ _ _ _ _ _ _ Hst) Htail) as (ps & Hps & _ & _ & _ & Hver & Hfoot);
    [by rewrite Hout, len_concat_data|done|].
  eexists ps, _. split_and!; [done|done|exact Hfoot|].
  rewrite (h_counts _ _ _ _ _ _ _ Hst), (h_offsets _ _ _ _ _ _ _ Hst),
    (h_sizes _ _ _ _ _ _ _ Hst).
  apply (grouped_entries _ _ _ []); [|by exists more; rewrite Hmore, Hout|done].
  eapply Forall2_impl; [apply (h_groups _ _ _ _ _ _ _ Hst)|].
  intros g rg Hg. rewrite Hmore. by apply cols_record_app.
Qed.

(** C18: what a finished file holds.  When a new writer writes batches and
    finishes, the file starts with the chunks of the row groups of the abstract
    writer; for any reader over the file the postscript is readable, the checksum
    verifies and the footer gives back the schema and one entry per row group with
    its rows, its place in the file and the metadata of its chunks; and the row
    counts add up to the rows of the batches. *)
Theorem written_file_reads_back `{!Checksum} `{!ChecksumLaws} `{!Flatbuffers} `{!FlatbuffersLaws}
    {E Ctx} `{!LogicalColEncoder E Ctx} `{!SharedDictionaryOps Ctx}
    ok create new_ctx builtin sch o (w : FileWriter (E:=E) (Ctx:=Ctx)) batches file counters
    (HE : EncoderContract E Ctx (num_physical_columns (state w)) ok) :
  FileWriter_try_new create new_ctx builtin sch o = Ok w →
  0 ≤ num_physical_columns (state w) → Forall ok (column_encoders w) →
  write_file w batches = Ok (file, counters) →
  ∃ s1 s, sp_write_batches (custom_encunit_len w) (row_group_size w) (sp_new w) batches = Ok s1 ∧
    sp_finish s1 = Ok s ∧ counters = sp_counters s ∧
    zsum (map g_rows (sp_groups s)) = zsum (map (wrap 32 ∘ snd) batches) ∧
    (len file - zsum (map group_len (sp_groups s)) < 2 ^ 32 →
     ∀ R (HR : Reader R) (r : R), ReaderOf R r file →
     ∃ ps groups, read_postscript r (len file) = Ok ps ∧
       verify_file_checksum r (len file) (ps_data_checksum ps) (checksum_type ps) = Ok tt ∧
       read_footer r = Ok (mkFooter sch groups) ∧
       Forall2 (group_entry (num_physical_columns (state w)) (opt_enable_io_unit_checksum o) file)
         (placed_groups (sp_groups s)) groups).
Proof. intros. by eapply file_reads_back. Qed.

(** ** A writer of two columns *)

(** An encoder that keeps the last array and emits it when the next one arrives;
    the state is the column and the bytes kept. *)
#[local] Instance last_encoder : LogicalColEncoder (Z * list Z) unit := {
  encode e arr c ctx :=
    let unit b := mkSerialized b 1 Encoding_default Uncompressed in
    Ok (match e.2 with
        | [] => None
        | b => Some [mkChunkData [unit b] 1 NoDictionary e.1]
        end, (e.1, [arr_len arr]), c, ctx);
  finish e c ctx :=
    let unit b := mkSerialized b 1 Encoding_default Uncompressed in
    Ok (Some [mkChunkData [unit e.2] 1 NoDictionary e.1], (e.1, []), c, ctx);
  submit_dict e ctx := Ok (e, ctx);
  memory_size e := Ok (len e.2);
}.

#[local] Instance no_dictionaries : SharedDictionaryOps unit := {
  is_multi_col_sharing _ := false;
  merge_dicts ctx := Ok ctx;
  finish_and_flush _ ctx := Ok ([], [], [], ctx);
}.

Definition last_ok (n : Z) (e : Z * list Z) : Prop := 0 ≤ e.1 < n ∧ len e.2 ≤ 1.

#[local] Instance last_contract n : EncoderContract (Z * list Z) unit n (last_ok n).
Proof.
  assert (H2 : 1 < 2 ^ 32) by done.
  split.
  - intros [i b] arr c ctx res e' c' ctx' [Hi Hb] Henc. cbn in *. simplify_outcome. split; [|done].
    destruct b as [|x b]; [constructor|]. repeat constructor; cbn; try lia.
    unfold chunk_fits, chunk_bytes. cbn [encunits map concat bytes]. rewrite app_nil_r. lia.
  - intros [i b] c ctx res e' c' ctx' [Hi Hb] Henc. cbn in *. simplify_outcome. split; [|done].
    repeat constructor; cbn; try lia.
    unfold chunk_fits, chunk_bytes. cbn [encunits map concat bytes]. rewrite app_nil_r. lia.
  - intros [i b] ctx e' ctx' Hok Hs. cbn in Hs. by simplify_outcome.
Qed.

Definition last_create (f : Field) (id iounit : Z) (idx : ColumnIndexSequence)
    (wasm : WASMWritingContext) (d : DictionaryTypeOptions) (c : CompressionType)
  : outcome ((Z * list Z) * fb.LogicalTree * ColumnIndexSequence) :=
  let! '(i, idx) := next_column_index idx in
  Ok ((i, []), fb.mkLogicalTree fb.STRUCT [], idx).

Definition two_columns : list Field := [mkField "a" Int32 true; mkField "b" Int64 false].
Definition two_batches : list (list Array * Z) :=
  let col n := PrimArray Int32 (replicate n None) in
  [([col 3%nat; col 3%nat], 3); ([col 2%nat; col 2%nat], 2)].

(** The second option set has row groups of three rows. *)
Definition small_groups : FileWriterOptions :=
  mkOptions DEFAULT_IOUNIT_SIZE DEFAULT_ENCODING_UNIT_LEN XxHash false ∅ 3
    CustomEncodingOptions_default EncoderDictionary true Uncompressed.

Definition two_column_writer (o : FileWriterOptions) : outcome FileWriter :=
  @FileWriter_try_new sum_checksum _ _ last_create (λ _ _ _ _, tt) (Ok []) two_columns o.

Definition spec_after (o : FileWriterOptions) : outcome (Spec (Z * list Z) unit) :=
  let! w := two_column_writer o in
  sp_write_batches (custom_encunit_len w) (row_group_size w) (sp_new w) two_batches.

Lemma two_column_writer_ok o w :
  two_column_writer o = Ok w → write_built_in_wasm o = false →
  custom_encoding_options o = CustomEncodingOptions_default →
  num_physical_columns (state w) = 2 ∧ Forall (last_ok 2) (column_encoders w).
Proof.
  intros Hw Hb Hc. unfold two_column_writer, FileWriter_try_new, writing_context in Hw.
  rewrite Hb, Hc in Hw. injection Hw as <-. cbn. split; [done|]. repeat constructor; done.
Qed.

(** Two batches of three and two rows; the second pushes out the first. *)
Lemma writer_refines_spec_witness :
  ∃ w s w', two_column_writer with_defaults = Ok w ∧
    sp_write_batches (custom_encunit_len w) (row_group_size w) (sp_new w) two_batches = Ok s ∧
    @write_batches sum_checksum _ _ last_encoder w two_batches = Ok w' ∧
    num_rows_in_file (state w') = 5 ∧ out (sink (state w')) = [3; 3].
Proof.
  assert (∃ s, spec_after with_defaults = Ok s ∧ sp_rows s = 5 ∧
    group_data (sp_current s) = [3; 3] ∧ sp_groups s = []) as (s & Hs & Hrows & Hdata & Hgroups).
  { eexists. split; [vm_compute; reflexivity|done]. }
  unfold spec_after in Hs. apply obind_Ok in Hs as (w & Hw & Hs).
  destruct (two_column_writer_ok _ _ Hw) as [Hn Hok]; [done|done|].
  pose proof (@writer_refines_spec sum_checksum sum_checksum_laws symbol_flatbuffers _ _ last_encoder
    no_dictionaries (last_ok 2) last_create (λ _ _ _ _, tt) (Ok []) two_columns with_defaults w
    two_batches) as Hag.
  rewrite Hn in Hag. specialize (Hag (last_contract 2) Hw ltac:(lia) Hok).
  rewrite Hs in Hag. destruct (write_batches w two_batches) as [w'| |] eqn:Hw'; [|done|done].
  destruct Hag as [_ _ _ _ []]. exists w, s, w'.
  split_and!; [done|done|done|congruence|]. by rewrite h_out0, Hgroups, Hdata.
Defined.

(** The tail is written when the dictionaries have positions. *)
Lemma write_tail_runs `{!Checksum} `{!ChecksumLaws} `{!Flatbuffers} sch tree scs wasms dicts peers dtypes st positions :
  dict_positions peers (dict_metas (enable_io_unit_checksum st) (len (out (sink st))) dicts) = Ok positions →
  ∃ file, write_tail sch tree scs wasms dicts peers dtypes st = Ok file.
Proof.
  intros Hpos. unfold write_tail. rewrite flush_dicts_spec, app_nil_l.
  destruct (foldl write_wasm _ wasms) as [sections st'].
  destruct (to_indirect_and_flush _ _) as [[t s] m]. rewrite Hpos. by eexists.
Qed.

Lemma write_tail_no_dicts `{!Checksum} `{!Flatbuffers} sch tree scs wasms st :
  ∃ file, write_tail sch tree scs wasms [] [] [] st = Ok file.
Proof.
  unfold write_tail. cbn [foldl]. destruct (foldl write_wasm ([], st) wasms) as [sections st'].
  destruct (to_indirect_and_flush _ _) as [[t s] m]. by eexists.
Qed.

(** With row groups of three rows the same batches make two groups. *)
Lemma written_file_reads_back_witness :
  ∃ w file counters s, two_column_writer small_groups = Ok w ∧
    @write_file sum_checksum symbol_flatbuffers _ _ last_encoder no_dictionaries w two_batches
    = Ok (file, counters) ∧
    obind (spec_after small_groups) sp_finish = Ok s ∧ map g_rows (sp_groups s) = [3; 2] ∧
    zsum (map g_rows (sp_groups s)) = 5.
Proof.
  assert (∃ w w1 w2, two_column_writer small_groups = Ok w ∧ write_batches w two_batches = Ok w1 ∧
      finish_groups w1 = Ok w2) as (w & w1 & w2 & Hw & Hw1 & Hw2).
  { assert (Hrun : is_ok (let! w := two_column_writer small_groups in
        let! w1 := write_batches w two_batches in finish_groups w1) = true) by by vm_compute.
    destruct (two_column_writer small_groups) as [w| |]; [|done..]. cbn [obind] in Hrun.
    destruct (write_batches w two_batches) as [w1| |] eqn:Hw1; [|done..]. cbn [obind] in Hrun.
    destruct (finish_groups w1) as [w2| |] eqn:Hw2; [|done..]. by exists w, w1, w2. }
  assert (∃ file counters, @write_file sum_checksum symbol_flatbuffers _ _ last_encoder
      no_dictionaries w two_batches = Ok (file, counters)) as (file & counters & Hf).
  { unfold write_file. rewrite Hw1. cbn [obind]. rewrite finish_file_split, Hw2. cbn [obind].
    destruct (@write_tail_no_dicts _ symbol_flatbuffers (schema w2) (logical_tree w2) (writer_schema_checksum w2)
      (get_sorted_wasms (wasm_context w2)) (state w2)) as [file Hf]. eexists file, _.
    cbn [finish_and_flush no_dictionaries obind]. by rewrite Hf. }
  destruct (two_column_writer_ok _ _ Hw) as [Hn Hok]; [done|done|].
  pose proof (@written_file_reads_back sum_checksum sum_checksum_laws symbol_flatbuffers symbol_flatbuffers_laws _ _
    last_encoder no_dictionaries (last_ok 2) last_create (λ _ _ _ _, tt) (Ok []) two_columns
    small_groups w two_batches file counters) as Hrb.
  rewrite Hn in Hrb. destruct (Hrb (last_contract 2) Hw ltac:(lia) Hok Hf)
    as (s1 & s & Hs1 & Hs & _ & Hrows & _).
  assert (Hsp : obind (spec_after small_groups) sp_finish = Ok s)
    by (unfold spec_after; rewrite Hw; cbn [obind]; rewrite Hs1; exact Hs).
  exists w, file, counters, s. split_and!; [done|done|done| |done].
  clear - Hsp. vm_compute in Hsp. injection Hsp as <-. done.
Defined.
