(* ===== verification/Float64.v ===== *)
(** * [f64], as the program uses it

    IEEE 754 binary64 through the Standard Library's [SpecFloat]: 53 bits of
    precision, [emax = 1024], round to nearest even.  Only the operations of the
    dictionary heuristics are here. *)

From Stdlib Require Import SpecFloat.
From S2P Require Import Prelude.

Definition f64 : Type := spec_float.
Definition prec : Z := 53.
Definition emax : Z := 1024.

(** [x as f64] for an integer. *)
Definition f64_of_int (x : Z) : f64 := binary_normalize prec emax x 0 false.
Definition f64_add : f64 → f64 → f64 := SFadd prec emax.
Definition f64_mul : f64 → f64 → f64 := SFmul prec emax.
Definition f64_div : f64 → f64 → f64 := SFdiv prec emax.

(** [<], [<=] and [partial_cmp]: false, or [None], on a NaN. *)
Definition f64_lt : f64 → f64 → bool := SFltb.
Definition f64_le : f64 → f64 → bool := SFleb.
Definition f64_partial_cmp : f64 → f64 → option comparison := SFcompare.

(** [x as usize]: towards zero, saturating; a NaN gives 0. *)
Definition f64_to_usize (x : f64) : Z :=
  match x with
  | S754_finite false m e =>
      Z.min (2 ^ 64 - 1) (if 0 <=? e then Z.pos m * 2 ^ e else Z.pos m / 2 ^ (- e))
  | S754_infinity false => 2 ^ 64 - 1
  | _ => 0
  end.

(** [f64::from_bits] *)
Definition f64_of_bits (b : Z) : f64 :=
  let sign := Z.testbit b 63 in
  let e := Z.land (Z.shiftr b 52) 2047 in
  let m := Z.land b (2 ^ 52 - 1) in
  if e =? 0 then (if m =? 0 then S754_zero sign else S754_finite sign (Z.to_pos m) (-1074))
  else if e =? 2047 then (if m =? 0 then S754_infinity sign else S754_nan)
  else S754_finite sign (Z.to_pos (m + 2 ^ 52)) (e - 1075).

(** [p / q] of two integers, for literals: the nearest double. *)
Definition f64_lit (p q : Z) : f64 := f64_div (f64_of_int p) (f64_of_int q).

Example f64_hundredth : f64_lit 1 100 = S754_finite false 5764607523034235 (-59).
Proof. by vm_compute. Qed.
Example f64_of_bits_hundredth : f64_of_bits 4576918229304087675 = f64_lit 1 100.
Proof. by vm_compute. Qed.
Example f64_to_usize_floor : f64_to_usize (f64_lit 7 2) = 3.
Proof. by vm_compute. Qed.
