(* ===== verification/Sketch.v ===== *)
(** * fff-poc/src/dict/bottom_k_sketch.rs: similarity of dictionaries

    A sketch keeps, for each of [M] random hash functions, the [K] smallest hash
    values of a dictionary.  [std]'s [BinaryHeap] is the list of its elements: the
    program only asks for its length, its maximum, and to remove the maximum.  The
    random coefficients are a parameter. *)

From S2P Require Import Prelude Float64.

Definition K : Z := 2048.
Definition M : Z := 3.

(** ** BinaryHeap *)

(** [peek]: the maximum. *)
Definition heap_peek (h : list Z) : option Z :=
  match h with [] => None | x :: h => Some (foldl Z.max x h) end.

(** Without one occurrence of [x]. *)
Fixpoint remove_first (x : Z) (h : list Z) : list Z :=
  match h with
  | [] => []
  | y :: h => if decide (x = y) then h else y :: remove_first x h
  end.

Definition heap_pop (h : list Z) : list Z :=
  match heap_peek h with Some m => remove_first m h | None => h end.

Definition heap_push (h : list Z) (x : Z) : list Z := x :: h.

Section Sketch.
(** [COEFFS]: [M] pairs of random 64-bit numbers. *)
Context (coeffs : list (Z * Z)).

Record BottomKSketch := mkSketch {
  bottom_k : list (list Z);
  bottom_k_arr : list (list Z);
}.

Definition BottomKSketch_new : BottomKSketch := mkSketch (replicate (Z.to_nat M) []) [].

(** [a.wrapping_mul(val).wrapping_add(b)] *)
Definition sketch_hash (ab : Z * Z) (val : Z) : Z := wrap 64 (wrap 64 (ab.1 * val) + ab.2).

(** One heap of [add_hash]. *)
Definition heap_add (h : list Z) (hash_val : Z) : outcome (list Z) :=
  if len h <? K then Ok (heap_push h hash_val)
  else
    let! top := unwrap (heap_peek h) in
    if hash_val <? top then Ok (heap_push (heap_pop h) hash_val) else Ok h.

(** [for (i, (a, b)) in COEFFS.iter().enumerate()]: there are as many heaps as
    coefficients. *)
Fixpoint add_hash_loop (cs : list (Z * Z)) (heaps : list (list Z)) (val : Z)
  : outcome (list (list Z)) :=
  match cs, heaps with
  | [], heaps => Ok heaps
  | ab :: cs, h :: heaps =>
      let! h := heap_add h (sketch_hash ab val) in
      let! heaps := add_hash_loop cs heaps val in
      Ok (h :: heaps)
  | _ :: _, [] => Panic PIndex
  end.

Definition add_hash (s : BottomKSketch) (val : Z) : outcome BottomKSketch :=
  let! heaps := add_hash_loop coeffs (bottom_k s) val in
  Ok (mkSketch heaps (bottom_k_arr s)).

(** [finish]: the heaps are drained and sorted. *)
Definition sketch_finish (s : BottomKSketch) : BottomKSketch :=
  mkSketch (map (λ _, []) (bottom_k s)) (map (merge_sort Z.le) (bottom_k s)).

(** The walk over two sorted arrays: at most [n] steps, [collected] and [common]
    so far. *)
Fixpoint jaccard_walk (n : nat) (a b : list Z) (collected common : Z) : Z * Z :=
  match n with
  | O => (collected, common)
  | S n =>
      match a, b with
      | [], b => (Z.min K (collected + len b), common)
      | a, [] => (Z.min K (collected + len a), common)
      | x :: a', y :: b' =>
          match x ?= y with
          | Lt => jaccard_walk n a' b (collected + 1) common
          | Eq => jaccard_walk n a' b' (collected + 1) (common + 1)
          | Gt => jaccard_walk n a b' (collected + 1) common
          end
      end
  end.

Definition estimate_jaccard (self other : BottomKSketch) : outcome f64 :=
  let! jaccard :=
    fold_m (λ jaccard i,
        let! a := index (bottom_k_arr self) i in
        let! b := index (bottom_k_arr other) i in
        let '(collected, common) := jaccard_walk (Z.to_nat K) a b 0 0 in
        Ok (f64_add jaccard (f64_div (f64_of_int common) (f64_of_int collected))))
      (f64_of_int 0) (range M) in
  Ok (f64_div jaccard (f64_of_int M)).

(** The sketch of a sequence of hashes. *)
Definition sketch_of (vals : list Z) : outcome BottomKSketch :=
  let! s := fold_m add_hash BottomKSketch_new vals in
  Ok (sketch_finish s).
End Sketch.

(** ** What a heap keeps *)

(** [h] holds the [Z.min K (len l)] smallest elements of [l]. *)
Definition smallest (h l : list Z) : Prop :=
  ∃ rest, l ≡ₚ h ++ rest ∧ (∀ x y, x ∈ h → y ∈ rest → x ≤ y) ∧ len h = Z.min K (len l).

Lemma foldl_max_spec h x :
  (foldl Z.max x h = x ∨ foldl Z.max x h ∈ h) ∧ x ≤ foldl Z.max x h ∧
  ∀ y, y ∈ h → y ≤ foldl Z.max x h.
Proof.
  revert x. induction h as [|z h IH]; intros x; cbn.
  - split_and!; [by left|done|]. intros y Hy. by apply not_elem_of_nil in Hy.
  - destruct (IH (Z.max x z)) as (Hin & Hle & Hall). split_and!; [|lia|].
    + rewrite elem_of_cons. destruct Hin as [->|]; [|by auto].
      destruct (Z.max_spec x z) as [[_ ->]|[_ ->]]; auto.
    + intros y [->|Hy]%elem_of_cons; [lia|auto].
Qed.

Lemma heap_peek_spec h : h ≠ [] → ∃ m, heap_peek h = Some m ∧ m ∈ h ∧ ∀ y, y ∈ h → y ≤ m.
Proof.
  destruct h as [|x h]; [done|]. intros _. exists (foldl Z.max x h). split; [done|].
  destruct (foldl_max_spec h x) as (Hin & Hle & Hall). split.
  - rewrite elem_of_cons. destruct Hin as [->|]; auto.
  - intros y [->|Hy]%elem_of_cons; auto.
Qed.

Lemma remove_first_perm m h : m ∈ h → h ≡ₚ m :: remove_first m h.
Proof.
  induction h as [|y h IH]; [by intros ?%not_elem_of_nil|]. cbn.
  destruct (decide (m = y)) as [->|Hne]; [done|]. intros [?|Hin]%elem_of_cons; [done|].
  rewrite (IH Hin) at 1. apply Permutation_swap.
Qed.

Lemma smallest_nil : smallest [] [].
Proof. exists []. split_and!; [done| |done]. intros x y Hx. by apply not_elem_of_nil in Hx. Qed.

Lemma smallest_perm h l l' : l ≡ₚ l' → smallest h l → smallest h l'.
Proof.
  intros Hp (rest & Hl & Hle & Hlen). exists rest. split_and!; [by rewrite <-Hp|done|].
  rewrite Hlen. unfold len. by rewrite (Permutation_length Hp).
Qed.

Lemma heap_add_spec h l x : smallest h l → ∃ h', heap_add h x = Ok h' ∧ smallest h' (x :: l).
Proof.
  intros (rest & Hl & Hle & Hlen). unfold heap_add.
  assert (Htot : len l = len h + len rest)
    by (unfold len; rewrite (Permutation_length Hl), length_app; lia).
  pose proof (len_nonneg rest).
  destruct (Z.ltb_spec (len h) K) as [Hlt|Hge].
  - assert (rest = []) as -> by (apply len_0; lia). rewrite app_nil_r in Hl.
    exists (x :: h). split; [done|]. exists []. rewrite app_nil_r.
    split_and!; [by rewrite Hl| |].
    + intros ? y _ Hy. by apply not_elem_of_nil in Hy.
    + rewrite !len_cons. rewrite (len_nil (A:=Z)) in Htot. lia.
  - destruct (heap_peek_spec h) as (top & Htop & Hin & Hmax).
    { intros ->. rewrite (len_nil (A:=Z)) in Hge. unfold K in Hge. lia. }
    unfold heap_pop, heap_push. rewrite Htop. cbn [unwrap obind]. pose proof (remove_first_perm _ _ Hin) as Hrm.
    assert (Hsub : ∀ y, y ∈ remove_first top h → y ∈ h)
      by (intros y Hy; rewrite Hrm; by right).
    destruct (Z.ltb_spec x top) as [Hx|Hx]; eexists; (split; [done|]).
    + exists (top :: rest). split_and!.
      * rewrite Hl. cbn. rewrite Hrm at 1. cbn. by rewrite Permutation_middle.
      * intros a b [->|Ha]%elem_of_cons [->|Hb]%elem_of_cons; [lia| | |].
        -- pose proof (Hle top b Hin Hb). lia.
        -- by apply Hmax, Hsub.
        -- by apply Hle; [apply Hsub|].
      * rewrite !len_cons. assert (Hl2 : len h = 1 + len (remove_first top h))
          by (rewrite <-len_cons with (a := top); unfold len; by rewrite (Permutation_length Hrm)). lia.
    + exists (x :: rest). split_and!.
      * by rewrite Hl, Permutation_middle.
      * intros a b Ha [->|Hb]%elem_of_cons; [pose proof (Hmax a Ha); lia|by apply Hle].
      * rewrite len_cons. lia.
Qed.

(** Sorting the heap gives the beginning of the sorted multiset. *)
Lemma smallest_sorted h l :
  smallest h l → merge_sort Z.le h = take (Z.to_nat K) (merge_sort Z.le l).
Proof.
  intros (rest & Hl & Hle & Hlen).
  assert (Heq : merge_sort Z.le l = merge_sort Z.le h ++ merge_sort Z.le rest).
  { apply (StronglySorted_unique Z.le).
    - apply (StronglySorted_merge_sort _).
    - apply StronglySorted_app. split; [|split; apply (StronglySorted_merge_sort _)].
      intros x y Hx Hy. apply Hle; [by rewrite merge_sort_Permutation in Hx|].
      by rewrite merge_sort_Permutation in Hy.
    - by rewrite !merge_sort_Permutation. }
  assert (Htot : len l = len h + len rest)
    by (unfold len; rewrite (Permutation_length Hl), length_app; lia).
  rewrite Heq. unfold len in *.
  assert (Hls : length (merge_sort Z.le h) = length h)
    by apply Permutation_length, merge_sort_Permutation.
  destruct (decide (Z.of_nat (length l) ≤ K)) as [Hs|Hs].
  - assert (rest = []) as -> by (apply len_0; unfold len; lia). cbn.
    rewrite app_nil_r, take_ge; [done|lia].
  - rewrite take_app_le by lia. rewrite take_ge; [done|lia].
Qed.

Lemma add_hash_loop_spec cs heaps vals val :
  Forall2 (λ ab h, smallest h (map (sketch_hash ab) vals)) cs heaps →
  ∃ heaps', add_hash_loop cs heaps val = Ok heaps' ∧
    Forall2 (λ ab h, smallest h (map (sketch_hash ab) (val :: vals))) cs heaps'.
Proof.
  induction 1 as [|ab h cs heaps Hh _ IH]; cbn; [by eexists|].
  destruct (heap_add_spec h _ (sketch_hash ab val) Hh) as (h' & -> & Hh').
  destruct IH as (heaps' & -> & IH). cbn. eexists. split; [done|]. by constructor.
Qed.

Lemma add_hashes_spec coeffs s seen vals :
  Forall2 (λ ab h, smallest h (map (sketch_hash ab) seen)) coeffs (bottom_k s) →
  ∃ s', fold_m (add_hash coeffs) s vals = Ok s' ∧
    Forall2 (λ ab h, smallest h (map (sketch_hash ab) (seen ++ vals))) coeffs (bottom_k s').
Proof.
  revert s seen. induction vals as [|v vals IH]; intros s seen Hs.
  { exists s. by rewrite app_nil_r. }
  cbn. unfold add_hash at 1. destruct (add_hash_loop_spec _ _ _ v Hs) as (heaps & -> & Hh).
  cbn [obind]. destruct (IH (mkSketch heaps (bottom_k_arr s)) (seen ++ [v])) as (s' & Hs' & Hs'2).
  { cbn. eapply Forall2_impl; [exact Hh|]. intros ab h. apply smallest_perm.
    rewrite map_app. cbn. by rewrite <-Permutation_cons_append. }
  exists s'. split; [done|]. by rewrite <-app_assoc in Hs'2.
Qed.

(** ** The walk *)

(** The sorted union starts with the smallest element. *)
Lemma union_head (x : Z) u (P : Z → Prop) :
  StronglySorted Z.lt u → (∀ z, (z ∈ u) ↔ z = x ∨ P z) → (∀ z, P z → x ≤ z) →
  ∃ u', u = x :: u' ∧ (x ∉ u') ∧ StronglySorted Z.lt u' ∧ ∀ z, (z ∈ u') ↔ P z ∧ z ≠ x.
Proof.
  intros Hs Hu Hmin. assert (Hx : x ∈ u) by (apply Hu; by left).
  destruct u as [|y u']; [by apply not_elem_of_nil in Hx|].
  inversion_clear Hs as [|?? Hs' Hall]. rewrite Forall_forall in Hall.
  assert (y = x) as ->.
  { apply elem_of_cons in Hx as [|Hx]; [done|]. specialize (Hall x Hx).
    destruct (proj1 (Hu y)) as [->|Hy]; [by left|done|]. specialize (Hmin y Hy). lia. }
  assert (Hn : x ∉ u') by (intros Hin; specialize (Hall x Hin); lia).
  exists u'. split_and!; [done|done|done|]. intros z. specialize (Hu z).
  rewrite elem_of_cons in Hu. split.
  - intros Hz. split; [|by intros ->]. destruct (proj1 Hu) as [->|]; [by right|done|done].
  - intros [HP Hne]. by destruct (proj2 Hu (or_intror HP)).
Qed.

(** How many of the first [n] elements of the union are in both. *)
Definition in_both (a b u : list Z) : Z := len (filter (λ z, z ∈ a ∧ z ∈ b) u).

Lemma in_both_ext a b a' b' u :
  (∀ z, z ∈ u → ((z ∈ a ∧ z ∈ b) ↔ z ∈ a' ∧ z ∈ b')) → in_both a b u = in_both a' b' u.
Proof. intros Hu. unfold in_both. f_equal. by apply list_filter_iff_in. Qed.

Lemma sorted_cons x l :
  StronglySorted Z.lt (x :: l) → StronglySorted Z.lt l ∧ (x ∉ l) ∧ ∀ z, z ∈ l → x < z.
Proof.
  inversion_clear 1 as [|?? Hs Hall]. rewrite Forall_forall in Hall. split_and!; [done| |done].
  intros Hx. specialize (Hall x Hx). lia.
Qed.

Lemma sorted_same a u :
  StronglySorted Z.lt a → StronglySorted Z.lt u → (∀ z, (z ∈ u) ↔ z ∈ a) → u = a.
Proof.
  revert u. induction a as [|x a IH]; intros u Ha Hu Hin.
  - destruct u as [|y u]; [done|]. exfalso. apply (not_elem_of_nil y), Hin. by left.
  - apply sorted_cons in Ha as (Ha & Hx & Hlt).
    destruct (union_head x u (λ z, z ∈ a)) as (u' & -> & _ & Hu' & Hin').
    + done.
    + intros z. by rewrite Hin, elem_of_cons.
    + intros z Hz. specialize (Hlt z Hz). lia.
    + f_equal. apply IH; [done|done|]. intros z. rewrite Hin'. split; [by intros []|].
      intros Hz. split; [done|]. by intros ->.
Qed.

Lemma in_both_cons_no x a b a' b' u :
  ¬ (x ∈ a ∧ x ∈ b) → (∀ z, z ∈ u → ((z ∈ a ∧ z ∈ b) ↔ z ∈ a' ∧ z ∈ b')) →
  in_both a b (x :: u) = in_both a' b' u.
Proof.
  intros Hx Hu. rewrite <-(in_both_ext a b a' b' u Hu). unfold in_both.
  by rewrite filter_cons_False.
Qed.

Lemma in_both_cons_yes x a b a' b' u :
  x ∈ a ∧ x ∈ b → (∀ z, z ∈ u → ((z ∈ a ∧ z ∈ b) ↔ z ∈ a' ∧ z ∈ b')) →
  in_both a b (x :: u) = 1 + in_both a' b' u.
Proof.
  intros Hx Hu. rewrite <-(in_both_ext a b a' b' u Hu). unfold in_both.
  by rewrite filter_cons_True, len_cons.
Qed.

Lemma in_both_empty a b u : (∀ z, z ∈ u → ¬ (z ∈ a ∧ z ∈ b)) → in_both a b u = 0.
Proof.
  intros Hu. unfold in_both. apply len_0.
  induction u as [|z u IH]; [done|]. rewrite filter_cons_False by (apply Hu; by left).
  apply IH. intros w Hw. apply Hu. by right.
Qed.

Lemma in_both_comm a b u : in_both a b u = in_both b a u.
Proof. apply in_both_ext. tauto. Qed.

(** [u] is the sorted union of two lists. *)
Definition sorted_union (a b u : list Z) : Prop :=
  StronglySorted Z.lt u ∧ ∀ z, (z ∈ u) ↔ (z ∈ a ∨ z ∈ b).

Lemma sorted_union_comm a b u : sorted_union a b u → sorted_union b a u.
Proof. intros [Hs Hu]. split; [done|]. intros z. rewrite Hu. tauto. Qed.

Lemma sorted_union_nil b u : StronglySorted Z.lt b → sorted_union [] b u → u = b.
Proof.
  intros Hb [Hs Hu]. apply sorted_same; [done..|]. intros z. rewrite Hu, elem_of_nil. tauto.
Qed.

Lemma elem_of_take_1 n (u : list Z) z : z ∈ take n u → z ∈ u.
Proof. rewrite !list_elem_of_lookup. intros [i Hi]. exists i. by apply lookup_take_Some in Hi as [? _]. Qed.

(** The walk passes an element that only the first list has. *)
Lemma union_step_left x a b u n :
  StronglySorted Z.lt (x :: a) → (∀ z, z ∈ b → x < z) → sorted_union (x :: a) b u →
  ∃ u', u = x :: u' ∧ sorted_union a b u' ∧
    in_both (x :: a) b (take (S n) u) = in_both a b (take n u').
Proof.
  intros Ha Hb [Hs Hu]. destruct (sorted_cons _ _ Ha) as (_ & Hxa & Hlt).
  destruct (union_head x u (λ z, z ∈ a ∨ z ∈ b)) as (u' & -> & Hxu & Hs' & Hu'); [done| | |].
  - intros z. rewrite Hu, elem_of_cons. tauto.
  - intros z [Hz|Hz]; [specialize (Hlt z Hz)|specialize (Hb z Hz)]; lia.
  - assert (Hxb : x ∉ b) by (intros Hx; specialize (Hb x Hx); lia).
    exists u'. split; [done|]. split.
    + split; [done|]. intros z. rewrite Hu'. split; [tauto|]. intros Hz. split; [done|].
      intros ->. tauto.
    + cbn [take]. apply in_both_cons_no; [tauto|]. intros z Hz%elem_of_take_1.
      rewrite elem_of_cons. assert (z ≠ x) by by intros ->. tauto.
Qed.

(** ... and one that both have. *)
Lemma union_step_both x a b u n :
  StronglySorted Z.lt (x :: a) → StronglySorted Z.lt (x :: b) → sorted_union (x :: a) (x :: b) u →
  ∃ u', u = x :: u' ∧ sorted_union a b u' ∧
    in_both (x :: a) (x :: b) (take (S n) u) = 1 + in_both a b (take n u').
Proof.
  intros Ha Hb [Hs Hu]. destruct (sorted_cons _ _ Ha) as (_ & Hxa & Hlta).
  destruct (sorted_cons _ _ Hb) as (_ & Hxb & Hltb).
  destruct (union_head x u (λ z, z ∈ a ∨ z ∈ b)) as (u' & -> & Hxu & Hs' & Hu'); [done| | |].
  - intros z. rewrite Hu, !elem_of_cons. tauto.
  - intros z [Hz|Hz]; [specialize (Hlta z Hz)|specialize (Hltb z Hz)]; lia.
  - exists u'. split; [done|]. split.
    + split; [done|]. intros z. rewrite Hu'. split; [tauto|]. intros Hz. split; [done|].
      intros ->. tauto.
    + cbn [take]. apply in_both_cons_yes; [split; by left|]. intros z Hz%elem_of_take_1.
      rewrite !elem_of_cons. assert (z ≠ x) by by intros ->. tauto.
Qed.

Lemma sorted_below x y b : StronglySorted Z.lt (y :: b) → x < y → ∀ z, z ∈ y :: b → x < z.
Proof.
  intros Hb Hlt z [->|Hz]%elem_of_cons; [done|]. apply sorted_cons in Hb as (_ & _ & Hb).
  specialize (Hb z Hz). lia.
Qed.

Lemma jaccard_walk_spec n a b u c m :
  StronglySorted Z.lt a → StronglySorted Z.lt b → sorted_union a b u → Z.of_nat n = K - c →
  jaccard_walk n a b c m = (Z.min K (c + len u), m + in_both a b (take n u)).
Proof.
  revert a b u c m. induction n as [|n IH]; intros a b u c m Ha Hb Hu Hn.
  { cbn. pose proof (len_nonneg u). rewrite in_both_empty; [f_equal; lia|].
    intros z Hz. by apply not_elem_of_nil in Hz. }
  destruct a as [|x a].
  { cbn [jaccard_walk]. rewrite (sorted_union_nil b u) by done.
    rewrite in_both_empty; [by rewrite Z.add_0_r|]. intros z _ [Hz _]. by apply not_elem_of_nil in Hz. }
  destruct b as [|y b].
  { cbn [jaccard_walk]. rewrite (sorted_union_nil (x :: a) u) by (by try apply sorted_union_comm).
    rewrite in_both_empty; [by rewrite Z.add_0_r|]. intros z _ [_ Hz]. by apply not_elem_of_nil in Hz. }
  pose proof (sorted_cons _ _ Ha) as (Ha' & _ & _). pose proof (sorted_cons _ _ Hb) as (Hb' & _ & _).
  cbn [jaccard_walk]. destruct (Z.compare_spec x y) as [<-|Hlt|Hgt].
  - destruct (union_step_both x a b u n Ha Hb Hu) as (u' & -> & Hu' & ->).
    rewrite (IH a b u') by (done || lia). rewrite len_cons. f_equal; lia.
  - destruct (union_step_left x a (y :: b) u n Ha (sorted_below x y b Hb Hlt) Hu)
      as (u' & -> & Hu' & ->).
    rewrite (IH a (y :: b) u') by (done || lia). rewrite len_cons. f_equal; lia.
  - apply sorted_union_comm in Hu.
    destruct (union_step_left y b (x :: a) u n Hb (sorted_below y x a Ha Hgt) Hu)
      as (u' & -> & Hu'%sorted_union_comm & Hc).
    rewrite (IH (x :: a) b u') by (done || lia). rewrite len_cons.
    rewrite (in_both_comm (x :: a) (y :: b)), Hc, (in_both_comm b). f_equal; lia.
Qed.

(** ** The contracts *)

(** C29: a sketch keeps, for each of its hash functions, the [K] smallest hash
    values of the dictionary in ascending order; building it never fails. *)
Theorem sketch_bottom_k coeffs vals :
  len coeffs = M →
  ∃ s, sketch_of coeffs vals = Ok s ∧
    bottom_k_arr s
    = map (λ ab, take (Z.to_nat K) (merge_sort Z.le (map (sketch_hash ab) vals))) coeffs.
Proof.
  intros Hm. destruct (add_hashes_spec coeffs BottomKSketch_new [] vals) as (s & Hs & Hb).
  { cbn. replace (Z.to_nat M) with (length coeffs) by (unfold len in Hm; lia). clear.
    induction coeffs; constructor; [apply smallest_nil|done]. }
  unfold sketch_of. rewrite Hs. cbn [obind]. eexists. split; [done|]. cbn. clear - Hb.
  induction Hb as [|ab h cs hs Hh _ IH]; [done|]. cbn. by rewrite (smallest_sorted _ _ Hh), IH.
Qed.

Lemma sketch_bottom_k_witness :
  let coeffs := [(1, 0); (2 ^ 63 + 1, 3); (5, 7)] in
  len coeffs = M ∧
  ∃ s, sketch_of coeffs [9; 4; 6; 4] = Ok s ∧ bottom_k_arr s !! 0%nat = Some [4; 4; 6; 9].
Proof.
  intros coeffs. split; [done|].
  destruct (sketch_bottom_k coeffs [9; 4; 6; 4] eq_refl) as (s & Hs & Hb). exists s.
  split; [done|]. rewrite Hb. by vm_compute.
Defined.

(** C30: the walk of [estimate_jaccard] over two sorted sketches counts the first
    [K] elements of their union, and how many of those are in both: the two
    numbers whose quotient estimates the Jaccard similarity. *)
Theorem jaccard_walk_counts a b u :
  StronglySorted Z.lt a → StronglySorted Z.lt b → sorted_union a b u →
  jaccard_walk (Z.to_nat K) a b 0 0
  = (Z.min K (len u), in_both a b (take (Z.to_nat K) u)).
Proof.
  intros Ha Hb Hu. rewrite (jaccard_walk_spec _ a b u) by done. f_equal.
Qed.

Lemma jaccard_walk_counts_witness :
  jaccard_walk (Z.to_nat K) [1; 3; 5; 8] [2; 3; 8; 9] 0 0 = (6, 2).
Proof.
  rewrite (jaccard_walk_counts [1; 3; 5; 8] [2; 3; 8; 9] [1; 2; 3; 5; 8; 9]); [by vm_compute| | |].
  1,2: repeat constructor.
  split; [repeat constructor|]. intros z. set_solver.
Defined.
