(* ===== verification/Encoders.v ===== *)
(** * Encoding one array: the unit encoders, and how a chunk accumulates

    fff-poc/src/encoder/encunit.rs and custom.rs, the [Encoder] trait of
    fff-encoding/src/schemes/mod.rs, and what every physical column encoder of
    fff-poc/src/encoder/physical.rs does with an encoded unit. *)

From S2P Require Import Prelude Arrow EncUnit Common Footer Options Chunks.

(** ** The Encoder trait *)

(** A trait object: what it encodes an array to, and its encoding. *)
Record Encoder := mkEncoder {
  enc_encode : Array → outcome EncUnit.EncUnit;
  enc_encoding_type : EncUnit.Encoding;
}.

(** The implementations are bindings: vortex, and dynamic libraries with a
    function of a given name. *)
Class EncoderLibs := {
  Library : Type;
  library_new : string → outcome Library;
  library_call : Library → string → Array → outcome (list Z);
  vortex_encode : bool → Array → outcome EncUnit.EncUnit;
  list_struct_encode : Array → Array → outcome EncUnit.EncUnit;
}.

Section Encoders.
Context `{EncoderLibs}.

Record CustomEncoder := mkCustomEncoder { lib : Library; func_name : string }.

Definition CustomEncoder_try_new (lib_path func_name : string) : outcome CustomEncoder :=
  let! l := library_new lib_path in
  Ok (mkCustomEncoder l func_name).

Definition CustomEncoder_encode (c : CustomEncoder) (arr : Array) : outcome EncUnit.EncUnit :=
  let! encoded := library_call (lib c) (func_name c) arr in
  Ok (EncUnit.mkEncUnit [encoded] EncUnit.Custom []).

Definition custom_encoder (c : CustomEncoder) : Encoder :=
  mkEncoder (CustomEncoder_encode c) EncUnit.Custom.

(** [VortexEncoder::new(enable_dict)] *)
Definition vortex_encoder (enable_dict : bool) : Encoder :=
  mkEncoder (vortex_encode enable_dict) EncUnit.Vortex.

Definition create_encunit_encoder (wasm : WASMWritingContext) (dt : DataType) (enable_dict : bool)
  : outcome Encoder :=
  match data_type_to_wasm_lib wasm dt with
  | Some l =>
      let! c := unwrap_res (CustomEncoder_try_new (encode_lib_path l) "encode") in
      Ok (custom_encoder c)
  | None => Ok (vortex_encoder enable_dict)
  end.

(** [encode_to_bytes] of schemes/mod.rs. *)
Definition encode_array (e : Encoder) (arr : Array) : outcome (list Z) :=
  let! encblock := unwrap_res (enc_encode e arr) in
  Ok (EncUnit_try_serialize encblock).

(** The [footer::Encoding] of a unit of type [dt]. *)
Definition unit_encoding (wasm : WASMWritingContext) (e : Encoder) (dt : DataType)
  : outcome Footer.Encoding :=
  let! t := if always_set_custom_wasm_for_built_in wasm then Ok CUSTOM_WASM
            else to_fbs_encoding (enc_encoding_type e) in
  let id := if always_set_custom_wasm_for_built_in wasm then builtin_wasm_id wasm
            else data_type_to_wasm_id wasm dt in
  Encoding_try_new t (option_map (λ id, mkWASMEncoding id []) id).

(** One unit: encoded, compressed, with its rows and encoding. *)
Definition encode_unit `{Codecs} (wasm : WASMWritingContext) (ct : CompressionType)
    (enable_dict : bool) (arr : Array) : outcome SerializedEncUnit :=
  let! encoder := create_encunit_encoder wasm (arr_data_type arr) enable_dict in
  let! enc_unit := encode_array encoder arr in
  let! compressed := compress_data enc_unit ct in
  let! encoding := unit_encoding wasm encoder (arr_data_type arr) in
  Ok (mkSerialized compressed (wrap 32 (arr_len arr)) encoding ct).

(** The unit of one field of a list of structs: the lists' offsets with the field. *)
Definition list_struct_unit `{Codecs} (wasm : WASMWritingContext) (ct : CompressionType)
    (list_array field : Array) : outcome SerializedEncUnit :=
  let encoder := vortex_encoder true in
  let! encblock := unwrap_res (list_struct_encode list_array field) in
  let! compressed := compress_data (EncUnit_try_serialize encblock) ct in
  let! encoding := unit_encoding wasm encoder (arr_data_type list_array) in
  Ok (mkSerialized compressed (wrap 32 (arr_len list_array)) encoding ct).
End Encoders.

(** ** The chunk being accumulated *)

(** [encunits.push(unit)] *)
Definition push_unit (c : EncodedColumnChunk) (u : SerializedEncUnit) : EncodedColumnChunk :=
  mkChunkData (encunits c ++ [u]) (num_rows c) (dict_encoding c) (column_index c).

(** [num_rows += rows] *)
Definition add_chunk_rows (c : EncodedColumnChunk) (rows : Z) : outcome EncodedColumnChunk :=
  let! n := uadd 64 (num_rows c) rows in
  Ok (mkChunkData (encunits c) n (dict_encoding c) (column_index c)).

Lemma chunk_bytes_push c u : chunk_bytes (push_unit c u) = chunk_bytes c ++ bytes u.
Proof. unfold chunk_bytes. cbn. rewrite map_app, concat_app. cbn. by rewrite app_nil_r. Qed.

Lemma add_chunk_rows_Ok c rows c' :
  add_chunk_rows c rows = Ok c' →
  encunits c' = encunits c ∧ dict_encoding c' = dict_encoding c ∧ num_rows c' = num_rows c + rows ∧
  column_index c' = column_index c.
Proof.
  unfold add_chunk_rows. intros Hc. simplify_outcome.
  match goal with Hu : uadd _ _ _ = Ok _ |- _ => apply uadd_Ok in Hu as [_ ->] end. done.
Qed.

(** A bound on encoded units: none is longer than [max] once compressed. *)
Class BoundedUnits `{EncoderLibs} `{Codecs} (max : Z) := {
  unit_bound wasm dt enable_dict enc arr b ct z :
    create_encunit_encoder wasm dt enable_dict = Ok enc → encode_array enc arr = Ok b →
    compress_data b ct = Ok z → len z ≤ max;
  list_struct_bound list_array field u ct z :
    list_struct_encode list_array field = Ok u → compress_data (EncUnit_try_serialize u) ct = Ok z →
    len z ≤ max;
}.

Section Bounds.
Context `{EncoderLibs} `{Codecs} (max : Z) `{!BoundedUnits max}.

Lemma encode_unit_bound wasm ct enable_dict arr u :
  encode_unit wasm ct enable_dict arr = Ok u → len (bytes u) ≤ max.
Proof. unfold encode_unit. intros Hu. simplify_outcome. by eapply unit_bound. Qed.

Lemma list_struct_unit_bound wasm ct list_array field u :
  list_struct_unit wasm ct list_array field = Ok u → len (bytes u) ≤ max.
Proof.
  unfold list_struct_unit. intros Hu. apply obind_Ok in Hu as (e & He & Hu).
  destruct (list_struct_encode list_array field) as [e'| |] eqn:Hl; [|done..]. injection He as ->.
  simplify_outcome. by eapply list_struct_bound.
Qed.
End Bounds.

(** ** A small instance

    A byte for the type, a byte that counts the values, and one byte per value: nulls,
    integers from 0 to 254 and strings of one character, at most 255 of them.
    Everything else is refused. *)
Definition type_byte (dt : DataType) : option Z :=
  match dt with
  | UInt8 => Some 0
  | UInt16 => Some 1
  | UInt32 => Some 2
  | UInt64 => Some 3
  | Int32 => Some 4
  | Int64 => Some 5
  | Utf8 => Some 6
  | _ => None
  end.

Definition value_byte (dt : DataType) (v : option value) : option Z :=
  match v with
  | None => Some 0
  | Some (VInt x) =>
      if bool_decide (dt ≠ Utf8) && (0 <=? x) && (x <? 255) then Some (1 + x) else None
  | Some (VStr (String.String c String.EmptyString)) =>
      let x := Z.of_N (Ascii.N_of_ascii c) in
      if bool_decide (dt = Utf8) && (x <? 255) then Some (1 + x) else None
  | _ => None
  end.

Definition byte_encode (arr : Array) : outcome EncUnit.EncUnit :=
  match arr with
  | PrimArray dt vals =>
      match type_byte dt with
      | Some t =>
          if len vals <? 256 then
            match mapM (value_byte dt) vals with
            | Some bs => Ok (EncUnit.mkEncUnit [t :: len vals :: bs] EncUnit.Vortex [])
            | None => Err (NYI "value")
            end
          else Err (NYI "long array")
      | None => Err (NYI "type")
      end
  | _ => Err (NYI "nested array")
  end.

Definition byte_encoder : EncoderLibs := {|
  Library := unit;
  library_new _ := Err (General "no libraries");
  library_call _ _ _ := Err (General "no libraries");
  vortex_encode _ arr := byte_encode arr;
  list_struct_encode _ _ := Err (NYI "list of structs");
|}.

Definition stored : Codecs := {|
  lz4_compress d := d;
  lz4_decompress d := Some d;
  zstd_encode d := Some d;
  zstd_decode d := Some d;
|}.

Lemma byte_encode_len arr u :
  byte_encode arr = Ok u → 0 < len (EncUnit_try_serialize u) ≤ 257.
Proof.
  unfold byte_encode. destruct arr as [dt vals| |]; [|done..].
  destruct (type_byte dt) as [t|]; [|done]. destruct (Z.ltb_spec (len vals) 256); [|done].
  destruct (mapM (value_byte dt) vals) as [bs|] eqn:Hm; [|done]. intros [= <-].
  apply length_mapM in Hm. cbn. rewrite app_nil_r, !len_cons. unfold len in *. lia.
Qed.

Lemma byte_encoder_only wasm dt enable_dict enc :
  @create_encunit_encoder byte_encoder wasm dt enable_dict = Ok enc →
  enc = @vortex_encoder byte_encoder enable_dict.
Proof. unfold create_encunit_encoder. by destruct (data_type_to_wasm_lib _ _); intros [= <-]. Qed.

Lemma stored_compress d ct z : @compress_data stored d ct = Ok z → z = d.
Proof.
  unfold compress_data. destruct (ct =? Uncompressed), (ct =? Lz4), (ct =? Zstd);
    by intros [= <-].
Qed.

Lemma byte_units_bounded : @BoundedUnits byte_encoder stored 257.
Proof.
  split.
  - intros wasm dt ed enc arr b ct z ->%byte_encoder_only Hb ->%stored_compress.
    unfold encode_array in Hb. apply obind_Ok in Hb as (u & Hu & [= <-]).
    apply unwrap_res_Ok, byte_encode_len in Hu. lia.
  - done.
Qed.
