(* ===== verification/SharedDict.v ===== *)
(** * fff-poc/src/dict/shared_dictionary_context.rs: dictionaries shared by chunks

    The writer's pool of dictionaries: columns add values and get indices; before
    the file is finished similar dictionaries are merged, so that their common
    values are stored once; finishing encodes each dictionary as one chunk, or as
    a common and an own chunk. *)

From S2P Require Import Prelude Arrow EncUnit Dict Float64 Sketch Common Footer Options Chunks.
From S2P Require Import Encoders Writer.

Definition MERGE_THRESHOLD : f64 := f64_lit 1 100.
Definition OVERLAP_THRESHOLD : f64 := f64_lit 99 100.
Definition INTERSECTION_LEN_THRESHOLD : f64 := f64_of_int 1024.

Record SharedDictionaryContext := mkContext {
  dictionaries : list Dict.Dictionary;
  encoding_unit_size : Z;
  ctx_column_chunk_size : Z;
  ctx_is_multi_col_sharing : bool;
  merge_result : list (option (Z * Z));
  ctx_compression_type : CompressionType;
}.

Definition SharedDictionaryContext_default : SharedDictionaryContext :=
  mkContext [] DEFAULT_ENCODING_UNIT_LEN DEFAULT_IOUNIT_SIZE false [] Uncompressed.

Definition SharedDictionaryContext_new (encoding_unit_size column_chunk_size : Z)
    (is_multi_col_sharing : bool) (ct : CompressionType) : SharedDictionaryContext :=
  mkContext [] encoding_unit_size column_chunk_size is_multi_col_sharing [] ct.

Definition set_dictionaries (c : SharedDictionaryContext) (ds : list Dict.Dictionary)
  : SharedDictionaryContext :=
  mkContext ds (encoding_unit_size c) (ctx_column_chunk_size c) (ctx_is_multi_col_sharing c)
    (merge_result c) (ctx_compression_type c).

(** The dictionaries and the merge result, while merging. *)
Abbreviation MergeState := (list Dict.Dictionary * list (option (Z * Z)))%type.

Section Context_.
(** The hash of strings, and the coefficients of the sketches. *)
Context (string_hash : string → Z) (coeffs : list (Z * Z)).

(** [self.dictionaries.push(..); self.dictionaries.len() as u32 - 1] *)
Definition push_dictionary (c : SharedDictionaryContext) (d : Dict.Dictionary)
  : outcome (Z * SharedDictionaryContext) :=
  let ds := dictionaries c ++ [d] in
  let! id := usub (wrap 32 (len ds)) 1 in
  Ok (id, set_dictionaries c ds).

Definition new_dictionary (c : SharedDictionaryContext) (dtype : DataType)
  : outcome (Z * SharedDictionaryContext) :=
  let! dictionary := Dictionary_try_new dtype in
  push_dictionary c dictionary.

Definition peek_dict_id (c : SharedDictionaryContext) : Z := wrap 32 (len (dictionaries c)).

Definition add_dictionary (c : SharedDictionaryContext) (d : Dict.Dictionary)
  : outcome (Z * SharedDictionaryContext) := push_dictionary c d.

Definition ctx_extend_and_get_index (c : SharedDictionaryContext) (dict_idx : Z) (arr : Array)
  : outcome (Array * SharedDictionaryContext) :=
  let! d := index (dictionaries c) dict_idx in
  let! '(idx, d) := Dictionary_extend_and_get_index string_hash d arr in
  Ok (idx, set_dictionaries c (<[Z.to_nat dict_idx := d]> (dictionaries c))).

Definition ctx_submit_values (c : SharedDictionaryContext) (dict_idx : Z) (values : Array)
  : outcome SharedDictionaryContext :=
  let! d := index (dictionaries c) dict_idx in
  let! d := Dictionary_submit_values string_hash d values in
  Ok (set_dictionaries c (<[Z.to_nat dict_idx := d]> (dictionaries c))).

Definition dict_len (c : SharedDictionaryContext) (dict_idx : Z) : outcome Z :=
  let! d := index (dictionaries c) dict_idx in Dictionary_len d.

(** ** merge_dicts *)

(** The groups of dictionaries of one type.  The program keeps them in a
    [HashMap] and visits them in any order: they share no dictionary, so the
    order does not matter; here they are in the order of their first member. *)
Abbreviation SketchGroups := (list (DataType * list (Z * BottomKSketch))).

Fixpoint push_group (dtype : DataType) (e : Z * BottomKSketch) (g : SketchGroups) : SketchGroups :=
  match g with
  | [] => [(dtype, [e])]
  | (dt, es) :: g =>
      if decide (dt = dtype) then (dt, es ++ [e]) :: g else (dt, es) :: push_group dtype e g
  end.

Definition sketch_step (g : SketchGroups) (id : Z * Dict.Dictionary) : outcome SketchGroups :=
  let '(idx, d) := id in
  let! n := Dictionary_len d in
  if n =? 0 then Ok g
  else
    let! hashes := Dictionary_dict_hash_iter string_hash d in
    let! sketch := sketch_of coeffs hashes in
    Ok (push_group (datatype d) (idx, sketch) g).

(** An edge: the similarity of two dictionaries. *)
Definition Edge : Type := f64 * Z * Z.

(** [for i in 1..len { for j in 0..i { .. } }] *)
Definition similarity_edges (es : list (Z * BottomKSketch)) : outcome (list Edge) :=
  let! rows :=
    traverse (λ i,
        let! ei := index es i in
        traverse (λ j,
            let! ej := index es j in
            let! s := estimate_jaccard ei.2 ej.2 in
            Ok (s, ei.1, ej.1))
          (range i))
      (seqZ 1 (len es - 1)) in
  Ok (concat rows).

(** Descending similarity, then ascending indices. *)
Definition edge_le (x y : Edge) : Prop :=
  let '(sx, x1, x2) := x in let '(sy, y1, y2) := y in
  match f64_partial_cmp sx sy with
  | Some Gt => True
  | Some Lt => False
  | _ => x1 < y1 ∨ (x1 = y1 ∧ x2 ≤ y2)
  end.
#[export] Instance edge_le_dec : RelDecision edge_le.
Proof.
  intros [[sx x1] x2] [[sy y1] y2]. unfold edge_le.
  destruct (f64_partial_cmp sx sy) as [[]|]; apply _.
Defined.

(** The comparison of the sort unwraps [partial_cmp]. *)
Definition sort_edges (edges : list Edge) : outcome (list Edge) :=
  let nan := existsb (λ e, bool_decide (f64_partial_cmp e.1.1 e.1.1 = None)) edges in
  if nan && (1 <? len edges) then Panic PUnwrap else Ok (merge_sort edge_le edges).

(** One edge that passed the threshold. *)
Definition merge_edge (st : MergeState) (e : Edge) : outcome MergeState :=
  let '(dicts, res) := st in
  let '(s, x, y) := e in
  let i := Z.min x y in
  let j := Z.max x y in
  let! _ := assert (i <? j) in
  let! ri := index res i in
  let! taken := if bool_decide (is_Some ri) then Ok true
                else let! rj := index res j in Ok (bool_decide (is_Some rj)) in
  if taken then Ok st
  else
    let! di := index dicts i in
    let! dj := index dicts j in
    let! ni := Dictionary_len di in
    let! nj := Dictionary_len dj in
    let! n := uadd 64 ni nj in
    let est := f64_div (f64_mul (f64_of_int n) s) (f64_add s (f64_of_int 1)) in
    if f64_lt est INTERSECTION_LEN_THRESHOLD && f64_lt s OVERLAP_THRESHOLD then Ok st
    else
      let! '(merge_len, di, dj) := Dictionary_merge_with string_hash di dj in
      let dicts := <[Z.to_nat j := dj]> (<[Z.to_nat i := di]> dicts) in
      if 0 <? merge_len
      then Ok (dicts, <[Z.to_nat j := Some (i, merge_len)]>
                        (<[Z.to_nat i := Some (j, merge_len)]> res))
      else Ok (dicts, res).

(** The loop over the sorted edges, which stops at the first below the threshold. *)
Fixpoint merge_edges (st : MergeState) (edges : list Edge) : outcome MergeState :=
  match edges with
  | [] => Ok st
  | e :: edges =>
      if f64_lt e.1.1 MERGE_THRESHOLD then Ok st
      else let! st := merge_edge st e in merge_edges st edges
  end.

Definition merge_group (st : MergeState) (g : DataType * list (Z * BottomKSketch))
  : outcome MergeState :=
  if len g.2 <? 2 then Ok st
  else
    let! edges := similarity_edges g.2 in
    let! edges := sort_edges edges in
    merge_edges st edges.

(** [resize(n, None)] *)
Definition resize_none (l : list (option (Z * Z))) (n : Z) : list (option (Z * Z)) :=
  take (Z.to_nat n) l ++ replicate (Z.to_nat n - length l) None.

Definition ctx_merge_dicts (c : SharedDictionaryContext) : outcome SharedDictionaryContext :=
  let! groups := fold_m sketch_step [] (zip (range (len (dictionaries c))) (dictionaries c)) in
  let res := resize_none (merge_result c) (len (dictionaries c)) in
  let! '(dicts, res) := fold_m merge_group (dictionaries c, res) groups in
  Ok (mkContext dicts (encoding_unit_size c) (ctx_column_chunk_size c)
        (ctx_is_multi_col_sharing c) res (ctx_compression_type c)).
End Context_.

(** ** finish_and_flush *)

Section Flush.
Context `{EncoderLibs}.

(** The closure [write_slice]: the unit carries the compression type of the file,
    but its bytes are not compressed. *)
Definition write_slice (wasm : WASMWritingContext) (ct : CompressionType) (dict_encoder : Encoder)
    (dict_dtype : DataType) (slice : Array) (slice_len : Z) : outcome SerializedEncUnit :=
  let! encoded_bytes := encode_array dict_encoder slice in
  let! encoding := unit_encoding wasm dict_encoder dict_dtype in
  Ok (mkSerialized encoded_bytes (wrap 32 slice_len) encoding ct).

Definition dict_chunk (u : SerializedEncUnit) (rows : Z) : EncodedColumnChunk :=
  mkChunkData [u] rows NoDictionary 0.

(** The chunks of dictionary [i], and the peer that holds its first part. *)
Definition flush_dictionary (wasm : WASMWritingContext) (ct : CompressionType)
    (merge_result : list (option (Z * Z))) (id : Z * Dict.Dictionary)
  : outcome (list EncodedColumnChunk * option Z) :=
  let '(i, dict) := id in
  let! '(dict, _) := Dictionary_finish dict in
  let dict_dtype := arr_data_type dict in
  let dict_len := arr_len dict in
  let! dict_encoder := create_encunit_encoder wasm dict_dtype false in
  let write := write_slice wasm ct dict_encoder dict_dtype in
  match merge_result !! Z.to_nat i with
  | Some (Some (peer, merge_len)) =>
      let! '(ret_chunks, opt_peer) :=
        if i <? peer then
          let! slice := arr_slice dict 0 merge_len in
          let! u := write slice merge_len in
          Ok ([dict_chunk u merge_len], None)
        else Ok ([], Some peer) in
      let! dict_len := usub dict_len merge_len in
      if dict_len =? 0 then Ok (ret_chunks, opt_peer)
      else
        let! dict := arr_slice dict merge_len dict_len in
        let! u := write dict dict_len in
        Ok (ret_chunks ++ [dict_chunk u dict_len], opt_peer)
  | _ =>
      let! u := write dict dict_len in
      Ok ([dict_chunk u dict_len], None)
  end.

Definition ctx_finish_and_flush (wasm : WASMWritingContext) (c : SharedDictionaryContext)
  : outcome (list (list EncodedColumnChunk) * list (option Z) * list DataType
             * SharedDictionaryContext) :=
  let dict := dictionaries c in
  let dict_dtypes := map datatype dict in
  let! res := traverse (flush_dictionary wasm (ctx_compression_type c) (merge_result c))
                (zip (range (len dict)) dict) in
  Ok (map fst res, map snd res, dict_dtypes, set_dictionaries c []).
End Flush.

(** The operations [FileWriter::finish] calls. *)
#[export] Instance shared_dictionary_ops `{EncoderLibs} (string_hash : string → Z)
    (coeffs : list (Z * Z)) : SharedDictionaryOps SharedDictionaryContext := {
  is_multi_col_sharing := ctx_is_multi_col_sharing;
  merge_dicts := ctx_merge_dicts string_hash coeffs;
  finish_and_flush := ctx_finish_and_flush;
}.

(** ** What merging keeps *)

Definition dict_values (d : Dict.Dictionary) : list value := TypedDict_peek_dict (typed_dict d).

(** The merge result is a symmetric matching of dictionaries of one type, and
    matched dictionaries start with the same values. *)
Definition matched (dicts : list Dict.Dictionary) (res : list (option (Z * Z))) : Prop :=
  ∀ i j n, 0 ≤ i → res !! Z.to_nat i = Some (Some (j, n)) →
    0 ≤ j ∧ i ≠ j ∧ res !! Z.to_nat j = Some (Some (i, n)) ∧ 0 < n ∧
    ∃ di dj, dicts !! Z.to_nat i = Some di ∧ dicts !! Z.to_nat j = Some dj ∧
      datatype di = datatype dj ∧ n ≤ len (dict_values di) ∧ n ≤ len (dict_values dj) ∧
      take (Z.to_nat n) (dict_values di) = take (Z.to_nat n) (dict_values dj).

(** Each dictionary keeps its type and its values, up to their order. *)
Definition same_contents (d d' : Dict.Dictionary) : Prop :=
  datatype d' = datatype d ∧ dict_values d' ≡ₚ dict_values d.

Section MergeFacts.
Context (string_hash : string → Z) (coeffs : list (Z * Z)).
#[local] Instance hash_of_values : DictHash value value := value_dict_hash string_hash.
#[local] Instance hash_of_values_laws : DictHashLaws value value :=
  value_dict_hash_laws string_hash.

Lemma Dictionary_merge_facts d e n d' e' :
  dictionary_ok string_hash d → dictionary_ok string_hash e →
  Dictionary_merge_with string_hash d e = Ok (n, d', e') →
  dictionary_ok string_hash d' ∧ dictionary_ok string_hash e' ∧
  same_contents d d' ∧ same_contents e e' ∧ 0 ≤ n ≤ len (dict_values d') ∧
  n ≤ len (dict_values e') ∧
  take (Z.to_nat n) (dict_values d') = take (Z.to_nat n) (dict_values e').
Proof.
  intros [Htd Hd] [Hte He] Hm. unfold Dictionary_merge_with in Hm.
  destruct (method_table (datatype d)) as [[t st]|] eqn:Ht; [|done]. simplify_outcome.
  unfold downcast_dict in *. case_decide; [|done]. case_decide; [|done]. simplify_eq/=.
  match goal with Hmw : TypedDict_merge_with _ _ = _ |- _ =>
    pose proof (merge_with_facts (typed_dict d) (typed_dict e) Hd He) as Hf; rewrite Hmw in Hf end.
  destruct Hf as (common & -> & _ & Hnil & Hne & Hwd & Hwe & Hpd & Hpe & _ & _).
  unfold dict_values, TypedDict_peek_dict. cbn.
  assert (Htake : take (length common) (dictionary t0) = common ∧
                  take (length common) (dictionary t1) = common).
  { destruct common; [by rewrite !take_0|]. by apply Hne. }
  destruct Htake as [Htk1 Htk2]. unfold len. rewrite Nat2Z.id.
  assert (Hle : ∀ l : list value, take (length common) l = common → (length common ≤ length l)%nat).
  { intros l Hl. pose proof (f_equal length Hl) as Hlen. rewrite length_take in Hlen. lia. }
  pose proof (Hle _ Htk1). pose proof (Hle _ Htk2).
  split_and!; try done; try lia; [by split; [exists t|]|by rewrite Htk1, Htk2].
Qed.

(** The invariant of the merge loop. *)
Record merging (dicts0 : list Dict.Dictionary) (st : MergeState) : Prop := {
  mg_ok : Forall (dictionary_ok string_hash) st.1;
  mg_same : Forall2 same_contents dicts0 st.1;
  mg_len : length st.2 = length st.1;
  mg_matched : matched st.1 st.2;
}.

Lemma same_contents_refl d : same_contents d d.
Proof. by split. Qed.

Lemma same_contents_trans d1 d2 d3 :
  same_contents d1 d2 → same_contents d2 d3 → same_contents d1 d3.
Proof. intros [H1 P1] [H2 P2]. split; [by rewrite H2|by rewrite P2]. Qed.

(** Two unmatched dictionaries that were merged. *)
Lemma matched_merge dicts res i j n di dj :
  length res = length dicts → matched dicts res → i < j → 0 ≤ i →
  res !! Z.to_nat i = Some None → res !! Z.to_nat j = Some None →
  0 < n → datatype di = datatype dj → n ≤ len (dict_values di) → n ≤ len (dict_values dj) →
  take (Z.to_nat n) (dict_values di) = take (Z.to_nat n) (dict_values dj) →
  matched (<[Z.to_nat j := dj]> (<[Z.to_nat i := di]> dicts))
    (<[Z.to_nat j := Some (i, n)]> (<[Z.to_nat i := Some (j, n)]> res)).
Proof.
  intros Hlen Hm Hij Hi Hri Hrj Hn Hty Hni Hnj Htk.
  pose proof (lookup_lt_Some _ _ _ Hri) as Hli. pose proof (lookup_lt_Some _ _ _ Hrj) as Hlj.
  assert (Hd : ∀ d d' : Dict.Dictionary,
    <[Z.to_nat j := d']> (<[Z.to_nat i := d]> dicts) !! Z.to_nat i = Some d ∧
    <[Z.to_nat j := d']> (<[Z.to_nat i := d]> dicts) !! Z.to_nat j = Some d').
  { intros d d'. rewrite list_lookup_insert_ne by lia.
    rewrite !list_lookup_insert_eq; [done|rewrite ?length_insert; lia..]. }
  assert (Hr : <[Z.to_nat j := Some (i, n)]> (<[Z.to_nat i := Some (j, n)]> res) !! Z.to_nat i
               = Some (Some (j, n)) ∧
    <[Z.to_nat j := Some (i, n)]> (<[Z.to_nat i := Some (j, n)]> res) !! Z.to_nat j
               = Some (Some (i, n))).
  { rewrite list_lookup_insert_ne by lia.
    rewrite !list_lookup_insert_eq; [done|rewrite ?length_insert; lia..]. }
  intros a b k Ha Hab.
  destruct (decide (a = i)) as [->|Hai].
  { rewrite (proj1 Hr) in Hab. injection Hab as <- <-. split_and!; [lia|lia|apply Hr|done|].
    exists di, dj. by split_and!; [apply (Hd di dj)..| | | |]. }
  destruct (decide (a = j)) as [->|Haj].
  { rewrite (proj2 Hr) in Hab. injection Hab as <- <-. split_and!; [lia|lia|apply Hr|done|].
    exists dj, di. by split_and!; [apply (Hd di dj)..| | | |]. }
  rewrite !list_lookup_insert_ne in Hab by lia.
  destruct (Hm a b k Ha Hab) as (Hb & Hne & Hba & Hk & da & db & Hda & Hdb & Hrest).
  assert (b ≠ i) by (intros ->; congruence). assert (b ≠ j) by (intros ->; congruence).
  split_and!; [done|done|by rewrite !list_lookup_insert_ne by lia|done|].
  exists da, db. by rewrite !list_lookup_insert_ne by lia.
Qed.

(** ... and two that turned out to share no value. *)
Lemma matched_keep dicts res i j di dj :
  matched dicts res → res !! Z.to_nat i = Some None → res !! Z.to_nat j = Some None →
  matched (<[Z.to_nat j := dj]> (<[Z.to_nat i := di]> dicts)) res.
Proof.
  intros Hm Hri Hrj a b k Ha Hab.
  destruct (Hm a b k Ha Hab) as (Hb & Hne & Hba & Hk & da & db & Hda & Hdb & Hrest).
  split_and!; [done|done|done|done|]. exists da, db.
  rewrite !list_lookup_insert_ne by congruence. done.
Qed.

Lemma merging_step dicts0 dicts res i j di dj n di' dj' res' :
  merging dicts0 (dicts, res) → i < j → 0 ≤ i →
  res !! Z.to_nat i = Some None → res !! Z.to_nat j = Some None →
  dicts !! Z.to_nat i = Some di → dicts !! Z.to_nat j = Some dj → datatype di = datatype dj →
  Dictionary_merge_with string_hash di dj = Ok (n, di', dj') →
  res' = (if 0 <? n then <[Z.to_nat j := Some (i, n)]> (<[Z.to_nat i := Some (j, n)]> res) else res) →
  merging dicts0 (<[Z.to_nat j := dj']> (<[Z.to_nat i := di']> dicts), res').
Proof.
  intros [Hok Hsame Hlen Hm] Hij Hi Hri Hrj Hdi Hdj Hty Hmerge ->. cbn in *.
  pose proof (Forall_lookup_1 _ _ _ _ Hok Hdi) as Hoi.
  pose proof (Forall_lookup_1 _ _ _ _ Hok Hdj) as Hoj.
  destruct (Dictionary_merge_facts _ _ _ _ _ Hoi Hoj Hmerge)
    as (Hoi' & Hoj' & Hci & Hcj & Hn & Hnj & Htk).
  split; cbn.
  - by apply Forall_insert; [apply Forall_insert|].
  - assert (Hset : ∀ l k d d', Forall2 same_contents dicts0 l → l !! k = Some d →
      same_contents d d' → Forall2 same_contents dicts0 (<[k := d']> l)).
    { intros l k d d' Hl Hk Hs. rewrite <-(list_insert_id dicts0 k (default d (dicts0 !! k))).
      - apply Forall2_insert; [done|]. eapply same_contents_trans; [|exact Hs].
        destruct (Forall2_lookup_r _ _ _ _ _ Hl Hk) as (d0 & -> & Hd0). done.
      - destruct (Forall2_lookup_r _ _ _ _ _ Hl Hk) as (d0 & -> & Hd0). done. }
    apply (Hset _ _ dj); [|by rewrite list_lookup_insert_ne by lia|done].
    by apply (Hset _ _ di).
  - rewrite !length_insert. destruct (0 <? n); by rewrite ?length_insert.
  - destruct (Z.ltb_spec 0 n).
    + apply matched_merge; try done; try lia. by rewrite (proj1 Hci), (proj1 Hcj).
    + by apply matched_keep.
Qed.

(** The dictionaries of a group have its type. *)
Definition member (dicts : list Dict.Dictionary) (dt : DataType) (i : Z) : Prop :=
  ∃ d, 0 ≤ i ∧ dicts !! Z.to_nat i = Some d ∧ datatype d = dt.

Lemma member_same dicts dicts' dt i d :
  Forall2 same_contents dicts dicts' → member dicts dt i → dicts' !! Z.to_nat i = Some d →
  datatype d = dt.
Proof.
  intros HF (d0 & _ & Hd0 & <-) Hd.
  destruct (Forall2_lookup_r _ _ _ _ _ HF Hd) as (d1 & Hd1 & Hs). simplify_eq. apply Hs.
Qed.

Definition group_ok (dicts : list Dict.Dictionary) (g : DataType * list (Z * BottomKSketch)) : Prop :=
  Forall (λ e, member dicts g.1 e.1) g.2.

Lemma push_group_ok dicts dt e g :
  Forall (group_ok dicts) g → member dicts dt e.1 → Forall (group_ok dicts) (push_group dt e g).
Proof.
  intros Hg He. induction Hg as [|[dt' es] g Hes Hg IH]; cbn.
  - apply Forall_singleton. unfold group_ok. by apply Forall_singleton.
  - case_decide as Hdt; [subst dt'|by constructor].
    constructor; [|done]. unfold group_ok. cbn. apply Forall_app.
    split; [done|by apply Forall_singleton].
Qed.

Lemma groups_ok dicts groups :
  fold_m (sketch_step string_hash coeffs) [] (zip (range (len dicts)) dicts) = Ok groups →
  Forall (group_ok dicts) groups.
Proof.
  intros Hf. eapply (fold_m_inv (Forall (group_ok dicts))) in Hf; [done|by constructor|].
  intros g [i d] g' Hin Hg Hstep. unfold sketch_step in Hstep. simplify_outcome.
  destruct (_ =? 0); simplify_outcome; [done|]. apply push_group_ok; [done|].
  apply list_elem_of_lookup in Hin as [k Hk]. apply lookup_zip_Some in Hk as [Hi Hd].
  apply lookup_seqZ in Hi as [-> _]. exists d. cbn [fst]. rewrite Z.add_0_l, Nat2Z.id. by split_and!; [lia| |].
Qed.

Definition edge_ok (dicts : list Dict.Dictionary) (dt : DataType) (e : Edge) : Prop :=
  member dicts dt e.1.2 ∧ member dicts dt e.2.

Lemma similarity_edges_ok dicts g edges :
  group_ok dicts g → similarity_edges g.2 = Ok edges → Forall (edge_ok dicts g.1) edges.
Proof.
  intros Hg He. unfold similarity_edges in He. simplify_outcome.
  match goal with Ht : traverse _ _ = Ok _ |- _ => apply traverse_Ok in Ht; rename Ht into Hrows end.
  apply Forall_concat. eapply Forall2_Forall_r; [exact Hrows|].
  apply Forall_true. intros i row Hrow. simplify_outcome.
  match goal with Ht : traverse _ _ = Ok _ |- _ => apply traverse_Ok in Ht; rename Ht into Hrow end.
  eapply Forall2_Forall_r; [exact Hrow|]. apply Forall_true. intros j e He. simplify_outcome.
  repeat match goal with Hi : index _ _ = Ok _ |- _ =>
    apply index_Ok in Hi as [_ Hi]; apply (Forall_lookup_1 _ _ _ _ Hg) in Hi end.
  by split.
Qed.

Lemma sort_edges_ok dicts dt edges edges' :
  Forall (edge_ok dicts dt) edges → sort_edges edges = Ok edges' →
  Forall (edge_ok dicts dt) edges'.
Proof.
  intros He Hs. unfold sort_edges in Hs. destruct (_ && _); [done|]. simplify_outcome.
  by rewrite merge_sort_Permutation.
Qed.

Lemma merge_edge_ok dicts0 dt st e st' :
  merging dicts0 st → edge_ok dicts0 dt e → merge_edge string_hash st e = Ok st' →
  merging dicts0 st'.
Proof.
  intros Hm Hty He. destruct st as [dicts res]. destruct e as [[s x] y].
  destruct Hty as [Hx Hy]. cbn [fst snd] in Hx, Hy. unfold merge_edge in He.
  assert (Hmm : member dicts0 dt (Z.min x y) ∧ member dicts0 dt (Z.max x y)).
  { destruct (Z.min_spec x y) as [[_ ->]|[_ ->]], (Z.max_spec x y) as [[_ ->]|[_ ->]]; done. }
  destruct Hmm as [Hmi Hmj]. set (i := Z.min x y) in *. set (j := Z.max x y) in *.
  clearbody i j. clear Hx Hy. apply obind_Ok in He as (? & Ha & He).
  apply assert_Ok in Ha as Hij. apply Z.ltb_lt in Hij.
  apply obind_Ok in He as (ri & Hi & He). apply index_Ok in Hi as [Hi0 Hi].
  destruct ri as [pi|].
  { rewrite bool_decide_true in He by done. cbn [obind] in He. by simplify_outcome. }
  rewrite bool_decide_false in He by (intros [? ?]; done).
  apply obind_Ok in He as (taken & Ht & He). apply obind_Ok in Ht as (rj & Hj & Ht).
  apply index_Ok in Hj as [Hj0 Hj]. destruct rj as [pj|].
  { rewrite bool_decide_true in Ht by done. by simplify_outcome. }
  rewrite bool_decide_false in Ht by (intros [? ?]; done). injection Ht as <-.
  cbn [obind] in He. simplify_outcome.
  repeat match goal with Hi : index dicts _ = Ok _ |- _ => apply index_Ok in Hi as [_ Hi] end.
  match goal with Hdi : dicts !! Z.to_nat i = Some ?d1, Hdj : dicts !! Z.to_nat j = Some ?d2 |- _ =>
    assert (Hdt : datatype d1 = datatype d2) by
     (by rewrite (member_same _ _ _ _ _ (mg_same _ _ Hm) Hmi Hdi),
                 (member_same _ _ _ _ _ (mg_same _ _ Hm) Hmj Hdj)) end.
  destruct (_ && _); [by simplify_outcome|]. simplify_outcome.
  match goal with Hmw : Dictionary_merge_with _ ?d1 ?d2 = Ok (?n, ?d1', ?d2') |- _ =>
    destruct (0 <? n) eqn:Hn; simplify_outcome;
    eapply (merging_step dicts0 dicts res i j d1 d2 n); try eassumption; by rewrite Hn end.
Qed.

Lemma merge_edges_ok dicts0 dt edges st st' :
  merging dicts0 st → Forall (edge_ok dicts0 dt) edges →
  merge_edges string_hash st edges = Ok st' → merging dicts0 st'.
Proof.
  intros Hm Hty. revert st Hm.
  induction Hty as [|e edges He _ IH]; intros st Hm Hst; cbn in Hst.
  - by simplify_outcome.
  - destruct (f64_lt _ _); simplify_outcome; [done|].
    eapply IH; [|done]. by eapply merge_edge_ok.
Qed.

Lemma merge_group_ok dicts0 st g st' :
  merging dicts0 st → group_ok dicts0 g → merge_group string_hash st g = Ok st' →
  merging dicts0 st'.
Proof.
  intros Hm Hok Hg. unfold merge_group in Hg. destruct (_ <? _); simplify_outcome; [done|].
  eapply merge_edges_ok; [done| |eassumption].
  eapply sort_edges_ok; [|eassumption]. by eapply similarity_edges_ok.
Qed.

Lemma merge_dicts_ok c c' :
  Forall (dictionary_ok string_hash) (dictionaries c) → merge_result c = [] →
  ctx_merge_dicts string_hash coeffs c = Ok c' →
  merging (dictionaries c) (dictionaries c', merge_result c').
Proof.
  intros Hok Hres Hm. unfold ctx_merge_dicts in Hm. rewrite Hres in Hm. simplify_outcome. cbn.
  match goal with Hf : fold_m (sketch_step _ _) _ _ = Ok _ |- _ =>
    apply groups_ok in Hf; rename Hf into Hgroups end.
  match goal with Hf : fold_m (merge_group _) _ _ = Ok _ |- _ =>
    eapply (fold_m_inv (merging (dictionaries c))) in Hf; [exact Hf| |] end.
  - split; cbn; [done| | |].
    + clear. induction (dictionaries c); by constructor.
    + unfold resize_none. rewrite length_app, length_replicate, take_nil. cbn. unfold len. lia.
    + intros i j n _ Hi. unfold resize_none in Hi. rewrite take_nil in Hi. cbn in Hi.
      by apply lookup_replicate in Hi as [? _].
  - intros st g st'' Hin Hst Hg. eapply merge_group_ok; [done| |done].
    by eapply Forall_forall in Hgroups.
Qed.
End MergeFacts.

(** ** What flushing writes *)

(** The parts a dictionary is stored in, and the peer that holds its beginning. *)
Definition parts (res : list (option (Z * Z))) (i : Z) (vals : list value)
  : list (list value) * option Z :=
  match res !! Z.to_nat i with
  | Some (Some (p, n)) =>
      let rest := drop (Z.to_nat n) vals in
      ((if i <? p then [take (Z.to_nat n) vals] else [])
         ++ (if len rest =? 0 then [] else [rest]),
       if i <? p then None else Some p)
  | _ => ([vals], None)
  end.

(** The Arrow type of the array a dictionary finishes to. *)
Definition finished_type (d : Dict.Dictionary) : DataType :=
  match method_table (datatype d) with Some (t, _) => default_type t | None => datatype d end.

(** A chunk holds one unit: the encoding of these values. *)
Definition holds_values `{EncoderLibs} (wasm : WASMWritingContext) (ct : CompressionType)
    (dt : DataType) (vals : list value) (c : EncodedColumnChunk) : Prop :=
  ∃ enc b e, create_encunit_encoder wasm dt false = Ok enc ∧
    encode_array enc (PrimArray dt (map Some vals)) = Ok b ∧ unit_encoding wasm enc dt = Ok e ∧
    c = mkChunkData [mkSerialized b (wrap 32 (len vals)) e ct] (len vals) NoDictionary 0.

Section FlushFacts.
Context `{EncoderLibs} (string_hash : string → Z).

Lemma slice_all_values dt vals off n :
  0 ≤ off → 0 ≤ n → off + n ≤ len vals →
  arr_slice (PrimArray dt (map Some vals)) off n
  = Ok (PrimArray dt (map Some (take (Z.to_nat n) (drop (Z.to_nat off) vals)))).
Proof.
  intros Ho Hn Hle. unfold arr_slice. cbn [arr_len]. rewrite len_map.
  rewrite !(proj2 (Z.leb_le _ _)) by lia. cbn. unfold sub_list.
  by rewrite <-firstn_map, <-skipn_map.
Qed.

Lemma finish_values d :
  dictionary_ok string_hash d →
  ∃ ind, Dictionary_finish d = Ok (PrimArray (finished_type d) (map Some (dict_values d)), ind).
Proof.
  intros Hok. unfold Dictionary_finish.
  destruct (dictionary_entry _ _ "Dict type mismatch in finish" Hok) as (t & Ht & ->).
  unfold finished_type. rewrite Ht. by eexists.
Qed.

Lemma flush_dictionary_spec wasm ct res i d chunks peer :
  dictionary_ok string_hash d →
  (∀ p n, res !! Z.to_nat i = Some (Some (p, n)) → 0 < n ≤ len (dict_values d)) →
  flush_dictionary wasm ct res (i, d) = Ok (chunks, peer) →
  Forall2 (holds_values wasm ct (finished_type d)) (parts res i (dict_values d)).1 chunks ∧
  peer = (parts res i (dict_values d)).2.
Proof.
  intros Hok Hn Hf. unfold flush_dictionary in Hf.
  destruct (finish_values d Hok) as [ind Hfin]. rewrite Hfin in Hf. cbn [obind] in Hf.
  cbn [arr_data_type arr_len] in Hf. rewrite len_map in Hf.
  apply obind_Ok in Hf as (enc & Henc & Hf). cbv zeta in Hf.
  assert (Hw : ∀ vals m u, m = len vals → write_slice wasm ct enc (finished_type d)
      (PrimArray (finished_type d) (map Some vals)) m = Ok u →
    holds_values wasm ct (finished_type d) vals (dict_chunk u m)).
  { intros vals m u -> Hu. unfold write_slice in Hu. simplify_outcome. by eexists _, _, _. }
  unfold parts. destruct (res !! Z.to_nat i) as [[[p n]|]|].
  - destruct (Hn p n eq_refl) as [Hn0 Hnl]. set (vals := dict_values d) in *.
    assert (Htk : len (take (Z.to_nat n) vals) = n) by (unfold len in *; rewrite length_take; lia).
    assert (Hdr : len (drop (Z.to_nat n) vals) = len vals - n)
      by (unfold len in *; rewrite length_drop; lia).
    rewrite Hdr. rewrite !slice_all_values in Hf by lia.
    unfold usub in Hf. rewrite (proj2 (Z.leb_le _ _)) in Hf by lia. cbn [obind] in Hf.
    rewrite slice_all_values in Hf by lia.
    replace (take (Z.to_nat (len vals - n)) (drop (Z.to_nat n) vals)) with (drop (Z.to_nat n) vals)
      in Hf by (symmetry; apply take_ge; unfold len in *; lia).
    rewrite drop_0 in Hf. cbn [obind] in Hf.
    destruct (i <? p); simplify_outcome; destruct (_ =? 0); simplify_outcome; cbn;
      (split; [|done]); repeat constructor.
    all: by eapply Hw; [|eassumption].
  - simplify_outcome. split; [|done]. repeat constructor. by eapply Hw.
  - simplify_outcome. split; [|done]. repeat constructor. by eapply Hw.
Qed.
End FlushFacts.

(** ** The positions of a dictionary's chunks *)

Lemma traverse_total {A B} (f : A → outcome B) (Q : A → B → Prop) l :
  Forall (λ a, ∃ b, f a = Ok b ∧ Q a b) l → ∃ bs, traverse f l = Ok bs ∧ Forall2 Q l bs.
Proof.
  induction 1 as [|a l (b & Hb & HQ) _ IH]; [by exists []|].
  destruct IH as (bs & Hbs & HF). exists (b :: bs). cbn. rewrite Hb. cbn. rewrite Hbs. cbn.
  by split; [|constructor].
Qed.

Lemma start_indexes_lookup {A} (ls : list (list A)) b0 i l :
  ls !! i = Some l →
  ∃ pre post, concat ls = pre ++ l ++ post ∧
    start_indexes b0 (map len ls) !! i = Some (b0 + len pre).
Proof.
  revert b0 i. induction ls as [|l0 ls IH]; intros b0 i Hi; [done|].
  destruct i as [|i]; cbn in *.
  - simplify_eq. exists [], (concat ls). split; [done|]. by rewrite (len_nil (A:=A)), Z.add_0_r.
  - destruct (IH (b0 + len l0) i Hi) as (pre & post & Hc & Hs).
    exists (l0 ++ pre), post. rewrite <-app_assoc, Hc. split; [done|].
    change (start_indexes (b0 + len l0) (map len ls) !! i = Some (b0 + len (l0 ++ pre))).
    rewrite Hs, len_app. f_equal. lia.
Qed.

Lemma start_indexes_length b0 lens : length (start_indexes b0 lens) = length lens.
Proof. revert b0. induction lens; intros b0; cbn; [done|]. by f_equal. Qed.

Lemma traverse_index_range {A} (pre l post : list A) :
  traverse (index (pre ++ l ++ post)) (seqZ (len pre) (len l)) = Ok l.
Proof.
  revert pre. induction l as [|a l IH]; intros pre; [done|].
  change ((a :: l) ++ post) with (a :: l ++ post).
  rewrite len_cons. pose proof (len_nonneg l). rewrite seqZ_cons by lia. cbn [traverse].
  rewrite index_app_here by done. cbn [obind].
  replace (Z.pred (1 + len l)) with (len l) by lia.
  replace (Z.succ (len pre)) with (len (pre ++ [a]))
    by (rewrite len_app, len_cons, (len_nil (A:=A)); lia).
  specialize (IH (pre ++ [a])). rewrite <-app_assoc in IH. cbn [app] in IH.
  by rewrite IH.
Qed.

Lemma wrap_range n l b : 0 ≤ b → b + l ≤ n → n < 2 ^ 32 → map (wrap 32) (seqZ b l) = seqZ b l.
Proof.
  intros Hb Hl Hn. rewrite <-(map_id (seqZ b l)) at 2. apply map_ext_in.
  intros x Hx%list_elem_of_In%elem_of_seqZ. rewrite wrap_small; [done|]. unfold in_u. lia.
Qed.

(** One part, or two that are not empty. *)
Definition one_or_two (ps : list (list value)) : Prop :=
  match ps with [_] => True | [a; b] => a ≠ [] ∧ b ≠ [] | _ => False end.

Lemma split_one_or_two n (v w : list value) :
  0 < n → n ≤ len v → one_or_two (take (Z.to_nat n) v
    :: (if len (drop (Z.to_nat n) w) =? 0 then [] else [drop (Z.to_nat n) w])).
Proof.
  intros Hn Hv. destruct (Z.eqb_spec (len (drop (Z.to_nat n) w)) 0) as [|Hd]; cbn; [done|].
  split; [|by intros Hnil; rewrite Hnil in Hd]. destruct v as [|x v].
  - rewrite (len_nil (A:=value)) in Hv. lia.
  - destruct (Z.to_nat n) eqn:Hz; [lia|]. done.
Qed.

Lemma parts_join dicts res i d :
  matched dicts res → dicts !! i = Some d →
  match (parts res (Z.of_nat i) (dict_values d)).2 with
  | None => concat (parts res (Z.of_nat i) (dict_values d)).1 = dict_values d ∧
      one_or_two (parts res (Z.of_nat i) (dict_values d)).1
  | Some p => ∃ dp first rest, 0 ≤ p ∧ dicts !! Z.to_nat p = Some dp ∧ datatype dp = datatype d ∧
      (parts res p (dict_values dp)).1 = first :: rest ∧
      first ++ concat (parts res (Z.of_nat i) (dict_values d)).1 = dict_values d ∧
      one_or_two (first :: (parts res (Z.of_nat i) (dict_values d)).1)
  end.
Proof.
  intros Hm Hi.
  assert (Hrest : ∀ n (v : list value), concat (if len (drop n v) =? 0 then [] else [drop n v]) = drop n v).
  { intros n v. destruct (Z.eqb_spec (len (drop n v)) 0) as [Hz|_]; cbn.
    - by apply len_0 in Hz as ->.
    - by rewrite app_nil_r. }
  destruct (parts res (Z.of_nat i) (dict_values d)) as [ps op] eqn:Hparts. cbn.
  unfold parts in Hparts. rewrite Nat2Z.id in Hparts.
  destruct (res !! i) as [[[p n]|]|] eqn:Hres; simplify_eq; [|cbn; by rewrite app_nil_r..].
  destruct (Hm (Z.of_nat i) p n)
    as (Hp & Hne & Hback & Hn & da & db & Hda & Hdb & Hty & Hla & Hlb & Htk); [lia|by rewrite Nat2Z.id|].
  rewrite Nat2Z.id in Hda. simplify_eq. destruct (Z.ltb_spec (Z.of_nat i) p) as [Hlt|Hge].
  - cbn [app concat]. split; [by rewrite Hrest, take_drop|by apply split_one_or_two].
  - exists db, (take (Z.to_nat n) (dict_values db)). unfold parts. rewrite Hback.
    rewrite (proj2 (Z.ltb_lt p (Z.of_nat i))) by lia. cbn.
    eexists. split_and!; [done|done|done|done|by rewrite Hrest, <-Htk, take_drop|].
    cbn [app]. by apply split_one_or_two.
Qed.

Section Positions.
(** What it means for a chunk to hold values of a type. *)
Context {C : Type} (Holds : DataType → list value → C → Prop).
Context (dicts : list Dict.Dictionary) (res : list (option (Z * Z))).

(** The chunks and the peer flushed for dictionary [i]. *)
Definition flushed (chunks : list (list C)) (peers : list (option Z)) (i : nat)
    (d : Dict.Dictionary) : Prop :=
  ∃ own, chunks !! i = Some own ∧
    Forall2 (Holds (finished_type d)) (parts res (Z.of_nat i) (dict_values d)).1 own ∧
    peers !! i = Some (parts res (Z.of_nat i) (dict_values d)).2.

(** The chunks [ids] hold the values of the dictionary. *)
Definition reads_back (all : list C) (d : Dict.Dictionary) (ids : list Z) : Prop :=
  ∃ own ps, traverse (index all) ids = Ok own ∧ Forall2 (Holds (finished_type d)) ps own ∧
    concat ps = dict_values d ∧ one_or_two ps.

Lemma dict_position_join (chunks : list (list C)) peers (metas : list (list Chunk)) i d b :
  matched dicts res → (∀ i d, dicts !! i = Some d → flushed chunks peers i d) →
  map len metas = map len chunks → len (concat chunks) < 2 ^ 32 → dicts !! i = Some d →
  start_indexes 0 (map len metas) !! i = Some b →
  ∃ ids, dict_position (start_indexes 0 (map len metas)) peers metas (Z.of_nat i, b) = Ok ids ∧
    reads_back (concat chunks) d ids.
Proof.
  intros Hm Hfl Hlens Hsmall Hi Hb. destruct (Hfl i d Hi) as (own & Hown & HF & Hpeer).
  pose proof (parts_join dicts res i d Hm Hi) as Hj. rewrite Hlens in Hb.
  destruct (start_indexes_lookup chunks 0 i own Hown) as (pre & post & Hc & Hs).
  rewrite Hs in Hb. injection Hb as <-. rewrite Z.add_0_l.
  pose proof (f_equal (λ l, l !! i) Hlens) as Hmeta. cbn in Hmeta.
  rewrite !list_lookup_fmap, Hown in Hmeta. cbn in Hmeta.
  destruct (metas !! i) as [om|] eqn:Hom; [|done]. cbn in Hmeta. injection Hmeta as Hol.
  set (ps := (parts res (Z.of_nat i) (dict_values d)).1) in *.
  unfold dict_position. rewrite (proj2 (index_Ok metas (Z.of_nat i) om)) by (split; [lia|by rewrite Nat2Z.id]).
  cbn [obind]. rewrite Hol, (wrap_range (len (concat chunks)));
    [|solve_len|rewrite Hc; solve_len|done]. rewrite Nat2Z.id, Hpeer, Hlens.
  destruct (parts res (Z.of_nat i) (dict_values d)).2 as [p|].
  - destruct Hj as (dp & first & rest & Hp & Hdp & Hty & Hfirst & Hcat & Hfew).
    destruct (Hfl _ _ Hdp) as (own' & Hown' & HF' & _). rewrite Z2Nat.id, Hfirst in HF' by done.
    apply Forall2_cons_inv_l in HF' as (c0 & crest & Hc0 & _ & ->).
    destruct (start_indexes_lookup chunks 0 _ _ Hown') as (pre' & post' & Hc' & Hs').
    rewrite (proj2 (index_Ok _ p (0 + len pre'))) by done. cbn [obind]. rewrite Z.add_0_l.
    eexists. split; [done|].
    assert (Hpre' : in_u 32 (len pre')).
    { split; [solve_len|]. eapply Z.le_lt_trans; [|exact Hsmall]. rewrite Hc'. solve_len. }
    rewrite wrap_small by done. exists (c0 :: own), (first :: ps). split; [|split; [|by split]].
    + cbn [traverse]. rewrite Hc' at 1. cbn [app]. rewrite index_app_here by done. cbn [obind].
      by rewrite Hc, traverse_index_range.
    + constructor; [|done]. unfold finished_type in *. by rewrite <-Hty.
  - destruct Hj as [Hcat Hfew]. eexists. split; [done|]. exists own, ps.
    by rewrite Hc, traverse_index_range.
Qed.

(** Every dictionary has positions, and they read back its values. *)
Lemma dict_positions_join (chunks : list (list C)) peers (metas : list (list Chunk)) :
  matched dicts res → (∀ i d, dicts !! i = Some d → flushed chunks peers i d) →
  length chunks = length dicts → map len metas = map len chunks → len (concat chunks) < 2 ^ 32 →
  ∃ positions, dict_positions peers metas = Ok positions ∧
    Forall2 (reads_back (concat chunks)) dicts positions.
Proof.
  intros Hm Hfl Hlc Hlens Hsmall. unfold dict_positions, enumerate.
  set (starts := start_indexes 0 (map len metas)).
  assert (Hlen : length starts = length dicts).
  { unfold starts. by rewrite start_indexes_length, Hlens, length_fmap. }
  destruct (traverse_total (dict_position starts peers metas)
    (λ ib ids, ∃ d, dicts !! Z.to_nat ib.1 = Some d ∧ reads_back (concat chunks) d ids)
    (zip (range (len starts)) starts)) as (positions & Hpos & HF).
  - apply Forall_lookup. intros i [x b] Hib. apply lookup_zip_Some in Hib as [Hx Hb]. cbn in *.
    apply lookup_seqZ in Hx as [-> Hx]. rewrite Z.add_0_l.
    destruct (lookup_lt_is_Some_2 dicts i) as [d Hd];
      [apply lookup_lt_Some in Hb; lia|].
    destruct (dict_position_join chunks peers metas i d b Hm Hfl Hlens Hsmall Hd Hb)
      as (ids & Hids & Hps).
    exists ids. split; [done|]. exists d. by rewrite Nat2Z.id.
  - exists positions. split; [done|]. apply Forall2_same_length_lookup.
    pose proof (Forall2_length _ _ _ HF) as Hl. rewrite length_zip in Hl.
    unfold range in Hl. rewrite length_seqZ in Hl. unfold len in Hl. rewrite Nat2Z.id in Hl.
    split; [lia|]. intros i d ids Hd Hids.
    destruct (Forall2_lookup_r _ _ _ _ _ HF Hids) as ([x b] & Hxb & d' & Hd' & Hps).
    apply lookup_zip_Some in Hxb as [Hx _]. apply lookup_seqZ in Hx as [-> _].
    cbn [fst] in Hd'. rewrite Z.add_0_l, Nat2Z.id, Hd in Hd'. by injection Hd' as <-.
Qed.
End Positions.

Section FinishFacts.
Context `{EncoderLibs} (string_hash : string → Z).

(** What [finish_and_flush] leaves for each dictionary. *)
Lemma finish_and_flush_flushed wasm c chunks peers types c2 :
  Forall (dictionary_ok string_hash) (dictionaries c) → matched (dictionaries c) (merge_result c) →
  ctx_finish_and_flush wasm c = Ok (chunks, peers, types, c2) →
  length chunks = length (dictionaries c) ∧ types = map datatype (dictionaries c) ∧
  c2 = set_dictionaries c [] ∧
  ∀ i d, dictionaries c !! i = Some d →
    flushed (holds_values wasm (ctx_compression_type c)) (merge_result c) chunks peers i d.
Proof.
  intros Hok Hm Hf. unfold ctx_finish_and_flush in Hf. simplify_outcome.
  match goal with Ht : traverse _ _ = Ok ?r |- _ => apply traverse_Ok in Ht as HF; rename r into rs end.
  pose proof (Forall2_length _ _ _ HF) as Hl. rewrite length_zip in Hl.
  unfold range in Hl. rewrite length_seqZ in Hl. unfold len in Hl. rewrite Nat2Z.id in Hl.
  split_and!; [rewrite length_fmap; lia|done|done|]. intros i d Hi.
  assert (Hz : zip (range (len (dictionaries c))) (dictionaries c) !! i = Some (Z.of_nat i, d)).
  { apply lookup_zip_Some. split; [|done]. apply lookup_seqZ. apply lookup_lt_Some in Hi.
    unfold len. lia. }
  destruct (Forall2_lookup_l _ _ _ _ _ HF Hz) as ([own peer] & Hrs & Hfd).
  apply (flush_dictionary_spec string_hash) in Hfd as [Hown ->].
  - exists own. unfold flushed. by rewrite !list_lookup_fmap, Hrs.
  - by eapply Forall_lookup_1.
  - intros p n Hpn. destruct (Hm (Z.of_nat i) p n) as (_ & _ & _ & Hn & da & db & Hda & _ & _ & Hle & _);
      [lia|done|]. rewrite Nat2Z.id, Hi in Hda. simplify_eq. lia.
Qed.
End FinishFacts.

(** ** The pools the writer builds *)

Section Pool.
Context (string_hash : string → Z) (coeffs : list (Z * Z)).

Inductive pool : SharedDictionaryContext → Prop :=
  | pool_new eus ccs multi ct : pool (SharedDictionaryContext_new eus ccs multi ct)
  | pool_new_dictionary c dt id c' :
      pool c → is_Some (method_table dt) → new_dictionary c dt = Ok (id, c') → pool c'
  | pool_add c d id c' :
      pool c → dictionary_ok string_hash d → add_dictionary c d = Ok (id, c') → pool c'
  | pool_extend c i arr idx c' :
      pool c → ctx_extend_and_get_index string_hash c i arr = Ok (idx, c') → pool c'
  | pool_submit c i arr c' : pool c → ctx_submit_values string_hash c i arr = Ok c' → pool c'.

#[local] Instance pool_hash : DictHash value value := value_dict_hash string_hash.
#[local] Instance pool_hash_laws : DictHashLaws value value := value_dict_hash_laws string_hash.

Lemma submit_values_keeps d arr d' :
  dictionary_ok string_hash d → Dictionary_submit_values string_hash d arr = Ok d' →
  dictionary_ok string_hash d'.
Proof.
  intros Hok Hs. unfold Dictionary_submit_values in Hs.
  destruct (dictionary_entry _ _ "Dict type mismatch in submit values" Hok) as (t & Ht & He).
  rewrite He in Hs. simplify_outcome. destruct Hok as [_ Hwf]. split; [by eexists|].
  by apply (submit_loop (typed_dict d)).
Qed.

Lemma extend_keeps d arr idx d' :
  dictionary_ok string_hash d → Dictionary_extend_and_get_index string_hash d arr = Ok (idx, d') →
  dictionary_ok string_hash d'.
Proof.
  intros Hok Hs. unfold Dictionary_extend_and_get_index in Hs. case_decide; [|done].
  destruct (dictionary_entry _ _ "Dict type mismatch in extend and get index" Hok) as (t & Ht & He).
  rewrite He in Hs. simplify_outcome. destruct Hok as [_ Hwf].
  split; [by eexists|]. cbn.
  match goal with He : TypedDict_extend (typed_dict d) ?vals = _ |- _ =>
    pose proof (extend_loop (typed_dict d) vals Hwf) as [Hw _]; unfold TypedDict_extend in He end.
  by simplify_eq.
Qed.

Lemma pool_ok c : pool c → Forall (dictionary_ok string_hash) (dictionaries c) ∧ merge_result c = [].
Proof.
  assert (Hpush : ∀ c d id c', Forall (dictionary_ok string_hash) (dictionaries c) ∧ merge_result c = [] →
    dictionary_ok string_hash d → push_dictionary c d = Ok (id, c') →
    Forall (dictionary_ok string_hash) (dictionaries c') ∧ merge_result c' = []).
  { intros c0 d id c' [Hc Hr] Hd Hp. unfold push_dictionary in Hp. simplify_outcome.
    split; [|done]. apply Forall_app. split; [done|by apply Forall_singleton]. }
  induction 1 as [|c dt id c' _ IH Hdt Hn|c d id c' _ IH Hd Ha|c i arr idx c' _ [IH Hr] He|c i arr c' _ [IH Hr] Hs].
  - done.
  - unfold new_dictionary in Hn. destruct (try_new_ok string_hash dt Hdt) as (d & Hd & Hok & _).
    rewrite Hd in Hn. by eapply Hpush.
  - by eapply Hpush.
  - unfold ctx_extend_and_get_index in He. simplify_outcome. split; [|done]. apply Forall_insert; [done|].
    match goal with Hi : index _ _ = Ok _ |- _ => apply index_Ok in Hi as [_ Hi] end.
    eapply extend_keeps; [|done]. by eapply Forall_lookup_1.
  - unfold ctx_submit_values in Hs. simplify_outcome. split; [|done]. apply Forall_insert; [done|].
    match goal with Hi : index _ _ = Ok _ |- _ => apply index_Ok in Hi as [_ Hi] end.
    eapply submit_values_keeps; [|done]. by eapply Forall_lookup_1.
Qed.

(** C17: merging keeps what the columns stored.  For a pool the writer built, if
    [merge_dicts] returns, every dictionary keeps its identifier, its data type and
    its values (up to their order) and stays well formed, and the merge result is a
    symmetric matching of dictionaries of one type whose first values agree. *)
Theorem merge_dicts_keeps_values c c' :
  pool c → ctx_merge_dicts string_hash coeffs c = Ok c' →
  Forall (dictionary_ok string_hash) (dictionaries c') ∧
  Forall2 same_contents (dictionaries c) (dictionaries c') ∧
  length (merge_result c') = length (dictionaries c') ∧
  matched (dictionaries c') (merge_result c').
Proof. intros [Hok Hr]%pool_ok Hm. by destruct (merge_dicts_ok _ _ _ _ Hok Hr Hm). Qed.

Context `{EncoderLibs}.

(** The pool that is flushed: merged, if the columns share dictionaries. *)
Lemma pool_merged c c1 :
  pool c →
  (if ctx_is_multi_col_sharing c then ctx_merge_dicts string_hash coeffs c else Ok c) = Ok c1 →
  Forall (dictionary_ok string_hash) (dictionaries c1) ∧ matched (dictionaries c1) (merge_result c1) ∧
  Forall2 same_contents (dictionaries c) (dictionaries c1) ∧
  ctx_compression_type c1 = ctx_compression_type c.
Proof using Type.
  intros [Hok Hr]%pool_ok Hm. destruct (ctx_is_multi_col_sharing c).
  - assert (Hct : ctx_compression_type c1 = ctx_compression_type c)
      by (unfold ctx_merge_dicts in Hm; by simplify_outcome).
    by destruct (merge_dicts_ok _ _ _ _ Hok Hr Hm) as [Hok1 Hsame _ Hmt].
  - injection Hm as <-. split_and!; [done| | |done].
    + rewrite Hr. by intros i j n _ ?.
    + clear. induction (dictionaries c); by constructor.
Qed.

Lemma pool_reads_back wasm c c1 chunks peers types c2 metas :
  pool c →
  (if ctx_is_multi_col_sharing c then ctx_merge_dicts string_hash coeffs c else Ok c) = Ok c1 →
  ctx_finish_and_flush wasm c1 = Ok (chunks, peers, types, c2) →
  map len metas = map len chunks → len (concat chunks) < 2 ^ 32 →
  types = map datatype (dictionaries c) ∧ dictionaries c2 = [] ∧
  Forall2 same_contents (dictionaries c) (dictionaries c1) ∧
  ∃ positions, dict_positions peers metas = Ok positions ∧
    Forall2 (reads_back (holds_values wasm (ctx_compression_type c)) (concat chunks))
      (dictionaries c1) positions.
Proof.
  intros Hpool Hm Hf Hlens Hsmall. destruct (pool_merged c c1 Hpool Hm) as (Hok1 & Hmt & Hsame & Hct).
  destruct (finish_and_flush_flushed string_hash _ _ _ _ _ _ Hok1 Hmt Hf) as (Hlc & -> & -> & Hfl).
  split_and!; [|done|done|].
  - clear - Hsame. induction Hsame as [|d d' ds ds' Hd _ IH]; [done|]. cbn. rewrite IH. by rewrite (proj1 Hd).
  - rewrite <-Hct. by eapply dict_positions_join.
Qed.

(** The dictionaries written to the file are those of the columns.  For a pool
    the writer built, merged if the columns share dictionaries and then flushed, the
    positions stored in the file's dictionary table list, for each dictionary, chunks
    that encode consecutive parts of its values: read in order they give all its
    values, whether or not a part is stored in the chunk of another dictionary. *)
Theorem shared_dictionaries_read_back wasm c c1 chunks peers types c2 metas :
  pool c →
  (if ctx_is_multi_col_sharing c then ctx_merge_dicts string_hash coeffs c else Ok c) = Ok c1 →
  ctx_finish_and_flush wasm c1 = Ok (chunks, peers, types, c2) →
  map len metas = map len chunks → len (concat chunks) < 2 ^ 32 →
  types = map datatype (dictionaries c) ∧ dictionaries c2 = [] ∧
  Forall2 same_contents (dictionaries c) (dictionaries c1) ∧
  ∃ positions, dict_positions peers metas = Ok positions ∧
    Forall2 (reads_back (holds_values wasm (ctx_compression_type c)) (concat chunks))
      (dictionaries c1) positions.
Proof. apply pool_reads_back. Qed.
End Pool.

(** ** An example *)

#[local] Existing Instance byte_encoder.

(** Sketches that find every two dictionaries similar. *)
Definition constant_coeffs : list (Z * Z) := replicate (Z.to_nat M) (0, 0).
Definition length_hash (s : string) : Z := Z.of_nat (String.length s).

(** Two integer dictionaries with common values, and one of strings. *)
Definition example_pool : outcome SharedDictionaryContext :=
  let ints l := PrimArray Int32 (map (option_map VInt) l) in
  let c := SharedDictionaryContext_new 16 64 true Uncompressed in
  let! '(i, c) := new_dictionary c Int32 in
  let! '(j, c) := new_dictionary c Int32 in
  let! '(k, c) := new_dictionary c Utf8 in
  let! c := ctx_submit_values length_hash c i (ints [Some 1; Some 2; None; Some 3]) in
  let! '(_, c) := ctx_extend_and_get_index length_hash c j (ints [Some 3; Some 4; Some 2]) in
  ctx_submit_values length_hash c k (PrimArray Utf8 [Some (VStr "a")]).

Lemma example_pool_ok c : example_pool = Ok c → pool length_hash c.
Proof.
  intros Hc. unfold example_pool in Hc. simplify_outcome.
  eapply pool_submit; [|eassumption]. eapply pool_extend; [|eassumption].
  eapply pool_submit; [|eassumption].
  eapply pool_new_dictionary; [| |eassumption]; [|by eexists].
  eapply pool_new_dictionary; [| |eassumption]; [|by eexists].
  eapply pool_new_dictionary; [| |eassumption]; [|by eexists]. apply pool_new.
Qed.

Definition example_merged : outcome SharedDictionaryContext :=
  let! c := example_pool in ctx_merge_dicts length_hash constant_coeffs c.

Definition example_flushed :=
  let! c := example_merged in ctx_finish_and_flush WASMWritingContext_empty c.

Lemma merge_dicts_keeps_values_witness :
  ∃ c c', example_pool = Ok c ∧ ctx_merge_dicts length_hash constant_coeffs c = Ok c' ∧
    matched (dictionaries c') (merge_result c') ∧
    map dict_values (dictionaries c')
    = [map VInt [3; 2; 1]; map VInt [3; 2; 4]; [VStr "a"]] ∧
    merge_result c' = [Some (1, 2); Some (0, 2); None].
Proof.
  assert (Hrun : match example_merged with
    | Ok c' => Some (map dict_values (dictionaries c'), merge_result c') | _ => None end
    = Some ([map VInt [3; 2; 1]; map VInt [3; 2; 4]; [VStr "a"]],
            [Some (1, 2); Some (0, 2); None])) by by vm_compute.
  unfold example_merged in Hrun. destruct example_pool as [c| |] eqn:Hc; [|done..].
  cbn [obind] in Hrun. destruct (ctx_merge_dicts _ _ c) as [c'| |] eqn:Hm; [|done..].
  injection Hrun as Hv Hr. exists c, c'. split_and!; [done|done| |done|done].
  apply (merge_dicts_keeps_values length_hash constant_coeffs c c' (example_pool_ok c Hc) Hm).
Defined.

Lemma shared_dictionaries_read_back_witness :
  ∃ c c1 chunks peers types c2 positions,
    example_pool = Ok c ∧ ctx_merge_dicts length_hash constant_coeffs c = Ok c1 ∧
    ctx_finish_and_flush WASMWritingContext_empty c1 = Ok (chunks, peers, types, c2) ∧
    Forall2 (reads_back (holds_values WASMWritingContext_empty Uncompressed) (concat chunks))
      (dictionaries c1) positions ∧
    positions = [[0; 1]; [0; 2]; [3]].
Proof.
  assert (Hrun : match example_flushed with
    | Ok (chunks, peers, types, _) => Some (map len chunks, peers) | _ => None end
    = Some ([2; 1; 1], [None; Some 0; None])) by by vm_compute.
  unfold example_flushed, example_merged in Hrun.
  destruct example_pool as [c| |] eqn:Hc; [|done..]. cbn [obind] in Hrun.
  destruct (ctx_merge_dicts _ _ c) as [c1| |] eqn:Hm; [|done..]. cbn [obind] in Hrun.
  destruct (ctx_finish_and_flush _ c1) as [[[[chunks peers] types] c2]| |] eqn:Hf; [|done..].
  injection Hrun as Hl ->.
  assert (Hmulti : ctx_is_multi_col_sharing c = true ∧ ctx_compression_type c = Uncompressed).
  { assert (match example_pool with Ok c => Some (ctx_is_multi_col_sharing c, ctx_compression_type c)
      | _ => None end = Some (true, Uncompressed)) as Hx by by vm_compute.
    rewrite Hc in Hx. by injection Hx. }
  destruct Hmulti as [Hmulti Hct].
  set (meta := mkChunk 0 0 0 NoDictionary [] None). set (metas := [[meta; meta]; [meta]; [meta]]).
  destruct (shared_dictionaries_read_back length_hash constant_coeffs WASMWritingContext_empty
    c c1 chunks [None; Some 0; None] types c2 metas) as (_ & _ & _ & positions & Hp & HF).
  - by apply example_pool_ok.
  - by rewrite Hmulti.
  - done.
  - by rewrite Hl.
  - assert (Hcl : ∀ l : list (list EncodedColumnChunk), len (concat l) = zsum (map len l)).
    { clear. induction l as [|x l IH]; [done|]. cbn [concat map]. rewrite len_app, IH. done. }
    rewrite Hcl, Hl. by vm_compute.
  - assert (Hpos : dict_positions [None; Some 0; None] metas = Ok [[0; 1]; [0; 2]; [3]])
      by by vm_compute.
    rewrite Hpos in Hp. injection Hp as <-. rewrite Hct in HF. by eexists c, c1, chunks, _, types, c2, _.
Defined.
