(* ===== verification/Buffers.v ===== *)
(** * fff-core/src/util/buffer_to_array.rs: Arrow arrays from raw buffers

    A decoder hands over the buffers of an Arrow array: validity bits, then values,
    offsets or string views.  The definitions follow the functions over Arrow
    [Buffer]s that the decoders call; Arrow's constructors come with the checks
    they make, except that the address of a buffer is not part of the model, so that
    [ScalarBuffer::new] does not refuse a misaligned one. *)

From S2P Require Import Prelude Arrow.

(** ** Arrow's checked constructors *)

(** Which rows are valid. *)
Definition arr_validity (a : Array) : list bool :=
  match a with
  | PrimArray _ vals => map (λ v, bool_decide (is_Some v)) vals
  | ListArray _ _ _ _ nulls | StructArray _ _ nulls _ =>
      default (replicate (Z.to_nat (arr_len a)) true) nulls
  end.

(** [Array::is_nullable]: some row is null. *)
Definition arr_is_nullable (a : Array) : bool := negb (forallb (λ b, b) (arr_validity a)).

(** [OffsetBuffer::new]: not empty, not negative, never decreasing. *)
Fixpoint nondecreasing (l : list Z) : bool :=
  match l with
  | a :: ((b :: _) as l') => (a <=? b) && nondecreasing l'
  | _ => true
  end.

Definition offset_buffer (offsets : list Z) : outcome (list Z) :=
  let! _ := assert (match offsets with [] => false | o :: _ => 0 <=? o end) in
  let! _ := assert (nondecreasing offsets) in
  Ok offsets.

Definition nulls_fit (nulls : option (list bool)) (n : Z) : bool :=
  match nulls with Some b => len b =? n | None => true end.

(** [GenericListArray::new] *)
Definition list_array_new (large : bool) (child : Field) (offsets : list Z) (values : Array)
    (nulls : option (list bool)) : outcome Array :=
  let! _ := assert (default 0 (last offsets) <=? arr_len values) in
  let! _ := assert (nulls_fit nulls (len offsets - 1)) in
  let! _ := assert (nullable child || negb (arr_is_nullable values)) in
  let! _ := assert (bool_decide (data_type child = arr_data_type values)) in
  Ok (ListArray large child offsets values nulls).

(** A null of a field that has none must be hidden by a null of the struct. *)
Definition field_masked (nulls : option (list bool)) (f : Field) (column : Array) : bool :=
  nullable f ||
  forallb (λ '(outer, inner), negb outer || inner)
    (zip (default (arr_validity column) nulls) (arr_validity column)) &&
  (bool_decide (is_Some nulls) || negb (arr_is_nullable column)).

(** [StructArray::new] *)
Definition struct_array_new (fields : list Field) (columns : list Array)
    (nulls : option (list bool)) : outcome Array :=
  let rows := match columns with c :: _ => arr_len c | [] => 0 end in
  let! _ := assert (len fields =? len columns) in
  let! _ := assert (nulls_fit nulls rows) in
  let! _ := assert (forallb (λ '(f, c), bool_decide (data_type f = arr_data_type c)
                                        && (arr_len c =? rows) && field_masked nulls f c)
                      (zip fields columns)) in
  Ok (StructArray fields columns nulls rows).

(** ** Buffers *)

(** Bit [i] of a buffer, the least significant bit of a byte first. *)
Definition buffer_bit (buf : list Z) (i : Z) : bool :=
  Z.testbit (nth (Z.to_nat (i / 8)) buf 0) (i mod 8).

(** [BooleanBuffer::new(buffer, 0, n)] *)
Definition boolean_buffer (buf : list Z) (n : Z) : outcome (list bool) :=
  let! _ := assert (n <=? 8 * len buf) in
  Ok (map (buffer_bit buf) (range n)).

(** Elements of [w] bytes. *)
Fixpoint scalar_elements (w : nat) (count : nat) (buf : list Z) : list (list Z) :=
  match count with
  | O => []
  | S count => take w buf :: scalar_elements w count (drop w buf)
  end.

(** [ScalarBuffer::new(buffer, 0, n)] for elements of [w] bytes, for an aligned buffer. *)
Definition scalar_buffer (w : nat) (buf : list Z) (n : Z) : outcome (list (list Z)) :=
  let! size := umul 64 n (Z.of_nat w) in
  let! _ := assert (size <=? len buf) in
  Ok (scalar_elements w (Z.to_nat n) buf).

(** [buffer_iter.next().unwrap()] *)
Definition next_buffer (bufs : list (list Z)) : outcome (list Z * list (list Z)) :=
  match bufs with b :: bufs => Ok (b, bufs) | [] => Panic PUnwrap end.

Definition arrow_buffer_to_validity (buf : list Z) (num_rows : Z) : outcome (option (list bool)) :=
  match buf with
  | [] => Ok None
  | _ => let! bits := boolean_buffer buf num_rows in Ok (Some bits)
  end.

(** The values with the nulls taken out. *)
Definition with_validity (nulls : option (list bool)) (vals : list value) : list (option value) :=
  match nulls with
  | None => map Some vals
  | Some bits => zip_with (λ (b : bool) v, if b then Some v else None) bits vals
  end.

(** ** Primitive types *)

Definition signed_value (w : nat) (b : list Z) : value :=
  VInt (as_signed (8 * Z.of_nat w) (le_val b)).
Definition unsigned_value (b : list Z) : value := VInt (le_val b).
Definition float_value (b : list Z) : value := VFloat (le_val b).

Definition time_unit_name (u : TimeUnit) : string :=
  match u with
  | Second => "Second" | Millisecond => "Millisecond"
  | Microsecond => "Microsecond" | Nanosecond => "Nanosecond"
  end.

(** The width in bytes of the native type of a primitive array, and how its
    elements are read.  An interval of two or three parts is kept as its bits. *)
Definition native_type (dt : DataType) : option (nat * (list Z → value)) :=
  match dt with
  | Int8 => Some (1%nat, signed_value 1)
  | Int16 => Some (2%nat, signed_value 2)
  | Int32 | Date32 | Time32 Second | Time32 Millisecond | Interval YearMonth =>
      Some (4%nat, signed_value 4)
  | Int64 | Date64 | Time64 Microsecond | Time64 Nanosecond | Timestamp _ _ | Duration _ =>
      Some (8%nat, signed_value 8)
  | Decimal128 _ _ => Some (16%nat, signed_value 16)
  | Decimal256 _ _ => Some (32%nat, signed_value 32)
  | Interval DayTime => Some (8%nat, unsigned_value)
  | Interval MonthDayNano => Some (16%nat, unsigned_value)
  | UInt8 => Some (1%nat, unsigned_value)
  | UInt16 => Some (2%nat, unsigned_value)
  | UInt32 => Some (4%nat, unsigned_value)
  | UInt64 => Some (8%nat, unsigned_value)
  | Float16 => Some (2%nat, float_value)
  | Float32 => Some (4%nat, float_value)
  | Float64 => Some (8%nat, float_value)
  | _ => None
  end.

Definition new_primitive_array_from_arrow_buffer_iter (w : nat) (read : list Z → value)
    (bufs : list (list Z)) (num_rows : Z) (dt : DataType) : outcome Array :=
  let! '(null_buffer, bufs) := next_buffer bufs in
  let! nulls := arrow_buffer_to_validity null_buffer num_rows in
  let! '(data_buffer, _) := next_buffer bufs in
  let! data := scalar_buffer w data_buffer num_rows in
  Ok (PrimArray dt (with_validity nulls (map read data))).

Definition boolean_array_from_buffers (bufs : list (list Z)) (num_rows : Z) : outcome Array :=
  let! '(null_buffer, bufs) := next_buffer bufs in
  let! nulls := arrow_buffer_to_validity null_buffer num_rows in
  let! '(data_buffer, _) := next_buffer bufs in
  let! data := boolean_buffer data_buffer num_rows in
  Ok (PrimArray Boolean (with_validity nulls (map VBool data))).

(** ** Strings *)

Fixpoint string_of_bytes (l : list Z) : string :=
  match l with
  | [] => String.EmptyString
  | b :: l => String.String (Ascii.ascii_of_N (Z.to_N b)) (string_of_bytes l)
  end.

(** A view is 16 bytes: the length, and the bytes themselves when there are at most
    12 of them, else a prefix, the index of a buffer and an offset in it.  The
    array is built unchecked; a view out of range is undefined behaviour, and a
    panic here. *)
Definition view_bytes (bufs : list (list Z)) (view : list Z) : outcome (list Z) :=
  let n := le_val (take 4 view) in
  if n <=? 12 then Ok (take (Z.to_nat n) (drop 4 view))
  else
    let! buf := index bufs (le_val (take 4 (drop 8 view))) in
    let off := le_val (take 4 (drop 12 view)) in
    slice buf off (off + n).

(** A null view is not looked at. *)
Definition view_value (bufs : list (list Z)) (vb : bool * list Z) : outcome (option value) :=
  let '(valid, view) := vb in
  if valid : bool then let! b := view_bytes bufs view in Ok (Some (VStr (string_of_bytes b)))
  else Ok None.

Definition new_generic_byte_view_array_from_arrow_buffer_iter (dt : DataType)
    (bufs : list (list Z)) (num_rows : Z) : outcome Array :=
  let! '(null_buffer, bufs) := next_buffer bufs in
  let! nulls := arrow_buffer_to_validity null_buffer num_rows in
  let! '(views_buffer, bufs) := next_buffer bufs in
  let! views := scalar_buffer 16 views_buffer num_rows in
  let! vals := traverse (view_value bufs)
                 (zip (default (replicate (length views) true) nulls) views) in
  Ok (PrimArray dt vals).

(** ** Offsets and validity of lists *)

Definition DUMMY_NULL_FIELD : Field := mkField "dummy" Null true.

(** An array of nulls. *)
Definition null_array (n : Z) : Array := PrimArray Null (replicate (Z.to_nat n) None).

Definition offset_width (large : bool) : nat := if large then 8%nat else 4%nat.

(** Without [child] the values are dummy nulls. *)
Definition new_list_offsets_validity_from_buffer_iter (large : bool) (bufs : list (list Z))
    (num_rows : Z) (child : option Array) : outcome Array :=
  let w := offset_width large in
  let! '(null_buffer, bufs) := next_buffer bufs in
  let! nulls := arrow_buffer_to_validity null_buffer num_rows in
  let! '(data_buffer, _) := next_buffer bufs in
  let! n := uadd 64 num_rows 1 in
  let! data := scalar_buffer w data_buffer n in
  let offsets := map (λ b, as_signed (8 * Z.of_nat w) (le_val b)) data in
  let! max_offset := index offsets num_rows in
  let! _ := if max_offset <? 0 then Panic PTodo else Ok tt in
  let! offsets := offset_buffer offsets in
  match child with
  | Some c =>
      list_array_new large (mkField "dummy" (arr_data_type c) (arr_is_nullable c)) offsets c nulls
  | None => list_array_new large DUMMY_NULL_FIELD offsets (null_array max_offset) nulls
  end.

Definition new_list_offsets_validity_from_buffers := new_list_offsets_validity_from_buffer_iter.

(** ** The dispatch on the type *)

Definition primitive_array_from_arrow_buffers_iter (dt : DataType) (bufs : list (list Z))
    (num_rows : Z) : outcome Array :=
  match dt with
  | Boolean => boolean_array_from_buffers bufs num_rows
  | Null => Ok (null_array num_rows)
  | Time32 ((Microsecond | Nanosecond) as u) =>
      Err (IO ("invalid time unit " ++ time_unit_name u ++ " for 32-bit time type"))
  | Time64 ((Second | Millisecond) as u) =>
      Err (IO ("invalid time unit " ++ time_unit_name u ++ " for 64-bit time type"))
  | Utf8 | LargeUtf8 => new_generic_byte_view_array_from_arrow_buffer_iter Utf8View bufs num_rows
  | Binary | LargeBinary =>
      new_generic_byte_view_array_from_arrow_buffer_iter BinaryView bufs num_rows
  | List _ => new_list_offsets_validity_from_buffer_iter false bufs num_rows None
  | LargeList _ => new_list_offsets_validity_from_buffer_iter true bufs num_rows None
  | dt =>
      match native_type dt with
      | Some (w, read) => new_primitive_array_from_arrow_buffer_iter w read bufs num_rows dt
      | None => Err (IO "The data type cannot be decoded from a primitive encoding")
      end
  end.

Definition primitive_array_from_arrow_buffers := primitive_array_from_arrow_buffers_iter.
