(* ===== verification/PhysEnc.v ===== *)
(** * fff-poc/src/encoder/physical.rs: the physical column encoders

    Each encoder turns the arrays of one physical column into units and collects
    the units into chunks of about [column_chunk_size] bytes.  They differ in how
    they use dictionaries. *)

From S2P Require Import Prelude Arrow EncUnit Dict Float64 Sketch Common Footer Options Chunks.
From S2P Require Import Encoders Writer SharedDict.

(** ** What the encoders take from libraries

    Arrow's count of the bytes an array occupies, and [choose_multiple] of rand:
    the indices it draws from [0..n], with a generator as explicit state. *)
Class Sampling := {
  get_array_memory_size : Array → Z;
  Rng : Type;
  choose_multiple : Rng → Z → Z → list Z * Rng;
}.

(** ** Casting indices *)

(** The array with every index cast to the [w]-bit type [dt]. *)
Definition cast_to (dt : DataType) (w : Z) (index_array : Array) : outcome Array :=
  match index_array with
  | PrimArray UInt64 vals =>
      let! idx := traverse (λ v : option value, match v with
                              | None => Ok None
                              | Some (VInt x) => Ok (Some (VInt (wrap w x)))
                              | _ => Panic PUnwrap
                              end) vals in
      Ok (PrimArray dt idx)
  | _ => Panic PUnwrap
  end.

Definition cast_index_dtype (index_array : Array) (dict_len : Z) : outcome Array :=
  if dict_len <? 2 ^ 8 then cast_to UInt8 8 index_array
  else if dict_len <? 2 ^ 16 then cast_to UInt16 16 index_array
  else if dict_len <? 2 ^ 32 then cast_to UInt32 32 index_array
  else Ok index_array.

(** ** The encoders *)

(** [counter.index_size += n], [counter.dict_size += n] *)
Definition count_index (c : EncodingCounter) (n : Z) : outcome EncodingCounter :=
  let! i := uadd 64 (index_size c) n in Ok (mkCounter (dict_type c) (dict_size c) i).
Definition count_dict (c : EncodingCounter) (n : Z) : outcome EncodingCounter :=
  let! d := uadd 64 (dict_size c) n in Ok (mkCounter (dict_type c) d (index_size c)).
Definition set_dict_type (c : EncodingCounter) (t : DictionaryTypeOptions) : EncodingCounter :=
  mkCounter t (dict_size c) (index_size c).

(** A chunk with no unit yet. *)
Definition fresh_chunk (e : DictionaryEncoding) : EncodedColumnChunk := set_dict_encoding builder e.

Record ListOfStructColEncoder := mkListOfStruct {
  ls_chunk : EncodedColumnChunk;
  ls_size : Z;
  ls_column_chunk_size : Z;
  ls_wasm : WASMWritingContext;
  ls_ct : CompressionType;
}.

Record EncoderDictColEncoder := mkEncoderDict {
  ed_chunk : EncodedColumnChunk;
  ed_size : Z;
  ed_column_chunk_size : Z;
  ed_wasm : WASMWritingContext;
  ed_enable_dict : bool;
  ed_ct : CompressionType;
}.

Record DictColEncoder := mkDictCol {
  dc_chunk : EncodedColumnChunk;
  dc_size : Z;
  dc_column_chunk_size : Z;
  dc_wasm : WASMWritingContext;
  dc_ct : CompressionType;
}.

Record SharedDictColEncoder := mkSharedDict {
  sd_fixed_dict_scope : Z;
  sd_buffered_arrays : list Array;
  sd_buffered_len : Z;
  sd_buffered_mem_size : Z;
  sd_column_chunk_size : Z;
  sd_wasm : WASMWritingContext;
  sd_submitted_dict_idx : option Z;
  sd_ct : CompressionType;
}.

Record GLBestEncoder `{Sampling} := mkGLBest {
  gl_sample_size : option (f64 * Z);
  gl_buffered_arrays : list Array;
  gl_buffered_len : Z;
  gl_buffered_mem_size : Z;
  gl_column_chunk_size : Z;
  gl_wasm : WASMWritingContext;
  gl_ct : CompressionType;
  gl_rng : Rng;
}.

Section Physical.
Context `{EncoderLibs} `{Codecs} `{Sampling}.
(** The hash of strings. *)
Context (string_hash : string → Z).

Abbreviation Ctx := SharedDictionaryContext.

(** What the operations of an encoder return: chunks, and the new states. *)
Abbreviation Encoded E := (outcome (list EncodedColumnChunk * E * EncodingCounter * Ctx)).

(** *** ListOfStructColEncoder *)

Definition ListOfStructColEncoder_new (column_chunk_size : Z) (wasm : WASMWritingContext)
    (ct : CompressionType) : ListOfStructColEncoder :=
  mkListOfStruct (fresh_chunk NoDictionary) 0 column_chunk_size wasm ct.

Definition ls_memory_size (e : ListOfStructColEncoder) : Z := ls_size e.

Definition ls_encode (e : ListOfStructColEncoder) (list_array field : Array)
  : outcome (option EncodedColumnChunk * ListOfStructColEncoder) :=
  let! u := list_struct_unit (ls_wasm e) (ls_ct e) list_array field in
  let! size := uadd 64 (ls_size e) (len (bytes u)) in
  let! chunk := add_chunk_rows (push_unit (ls_chunk e) u) (arr_len list_array) in
  if ls_column_chunk_size e <? size
  then Ok (Some chunk, mkListOfStruct EncodedColumnChunk_default 0 (ls_column_chunk_size e)
                         (ls_wasm e) (ls_ct e))
  else Ok (None, mkListOfStruct chunk size (ls_column_chunk_size e) (ls_wasm e) (ls_ct e)).

(** The size is not reset. *)
Definition ls_finish (e : ListOfStructColEncoder)
  : option EncodedColumnChunk * ListOfStructColEncoder :=
  match encunits (ls_chunk e) with
  | [] => (None, e)
  | _ => (Some (ls_chunk e),
          mkListOfStruct EncodedColumnChunk_default (ls_size e) (ls_column_chunk_size e)
            (ls_wasm e) (ls_ct e))
  end.

(** *** EncoderDictColEncoder *)

Definition EncoderDictColEncoder_new (column_chunk_size : Z) (wasm : WASMWritingContext)
    (enable_dict : bool) (ct : CompressionType) : EncoderDictColEncoder :=
  mkEncoderDict (fresh_chunk NoDictionary) 0 column_chunk_size wasm enable_dict ct.

Definition ed_encode (e : EncoderDictColEncoder) (array : Array) (counter : EncodingCounter)
  : outcome (list EncodedColumnChunk * EncoderDictColEncoder * EncodingCounter) :=
  let! u := encode_unit (ed_wasm e) (ed_ct e) (ed_enable_dict e) array in
  let! size := uadd 64 (ed_size e) (len (bytes u)) in
  let! counter := count_index counter (len (bytes u)) in
  let! chunk := add_chunk_rows (push_unit (ed_chunk e) u) (arr_len array) in
  if ed_column_chunk_size e <? size
  then Ok ([chunk], mkEncoderDict EncodedColumnChunk_default 0 (ed_column_chunk_size e)
                      (ed_wasm e) (ed_enable_dict e) (ed_ct e), counter)
  else Ok ([], mkEncoderDict chunk size (ed_column_chunk_size e) (ed_wasm e) (ed_enable_dict e)
                 (ed_ct e), counter).

Definition ed_memory_size (e : EncoderDictColEncoder) : Z := ed_size e.

Definition ed_finish (e : EncoderDictColEncoder) (counter : EncodingCounter)
  : list EncodedColumnChunk * EncoderDictColEncoder * EncodingCounter :=
  let counter := set_dict_type counter EncoderDictionary in
  match encunits (ed_chunk e) with
  | [] => ([], e, counter)
  | _ => ([ed_chunk e],
          mkEncoderDict EncodedColumnChunk_default 0 (ed_column_chunk_size e) (ed_wasm e)
            (ed_enable_dict e) (ed_ct e), counter)
  end.

(** *** DictColEncoder *)

Definition DictColEncoder_new (column_chunk_size : Z) (wasm : WASMWritingContext)
    (ct : CompressionType) : DictColEncoder :=
  mkDictCol (fresh_chunk (Dictionary [])) 0 column_chunk_size wasm ct.

(** The two units of an array: its dictionary and its indices.  The dictionary's
    unit is encoded by its own type, but tagged by the type of the array. *)
Definition dict_units (wasm : WASMWritingContext) (ct : CompressionType) (array : Array)
  : outcome (SerializedEncUnit * SerializedEncUnit * Z) :=
  let dtype := arr_data_type array in
  let! d := Dictionary_try_new dtype in
  let! d := Dictionary_extend string_hash d array in
  let! '(dict, indices) := Dictionary_finish d in
  let! indices := cast_index_dtype indices (arr_len dict) in
  let! dict_encoder := create_encunit_encoder wasm (arr_data_type dict) false in
  let! dict_enc_unit := encode_array dict_encoder dict in
  let! indices_encoder := create_encunit_encoder wasm (arr_data_type indices) false in
  let! indices_enc_unit := encode_array indices_encoder indices in
  let! dict_bytes := compress_data dict_enc_unit ct in
  let! indices_bytes := compress_data indices_enc_unit ct in
  let! dict_encoding := unit_encoding wasm dict_encoder dtype in
  let! indices_encoding := unit_encoding wasm indices_encoder (arr_data_type indices) in
  Ok (mkSerialized dict_bytes (wrap 32 (arr_len dict)) dict_encoding ct,
      mkSerialized indices_bytes (wrap 32 (arr_len indices)) indices_encoding ct,
      arr_len indices).

Definition dc_encode (e : DictColEncoder) (array : Array) (counter : EncodingCounter)
  : outcome (list EncodedColumnChunk * DictColEncoder * EncodingCounter) :=
  let! '(dict, indices, rows) := dict_units (dc_wasm e) (dc_ct e) array in
  let! both := uadd 64 (len (bytes dict)) (len (bytes indices)) in
  let! size := uadd 64 (dc_size e) both in
  let! counter := count_dict counter (len (bytes dict)) in
  let! counter := count_index counter (len (bytes indices)) in
  let! chunk := add_chunk_rows (push_unit (push_unit (dc_chunk e) dict) indices) rows in
  if dc_column_chunk_size e <? size
  then Ok ([chunk], mkDictCol (fresh_chunk (Dictionary [])) 0 (dc_column_chunk_size e)
                      (dc_wasm e) (dc_ct e), counter)
  else Ok ([], mkDictCol chunk size (dc_column_chunk_size e) (dc_wasm e) (dc_ct e), counter).

Definition dc_memory_size (e : DictColEncoder) : Z := dc_size e.

(** The chunk that is left is a default one, not a dictionary one, and the size is
    not reset. *)
Definition dc_finish (e : DictColEncoder) (counter : EncodingCounter)
  : list EncodedColumnChunk * DictColEncoder * EncodingCounter :=
  let counter := set_dict_type counter LocalDictionary in
  match encunits (dc_chunk e) with
  | [] => ([], e, counter)
  | _ => ([dc_chunk e],
          mkDictCol EncodedColumnChunk_default (dc_size e) (dc_column_chunk_size e) (dc_wasm e)
            (dc_ct e), counter)
  end.

(** *** Chunks of index units *)

(** The loops of [encode_dict_scope] and [encode_shared_to_chunks]: the chunks
    pushed, the chunk accumulated, its size, and the counter.  [split] tells
    whether chunks are cut at the limit. *)
Definition index_step (wasm : WASMWritingContext) (ct : CompressionType) (limit : Z) (split : bool)
    (de : DictionaryEncoding) (count : EncodingCounter → Z → outcome EncodingCounter)
    (st : list EncodedColumnChunk * EncodedColumnChunk * Z * EncodingCounter) (arr : Array)
  : outcome (list EncodedColumnChunk * EncodedColumnChunk * Z * EncodingCounter) :=
  let '(res, chunk, size, counter) := st in
  let! u := encode_unit wasm ct false arr in
  let! size := uadd 64 size (len (bytes u)) in
  let! counter := count counter (len (bytes u)) in
  let! chunk := add_chunk_rows (push_unit chunk u) (arr_len arr) in
  if split && (limit <? size) then Ok (res ++ [chunk], fresh_chunk de, 0, counter)
  else Ok (res, chunk, size, counter).

Definition index_chunks (wasm : WASMWritingContext) (ct : CompressionType) (limit : Z)
    (split : bool) (de : DictionaryEncoding)
    (count : EncodingCounter → Z → outcome EncodingCounter) (arrs : list Array)
    (counter : EncodingCounter) : outcome (list EncodedColumnChunk * EncodingCounter) :=
  let! '(res, chunk, size, counter) :=
    fold_m (index_step wasm ct limit split de count) ([], fresh_chunk de, 0, counter) arrs in
  Ok (if 0 <? size then res ++ [chunk] else res, counter).

(** *** SharedDictColEncoder *)

Definition SharedDictColEncoder_new (fixed_dict_scope column_chunk_size : Z)
    (wasm : WASMWritingContext) (ct : CompressionType) : SharedDictColEncoder :=
  mkSharedDict fixed_dict_scope [] 0 0 column_chunk_size wasm None ct.

Definition first_array (arrs : list Array) : outcome Array :=
  match arrs with a :: _ => Ok a | [] => Panic PUnwrap end.

(** [encode_dict_scope] *)
Definition encode_dict_scope (e : SharedDictColEncoder) (counter : EncodingCounter) (ctx : Ctx)
  : Encoded SharedDictColEncoder :=
  let buffered := sd_buffered_arrays e in
  let e := mkSharedDict (sd_fixed_dict_scope e) [] 0 0 (sd_column_chunk_size e) (sd_wasm e)
             (sd_submitted_dict_idx e) (sd_ct e) in
  let! '(dict_idx, ctx) :=
    match sd_submitted_dict_idx e with
    | Some idx => Ok (idx, ctx)
    | None => let! a := first_array buffered in new_dictionary ctx (arr_data_type a)
    end in
  let! '(indices, ctx) :=
    traverse_st (λ ctx arr, ctx_extend_and_get_index string_hash ctx dict_idx arr) ctx buffered in
  let! n := dict_len ctx dict_idx in
  let! indices := traverse (λ arr, cast_index_dtype arr n) indices in
  let! '(res, counter) :=
    index_chunks (sd_wasm e) (sd_ct e) (sd_column_chunk_size e) true (SharedDictionary dict_idx)
      count_index indices counter in
  Ok (res, e, counter, ctx).

(** The type of a new array is that of the arrays that wait. *)
Definition same_type_as_first (arrs : list Array) (array : Array) : bool :=
  match arrs with
  | [] => true
  | a :: _ => bool_decide (arr_data_type a = arr_data_type array)
  end.

Definition sd_encode (e : SharedDictColEncoder) (array : Array) (counter : EncodingCounter)
    (ctx : Ctx) : Encoded SharedDictColEncoder :=
  if negb (same_type_as_first (sd_buffered_arrays e) array)
  then Err (General "Datatypes of arrays do not match")
  else
    let! n := uadd 64 (sd_buffered_len e) (arr_len array) in
    let! mem := uadd 64 (sd_buffered_mem_size e) (get_array_memory_size array) in
    let e := mkSharedDict (sd_fixed_dict_scope e) (sd_buffered_arrays e ++ [array]) n mem
               (sd_column_chunk_size e) (sd_wasm e) (sd_submitted_dict_idx e) (sd_ct e) in
    if sd_fixed_dict_scope e <=? n then encode_dict_scope e counter ctx
    else Ok ([], e, counter, ctx).

Definition sd_memory_size (e : SharedDictColEncoder) : Z := sd_buffered_mem_size e.

Definition sd_finish (e : SharedDictColEncoder) (counter : EncodingCounter) (ctx : Ctx)
  : Encoded SharedDictColEncoder :=
  match sd_buffered_arrays e with
  | [] => Ok ([], e, counter, ctx)
  | _ => encode_dict_scope e counter ctx
  end.

Definition sd_submit_dict (e : SharedDictColEncoder) (ctx : Ctx)
  : outcome (SharedDictColEncoder * Ctx) :=
  let! '(dict_idx, e, ctx) :=
    match sd_submitted_dict_idx e with
    | Some idx => Ok (idx, e, ctx)
    | None =>
        let! a := first_array (sd_buffered_arrays e) in
        let! '(idx, ctx) := new_dictionary ctx (arr_data_type a) in
        Ok (idx,
            mkSharedDict (sd_fixed_dict_scope e) (sd_buffered_arrays e) (sd_buffered_len e)
              (sd_buffered_mem_size e) (sd_column_chunk_size e) (sd_wasm e) (Some idx) (sd_ct e),
            ctx)
    end in
  let! ctx := fold_m (λ ctx arr, ctx_submit_values string_hash ctx dict_idx arr) ctx
                (sd_buffered_arrays e) in
  Ok (e, ctx).

(** *** GLBestEncoder *)

Definition GLBestEncoder_new (sample_size : option (f64 * Z)) (column_chunk_size : Z)
    (wasm : WASMWritingContext) (ct : CompressionType) (rng : Rng) : GLBestEncoder :=
  mkGLBest _ sample_size [] 0 0 column_chunk_size wasm ct rng.

Definition encode_shared_to_chunks (e : GLBestEncoder) (arrs : list Array)
    (counter : EncodingCounter) (dict_idx : option Z)
  : outcome (list EncodedColumnChunk * EncodingCounter) :=
  index_chunks (gl_wasm e) (gl_ct e) (gl_column_chunk_size e) (bool_decide (is_Some dict_idx))
    (match dict_idx with Some i => SharedDictionary i | None => NoDictionary end)
    (match dict_idx with Some _ => count_index | None => count_dict end) arrs counter.

(** [arrs.iter().map(|x| x.len()).sum()] *)
Definition total_rows (arrs : list Array) : outcome Z :=
  fold_m (λ n a, uadd 64 n (arr_len a)) 0 arrs.

(** [size * total / rows of the samples], as floats. *)
Definition scale_estimate (size total : Z) (samples : list Array) : outcome f64 :=
  let! scaled := umul 64 size total in
  let! rows := total_rows samples in
  Ok (f64_div (f64_of_int scaled) (f64_of_int rows)).

Definition estimate_arrays_encoded_size (e : GLBestEncoder) (rng : Rng) (arrs : list Array)
    (arr_total_size sample_count : Z) : outcome (f64 * Rng) :=
  if len arrs <=? sample_count then
    let! '(_, counter) := encode_shared_to_chunks e arrs EncodingCounter_default (Some 1) in
    Ok (f64_of_int (index_size counter), rng)
  else
    let '(picks, rng) := choose_multiple rng (len arrs) sample_count in
    let! samples := traverse (index arrs) picks in
    let! '(_, counter) := encode_shared_to_chunks e samples EncodingCounter_default (Some 1) in
    let! est := scale_estimate (index_size counter) arr_total_size samples in
    Ok (est, rng).

Definition estimate_arr_encoded_size (e : GLBestEncoder) (rng : Rng) (arr : Array)
    (sample_len sample_count : Z) : outcome (f64 * Rng) :=
  let! most := umul 64 sample_len sample_count in
  if arr_len arr <=? most then
    let! '(_, counter) := encode_shared_to_chunks e [arr] EncodingCounter_default None in
    Ok (f64_of_int (dict_size counter), rng)
  else
    let! num_slices := udiv (arr_len arr) sample_len in
    let '(picks, rng) := choose_multiple rng num_slices sample_count in
    let! samples := traverse (λ i, let! off := umul 64 i sample_len in arr_slice arr off sample_len)
                      picks in
    let! '(_, counter) := encode_shared_to_chunks e samples EncodingCounter_default None in
    let! est := scale_estimate (dict_size counter) (arr_len arr) samples in
    Ok (est, rng).

Definition gl_encode (e : GLBestEncoder) (array : Array) : outcome GLBestEncoder :=
  if negb (same_type_as_first (gl_buffered_arrays e) array)
  then Err (General "Datatypes of arrays do not match")
  else
    let! n := uadd 64 (gl_buffered_len e) (arr_len array) in
    let! mem := uadd 64 (gl_buffered_mem_size e) (get_array_memory_size array) in
    Ok (mkGLBest _ (gl_sample_size e) (gl_buffered_arrays e ++ [array]) n mem
          (gl_column_chunk_size e) (gl_wasm e) (gl_ct e) (gl_rng e)).

Definition gl_memory_size (e : GLBestEncoder) : Z := gl_buffered_mem_size e.

(** The closure [encode_to_local_chunks]; it does not compress. *)
Definition local_step
    (st : list EncodedColumnChunk * EncoderDictColEncoder * EncodingCounter) (arr : Array)
  : outcome (list EncodedColumnChunk * EncoderDictColEncoder * EncodingCounter) :=
  let '(chunks, local, counter) := st in
  let! '(more, local, counter) := ed_encode local arr counter in
  Ok (chunks ++ more, local, counter).

Definition encode_to_local_chunks (e : GLBestEncoder) (arrs : list Array)
  : outcome (EncodingCounter * list EncodedColumnChunk) :=
  let local := EncoderDictColEncoder_new (gl_column_chunk_size e) (gl_wasm e) true Uncompressed in
  let! '(chunks, local, counter) := fold_m local_step ([], local, EncodingCounter_default) arrs in
  let '(more, _, counter) := ed_finish local counter in
  Ok (counter, chunks ++ more).

(** The arrays are sampled if a large enough sample was asked for. *)
Definition sample_count (sample_size : option (f64 * Z)) (rows : Z) : outcome (option (Z * Z)) :=
  match sample_size with
  | None => Ok None
  | Some (sample_ratio, sample_len) =>
      let wanted := f64_to_usize (f64_mul (f64_of_int rows) sample_ratio) in
      if sample_len <? wanted then
        let! count := udiv wanted sample_len in Ok (Some (sample_len, count))
      else Ok None
  end.

(** Estimates from the samples: is a local dictionary at least as small? *)
Definition local_wins (e : GLBestEncoder) (buffered indices : list Array) (rows : Z)
    (global : Dict.Dictionary) (sample_len count : Z) : outcome (bool * Rng) :=
  let '(picks, rng) := choose_multiple (gl_rng e) (len buffered) count in
  let! samples := traverse (index buffered) picks in
  let! '(sample_counter, _) := encode_to_local_chunks e samples in
  let! size := total_size sample_counter in
  let! scaled := umul 64 size rows in
  let! sampled := umul 64 sample_len count in
  let local_est := f64_div (f64_of_int scaled) (f64_of_int sampled) in
  let! '(index_est, rng) := estimate_arrays_encoded_size e rng indices rows count in
  let! dict := Dictionary_peek_dict global in
  let! '(dict_est, rng) := estimate_arr_encoded_size e rng dict sample_len count in
  Ok (f64_le local_est (f64_add index_est dict_est), rng).

(** Both are encoded, and the smaller one is kept. *)
Definition encode_best (e : GLBestEncoder) (buffered indices : list Array)
    (global : Dict.Dictionary) (ctx : Ctx)
  : outcome (list EncodedColumnChunk * EncodingCounter * Ctx) :=
  let! '(local_counter, local_chunks) := encode_to_local_chunks e buffered in
  let peek := peek_dict_id ctx in
  let! '(global_chunks, global_counter) :=
    encode_shared_to_chunks e indices EncodingCounter_default (Some peek) in
  let! dict := Dictionary_peek_dict global in
  let! '(_, global_counter) := encode_shared_to_chunks e [dict] global_counter None in
  let! local_total := total_size local_counter in
  let! global_total := total_size global_counter in
  if local_total <=? global_total then Ok (local_chunks, local_counter, ctx)
  else
    let! '(id, ctx) := add_dictionary ctx global in
    let! _ := assert (id =? peek) in
    Ok (global_chunks, mkCounter (dict_type global_counter) 0 (index_size global_counter), ctx).

Definition gl_finish (e : GLBestEncoder) (counter : EncodingCounter) (ctx : Ctx)
  : Encoded GLBestEncoder :=
  match gl_buffered_arrays e with
  | [] => Ok ([], e, counter, ctx)
  | (first :: _) as buffered =>
      let rows := gl_buffered_len e in
      let e := mkGLBest _ (gl_sample_size e) [] 0 0 (gl_column_chunk_size e) (gl_wasm e) (gl_ct e)
                 (gl_rng e) in
      let! global := Dictionary_try_new (arr_data_type first) in
      let! '(indices, global) :=
        traverse_st (Dictionary_extend_and_get_index string_hash) global buffered in
      let! n := Dictionary_len global in
      let! indices := traverse (λ arr, cast_index_dtype arr n) indices in
      let! sampling := sample_count (gl_sample_size e) rows in
      match sampling with
      | Some (sample_len, count) =>
          let! '(local, rng) := local_wins e buffered indices rows global sample_len count in
          let e := mkGLBest _ (gl_sample_size e) [] 0 0 (gl_column_chunk_size e) (gl_wasm e)
                     (gl_ct e) rng in
          if (local : bool) then
            let! '(counter, chunks) := encode_to_local_chunks e buffered in
            Ok (chunks, e, counter, ctx)
          else
            let! '(id, ctx) := add_dictionary ctx global in
            let! '(chunks, counter) := encode_shared_to_chunks e indices counter (Some id) in
            Ok (chunks, e, counter, ctx)
      | None =>
          let! '(chunks, counter, ctx) := encode_best e buffered indices global ctx in
          Ok (chunks, e, counter, ctx)
      end
  end.

(** ** The trait PhysicalColEncoder

    [ListOfStructColEncoder] does not implement it. *)

Inductive PhysicalColEncoder :=
  | PEncoderDict (e : EncoderDictColEncoder)
  | PDict (e : DictColEncoder)
  | PSharedDict (e : SharedDictColEncoder)
  | PGLBest (e : GLBestEncoder).

(** The result of an encoder, as that of the trait object. *)
Definition as_object {E} (wrap : E → PhysicalColEncoder) (m : Encoded E) : Encoded PhysicalColEncoder :=
  let! '(chunks, e, counter, ctx) := m in Ok (chunks, wrap e, counter, ctx).

Definition phys_encode (e : PhysicalColEncoder) (array : Array) (counter : EncodingCounter)
    (ctx : Ctx) : Encoded PhysicalColEncoder :=
  match e with
  | PEncoderDict e =>
      let! '(chunks, e, counter) := ed_encode e array counter in
      Ok (chunks, PEncoderDict e, counter, ctx)
  | PDict e =>
      let! '(chunks, e, counter) := dc_encode e array counter in
      Ok (chunks, PDict e, counter, ctx)
  | PSharedDict e => as_object PSharedDict (sd_encode e array counter ctx)
  | PGLBest e => let! e := gl_encode e array in Ok ([], PGLBest e, counter, ctx)
  end.

Definition phys_memory_size (e : PhysicalColEncoder) : Z :=
  match e with
  | PEncoderDict e => ed_memory_size e
  | PDict e => dc_memory_size e
  | PSharedDict e => sd_memory_size e
  | PGLBest e => gl_memory_size e
  end.

Definition phys_finish (e : PhysicalColEncoder) (counter : EncodingCounter) (ctx : Ctx)
  : Encoded PhysicalColEncoder :=
  match e with
  | PEncoderDict e =>
      let '(chunks, e, counter) := ed_finish e counter in Ok (chunks, PEncoderDict e, counter, ctx)
  | PDict e =>
      let '(chunks, e, counter) := dc_finish e counter in Ok (chunks, PDict e, counter, ctx)
  | PSharedDict e => as_object PSharedDict (sd_finish e counter ctx)
  | PGLBest e => as_object PGLBest (gl_finish e counter ctx)
  end.

Definition phys_submit_dict (e : PhysicalColEncoder) (ctx : Ctx)
  : outcome (PhysicalColEncoder * Ctx) :=
  match e with
  | PSharedDict e => let! '(e, ctx) := sd_submit_dict e ctx in Ok (PSharedDict e, ctx)
  | _ => Ok (e, ctx)
  end.

Definition create_physical_encoder (data_type : DataType) (max_chunk_size : Z)
    (wasm : WASMWritingContext) (dictionary_type : DictionaryTypeOptions) (ct : CompressionType)
    (rng : Rng) : outcome PhysicalColEncoder :=
  if non_nest_types data_type then
    Ok match dictionary_type with
       | NoDictionaryOption =>
           PEncoderDict (EncoderDictColEncoder_new max_chunk_size wasm false ct)
       | EncoderDictionary =>
           PEncoderDict (EncoderDictColEncoder_new max_chunk_size wasm true ct)
       | LocalDictionary => PDict (DictColEncoder_new max_chunk_size wasm ct)
       | GlobalDictionary | GlobalDictionaryMultiColSharing =>
           PSharedDict (SharedDictColEncoder_new (2 ^ 64 - 1) max_chunk_size wasm ct)
       | FixedScopeDictionary scope =>
           PSharedDict (SharedDictColEncoder_new scope max_chunk_size wasm ct)
       | GLBest sampling =>
           PGLBest (GLBestEncoder_new
                      (option_map (λ rl, (f64_of_bits rl.1, rl.2)) sampling)
                      max_chunk_size wasm ct rng)
       end
  else
    match data_type with
    | List _ | LargeList _ => Ok (PEncoderDict (EncoderDictColEncoder_new max_chunk_size wasm true ct))
    | _ => Panic PTodo
    end.
End Physical.
