(* ===== verification/PhysEncFacts.v ===== *)
(** * How the physical column encoders fill chunks

    The encoders of PhysEnc.v all accumulate units in a chunk and cut it at a size.
    [holds] says which arrays a chunk holds, [filling] is the invariant of a chunk
    that is being filled, and the theorems say that an encoder writes every array
    exactly once, in order, in chunks that are cut as soon as they pass the limit. *)

From S2P Require Import Prelude Arrow EncUnit Dict Float64 Sketch Common Footer Options Chunks.
From S2P Require Import Encoders Writer SharedDict PhysEnc.

(** ** Filling a chunk *)

Section Filling.
(** What is encoded: an array, or a list with a field; its units and its rows. *)
Context {A : Type} (enc : A → outcome (list SerializedEncUnit)) (rows : A → Z).

(** The units of the arrays [g], and nothing else, are in the chunk. *)
Definition holds (de : DictionaryEncoding) (g : list A) (c : EncodedColumnChunk) : Prop :=
  ∃ uss, Forall2 (λ a us, enc a = Ok us) g uss ∧
    c = mkChunkData (concat uss) (zsum (map rows g)) de 0.

(** The chunk is being filled: it has not passed the limit.  [stale] is what the
    size counts too much. *)
Record filling (stale limit : Z) (de : DictionaryEncoding) (g : list A) (c : EncodedColumnChunk)
    (size : Z) : Prop := {
  fi_holds : holds de g c;
  fi_stale : 0 ≤ stale;
  fi_size : size = stale + len (chunk_bytes c);
  fi_limit : 0 < len g → size ≤ limit;
}.

(** The chunk was full: it passed the limit with its last array. *)
Record full (stale limit : Z) (de : DictionaryEncoding) (g : list A) (c : EncodedColumnChunk)
    : Prop := {
  fu_holds : holds de g c;
  fu_past : limit < stale + len (chunk_bytes c);
  fu_last : ∃ g0 a c0 us, g = g0 ++ [a] ∧ holds de g0 c0 ∧ enc a = Ok us ∧
    chunk_bytes c = chunk_bytes c0 ++ concat (map bytes us) ∧
    (0 < len g0 → stale + len (chunk_bytes c0) ≤ limit);
}.

Lemma holds_nil de : holds de [] (fresh_chunk de).
Proof. by exists []. Qed.

Lemma filling_nil stale limit de : 0 ≤ stale → filling stale limit de [] (fresh_chunk de) stale.
Proof.
  intros Hs. split; [apply holds_nil|done| |]; unfold chunk_bytes; cbn.
  - rewrite (len_nil (A:=Z)). lia.
  - rewrite (len_nil (A:=A)). lia.
Qed.

Lemma holds_push de g c a us c' :
  holds de g c → enc a = Ok us → add_chunk_rows (foldl push_unit c us) (rows a) = Ok c' →
  holds de (g ++ [a]) c' ∧ chunk_bytes c' = chunk_bytes c ++ concat (map bytes us).
Proof.
  intros (uss & HF & ->) Ha Hc.
  assert (Hfold : ∀ c, foldl push_unit c us
    = mkChunkData (encunits c ++ us) (num_rows c) (dict_encoding c) (column_index c)).
  { clear. induction us as [|u us IH]; intros c; cbn.
    - destruct c. cbn. by rewrite app_nil_r.
    - rewrite IH. unfold push_unit. cbn. by rewrite <-app_assoc. }
  rewrite Hfold in Hc. unfold add_chunk_rows in Hc. cbn in Hc. simplify_outcome.
  match goal with Hu : uadd _ _ _ = Ok _ |- _ => apply uadd_Ok in Hu as [_ ->] end.
  split.
  - exists (uss ++ [us]). split; [by apply Forall2_app; [|repeat constructor]|].
    rewrite concat_app, map_app, zsum_app. cbn. rewrite app_nil_r, zsum_cons.
    f_equal. unfold zsum. cbn. lia.
  - unfold chunk_bytes. cbn. by rewrite map_app, concat_app.
Qed.

(** One more array: the chunk is full, or goes on being filled. *)
Lemma filling_push stale limit de g c size a us size' c' :
  filling stale limit de g c size → enc a = Ok us →
  uadd 64 size (len (concat (map bytes us))) = Ok size' →
  add_chunk_rows (foldl push_unit c us) (rows a) = Ok c' →
  if limit <? size' then full stale limit de (g ++ [a]) c'
  else filling stale limit de (g ++ [a]) c' size'.
Proof.
  intros [Hh Hs Hsize Hl] Ha Hadd Hc. apply uadd_Ok in Hadd as [_ ->].
  destruct (holds_push _ _ _ _ _ _ Hh Ha Hc) as [Hh' Hb].
  assert (Hlen : len (chunk_bytes c') = len (chunk_bytes c) + len (concat (map bytes us)))
    by (by rewrite Hb, len_app).
  destruct (Z.ltb_spec limit (size + len (concat (map bytes us)))).
  - split; [done|lia|]. exists g, a, c, us. split_and!; try done. intros ?. rewrite <-Hsize. by apply Hl.
  - split; [done|done|lia|done].
Qed.

(** No unit exceeds the limit by more than the units of one array. *)
Lemma full_bound stale limit de g c max :
  0 ≤ limit → 0 ≤ stale → (∀ a us, enc a = Ok us → len (concat (map bytes us)) ≤ max) →
  full stale limit de g c → len (chunk_bytes c) ≤ limit + max.
Proof.
  intros Hlimit Hstale Hmax [_ _ (g0 & a & c0 & us & -> & Hh & Ha & -> & Hl)].
  rewrite len_app. specialize (Hmax a us Ha). destruct g0 as [|a0 g0].
  - destruct Hh as (uss & HF & ->). apply Forall2_nil_inv_l in HF as ->.
    unfold chunk_bytes at 1. cbn. rewrite (len_nil (A:=Z)). lia.
  - rewrite len_cons in Hl. pose proof (len_nonneg g0). lia.
Qed.

(** A sequence of full chunks, and perhaps a last one that is not full. *)
Definition chunked (limit : Z) (de : DictionaryEncoding) (arrs : list A)
    (chunks : list EncodedColumnChunk) : Prop :=
  ∃ groups, concat groups = arrs ∧ Forall2 (holds de) groups chunks ∧
    Forall (λ g, g ≠ []) groups ∧
    ∃ fulls rest, chunks = fulls ++ rest ∧ (length rest ≤ 1)%nat ∧
      Forall (λ c, limit < len (chunk_bytes c)) fulls ∧
      Forall (λ c, len (chunk_bytes c) ≤ limit) rest.

(** The chunks emitted so far and the chunk that is being filled. *)
Definition stream (limit : Z) (de : DictionaryEncoding) (arrs : list A)
    (chunks : list EncodedColumnChunk) (c : EncodedColumnChunk) (size : Z) : Prop :=
  ∃ groups g, arrs = concat groups ++ g ∧ Forall2 (full 0 limit de) groups chunks ∧
    filling 0 limit de g c size.

Lemma stream_nil limit de : stream limit de [] [] (fresh_chunk de) 0.
Proof. exists [], []. split_and!; [done|done|]. by apply filling_nil. Qed.

Lemma full_nonempty stale limit de g c : full stale limit de g c → g ≠ [].
Proof. intros [_ _ (g0 & a & c0 & us & -> & _)]. by destruct g0. Qed.

Lemma stream_push limit de arrs chunks c size a us size' c' :
  stream limit de arrs chunks c size → enc a = Ok us →
  uadd 64 size (len (concat (map bytes us))) = Ok size' →
  add_chunk_rows (foldl push_unit c us) (rows a) = Ok c' →
  if limit <? size' then stream limit de (arrs ++ [a]) (chunks ++ [c']) (fresh_chunk de) 0
  else stream limit de (arrs ++ [a]) chunks c' size'.
Proof.
  intros (groups & g & -> & HF & Hfill) Ha Hadd Hc.
  pose proof (filling_push _ _ _ _ _ _ _ _ _ _ Hfill Ha Hadd Hc) as Hp.
  destruct (limit <? size').
  - exists (groups ++ [g ++ [a]]), []. split_and!.
    + by rewrite concat_app, app_nil_r, <-app_assoc; cbn; rewrite app_nil_r.
    + apply Forall2_app; [done|]. by constructor.
    + by apply filling_nil.
  - exists groups, (g ++ [a]). by rewrite app_assoc.
Qed.

Lemma stream_holds limit de arrs chunks c size :
  stream limit de arrs chunks c size → ∃ g, holds de g c ∧ size = len (chunk_bytes c).
Proof. intros (groups & g & _ & _ & [Hh _ -> _]). by exists g. Qed.

(** The last chunk is written, unless it holds no array. *)
Lemma stream_end limit de arrs chunks c size last :
  0 ≤ limit → stream limit de arrs chunks c size →
  (∀ g, holds de g c → last = match g with [] => [] | _ => [c] end) →
  chunked limit de arrs (chunks ++ last).
Proof.
  intros Hlimit (groups & g & -> & HF & [Hh _ Hsize Hl]) Hlast. specialize (Hlast g Hh) as ->.
  assert (Hfulls : Forall (λ c, limit < len (chunk_bytes c)) chunks).
  { eapply Forall2_Forall_r; [exact HF|]. apply Forall_true. intros g' c' [_ Hp _]. lia. }
  assert (Hholds : Forall2 (holds de) groups chunks)
    by (eapply Forall2_impl; [exact HF|]; by intros ? ? []).
  assert (Hne : Forall (λ g, g ≠ []) groups).
  { eapply Forall2_Forall_l; [exact HF|]. apply Forall_true. intros c' g'. apply full_nonempty. }
  destruct g as [|a g].
  - exists groups. rewrite !app_nil_r. split_and!; try done. exists chunks, [].
    rewrite app_nil_r. split_and!; [done|cbn; lia|done|done].
  - exists (groups ++ [a :: g]). split_and!.
    + by rewrite concat_app; cbn; rewrite app_nil_r.
    + apply Forall2_app; [done|]. by constructor.
    + apply Forall_app. split; [done|by apply Forall_singleton].
    + exists chunks, [c]. split_and!; [done|cbn; lia|done|]. apply Forall_singleton.
      rewrite len_cons in Hl. pose proof (len_nonneg g). lia.
Qed.

(** An encoder that writes at least one unit for every array. *)
Lemma holds_encunits de g c :
  (∀ a us, enc a = Ok us → us ≠ []) → holds de g c → encunits c = [] ↔ g = [].
Proof.
  intros Hne (uss & HF & ->). cbn. destruct HF as [|a us g uss Ha HF]; [done|].
  apply Hne in Ha. destruct us; [done|]. by split.
Qed.
End Filling.

(** ** EncoderDictColEncoder *)

Section EncoderDict.
Context `{EncoderLibs} `{Codecs}.

(** One unit per array. *)
Definition plain_units (wasm : WASMWritingContext) (ct : CompressionType) (enable_dict : bool)
    (a : Array) : outcome (list SerializedEncUnit) :=
  let! u := encode_unit wasm ct enable_dict a in Ok [u].

(** A column of a row group: its arrays, one after the other, and [finish]. *)
Definition ed_run (e : EncoderDictColEncoder) (arrs : list Array) (counter : EncodingCounter)
  : outcome (list EncodedColumnChunk * EncoderDictColEncoder * EncodingCounter) :=
  let! '(chunks, e, counter) := fold_m local_step ([], e, counter) arrs in
  let '(more, e, counter) := ed_finish e counter in
  Ok (chunks ++ more, e, counter).

Lemma plain_units_one wasm ct enable_dict a us :
  plain_units wasm ct enable_dict a = Ok us → ∃ u, us = [u] ∧ encode_unit wasm ct enable_dict a = Ok u.
Proof. unfold plain_units. intros Hu. simplify_outcome. by eexists. Qed.

(** The bytes of all chunks. *)
Definition total_bytes (chunks : list EncodedColumnChunk) : Z := zsum (map (len ∘ chunk_bytes) chunks).

Lemma total_bytes_app l k : total_bytes (l ++ k) = total_bytes l + total_bytes k.
Proof. unfold total_bytes. by rewrite map_app, zsum_app. Qed.
Lemma total_bytes_one c : total_bytes [c] = len (chunk_bytes c).
Proof. unfold total_bytes, zsum. cbn. lia. Qed.

Context (limit : Z) (wasm : WASMWritingContext) (enable_dict : bool) (ct : CompressionType).
Abbreviation enc := (plain_units wasm ct enable_dict).

(** The encoder between two arrays. *)
Record ed_state (arrs : list Array) (c0 : EncodingCounter)
    (st : list EncodedColumnChunk * EncoderDictColEncoder * EncodingCounter) : Prop := {
  es_params : st.1.2 = mkEncoderDict (ed_chunk st.1.2) (ed_size st.1.2) limit wasm enable_dict ct;
  es_stream : stream enc arr_len limit NoDictionary arrs st.1.1 (ed_chunk st.1.2) (ed_size st.1.2);
  es_counter : st.2 = mkCounter (dict_type c0) (dict_size c0)
    (index_size c0 + total_bytes st.1.1 + len (chunk_bytes (ed_chunk st.1.2)));
}.

Lemma ed_step arrs c0 st a st' :
  ed_state arrs c0 st → local_step st a = Ok st' → ed_state (arrs ++ [a]) c0 st'.
Proof.
  intros [Hp Hs Hc] Hst. destruct st as [[chunks e] counter]. cbn in *. unfold local_step, ed_encode in Hst.
  rewrite Hp in Hst. cbn in Hst. apply obind_Ok in Hst as ([[more e'] counter'] & Hst & [= <-]).
  apply obind_Ok in Hst as (u & Hu & Hst). apply obind_Ok in Hst as (size' & Hsize & Hst).
  apply obind_Ok in Hst as (cnt & Hcnt & Hst). apply obind_Ok in Hst as (c' & Hc' & Hst).
  unfold count_index in Hcnt. simplify_outcome.
  match goal with Hu : uadd 64 (_ + _) _ = Ok _ |- _ => apply uadd_Ok in Hu as [_ ->] end.
  assert (Hone : concat (map bytes [u]) = bytes u) by (cbn; by rewrite app_nil_r).
  assert (Hus : enc a = Ok [u]) by (unfold plain_units; by rewrite Hu).
  pose proof (stream_push _ _ _ _ _ _ _ _ _ _ size' c' Hs Hus) as Hpush. rewrite Hone in Hpush.
  specialize (Hpush Hsize Hc').
  destruct (stream_holds _ _ _ _ _ _ _ _ Hs) as (g & Hg & _).
  destruct (holds_push _ _ _ _ _ _ _ _ Hg Hus Hc') as [_ Hb]. rewrite Hone in Hb.
  destruct (limit <? size'); simplify_eq; split; cbn.
  - done.
  - exact Hpush.
  - f_equal. rewrite total_bytes_app, total_bytes_one, Hb, len_app.
    change (chunk_bytes EncodedColumnChunk_default) with (@nil Z). rewrite (len_nil (A:=Z)). lia.
  - done.
  - rewrite app_nil_r. exact Hpush.
  - f_equal. rewrite app_nil_r, Hb, len_app. lia.
Qed.

Lemma ed_finish_writes arrs c0 chunks1 e1 counter1 more e' counter' :
  0 ≤ limit → ed_state arrs c0 (chunks1, e1, counter1) →
  ed_finish e1 counter1 = (more, e', counter') →
  chunked enc arr_len limit NoDictionary arrs (chunks1 ++ more) ∧
  e' = EncoderDictColEncoder_new limit wasm enable_dict ct ∧
  counter' = mkCounter EncoderDictionary (dict_size c0) (index_size c0 + total_bytes (chunks1 ++ more)).
Proof.
  intros Hlimit [Hp Hs Hc] Hrun. cbn in Hp, Hs, Hc. unfold ed_finish in Hrun.
  assert (Hne : ∀ a us, enc a = Ok us → us ≠ []) by (intros a us (u & -> & _)%plain_units_one; done).
  set (last := match encunits (ed_chunk e1) with [] => [] | _ => [ed_chunk e1] end).
  assert (Hlast : ∀ g, holds enc arr_len NoDictionary g (ed_chunk e1) →
    last = match g with [] => [] | _ => [ed_chunk e1] end).
  { intros g Hg. pose proof (holds_encunits _ _ _ _ _ Hne Hg) as Hiff. unfold last.
    destruct (encunits (ed_chunk e1)), g; naive_solver. }
  pose proof (stream_end _ _ _ _ _ _ _ _ _ Hlimit Hs Hlast) as Hch.
  destruct (stream_holds _ _ _ _ _ _ _ _ Hs) as (g & Hg & Hsize).
  pose proof (holds_encunits _ _ _ _ _ Hne Hg) as Hiff. unfold last in Hch. rewrite Hp in Hrun.
  cbn in Hrun. destruct (encunits (ed_chunk e1)) as [|u us] eqn:Heu; simplify_eq.
  - rewrite (proj1 Hiff eq_refl) in Hg. destruct Hg as (uss & HF & Hchunk).
    apply Forall2_nil_inv_l in HF as ->. rewrite app_nil_r in *. rewrite Hchunk, Hsize, Hchunk.
    split_and!; [done|done|]. unfold set_dict_type. cbn. f_equal.
    unfold chunk_bytes. cbn. rewrite (len_nil (A:=Z)). lia.
  - split_and!; [done|done|]. unfold set_dict_type. cbn. f_equal.
    rewrite total_bytes_app, total_bytes_one. lia.
Qed.

Lemma ed_state_run arrs counter st :
  fold_m local_step ([], EncoderDictColEncoder_new limit wasm enable_dict ct, counter) arrs = Ok st →
  ed_state arrs counter st.
Proof.
  intros Hfold. eapply (fold_m_prefix (λ pre st, ed_state pre counter st)); [| |exact Hfold].
  - split; cbn; [done|apply stream_nil|]. destruct counter. cbn. f_equal.
    unfold total_bytes, zsum, chunk_bytes. cbn. rewrite (len_nil (A:=Z)). lia.
  - intros pre st' a st'' Hst Hstep. by eapply ed_step.
Qed.

Lemma ed_run_writes arrs counter chunks e' counter' :
  0 ≤ limit →
  ed_run (EncoderDictColEncoder_new limit wasm enable_dict ct) arrs counter
    = Ok (chunks, e', counter') →
  chunked enc arr_len limit NoDictionary arrs chunks ∧
  e' = EncoderDictColEncoder_new limit wasm enable_dict ct ∧
  counter' = mkCounter EncoderDictionary (dict_size counter)
               (index_size counter + total_bytes chunks).
Proof.
  intros Hlimit Hrun. unfold ed_run in Hrun.
  apply obind_Ok in Hrun as ([[chunks1 e1] counter1] & Hfold & Hrun).
  destruct (ed_finish e1 counter1) as [[more e2] counter2] eqn:Hfin. injection Hrun as <- <- <-.
  eapply ed_finish_writes; [done|by apply ed_state_run|exact Hfin].
Qed.

Lemma ed_run_chunked arrs counter chunks e' counter' :
  0 ≤ limit →
  ed_run (EncoderDictColEncoder_new limit wasm enable_dict ct) arrs counter
    = Ok (chunks, e', counter') →
  chunked enc arr_len limit NoDictionary arrs chunks.
Proof. intros Hl Hrun. by apply ed_run_writes in Hrun as [Hc _]. Qed.

(** C20: a column without a dictionary of its own is written exactly once.  The
    arrays of a row group, in order, are the arrays of the chunks returned, each as
    one unit; every chunk but the last is one that passed the chunk size, and the
    last one did not; the rows of a chunk are those of its arrays; the counter grows
    by the bytes of the chunks; and the encoder is left as new for the next row
    group. *)
Theorem encoder_dict_writes_column arrs counter chunks e' counter' :
  0 ≤ limit →
  ed_run (EncoderDictColEncoder_new limit wasm enable_dict ct) arrs counter
    = Ok (chunks, e', counter') →
  chunked enc arr_len limit NoDictionary arrs chunks ∧
  e' = EncoderDictColEncoder_new limit wasm enable_dict ct ∧
  counter' = mkCounter EncoderDictionary (dict_size counter)
               (index_size counter + total_bytes chunks).
Proof. apply ed_run_writes. Qed.
End EncoderDict.

(** ** Casting indices *)

(** The smallest type that counts up to [n]. *)
Definition index_type (n : Z) : DataType :=
  if n <? 2 ^ 8 then UInt8 else if n <? 2 ^ 16 then UInt16 else if n <? 2 ^ 32 then UInt32
  else UInt64.

Definition index_below (n : Z) (o : option Z) : Prop :=
  match o with Some i => 0 ≤ i < n | None => True end.

Lemma cast_to_ok dt w n sl :
  n < 2 ^ w → Forall (index_below n) sl →
  cast_to dt w (index_array sl) = Ok (PrimArray dt (map (option_map VInt) sl)).
Proof.
  intros Hn Hsl. unfold cast_to, index_array. 
  enough (Ht : traverse (λ v : option value, match v with
                              | None => Ok None
                              | Some (VInt x) => Ok (Some (VInt (wrap w x)))
                              | _ => Panic PUnwrap
                              end) (map (option_map VInt) sl) = Ok (map (option_map VInt) sl))
    by (by rewrite Ht).
  induction Hsl as [|o sl Ho _ IH]; [done|]. cbn [map traverse].
  destruct o as [i|]; cbn [option_map obind].
  - cbn in Ho. rewrite wrap_small by (unfold in_u; lia). by rewrite IH.
  - by rewrite IH.
Qed.

Lemma cast_index_ok n sl :
  Forall (index_below n) sl →
  cast_index_dtype (index_array sl) n = Ok (PrimArray (index_type n) (map (option_map VInt) sl)).
Proof.
  intros Hsl. unfold cast_index_dtype, index_type.
  destruct (Z.ltb_spec n (2 ^ 8)); [by apply (cast_to_ok _ _ n)|].
  destruct (Z.ltb_spec n (2 ^ 16)); [by apply (cast_to_ok _ _ n)|].
  destruct (Z.ltb_spec n (2 ^ 32)); [by apply (cast_to_ok _ _ n)|]. done.
Qed.

(** The bits of an index type. *)
Definition index_bits (dt : DataType) : Z :=
  match dt with UInt8 => 8 | UInt16 => 16 | UInt32 => 32 | _ => 64 end.

(** C36: narrowing the indices of a dictionary never changes one.  For indices
    below the length of the dictionary, [cast_index_dtype] succeeds and gives the
    same indices and nulls in an unsigned type that holds each of them; the type is
    the narrowest that can count the dictionary. *)
Theorem cast_index_lossless n sl :
  n < 2 ^ 64 → Forall (index_below n) sl →
  ∃ t, cast_index_dtype (index_array sl) n = Ok (PrimArray t (map (option_map VInt) sl)) ∧
    Forall (index_below (2 ^ index_bits t)) sl ∧ n < 2 ^ index_bits t ∧
    (8 < index_bits t → 2 ^ (index_bits t / 2) ≤ n).
Proof.
  intros Hn Hsl. exists (index_type n).
  assert (Hb : n < 2 ^ index_bits (index_type n) ∧
    (8 < index_bits (index_type n) → 2 ^ (index_bits (index_type n) / 2) ≤ n)).
  { unfold index_type. destruct (Z.ltb_spec n (2 ^ 8)); [|destruct (Z.ltb_spec n (2 ^ 16));
      [|destruct (Z.ltb_spec n (2 ^ 32))]]; cbn [index_bits].
    1: change (2 ^ (8 / 2)) with 16. 2: change (2 ^ (16 / 2)) with (2 ^ 8).
    3: change (2 ^ (32 / 2)) with (2 ^ 16). 4: change (2 ^ (64 / 2)) with (2 ^ 32). all: lia. }
  split; [by apply cast_index_ok|]. split; [|done]. eapply Forall_impl; [exact Hsl|].
  intros [i|]; cbn; [lia|done].
Qed.

Lemma cast_index_lossless_witness :
  ∃ t, cast_index_dtype (index_array [Some 255; None; Some 0]) 256
       = Ok (PrimArray t [Some (VInt 255); None; Some (VInt 0)]) ∧ 256 < 2 ^ index_bits t.
Proof.
  destruct (cast_index_lossless 256 [Some 255; None; Some 0]) as (t & Ht & _ & Hb & _);
    [done|repeat constructor; done|]. by exists t.
Defined.

(** ** Chunks of indices *)

(** No unit is empty. *)
Class NonEmptyUnits `{EncoderLibs} `{Codecs} :=
  unit_nonempty wasm ct enable_dict a u :
    encode_unit wasm ct enable_dict a = Ok u → bytes u ≠ [].

Section Indices.
Context `{EncoderLibs} `{Codecs} `{!NonEmptyUnits}.

Lemma index_step_stream wasm ct limit de count arrs st a st' :
  stream (plain_units wasm ct false) arr_len limit de arrs st.1.1.1 st.1.1.2 st.1.2 →
  index_step wasm ct limit true de count st a = Ok st' →
  stream (plain_units wasm ct false) arr_len limit de (arrs ++ [a]) st'.1.1.1 st'.1.1.2 st'.1.2.
Proof.
  intros Hs Hst. destruct st as [[[res c] size] counter]. cbn in Hs. unfold index_step in Hst.
  apply obind_Ok in Hst as (u & Hu & Hst). apply obind_Ok in Hst as (size' & Hsize & Hst).
  apply obind_Ok in Hst as (cnt & _ & Hst). apply obind_Ok in Hst as (c' & Hc' & Hst).
  assert (Hus : plain_units wasm ct false a = Ok [u]) by (unfold plain_units; by rewrite Hu).
  assert (Hone : concat (map bytes [u]) = bytes u) by (cbn; by rewrite app_nil_r).
  pose proof (stream_push _ _ _ _ _ _ _ _ _ _ size' c' Hs Hus) as Hp. rewrite Hone in Hp.
  specialize (Hp Hsize Hc'). cbn [andb] in Hst. destruct (limit <? size'); by simplify_eq.
Qed.

Lemma index_chunks_chunked wasm ct limit de count arrs counter chunks counter' :
  0 ≤ limit → index_chunks wasm ct limit true de count arrs counter = Ok (chunks, counter') →
  chunked (plain_units wasm ct false) arr_len limit de arrs chunks.
Proof.
  intros Hlimit Hi. unfold index_chunks in Hi.
  apply obind_Ok in Hi as ([[[res c] size] cnt] & Hfold & Hi).
  assert (Hs : stream (plain_units wasm ct false) arr_len limit de arrs res c size).
  { eapply (fold_m_prefix (λ pre st, stream (plain_units wasm ct false) arr_len limit de pre
      st.1.1.1 st.1.1.2 st.1.2)) in Hfold; [exact Hfold|apply stream_nil|].
    intros pre st a st'. apply index_step_stream. }
  assert (Hlast : ∀ g, holds (plain_units wasm ct false) arr_len de g c →
    (if 0 <? size then [c] else []) = match g with [] => [] | _ => [c] end).
  { intros g (uss & HF & Hc). destruct (stream_holds _ _ _ _ _ _ _ _ Hs) as (_ & _ & Hsize).
    subst c size. destruct HF as [|a us g uss Ha HF]; [done|].
    apply plain_units_one in Ha as (u & -> & Hu%unit_nonempty). unfold chunk_bytes. cbn.
    rewrite len_app. pose proof (len_nonneg (concat (map bytes (concat uss)))).
    destruct (bytes u) as [|x l]; [done|]. rewrite len_cons. pose proof (len_nonneg l).
    by rewrite (proj2 (Z.ltb_lt _ _)) by lia. }
  pose proof (stream_end _ _ _ _ _ _ _ _ _ Hlimit Hs Hlast) as Hch.
  destruct (0 <? size); simplify_eq; [done|]. by rewrite app_nil_r in Hch.
Qed.
End Indices.

(** ** SharedDictColEncoder *)

Section SharedDict.
Context `{EncoderLibs} `{Codecs} `{Sampling} `{!NonEmptyUnits} (string_hash : string → Z).

(** Indexing arrays through the context is indexing them through the dictionary. *)
Lemma traverse_extend ctx id d arrs idxs ctx' :
  0 ≤ id → dictionaries ctx !! Z.to_nat id = Some d →
  traverse_st (λ ctx arr, ctx_extend_and_get_index string_hash ctx id arr) ctx arrs
    = Ok (idxs, ctx') →
  ∃ d', traverse_st (Dictionary_extend_and_get_index string_hash) d arrs = Ok (idxs, d') ∧
    ctx' = set_dictionaries ctx (<[Z.to_nat id := d']> (dictionaries ctx)).
Proof.
  intros Hid. revert ctx d idxs. induction arrs as [|a arrs IH]; intros ctx d idxs Hd Ht; cbn in Ht.
  - simplify_outcome. exists d. split; [done|]. rewrite list_insert_id by done. by destruct ctx'.
  - apply obind_Ok in Ht as ([i ctx1] & Hext & Ht).
    unfold ctx_extend_and_get_index in Hext. rewrite (proj2 (index_Ok _ _ d)) in Hext by done.
    cbn [obind] in Hext. apply obind_Ok in Hext as ([i' d1] & He & [= -> <-]).
    apply obind_Ok in Ht as ([more ctx2] & Hrest & [= <- ->]).
    apply (IH _ d1) in Hrest as (d' & Hd' & ->).
    + exists d'. cbn. rewrite He. cbn. rewrite Hd'. split; [done|]. unfold set_dictionaries. cbn.
      by rewrite list_insert_insert_eq.
    + cbn. apply list_lookup_insert_eq. by eapply lookup_lt_Some.
Qed.

(** The dictionary an encoder uses: the one submitted before, or a new one. *)
Lemma scope_dictionary e ctx dt cols id ctx1 :
  Forall (dictionary_ok string_hash) (dictionaries ctx) → is_Some (method_table dt) →
  sd_buffered_arrays e = map (PrimArray dt) cols → cols ≠ [] →
  len (dictionaries ctx) < 2 ^ 32 - 1 →
  (∀ id, sd_submitted_dict_idx e = Some id →
     0 ≤ id ∧ ∃ d, dictionaries ctx !! Z.to_nat id = Some d ∧ datatype d = dt) →
  match sd_submitted_dict_idx e with
  | Some idx => Ok (idx, ctx)
  | None => let! a := first_array (sd_buffered_arrays e) in new_dictionary ctx (arr_data_type a)
  end = Ok (id, ctx1) →
  0 ≤ id ∧ (∃ d, dictionaries ctx1 !! Z.to_nat id = Some d ∧ datatype d = dt ∧ dictionary_ok string_hash d) ∧
  (∀ j d, dictionaries ctx !! j = Some d → dictionaries ctx1 !! j = Some d).
Proof.
  intros Hok Hdt Hbuf Hne Hsmall Hsub Hm. destruct (sd_submitted_dict_idx e) as [idx|].
  - simplify_eq. destruct (Hsub id eq_refl) as (Hid & d & Hd & Hty). split_and!; [done| |done].
    exists d. split_and!; [done|done|]. by eapply Forall_lookup_1.
  - rewrite Hbuf in Hm. destruct cols as [|vals cols]; [done|]. cbn in Hm. unfold new_dictionary in Hm.
    destruct (try_new_ok string_hash dt Hdt) as (d & Hd & Hdok & Hty & _). rewrite Hd in Hm.
    cbn [obind] in Hm. unfold push_dictionary in Hm. apply obind_Ok in Hm as (n & Hn & [= <- <-]).
    unfold usub in Hn. rewrite len_app, len_cons, (len_nil (A:=Dict.Dictionary)) in Hn.
    pose proof (len_nonneg (dictionaries ctx)) as Hlen.
    rewrite wrap_small in Hn by (unfold in_u; lia).
    rewrite (proj2 (Z.leb_le _ _)) in Hn by lia. injection Hn as <-.
    replace (len (dictionaries ctx) + (1 + 0) - 1) with (len (dictionaries ctx)) by lia.
    split_and!; [done| |].
    + exists d. split_and!; [|done|done]. cbn. unfold len. rewrite Nat2Z.id.
      rewrite lookup_app_r by lia. by rewrite Nat.sub_diag.
    + intros j d' Hj. cbn. apply lookup_app_Some. by left.
Qed.

Lemma decodes_below (dict : list value) sl vals :
  Forall2 (decodes dict) sl vals → Forall (index_below (len dict)) sl.
Proof.
  intros HF. eapply Forall2_Forall_l; [exact HF|]. apply Forall_true. intros v [i|] Hd; cbn in *; [|done].
  destruct Hd as (Hi & [x ->] & Hl). apply lookup_lt_Some in Hl. unfold len. lia.
Qed.

(** An index array stands for the values of a column: every index is one of the
    dictionary. *)
Definition indexes (dict : list value) (vals : list (option value)) (idx : Array) : Prop :=
  ∃ sl, idx = PrimArray (index_type (len dict)) (map (option_map VInt) sl) ∧
    Forall (index_below (len dict)) sl ∧ lookup_rows dict (map (option_map VInt) sl) = vals.

Lemma cast_indexes (dict : list value) sls cols idxs :
  Forall2 (λ vals sl, Forall2 (decodes dict) sl vals) cols sls →
  traverse (λ arr, cast_index_dtype arr (len dict)) (map index_array sls) = Ok idxs →
  Forall2 (indexes dict) cols idxs.
Proof.
  intros HF. revert idxs. induction HF as [|vals sl cols sls Hdec _ IH]; intros idxs Ht; cbn [map traverse] in Ht.
  - by simplify_outcome.
  - rewrite (cast_index_ok _ _ (decodes_below _ _ _ Hdec)) in Ht. cbn [obind] in Ht.
    apply obind_Ok in Ht as (more & Hrest & [= <-]). constructor; [|by apply IH].
    destruct (decodes_rows _ _ _ Hdec) as (rows & Hr & Hl). unfold index_array in Hr.
    injection Hr as <-. exists sl. split_and!; [done|by apply decodes_below in Hdec|done].
Qed.

Lemma encode_dict_scope_ok e counter ctx chunks e' counter' ctx' dt cols :
  Forall (dictionary_ok string_hash) (dictionaries ctx) → is_Some (method_table dt) →
  sd_buffered_arrays e = map (PrimArray dt) cols → cols ≠ [] →
  len (dictionaries ctx) < 2 ^ 32 - 1 → 0 ≤ sd_column_chunk_size e →
  (∀ id, sd_submitted_dict_idx e = Some id →
     0 ≤ id ∧ ∃ d, dictionaries ctx !! Z.to_nat id = Some d ∧ datatype d = dt) →
  encode_dict_scope string_hash e counter ctx = Ok (chunks, e', counter', ctx') →
  ∃ id d idxs,
    0 ≤ id ∧ dictionaries ctx' !! Z.to_nat id = Some d ∧ datatype d = dt ∧
    dictionary_ok string_hash d ∧ Forall2 (indexes (dict_values d)) cols idxs ∧
    chunked (plain_units (sd_wasm e) (sd_ct e) false) arr_len (sd_column_chunk_size e)
      (SharedDictionary id) idxs chunks ∧
    (∀ j d, j ≠ Z.to_nat id → dictionaries ctx !! j = Some d → dictionaries ctx' !! j = Some d) ∧
    sd_buffered_arrays e' = [].
Proof.
  intros Hok Hdt Hbuf Hne Hsmall Hlimit Hsub He. unfold encode_dict_scope in He.
  apply obind_Ok in He as ([id ctx1] & Hid & He). cbn [sd_submitted_dict_idx] in Hid.
  destruct (scope_dictionary _ _ _ _ _ _ Hok Hdt Hbuf Hne Hsmall Hsub Hid)
    as (Hid0 & (d & Hd & Hty & Hdok) & Hkeep).
  apply obind_Ok in He as ([idxs0 ctx2] & Hext & He). rewrite Hbuf in Hext.
  destruct (traverse_extend _ _ _ _ _ _ Hid0 Hd Hext) as (d' & Hrun & ->).
  destruct (extend_all_ok string_hash d cols Hdok) as (sls & d1 & Hrun' & Hok1 & Hty1 & _ & Hdec).
  rewrite Hty in Hrun'. rewrite Hrun' in Hrun. injection Hrun as <- ->.
  assert (Hlook : <[Z.to_nat id := d']> (dictionaries ctx1) !! Z.to_nat id = Some d')
    by (apply list_lookup_insert_eq; by eapply lookup_lt_Some).
  apply obind_Ok in He as (n & Hn & He). unfold dict_len in Hn. cbn [dictionaries set_dictionaries] in Hn.
  rewrite (proj2 (index_Ok _ _ d')) in Hn by done. cbn [obind] in Hn.
  destruct (peek_dict_ok string_hash d' Hok1) as (t & _ & Hlen). rewrite Hlen in Hn. injection Hn as <-.
  apply obind_Ok in He as (idxs & Hcast & He). apply cast_indexes with (cols := cols) in Hcast; [|done].
  apply obind_Ok in He as ([res cnt] & Hchunks & [= <- <- <- <-]).
  apply index_chunks_chunked in Hchunks; [|done].
  exists id, d', idxs. split_and!; try done.
  - by rewrite Hty1.
  - intros j dj Hj Hdj. cbn. rewrite list_lookup_insert_ne by done. by apply Hkeep.
Qed.

(** C19: a column with a shared dictionary can be read back from its indices and the
    dictionary.  When the arrays an encoder has buffered are encoded, the chunks
    returned all name one dictionary of the pool and hold, cut at the chunk size and
    in order, index arrays of the smallest index type that stand for exactly the
    values of the buffered arrays; the other dictionaries are left alone, and nothing
    stays buffered. *)
Theorem encode_dict_scope_indexes e counter ctx chunks e' counter' ctx' dt cols :
  Forall (dictionary_ok string_hash) (dictionaries ctx) → is_Some (method_table dt) →
  sd_buffered_arrays e = map (PrimArray dt) cols → cols ≠ [] →
  len (dictionaries ctx) < 2 ^ 32 - 1 → 0 ≤ sd_column_chunk_size e →
  (∀ id, sd_submitted_dict_idx e = Some id →
     0 ≤ id ∧ ∃ d, dictionaries ctx !! Z.to_nat id = Some d ∧ datatype d = dt) →
  encode_dict_scope string_hash e counter ctx = Ok (chunks, e', counter', ctx') →
  ∃ id d idxs,
    0 ≤ id ∧ dictionaries ctx' !! Z.to_nat id = Some d ∧ datatype d = dt ∧
    dictionary_ok string_hash d ∧ Forall2 (indexes (dict_values d)) cols idxs ∧
    chunked (plain_units (sd_wasm e) (sd_ct e) false) arr_len (sd_column_chunk_size e)
      (SharedDictionary id) idxs chunks ∧
    (∀ j d, j ≠ Z.to_nat id → dictionaries ctx !! j = Some d → dictionaries ctx' !! j = Some d) ∧
    sd_buffered_arrays e' = [].
Proof. apply encode_dict_scope_ok. Qed.
End SharedDict.

(** ** No chunk is much longer than the chunk size *)

Section Bounds.
Context `{EncoderLibs} `{Codecs} `{Sampling} (string_hash : string → Z).
Context (max : Z) `{!BoundedUnits max} (L : Z) (HL : 0 ≤ L) (Hmax : 0 ≤ max).

(** The longest chunk: up to the limit, and the units of one more array. *)
Definition short (c : EncodedColumnChunk) : Prop := len (chunk_bytes c) ≤ L + 2 * max.

(** A chunk that still has room under a limit of at most [L]. *)
Definition room (limit size : Z) (c : EncodedColumnChunk) : Prop :=
  limit ≤ L ∧ len (chunk_bytes c) ≤ size ∧ (size ≤ limit ∨ size = 0).

Lemma room_fresh limit e : limit ≤ L → room limit 0 (fresh_chunk e).
Proof. intros. split; [done|]. unfold chunk_bytes. cbn. rewrite (len_nil (A:=Z)). lia. Qed.

Lemma room_stale limit size c : room limit size c → room limit size EncodedColumnChunk_default.
Proof.
  intros (? & ? & ?). split; [done|]. unfold chunk_bytes at 1. cbn. rewrite (len_nil (A:=Z)).
  pose proof (len_nonneg (chunk_bytes c)). lia.
Qed.

Lemma room_short limit size c : room limit size c → short c.
Proof. intros (? & ? & ?). unfold short. lia. Qed.

Lemma room_push limit size c us rows n size' c' :
  room limit size c → uadd 64 size n = Ok size' → len (concat (map bytes us)) = n → n ≤ 2 * max →
  add_chunk_rows (foldl push_unit c us) rows = Ok c' →
  if limit <? size' then short c' else room limit size' c'.
Proof.
  intros (Hl & Hc & Hs) [_ ->]%uadd_Ok Hn Hm Hadd.
  apply add_chunk_rows_Ok in Hadd as (Hu & _).
  assert (Hb : len (chunk_bytes c') = len (chunk_bytes c) + n).
  { rewrite <-Hn, <-len_app. unfold chunk_bytes at 1. rewrite Hu. clear.
    revert c. induction us as [|u us IH]; intros c; cbn; [by rewrite app_nil_r|].
    by rewrite IH, chunk_bytes_push, <-app_assoc. }
  destruct (Z.ltb_spec limit (size + n)); [unfold short; lia|]. split; [done|lia].
Qed.

(** The invariant of every physical encoder. *)
Definition ed_ok (e : EncoderDictColEncoder) : Prop :=
  room (ed_column_chunk_size e) (ed_size e) (ed_chunk e).
Definition ls_ok (e : ListOfStructColEncoder) : Prop :=
  room (ls_column_chunk_size e) (ls_size e) (ls_chunk e).

Definition phys_ok (e : PhysicalColEncoder) : Prop :=
  match e with
  | PEncoderDict e => ed_ok e
  | PDict e => room (dc_column_chunk_size e) (dc_size e) (dc_chunk e)
  | PSharedDict e => sd_column_chunk_size e ≤ L
  | PGLBest e => gl_column_chunk_size e ≤ L
  end.

Lemma one_unit (u : SerializedEncUnit) : len (concat (map bytes [u])) = len (bytes u).
Proof. cbn. by rewrite app_nil_r. Qed.

Lemma ed_encode_short e a counter cs e' counter' :
  ed_ok e → ed_encode e a counter = Ok (cs, e', counter') → Forall short cs ∧ ed_ok e'.
Proof.
  intros Hok He. unfold ed_encode in He. simplify_outcome.
  match goal with Hu : encode_unit _ _ _ _ = Ok ?u, Hs : uadd 64 _ _ = Ok ?s,
                  Hc : add_chunk_rows _ _ = Ok ?c |- _ =>
    pose proof (encode_unit_bound max _ _ _ _ _ Hu);
    pose proof (room_push _ _ _ [u] _ _ _ _ Hok Hs (one_unit u) ltac:(lia) Hc) as Hp;
    destruct (_ <? s); simplify_outcome; unfold ed_ok; cbn end.
  - split; [by constructor|]. apply room_fresh. apply Hok.
  - done.
Qed.

Lemma ed_finish_short e counter cs e' counter' :
  ed_ok e → ed_finish e counter = (cs, e', counter') → Forall short cs ∧ ed_ok e'.
Proof.
  intros Hok He. unfold ed_finish in He. destruct (encunits (ed_chunk e)); simplify_eq; [done|].
  split; [by repeat constructor; eapply room_short|]. apply room_fresh. apply Hok.
Qed.

Lemma ls_encode_short e l f c e' :
  ls_ok e → ls_encode e l f = Ok (c, e') → Forall short (option_list c) ∧ ls_ok e'.
Proof.
  intros Hok He. unfold ls_encode in He. simplify_outcome.
  match goal with Hu : list_struct_unit _ _ _ _ = Ok ?u, Hs : uadd 64 _ _ = Ok ?s,
                  Hc : add_chunk_rows _ _ = Ok ?c |- _ =>
    pose proof (list_struct_unit_bound max _ _ _ _ _ Hu);
    pose proof (room_push _ _ _ [u] _ _ _ _ Hok Hs (one_unit u) ltac:(lia) Hc) as Hp;
    destruct (_ <? s); simplify_outcome; unfold ls_ok; cbn end.
  - split; [by constructor|]. apply room_fresh. apply Hok.
  - done.
Qed.

Lemma ls_finish_short e c e' :
  ls_ok e → ls_finish e = (c, e') → Forall short (option_list c) ∧ ls_ok e'.
Proof.
  intros Hok He. unfold ls_finish in He. destruct (encunits (ls_chunk e)); simplify_eq; [done|].
  split; [by repeat constructor; eapply room_short|]. by eapply room_stale.
Qed.

Lemma dict_units_short wasm ct a d i rows :
  dict_units string_hash wasm ct a = Ok (d, i, rows) →
  len (bytes d) ≤ max ∧ len (bytes i) ≤ max.
Proof.
  unfold dict_units. intros Hd. simplify_outcome.
  cbn. split; (eapply (unit_bound (max:=max)); [| |eassumption]; [|eassumption]; eassumption).
Qed.

Lemma dc_encode_short e a counter cs e' counter' :
  phys_ok (PDict e) → dc_encode string_hash e a counter = Ok (cs, e', counter') →
  Forall short cs ∧ phys_ok (PDict e').
Proof.
  intros Hok He. unfold dc_encode in He. cbn in Hok.
  apply obind_Ok in He as ([[d i] rows] & Hd & He). apply dict_units_short in Hd as [Hd Hi].
  simplify_outcome.
  match goal with Hb : uadd 64 (len (bytes d)) _ = Ok ?b |- _ => apply uadd_Ok in Hb as [_ ->] end.
  assert (Htwo : len (concat (map bytes [d; i])) = len (bytes d) + len (bytes i))
    by (cbn; by rewrite app_nil_r, len_app).
  match goal with Hs : uadd 64 (dc_size e) _ = Ok ?s, Hc : add_chunk_rows _ _ = Ok ?c |- _ =>
    pose proof (room_push _ _ _ [d; i] _ _ _ _ Hok Hs Htwo ltac:(lia) Hc) as Hp;
    destruct (_ <? s); simplify_outcome; cbn end.
  - split; [by constructor|]. apply room_fresh. apply Hok.
  - done.
Qed.

Lemma index_step_short wasm ct limit de count st a st' :
  Forall short st.1.1.1 ∧ room limit st.1.2 st.1.1.2 →
  index_step wasm ct limit true de count st a = Ok st' →
  Forall short st'.1.1.1 ∧ room limit st'.1.2 st'.1.1.2.
Proof.
  intros [Hres Hroom] Hst. destruct st as [[[res c] size] counter]. cbn in *.
  unfold index_step in Hst. simplify_outcome.
  match goal with Hu : encode_unit _ _ _ _ = Ok ?u, Hs : uadd 64 _ _ = Ok ?s,
                  Hc : add_chunk_rows _ _ = Ok ?c |- _ =>
    pose proof (encode_unit_bound max _ _ _ _ _ Hu);
    pose proof (room_push _ _ _ [u] _ _ _ _ Hroom Hs (one_unit u) ltac:(lia) Hc) as Hp;
    destruct (_ <? s); simplify_outcome end.
  - split; [by apply Forall_app; split; [|apply Forall_singleton]|]. apply room_fresh. apply Hroom.
  - done.
Qed.

Lemma index_chunks_short wasm ct limit de count arrs counter chunks counter' :
  limit ≤ L → index_chunks wasm ct limit true de count arrs counter = Ok (chunks, counter') →
  Forall short chunks.
Proof.
  intros Hl Hi. unfold index_chunks in Hi.
  apply obind_Ok in Hi as ([[[res c] size] cnt] & Hfold & Hi).
  apply (fold_m_inv (λ st, Forall short st.1.1.1 ∧ room limit st.1.2 st.1.1.2)) in Hfold
    as [Hres Hroom].
  - cbn in *. simplify_eq. destruct (0 <? size); [|done].
    apply Forall_app. split; [done|]. apply Forall_singleton. by eapply room_short.
  - split; [done|by apply room_fresh].
  - intros st a st' _. apply index_step_short.
Qed.

Lemma dict_scope_short e counter ctx cs e' counter' ctx' :
  phys_ok (PSharedDict e) → encode_dict_scope string_hash e counter ctx = Ok (cs, e', counter', ctx') →
  Forall short cs ∧ phys_ok (PSharedDict e').
Proof.
  intros Hok He. unfold encode_dict_scope in He. cbn in Hok.
  apply obind_Ok in He as ([id ctx1] & _ & He). apply obind_Ok in He as ([idx ctx2] & _ & He).
  apply obind_Ok in He as (n & _ & He). apply obind_Ok in He as (idxs & _ & He).
  apply obind_Ok in He as ([res cnt] & Hi & [= <- <- <- <-]). split; [|done].
  by eapply index_chunks_short.
Qed.

Lemma local_chunks_short e arrs counter chunks :
  phys_ok (PGLBest e) → encode_to_local_chunks e arrs = Ok (counter, chunks) → Forall short chunks.
Proof.
  intros Hok He. unfold encode_to_local_chunks in He. cbn in Hok.
  apply obind_Ok in He as ([[cs local] cnt] & Hfold & He).
  apply (fold_m_inv (λ st, Forall short st.1.1 ∧ ed_ok st.1.2)) in Hfold as [Hcs Hlocal].
  - cbn in *. destruct (ed_finish local cnt) as [[more local'] cnt'] eqn:Hf. simplify_eq.
    apply ed_finish_short in Hf as [Hm _]; [|done]. by apply Forall_app.
  - split; [done|]. by apply room_fresh.
  - intros [[cs1 local1] cnt1] a st' _ [Hs1 Hl1] Hst. unfold local_step in Hst.
    apply obind_Ok in Hst as ([[more local2] cnt2] & Hed & [= <-]).
    apply ed_encode_short in Hed as [Hm Hl]; [|done]. split; [by apply Forall_app|done].
Qed.

Lemma shared_chunks_short e arrs counter id chunks counter' :
  phys_ok (PGLBest e) → encode_shared_to_chunks e arrs counter (Some id) = Ok (chunks, counter') →
  Forall short chunks.
Proof.
  intros Hok He. unfold encode_shared_to_chunks in He.
  rewrite bool_decide_true in He by done. by eapply index_chunks_short.
Qed.

Lemma encode_best_short e buffered idxs global ctx chunks counter ctx' :
  phys_ok (PGLBest e) → encode_best e buffered idxs global ctx = Ok (chunks, counter, ctx') →
  Forall short chunks.
Proof.
  intros Hok He. unfold encode_best in He.
  apply obind_Ok in He as ([lc lchunks] & Hlocal & He). cbv zeta in He.
  apply obind_Ok in He as ([gchunks gc] & Hshared & He).
  apply obind_Ok in He as (d & _ & He). apply obind_Ok in He as ([x gc'] & _ & He).
  apply obind_Ok in He as (lt & _ & He). apply obind_Ok in He as (gt & _ & He).
  destruct (lt <=? gt).
  - simplify_eq. by eapply local_chunks_short.
  - apply obind_Ok in He as ([id ctx1] & _ & He). apply obind_Ok in He as (y & _ & He).
    simplify_eq. by eapply shared_chunks_short.
Qed.

Lemma gl_finish_short e counter ctx cs e' counter' ctx' :
  phys_ok (PGLBest e) → gl_finish string_hash e counter ctx = Ok (cs, e', counter', ctx') →
  Forall short cs ∧ phys_ok (PGLBest e').
Proof.
  intros Hok He. unfold gl_finish in He. destruct (gl_buffered_arrays e) as [|first rest]; [by simplify_eq|].
  cbv zeta in He. set (e1 := mkGLBest _ _ [] 0 0 _ _ _ _) in He.
  assert (Hok1 : phys_ok (PGLBest e1)) by exact Hok.
  apply obind_Ok in He as (g & _ & He). apply obind_Ok in He as ([idx g'] & _ & He).
  apply obind_Ok in He as (n & _ & He). apply obind_Ok in He as (idxs & _ & He).
  apply obind_Ok in He as ([[sl count]|] & _ & He).
  - apply obind_Ok in He as ([local rng] & _ & He).
    set (e2 := mkGLBest _ _ [] 0 0 _ _ _ rng) in He.
    assert (Hok2 : phys_ok (PGLBest e2)) by exact Hok. destruct local.
    + apply obind_Ok in He as ([c chunks] & Hlocal & [= <- <- <- <-]).
      split; [|done]. by eapply local_chunks_short.
    + apply obind_Ok in He as ([id ctx1] & _ & He).
      apply obind_Ok in He as ([chunks c] & Hshared & [= <- <- <- <-]).
      split; [|done]. by eapply shared_chunks_short.
  - apply obind_Ok in He as ([[chunks c] ctx1] & Hbest & [= <- <- <- <-]).
    split; [|done]. by eapply encode_best_short.
Qed.

(** Every encoder keeps its invariant and returns short chunks. *)
Lemma phys_encode_short e a counter ctx cs e' counter' ctx' :
  phys_ok e → phys_encode string_hash e a counter ctx = Ok (cs, e', counter', ctx') →
  Forall short cs ∧ phys_ok e'.
Proof.
  intros Hok He. destruct e as [e|e|e|e]; cbn [phys_encode] in He.
  - apply obind_Ok in He as ([[c e1] n] & He & [= <- <- <- <-]). by eapply ed_encode_short.
  - apply obind_Ok in He as ([[c e1] n] & He & [= <- <- <- <-]). by eapply dc_encode_short.
  - unfold as_object in He. apply obind_Ok in He as ([[[c e1] n] x] & He & [= <- <- <- <-]).
    unfold sd_encode in He. destruct (negb _); [done|]. cbv zeta in He.
    apply obind_Ok in He as (rows & _ & He). apply obind_Ok in He as (mem & _ & He).
    destruct (_ <=? rows); [eapply dict_scope_short; [|exact He]; exact Hok|by simplify_eq].
  - apply obind_Ok in He as (e1 & He & [= <- <- <- <-]). split; [done|].
    unfold gl_encode in He. destruct (negb _); [done|].
    apply obind_Ok in He as (rows & _ & He). apply obind_Ok in He as (mem & _ & He). by simplify_eq.
Qed.

Lemma phys_finish_short e counter ctx cs e' counter' ctx' :
  phys_ok e → phys_finish string_hash e counter ctx = Ok (cs, e', counter', ctx') →
  Forall short cs ∧ phys_ok e'.
Proof.
  intros Hok He. destruct e as [e|e|e|e]; cbn [phys_finish] in He.
  - destruct (ed_finish e counter) as [[c e1] n] eqn:Hf. simplify_eq. by eapply ed_finish_short.
  - unfold dc_finish in He. destruct (encunits (dc_chunk e)); simplify_eq; [done|].
    split; [by repeat constructor; eapply room_short|]. by eapply room_stale.
  - unfold as_object in He. apply obind_Ok in He as ([[[c e1] n] x] & He & [= <- <- <- <-]).
    unfold sd_finish in He. destruct (sd_buffered_arrays e); [by simplify_eq|].
    by eapply dict_scope_short.
  - unfold as_object in He. apply obind_Ok in He as ([[[c e1] n] x] & He & [= <- <- <- <-]).
    by eapply gl_finish_short.
Qed.

Lemma phys_submit_ok e ctx e' ctx' :
  phys_ok e → phys_submit_dict string_hash e ctx = Ok (e', ctx') → phys_ok e'.
Proof.
  intros Hok He. destruct e as [e|e|e|e]; cbn [phys_submit_dict] in He; simplify_eq; try done.
  apply obind_Ok in He as ([e1 ctx1] & He & [= <- <-]). unfold sd_submit_dict in He.
  apply obind_Ok in He as ([[id e2] ctx2] & Hid & He). apply obind_Ok in He as (ctx3 & _ & [= <- <-]).
  destruct (sd_submitted_dict_idx e); [by simplify_eq|].
  apply obind_Ok in Hid as (a & _ & Hid). apply obind_Ok in Hid as ([idx ctx4] & _ & Hid). by simplify_eq.
Qed.

Lemma create_physical_ok dt size wasm opt ct rng e :
  size ≤ L → create_physical_encoder dt size wasm opt ct rng = Ok e → phys_ok e.
Proof.
  intros Hs He. unfold create_physical_encoder in He. destruct (non_nest_types dt).
  - simplify_eq. destruct opt; cbn; try done; by apply room_fresh.
  - destruct dt; simplify_eq; by apply room_fresh.
Qed.
End Bounds.

(** ** Examples *)

Definition no_sampling : Sampling := {|
  get_array_memory_size _ := 0;
  Rng := unit;
  choose_multiple rng n count := (range (Z.min n count), rng);
|}.

Section Examples.
#[local] Existing Instance byte_encoder.
#[local] Existing Instance stored.
#[local] Existing Instance no_sampling.

Definition int_array (l : list (option Z)) : Array := PrimArray Int32 (map (option_map VInt) l).

Lemma byte_units_nonempty : NonEmptyUnits.
Proof.
  intros wasm ct ed a u Hu. unfold encode_unit in Hu. apply obind_Ok in Hu as (enc & He & Hu).
  apply byte_encoder_only in He as ->. apply obind_Ok in Hu as (b & Hb & Hu).
  apply obind_Ok in Hu as (z & ->%stored_compress & Hu). apply obind_Ok in Hu as (x & _ & [= <-]).
  unfold encode_array in Hb. apply obind_Ok in Hb as (v & Hv & [= <-]).
  apply unwrap_res_Ok, byte_encode_len in Hv. cbn [bytes]. intros Hnil. rewrite Hnil in Hv.
  rewrite (len_nil (A:=Z)) in Hv. lia.
Qed.

Definition example_arrays : list Array :=
  [int_array [Some 1; None]; int_array [Some 3]; int_array [Some 4]].

Definition example_run :=
  ed_run (EncoderDictColEncoder_new 4 WASMWritingContext_empty false Uncompressed)
    example_arrays EncodingCounter_default.

Lemma encoder_dict_writes_column_witness :
  ∃ chunks e' counter', example_run = Ok (chunks, e', counter') ∧
    chunked (plain_units WASMWritingContext_empty Uncompressed false) arr_len 4 NoDictionary
      example_arrays chunks ∧
    map (λ c, len (encunits c)) chunks = [2; 1] ∧ index_size counter' = 10.
Proof.
  assert (Hrun : match example_run with
    | Ok (chunks, _, c) => Some (map (λ c, len (encunits c)) chunks, index_size c) | _ => None end
    = Some ([2; 1], 10)) by by vm_compute.
  destruct example_run as [[[chunks e'] counter']| |] eqn:He; [|done..].
  injection Hrun as Hl Hc. exists chunks, e', counter'. split_and!; [done| |done|done].
  destruct (encoder_dict_writes_column 4 WASMWritingContext_empty false Uncompressed
    example_arrays EncodingCounter_default chunks e' counter') as [Hch _]; [lia|exact He|exact Hch].
Defined.

Definition example_columns : list (list (option value)) :=
  [[Some (VInt 7); None]; [Some (VInt 9); Some (VInt 7)]].

Definition example_scope : SharedDictColEncoder :=
  mkSharedDict 100 (map (PrimArray Int32) example_columns) 4 0 64 WASMWritingContext_empty None
    Uncompressed.

Definition example_pool : SharedDictionaryContext :=
  SharedDictionaryContext_new 16 64 false Uncompressed.

Definition example_scope_run :=
  encode_dict_scope length_hash example_scope EncodingCounter_default example_pool.

Lemma encode_dict_scope_indexes_witness :
  ∃ chunks e' counter' ctx' id d idxs,
    example_scope_run = Ok (chunks, e', counter', ctx') ∧
    dictionaries ctx' !! Z.to_nat id = Some d ∧
    Forall2 (indexes (dict_values d)) example_columns idxs ∧
    chunked (plain_units WASMWritingContext_empty Uncompressed false) arr_len 64
      (SharedDictionary id) idxs chunks ∧
    map bytes (concat (map encunits chunks)) = [[0; 2; 1; 0]; [0; 2; 2; 1]].
Proof.
  assert (Hrun : match example_scope_run with
    | Ok (chunks, _, _, _) => Some (map bytes (concat (map encunits chunks))) | _ => None end
    = Some [[0; 2; 1; 0]; [0; 2; 2; 1]]) by by vm_compute.
  destruct example_scope_run as [[[[chunks e'] counter'] ctx']| |] eqn:He; [|done..].
  injection Hrun as Hb.
  destruct (@encode_dict_scope_indexes _ _ byte_units_nonempty length_hash example_scope
    EncodingCounter_default example_pool chunks e' counter' ctx' Int32 example_columns)
    as (id & d & idxs & _ & Hd & _ & _ & Hidx & Hch & _); try done.
  by exists chunks, e', counter', ctx', id, d, idxs.
Defined.
End Examples.
