(* ===== verification/DictColumn.v ===== *)
(** * Columns with shared dictionaries

    The encoders of physical.rs that put values into dictionaries of the writer's pool
    ([SharedDictColEncoder], [GLBestEncoder]): what their chunks hold, over a pool that
    only grows while row groups are written. *)

From S2P Require Import Prelude Arrow EncUnit Dict Float64 Sketch Common Footer Options Chunks Encoders.
From S2P Require Import Writer SharedDict PhysEnc PhysEncFacts.
From stdpp Require Import list.
Open Scope Z_scope.

(** ** The pool while row groups are written *)

Section Pool.
Context (string_hash : string → Z).
(** The types of the columns that have dictionaries. *)
Context (allowed : DataType → Prop).

(** A pool has fewer than 2^32 dictionaries: the next one would have no number. *)
Lemma pool_small c : pool string_hash c → len (dictionaries c) < 2 ^ 32.
Proof.
  assert (Hpush : ∀ c d id c', len (dictionaries c) < 2 ^ 32 → push_dictionary c d = Ok (id, c') →
    len (dictionaries c') < 2 ^ 32).
  { intros c0 d id c' Hlt Hp. unfold push_dictionary in Hp. apply obind_Ok in Hp as (n & Hn & [= <- <-]).
    cbn [dictionaries set_dictionaries]. rewrite len_app in *. change (len [d]) with 1 in *.
    destruct (Z.eq_dec (len (dictionaries c0) + 1) (2 ^ 32)) as [Heq|]; [|lia].
    rewrite Heq in Hn. by vm_compute in Hn. }
  induction 1 as [|c dt id c' _ IH _ Hn|c d id c' _ IH _ Ha|c i arr idx c' _ IH He|c i arr c' _ IH Hs].
  - done.
  - unfold new_dictionary in Hn. apply obind_Ok in Hn as (d & _ & Hn). by eapply Hpush.
  - by eapply Hpush.
  - unfold ctx_extend_and_get_index in He. simplify_outcome. unfold len in *. cbn. by rewrite length_insert.
  - unfold ctx_submit_values in Hs. simplify_outcome. unfold len in *. cbn. by rewrite length_insert.
Qed.

(** Dictionaries are added, and none is changed any more. *)
Record pool_grows (c c' : SharedDictionaryContext) : Prop := {
  pg_settings : c' = set_dictionaries c (dictionaries c');
  pg_prefix : dictionaries c `prefix_of` dictionaries c';
  pg_pool : pool string_hash c → pool string_hash c';
  pg_allowed : Forall (allowed ∘ datatype) (dictionaries c) → Forall (allowed ∘ datatype) (dictionaries c');
}.

#[export] Instance pool_grows_preorder : PreOrder pool_grows.
Proof.
  split.
  - intros c. split; [by destruct c|done..].
  - intros c1 c2 c3 [H1 P1 Q1 A1] [H2 P2 Q2 A2]. split; [|by etrans|auto..]. by rewrite H2, H1.
Qed.

Lemma grown_lookup c c' i d :
  pool_grows c c' → dictionaries c !! i = Some d → dictionaries c' !! i = Some d.
Proof. intros [_ Hp _ _] Hd. by eapply prefix_lookup_Some. Qed.

(** A new dictionary has the next number. *)
Lemma push_next c d id c' :
  pool string_hash c → push_dictionary c d = Ok (id, c') →
  id = len (dictionaries c) ∧ c' = set_dictionaries c (dictionaries c ++ [d]).
Proof.
  intros Hpool Hp. pose proof (pool_small c Hpool). unfold push_dictionary in Hp.
  apply obind_Ok in Hp as (n & Hn & [= <- <-]). split; [|done].
  rewrite len_app in Hn. change (len [d]) with 1 in Hn. pose proof (len_nonneg (dictionaries c)).
  destruct (Z.eq_dec (len (dictionaries c) + 1) (2 ^ 32)) as [Heq|]; [rewrite Heq in Hn; by vm_compute in Hn|].
  rewrite wrap_small in Hn by (unfold in_u; lia). apply usub_Ok in Hn as [_ ->]. lia.
Qed.

Lemma extend_all_pool c id arrs idxs c' :
  pool string_hash c →
  traverse_st (λ ctx arr, ctx_extend_and_get_index string_hash ctx id arr) c arrs = Ok (idxs, c') →
  pool string_hash c'.
Proof.
  revert c idxs. induction arrs as [|a arrs IH]; intros c idxs Hc Ht; cbn in Ht; simplify_outcome; [done|].
  eapply IH; [|done]. by eapply pool_extend.
Qed.

(** Adding a dictionary lets the pool grow. *)
Lemma grows_by c d c' :
  pool string_hash c' → c' = set_dictionaries c (dictionaries c ++ [d]) → allowed (datatype d) → pool_grows c c'.
Proof.
  intros Hp -> Hd. split; [done|by eexists|done|]. intros Hall. cbn. apply Forall_app.
  split; [done|by apply Forall_singleton].
Qed.
End Pool.

(** ** What the chunks of a column hold *)

Section Columns.
Context `{EncoderLibs} `{Codecs} `{Sampling} `{!NonEmptyUnits} (string_hash : string → Z).
Context (limit : Z) (wasm : WASMWritingContext) (ct : CompressionType) (Hlimit : 0 ≤ limit).
Context (allowed : DataType → Prop) (Hallowed : ∀ dt, allowed dt → is_Some (method_table dt)).

Abbreviation Ctx := SharedDictionaryContext.

(** Chunks of indices into one dictionary of the pool, which stand for the values. *)
Definition scope_in (c : Ctx) (dt : DataType) (cols : list (list (option value)))
    (chunks : list EncodedColumnChunk) : Prop :=
  ∃ id d idxs, 0 ≤ id ∧ dictionaries c !! Z.to_nat id = Some d ∧ datatype d = dt ∧
    Forall2 (indexes (dict_values d)) cols idxs ∧
    chunked (plain_units wasm ct false) arr_len limit (SharedDictionary id) idxs chunks.

(** Or chunks of the values, with a dictionary of the built-in codec at most. *)
Definition segment_in (c : Ctx) (dt : DataType) (cols : list (list (option value)))
    (chunks : list EncodedColumnChunk) : Prop :=
  scope_in c dt cols chunks ∨
  chunked (plain_units wasm Uncompressed true) arr_len limit NoDictionary (map (PrimArray dt) cols) chunks.

(** The chunks of a column in a row group. *)
Definition segments_in (c : Ctx) (dt : DataType) (segments : list (list (list (option value))))
    (chunks : list EncodedColumnChunk) : Prop :=
  ∃ chunkss, Forall2 (segment_in c dt) segments chunkss ∧ chunks = concat chunkss.

Lemma segments_grow c c' dt segments chunks :
  pool_grows string_hash allowed c c' → segments_in c dt segments chunks → segments_in c' dt segments chunks.
Proof.
  intros Hg (chunkss & HF & ->). exists chunkss. split; [|done]. eapply Forall2_impl; [exact HF|].
  intros cols chunks [(id & d & idxs & H0id & Hd & Hs)|Hp]; [left|by right].
  exists id, d, idxs. split; [done|]. split; [by eapply grown_lookup|done].
Qed.

Lemma segments_app c dt segments more chunks chunks' :
  segments_in c dt segments chunks → segments_in c dt more chunks' →
  segments_in c dt (segments ++ more) (chunks ++ chunks').
Proof.
  intros (chunkss & HF & ->) (chunkss' & HF' & ->). exists (chunkss ++ chunkss').
  split; [by apply Forall2_app|by rewrite concat_app].
Qed.

(** *** SharedDictColEncoder *)

(** An encoder between two row groups or scopes, apart from what it has buffered. *)
Definition sd_setup (scope : Z) (e : SharedDictColEncoder) : Prop :=
  sd_fixed_dict_scope e = scope ∧ sd_column_chunk_size e = limit ∧ sd_wasm e = wasm ∧
  sd_submitted_dict_idx e = None ∧ sd_ct e = ct.

(** The values that are buffered become chunks of indices into a new dictionary. *)
Lemma scope_encoded scope e counter c chunks e' counter' c' dt cols :
  sd_setup scope e → pool string_hash c → allowed dt →
  sd_buffered_arrays e = map (PrimArray dt) cols → cols ≠ [] →
  encode_dict_scope string_hash e counter c = Ok (chunks, e', counter', c') →
  pool_grows string_hash allowed c c' ∧ scope_in c' dt cols chunks ∧ e' = SharedDictColEncoder_new scope limit wasm ct.
Proof using All.
  intros (Hsc & Hl & Hw & Hsub & Hct) Hpool Hdt Hbuf Hne He. unfold encode_dict_scope in He.
  cbn [sd_submitted_dict_idx] in He. rewrite Hsub in He.
  apply obind_Ok in He as ([id c1] & Hid & He). rewrite Hbuf in Hid, He.
  assert (Hnew : new_dictionary c dt = Ok (id, c1)) by (by destruct cols).
  assert (Hpool1 : pool string_hash c1) by (eapply pool_new_dictionary; [done|by apply Hallowed|done]).
  unfold new_dictionary in Hnew. destruct (try_new_ok string_hash dt (Hallowed dt Hdt)) as (d & Hd & Hdok & Hty & _).
  rewrite Hd in Hnew. cbn [obind] in Hnew. apply (push_next string_hash) in Hnew as [-> Hc1]; [|done].
  set (id := len (dictionaries c)) in *. assert (H0id : 0 ≤ id) by apply len_nonneg.
  assert (Hlook : dictionaries c1 !! Z.to_nat id = Some d).
  { rewrite Hc1. cbn. unfold id, len. rewrite Nat2Z.id, lookup_app_r by lia. by rewrite Nat.sub_diag. }
  apply obind_Ok in He as ([idxs0 c2] & Hext & He).
  assert (Hpool2 : pool string_hash c2) by (by eapply extend_all_pool).
  destruct (traverse_extend string_hash c1 id d _ _ _ H0id Hlook Hext) as (d' & Hrun & Hc2).
  destruct (extend_all_ok string_hash d cols Hdok) as (sls & d1 & Hrun' & Hok1 & Hty1 & _ & Hdec).
  rewrite Hty in Hrun'. pose proof (eq_trans (eq_sym Hrun') Hrun) as Heq. injection Heq as <- <-.
  assert (Hc2' : c2 = set_dictionaries c (dictionaries c ++ [d1])).
  { rewrite Hc2, Hc1. cbn [dictionaries set_dictionaries]. f_equal.
    unfold id, len. by rewrite Nat2Z.id, insert_app_r_alt, Nat.sub_diag by lia. }
  assert (Hlook2 : dictionaries c2 !! Z.to_nat id = Some d1).
  { rewrite Hc2'. cbn. unfold id, len. rewrite Nat2Z.id, lookup_app_r by lia. by rewrite Nat.sub_diag. }
  apply obind_Ok in He as (n & Hn & He). unfold dict_len in Hn.
  rewrite (proj2 (index_Ok _ _ d1)) in Hn by done. cbn [obind] in Hn.
  destruct (peek_dict_ok string_hash d1 Hok1) as (t & _ & Hlen). rewrite Hlen in Hn. injection Hn as <-.
  apply obind_Ok in He as (idxs & Hcast & He). apply cast_indexes with (cols := cols) in Hcast; [|done].
  apply obind_Ok in He as ([res cnt] & Hchunks & [= <- <- <- <-]).
  cbn [sd_wasm sd_ct sd_column_chunk_size sd_fixed_dict_scope sd_submitted_dict_idx] in *.
  rewrite Hl, Hw, Hct, Hsc in *. apply index_chunks_chunked in Hchunks; [|done].
  split; [eapply grows_by; [done|done|by rewrite Hty1, Hty]|]. split; [|done].
  exists id, d1, idxs. split_and!; [done|done| |done|done]. by rewrite Hty1.
Qed.
Lemma segments_nil c dt : segments_in c dt [] [].
Proof. by exists []. Qed.

Lemma segments_one c dt cols chunks : segment_in c dt cols chunks → segments_in c dt [cols] chunks.
Proof. intros Hs. exists [chunks]. split; [by constructor|]. cbn. by rewrite app_nil_r. Qed.

(** *** GLBestEncoder *)

Definition gl_setup (e : GLBestEncoder) : Prop :=
  gl_column_chunk_size e = limit ∧ gl_wasm e = wasm ∧ gl_ct e = ct.

Lemma local_segment e counter dt cols chunks c :
  gl_setup e → encode_to_local_chunks e (map (PrimArray dt) cols) = Ok (counter, chunks) →
  segment_in c dt cols chunks.
Proof using Hlimit.
  intros (Hl & Hw & _) He. right. unfold encode_to_local_chunks in He. rewrite Hl, Hw in He.
  apply obind_Ok in He as ([[cs local] cnt] & Hfold & He).
  destruct (ed_finish local cnt) as [[more e'] cnt'] eqn:Hfin. injection He as <- <-.
  eapply (ed_run_chunked limit wasm true Uncompressed _ EncodingCounter_default); [done|].
  unfold ed_run. rewrite Hfold. cbn [obind]. by rewrite Hfin.
Qed.

(** The dictionary of the buffered values, and their indices. *)
Lemma global_dictionary dt cols global idxs0 global' n idxs :
  allowed dt → Dictionary_try_new dt = Ok global →
  traverse_st (Dictionary_extend_and_get_index string_hash) global (map (PrimArray dt) cols)
    = Ok (idxs0, global') →
  Dictionary_len global' = Ok n → traverse (λ arr, cast_index_dtype arr n) idxs0 = Ok idxs →
  dictionary_ok string_hash global' ∧ datatype global' = dt ∧
  Forall2 (indexes (dict_values global')) cols idxs.
Proof using Hallowed.
  intros Hdt Hg Hext Hn Hcast. destruct (try_new_ok string_hash dt (Hallowed dt Hdt)) as (d & Hd & Hdok & Hty & _).
  pose proof (eq_trans (eq_sym Hg) Hd) as Heq. injection Heq as ->.
  destruct (extend_all_ok string_hash d cols Hdok) as (sls & d1 & Hrun & Hok1 & Hty1 & _ & Hdec).
  rewrite Hty in Hrun. pose proof (eq_trans (eq_sym Hrun) Hext) as Heq. injection Heq as <- <-.
  destruct (peek_dict_ok string_hash d1 Hok1) as (t & _ & Hlen). rewrite Hlen in Hn. injection Hn as <-.
  split; [done|]. split; [by rewrite Hty1|]. by apply cast_indexes with (cols := cols) in Hcast.
Qed.

(** A dictionary that is added, and chunks of indices into it. *)
Lemma added_scope e c d id c' counter counter' dt cols idxs chunks :
  gl_setup e → pool string_hash c → dictionary_ok string_hash d → datatype d = dt → allowed dt →
  Forall2 (indexes (dict_values d)) cols idxs → add_dictionary c d = Ok (id, c') →
  encode_shared_to_chunks e idxs counter (Some id) = Ok (chunks, counter') →
  pool_grows string_hash allowed c c' ∧ segment_in c' dt cols chunks.
Proof using All.
  intros (Hl & Hw & Hct) Hpool Hok Hty Hdt Hidx Hadd He.
  assert (Hpool' : pool string_hash c') by (by eapply pool_add).
  apply (push_next string_hash) in Hadd as [-> Hc]; [|done]. split; [eapply grows_by; [done|done|by rewrite Hty]|]. left.
  unfold encode_shared_to_chunks in He. rewrite bool_decide_true, Hl, Hw, Hct in He by done.
  apply index_chunks_chunked in He; [|done].
  exists (len (dictionaries c)), d, idxs. split; [apply len_nonneg|]. split; [|by split_and!].
  rewrite Hc. cbn. unfold len. rewrite Nat2Z.id, lookup_app_r by lia. by rewrite Nat.sub_diag.
Qed.

Lemma best_segment e d c counter' c' dt cols idxs chunks :
  gl_setup e → pool string_hash c → dictionary_ok string_hash d → datatype d = dt → allowed dt →
  Forall2 (indexes (dict_values d)) cols idxs →
  encode_best e (map (PrimArray dt) cols) idxs d c = Ok (chunks, counter', c') →
  pool_grows string_hash allowed c c' ∧ segment_in c' dt cols chunks.
Proof using All.
  intros Hset Hpool Hok Hty Hdt Hidx He. unfold encode_best in He.
  apply obind_Ok in He as ([lc lchunks] & Hlocal & He). cbv zeta in He.
  apply obind_Ok in He as ([gchunks gc] & Hshared & He).
  apply obind_Ok in He as (peek & _ & He). apply obind_Ok in He as ([x gc'] & _ & He).
  apply obind_Ok in He as (lt & _ & He). apply obind_Ok in He as (gt & _ & He).
  destruct (lt <=? gt).
  - injection He as <- _ <-. split; [done|]. by eapply local_segment.
  - apply obind_Ok in He as ([id c1] & Hadd & He). apply obind_Ok in He as (y & Heq & [= <- _ <-]).
    apply assert_Ok, Z.eqb_eq in Heq. subst id. by eapply added_scope.
Qed.

(** The values that are buffered become the smaller of the two. *)
Lemma gl_finish_segment e counter c chunks e' counter' c' dt cols :
  gl_setup e → pool string_hash c → allowed dt →
  gl_buffered_arrays e = map (PrimArray dt) cols → cols ≠ [] →
  gl_finish string_hash e counter c = Ok (chunks, e', counter', c') →
  pool_grows string_hash allowed c c' ∧ segment_in c' dt cols chunks ∧ gl_setup e' ∧ gl_buffered_arrays e' = [].
Proof using All.
  intros Hset Hpool Hdt Hbuf Hne He. unfold gl_finish in He. rewrite Hbuf in He.
  destruct cols as [|vals cols]; [done|]. cbn [map] in He. cbv zeta in He.
  set (e1 := mkGLBest _ _ [] 0 0 _ _ _ _) in He. assert (Hset1 : gl_setup e1) by exact Hset.
  cbn [arr_data_type] in He.
  apply obind_Ok in He as (g & Hg & He). apply obind_Ok in He as ([idxs0 g'] & Hext & He).
  apply obind_Ok in He as (n & Hn & He). apply obind_Ok in He as (idxs & Hcast & He).
  change (PrimArray dt vals :: map (PrimArray dt) cols) with (map (PrimArray dt) (vals :: cols)) in *.
  destruct (global_dictionary dt (vals :: cols) g idxs0 g' n idxs Hdt Hg Hext Hn Hcast) as (Hok & Hty & Hidx).
  apply obind_Ok in He as ([[sl count]|] & _ & He).
  - apply obind_Ok in He as ([local rng] & _ & He).
    set (e2 := mkGLBest _ _ [] 0 0 _ _ _ rng) in He. assert (Hset2 : gl_setup e2) by exact Hset.
    destruct local.
    + apply obind_Ok in He as ([cnt cs] & Hlocal & [= <- <- _ <-]).
      split; [done|]. split; [by eapply local_segment|done].
    + apply obind_Ok in He as ([id c1] & Hadd & He).
      apply obind_Ok in He as ([cs cnt] & Hshared & [= <- <- _ <-]).
      destruct (added_scope e2 c g' id c1 counter cnt dt (vals :: cols) idxs cs) as [Hgr Hseg]; by try done.
  - apply obind_Ok in He as ([[cs cnt] c1] & Hbest & [= <- <- _ <-]).
    destruct (best_segment e1 g' c cnt c1 dt (vals :: cols) idxs cs) as [Hgr Hseg]; by try done.
Qed.

(** *** Both encoders *)

(** An encoder that has these values buffered. *)
Definition dict_encoder (dt : DataType) (cols : list (list (option value))) (e : PhysicalColEncoder) : Prop :=
  match e with
  | PSharedDict e => (∃ scope, sd_setup scope e) ∧ sd_buffered_arrays e = map (PrimArray dt) cols
  | PGLBest e => gl_setup e ∧ gl_buffered_arrays e = map (PrimArray dt) cols
  | _ => False
  end.

(** An array is buffered, or everything that is buffered is encoded. *)
Lemma dict_encode_step dt cols vals e counter c chunks e' counter' c' :
  dict_encoder dt cols e → pool string_hash c → allowed dt →
  phys_encode string_hash e (PrimArray dt vals) counter c = Ok (chunks, e', counter', c') →
  ∃ segments cols', cols ++ [vals] = concat segments ++ cols' ∧ dict_encoder dt cols' e' ∧
    segments_in c' dt segments chunks ∧ pool_grows string_hash allowed c c'.
Proof using All.
  intros He Hpool Hdt Hstep. destruct e as [e|e|e|e]; [done|done|..]; cbn [phys_encode] in Hstep.
  - destruct He as [(scope & Hset) Hbuf]. unfold as_object in Hstep.
    apply obind_Ok in Hstep as ([[[cs e1] cnt] c1] & Hstep & [= <- <- _ <-]). unfold sd_encode in Hstep.
    destruct (negb _); [done|]. apply obind_Ok in Hstep as (n & _ & Hstep).
    apply obind_Ok in Hstep as (mem & _ & Hstep). cbv zeta in Hstep. set (e2 := mkSharedDict _ _ _ _ _ _ _ _) in Hstep.
    assert (Hset2 : sd_setup scope e2) by exact Hset.
    assert (Hbuf2 : sd_buffered_arrays e2 = map (PrimArray dt) (cols ++ [vals]))
      by (cbn; by rewrite Hbuf, map_app).
    destruct (_ <=? n).
    + destruct (scope_encoded scope e2 counter c cs e1 cnt c1 dt (cols ++ [vals]) Hset2 Hpool Hdt Hbuf2)
        as (Hgr & Hseg & ->); [by destruct cols|done|].
      exists [cols ++ [vals]], []. split; [cbn; by rewrite !app_nil_r|]. split; [by split; [exists scope|]|].
      split; [|done]. apply segments_one. by left.
    + injection Hstep as <- <- _ <-. exists [], (cols ++ [vals]). split; [done|].
      split; [by split; [exists scope|]|]. split; [apply segments_nil|done].
  - destruct He as [Hset Hbuf]. apply obind_Ok in Hstep as (e1 & Hstep & [= <- <- _ <-]).
    unfold gl_encode in Hstep. destruct (negb _); [done|]. apply obind_Ok in Hstep as (n & _ & Hstep).
    apply obind_Ok in Hstep as (mem & _ & [= <-]). exists [], (cols ++ [vals]). split; [done|].
    split; [split; [exact Hset|cbn; by rewrite Hbuf, map_app]|]. split; [apply segments_nil|done].
Qed.

(** At the end of a row group nothing stays buffered. *)
Lemma dict_finish_step dt cols e counter c chunks e' counter' c' :
  dict_encoder dt cols e → pool string_hash c → allowed dt →
  phys_finish string_hash e counter c = Ok (chunks, e', counter', c') →
  ∃ segments, cols = concat segments ∧ dict_encoder dt [] e' ∧
    segments_in c' dt segments chunks ∧ pool_grows string_hash allowed c c'.
Proof using All.
  intros He Hpool Hdt Hstep. destruct e as [e|e|e|e]; [done|done|..]; cbn [phys_finish] in Hstep;
    unfold as_object in Hstep; apply obind_Ok in Hstep as ([[[cs e1] cnt] c1] & Hstep & [= <- <- _ <-]).
  - destruct He as [(scope & Hset) Hbuf]. unfold sd_finish in Hstep. destruct cols as [|vals cols].
    + rewrite Hbuf in Hstep. cbn in Hstep. injection Hstep as <- <- _ <-. exists [].
      split; [done|]. split; [by split; [exists scope|]|]. split; [apply segments_nil|done].
    + rewrite Hbuf in Hstep. cbn [map] in Hstep.
      destruct (scope_encoded scope e counter c cs e1 cnt c1 dt (vals :: cols) Hset Hpool Hdt Hbuf)
        as (Hgr & Hseg & ->); [done|done|].
      exists [vals :: cols]. split; [cbn; by rewrite app_nil_r|]. split; [by split; [exists scope|]|].
      split; [|done]. apply segments_one. by left.
  - destruct He as [Hset Hbuf]. destruct cols as [|vals cols].
    + unfold gl_finish in Hstep. rewrite Hbuf in Hstep. cbn in Hstep. injection Hstep as <- <- _ <-.
      exists []. split; [done|]. split; [done|]. split; [apply segments_nil|done].
    + destruct (gl_finish_segment e counter c cs e1 cnt c1 dt (vals :: cols)) as (Hgr & Hseg & Hset' & Hbuf'); try done.
      exists [vals :: cols]. split; [cbn; by rewrite app_nil_r|]. split; [done|]. split; [|done].
      by apply segments_one.
Qed.
End Columns.
