(* ===== verification/LogicalEnc.v ===== *)
(** * fff-poc/src/encoder/logical.rs: the logical column encoders

    One encoder per field of the schema; it numbers the physical columns below the
    field, splits each array into their parts and hands the parts to the physical
    encoders.  [pushdown] is the feature [list-offsets-pushdown]. *)

From S2P Require Import Prelude Arrow EncUnit Dict Float64 Sketch Common Footer Options Chunks.
From S2P Require Import Encoders Writer SharedDict PhysEnc.

(** ** Taking nested arrays apart *)

(** The items between the first and the last offset of a list array. *)
Definition extract_items (list_arr : Array) : outcome Array :=
  match list_arr with
  | ListArray _ _ offsets values _ =>
      let! items_start := index offsets 0 in
      let! items_end := index offsets (arr_len list_arr) in
      let! n := usub items_end items_start in
      arr_slice values items_start n
  | _ => Panic PTodo
  end.

(** A Boolean array without nulls. *)
Definition bool_array (bs : list bool) : Array := PrimArray Boolean (map (λ b, Some (VBool b)) bs).

Definition extract_validity (arr : Array) : Array :=
  match arr with
  | PrimArray _ vals => bool_array (map (λ v, bool_decide (is_Some v)) vals)
  | ListArray _ _ _ _ nulls | StructArray _ _ nulls _ =>
      bool_array (match nulls with
                  | Some validity => validity
                  | None => replicate (Z.to_nat (arr_len arr)) true
                  end)
  end.

(** [as_struct().columns()] *)
Definition struct_columns (arr : Array) : outcome (list Array) :=
  match arr with StructArray _ columns _ _ => Ok columns | _ => Panic PUnwrap end.

(** [as_list::<i32>().values()], and i64 for a large list *)
Definition list_values (arr : Array) : outcome Array :=
  match arr with
  | ListArray _ _ _ values _ => Ok values
  | _ => Panic PTodo
  end.

Section Logical.
Context `{EncoderLibs} `{Codecs} `{Sampling} (string_hash : string → Z).

Abbreviation Ctx := SharedDictionaryContext.

(** The implementations of the trait [LogicalColEncoder]. *)
Inductive LogicalEncoder :=
  | FlatColEncoder (data_encoder : PhysicalColEncoder) (column_index : Z)
  | ListColEncoder (offsets_encoder : PhysicalColEncoder) (column_index : Z)
      (values_encoder : LogicalEncoder)
  | ListOfStructOfPrimitiveColEncoder (fields_encoders : list ListOfStructColEncoder)
      (column_indexes : list Z)
  | StructColEncoder (validity_encoder : PhysicalColEncoder) (column_index : Z)
      (fields_encoders : list LogicalEncoder).

(** Chunks, and the new states. *)
Abbreviation Encoded E := (outcome (list EncodedColumnChunk * E * EncodingCounter * Ctx)).

(** The chunks of a physical encoder, in its column. *)
Definition in_column (i : Z) (m : Encoded PhysicalColEncoder) : Encoded PhysicalColEncoder :=
  let! '(chunks, e, counter, ctx) := m in
  Ok (map (λ c, update_column_index c i) chunks, e, counter, ctx).

(** The fields of a list of structs, each with the array of the lists. *)
Fixpoint encode_pushed (es : list ListOfStructColEncoder) (columns : list Array)
    (indexes : list Z) (array : Array)
  : outcome (list EncodedColumnChunk * list ListOfStructColEncoder) :=
  match es, columns, indexes with
  | e :: es, field :: columns, i :: indexes =>
      let! '(chunk, e) := ls_encode e array field in
      let! '(chunks, es) := encode_pushed es columns indexes array in
      Ok (map (λ c, update_column_index c i) (option_list chunk) ++ chunks, e :: es)
  | es, _, _ => Ok ([], es)
  end.

Fixpoint finish_pushed (es : list ListOfStructColEncoder) (indexes : list Z)
  : list EncodedColumnChunk * list ListOfStructColEncoder :=
  match es, indexes with
  | e :: es, i :: indexes =>
      let '(chunk, e) := ls_finish e in
      let '(chunks, es) := finish_pushed es indexes in
      (map (λ c, update_column_index c i) (option_list chunk) ++ chunks, e :: es)
  | es, _ => ([], es)
  end.

(** The chunks of the [encode] of each implementation, before
    [(!res.is_empty()).then_some(res)]. *)
Definition flat_encode (d : PhysicalColEncoder) (i : Z) (array : Array) (counter : EncodingCounter)
    (ctx : Ctx) : Encoded LogicalEncoder :=
  let! '(res, d, counter, ctx) := in_column i (phys_encode string_hash d array counter ctx) in
  Ok (res, FlatColEncoder d i, counter, ctx).

Definition flat_finish (d : PhysicalColEncoder) (i : Z) (counter : EncodingCounter) (ctx : Ctx)
  : Encoded LogicalEncoder :=
  let! '(res, d, counter, ctx) := in_column i (phys_finish string_hash d counter ctx) in
  Ok (res, FlatColEncoder d i, counter, ctx).

(** The values encoder is called through [encode_values]. *)
Definition list_encode (o : PhysicalColEncoder) (i : Z)
    (encode_values : Array → EncodingCounter → Ctx → Encoded LogicalEncoder)
    (array : Array) (counter : EncodingCounter) (ctx : Ctx) : Encoded LogicalEncoder :=
  let! '(res, o, counter, ctx) := in_column i (phys_encode string_hash o array counter ctx) in
  let! items := extract_items array in
  let! '(more, v, counter, ctx) := encode_values items counter ctx in
  Ok (res ++ more, ListColEncoder o i v, counter, ctx).

Definition list_finish (o : PhysicalColEncoder) (i : Z)
    (finish_values : EncodingCounter → Ctx → Encoded LogicalEncoder)
    (counter : EncodingCounter) (ctx : Ctx) : Encoded LogicalEncoder :=
  let! '(res, o, counter, ctx) := in_column i (phys_finish string_hash o counter ctx) in
  let! '(more, v, counter, ctx) := finish_values counter ctx in
  Ok (res ++ more, ListColEncoder o i v, counter, ctx).

Definition pushed_encode (es : list ListOfStructColEncoder) (indexes : list Z) (array : Array)
    (counter : EncodingCounter) (ctx : Ctx) : Encoded LogicalEncoder :=
  let! values := list_values array in
  let! columns := struct_columns values in
  let! '(res, es) := encode_pushed es columns indexes array in
  Ok (res, ListOfStructOfPrimitiveColEncoder es indexes, counter, ctx).

Fixpoint log_encode_chunks (e : LogicalEncoder) (array : Array) (counter : EncodingCounter)
    (ctx : Ctx) {struct e} : Encoded LogicalEncoder :=
  match e with
  | FlatColEncoder d i => flat_encode d i array counter ctx
  | ListColEncoder o i v => list_encode o i (log_encode_chunks v) array counter ctx
  | ListOfStructOfPrimitiveColEncoder es indexes => pushed_encode es indexes array counter ctx
  | StructColEncoder v i fs =>
      let! '(res, v, counter, ctx) :=
        in_column i (phys_encode string_hash v (extract_validity array) counter ctx) in
      let! columns := struct_columns array in
      let! '(more, fs, counter, ctx) :=
        (fix go fs columns counter ctx {struct fs} : Encoded (list LogicalEncoder) :=
          match fs, columns with
          | f :: fs, column :: columns =>
              let! '(res, f, counter, ctx) := log_encode_chunks f column counter ctx in
              let! '(more, fs, counter, ctx) := go fs columns counter ctx in
              Ok (res ++ more, f :: fs, counter, ctx)
          | fs, _ => Ok ([], fs, counter, ctx)
          end) fs columns counter ctx in
      Ok (res ++ more, StructColEncoder v i fs, counter, ctx)
  end.

Fixpoint log_finish_chunks (e : LogicalEncoder) (counter : EncodingCounter) (ctx : Ctx) {struct e}
  : Encoded LogicalEncoder :=
  match e with
  | FlatColEncoder d i => flat_finish d i counter ctx
  | ListColEncoder o i v => list_finish o i (log_finish_chunks v) counter ctx
  | ListOfStructOfPrimitiveColEncoder es indexes =>
      let '(res, es) := finish_pushed es indexes in
      Ok (res, ListOfStructOfPrimitiveColEncoder es indexes, counter, ctx)
  | StructColEncoder v i fs =>
      let! '(res, v, counter, ctx) := in_column i (phys_finish string_hash v counter ctx) in
      let! '(more, fs, counter, ctx) :=
        (fix go fs counter ctx {struct fs} : Encoded (list LogicalEncoder) :=
          match fs with
          | f :: fs =>
              let! '(res, f, counter, ctx) := log_finish_chunks f counter ctx in
              let! '(more, fs, counter, ctx) := go fs counter ctx in
              Ok (res ++ more, f :: fs, counter, ctx)
          | [] => Ok ([], [], counter, ctx)
          end) fs counter ctx in
      Ok (res ++ more, StructColEncoder v i fs, counter, ctx)
  end.

Fixpoint log_submit_dict (e : LogicalEncoder) (ctx : Ctx) {struct e}
  : outcome (LogicalEncoder * Ctx) :=
  match e with
  | FlatColEncoder d i =>
      let! '(d, ctx) := phys_submit_dict string_hash d ctx in Ok (FlatColEncoder d i, ctx)
  | ListColEncoder o i v =>
      let! '(o, ctx) := phys_submit_dict string_hash o ctx in
      let! '(v, ctx) := log_submit_dict v ctx in
      Ok (ListColEncoder o i v, ctx)
  | ListOfStructOfPrimitiveColEncoder es indexes => Ok (e, ctx)
  | StructColEncoder v i fs =>
      let! '(v, ctx) := phys_submit_dict string_hash v ctx in
      let! '(fs, ctx) :=
        (fix go fs ctx {struct fs} : outcome (list LogicalEncoder * Ctx) :=
          match fs with
          | f :: fs =>
              let! '(f, ctx) := log_submit_dict f ctx in
              let! '(fs, ctx) := go fs ctx in
              Ok (f :: fs, ctx)
          | [] => Ok ([], ctx)
          end) fs ctx in
      Ok (StructColEncoder v i fs, ctx)
  end.

Fixpoint log_memory_size (e : LogicalEncoder) : outcome Z :=
  match e with
  | FlatColEncoder d _ => Ok (phys_memory_size d)
  | ListColEncoder o _ v => let! n := log_memory_size v in uadd 64 (phys_memory_size o) n
  | ListOfStructOfPrimitiveColEncoder es _ =>
      fold_m (λ acc e, uadd 64 acc (ls_memory_size e)) 0 es
  | StructColEncoder v _ fs =>
      let! n := fold_m (λ acc m, let! n := m in uadd 64 acc n) 0 (map log_memory_size fs) in
      uadd 64 (phys_memory_size v) n
  end.

(** [(!res.is_empty()).then_some(res)] *)
Definition then_some (m : Encoded LogicalEncoder)
  : outcome (option (list EncodedColumnChunk) * LogicalEncoder * EncodingCounter * Ctx) :=
  let! '(res, e, counter, ctx) := m in
  Ok (match res with [] => None | _ => Some res end, e, counter, ctx).

#[export] Instance logical_encoder : LogicalColEncoder LogicalEncoder Ctx := {
  encode e array counter ctx := then_some (log_encode_chunks e array counter ctx);
  finish e counter ctx := then_some (log_finish_chunks e counter ctx);
  submit_dict := log_submit_dict;
  memory_size := log_memory_size;
}.

(** ** create_logical_encoder *)

Section Create.
Context (pushdown : bool) (max_chunk_size : Z) (wasm : WASMWritingContext)
  (dictionary_type : DictionaryTypeOptions) (ct : CompressionType).
(** A generator for each physical column. *)
Context (seed : Z → Rng).

(** The fields of a struct whose lists are pushed down. *)
Definition pushed_fields (child : DataType) : option (list Field) :=
  match child with
  | Struct fields =>
      if forallb (λ f, non_nest_types (data_type f)) fields && pushdown then Some fields else None
  | _ => None
  end.

Fixpoint create_encoder (dt : DataType) (idx : ColumnIndexSequence) {struct dt}
  : outcome (LogicalEncoder * fb.LogicalTree * ColumnIndexSequence) :=
  let physical dt := create_physical_encoder dt max_chunk_size wasm dictionary_type ct in
  match dt with
  | List child | LargeList child =>
      match child with mkField _ child_type _ =>
        match pushed_fields child_type with
        | Some fields =>
            let! '(indexes, idx) := traverse_st (λ idx (_ : Field), next_column_index idx) idx fields in
            Ok (ListOfStructOfPrimitiveColEncoder
                  (map (λ _, ListOfStructColEncoder_new max_chunk_size wasm ct) fields) indexes,
                fb.mkLogicalTree fb.LIST_OF_STRUCT_OF_PRIMITIVE [], idx)
        | None =>
            let! '(i, idx) := next_column_index idx in
            let! offsets_encoder := physical dt (seed i) in
            let! '(values_encoder, child_tree, idx) := create_encoder child_type idx in
            Ok (ListColEncoder offsets_encoder i values_encoder,
                fb.mkLogicalTree fb.LIST [child_tree], idx)
        end
      end
  | Struct fields =>
      let! '(i, idx) := next_column_index idx in
      let! '(encoders, trees, idx) :=
        (fix go fields idx {struct fields}
            : outcome (list LogicalEncoder * list fb.LogicalTree * ColumnIndexSequence) :=
          match fields with
          | mkField _ field_type _ :: fields =>
              let! '(e, tree, idx) := create_encoder field_type idx in
              let! '(es, trees, idx) := go fields idx in
              Ok (e :: es, tree :: trees, idx)
          | [] => Ok ([], [], idx)
          end) fields idx in
      let! validity_encoder := physical Boolean (seed i) in
      Ok (StructColEncoder validity_encoder i encoders, fb.mkLogicalTree fb.STRUCT trees, idx)
  | dt =>
      if non_nest_types dt then
        let! data_encoder := physical dt (seed (get_current_index idx)) in
        let! '(i, idx) := next_column_index idx in
        Ok (FlatColEncoder data_encoder i, fb.mkLogicalTree fb.FLAT [], idx)
      else Panic PTodo
  end.
End Create.

Definition create_logical_encoder (pushdown : bool) (seed : Z → Rng) (field : Field) (field_id : Z)
    (max_chunk_size : Z) (column_idx : ColumnIndexSequence) (wasm : WASMWritingContext)
    (dictionary_type : DictionaryTypeOptions) (ct : CompressionType)
  : outcome (LogicalEncoder * fb.LogicalTree * ColumnIndexSequence) :=
  create_encoder pushdown max_chunk_size wasm dictionary_type ct seed (data_type field) column_idx.
End Logical.
