(* ===== verification/LogicalEncFacts.v ===== *)
(** * What the logical encoders promise the writer

    [create_logical_encoder] numbers the physical columns of a field from left to
    right; the encoders only emit chunks of their own columns, never much longer
    than the chunk size; so they meet [EncoderContract], and a file written with
    them reads back. *)

From S2P Require Import Prelude Arrow EncUnit Dict Float64 Sketch Common Footer Options Chunks.
From S2P Require Import Writer Selection Reader FileRoundtrip Wire WriterSpec.
From S2P Require Import Encoders SharedDict PhysEnc PhysEncFacts LogicalEnc.

(** ** Induction over the encoders of nested columns *)

Section LogicalInd.
Context `{Sampling} (P : LogicalEncoder → Prop).
Context (Hflat : ∀ d i, P (FlatColEncoder d i)).
Context (Hlist : ∀ o i v, P v → P (ListColEncoder o i v)).
Context (Hpushed : ∀ es is_, P (ListOfStructOfPrimitiveColEncoder es is_)).
Context (Hstruct : ∀ v i fs, Forall P fs → P (StructColEncoder v i fs)).

Fixpoint LogicalEncoder_nested_ind (e : LogicalEncoder) : P e :=
  match e with
  | FlatColEncoder d i => Hflat d i
  | ListColEncoder o i v => Hlist o i v (LogicalEncoder_nested_ind v)
  | ListOfStructOfPrimitiveColEncoder es is_ => Hpushed es is_
  | StructColEncoder v i fs =>
      Hstruct v i fs
        ((fix go fs : Forall P fs :=
            match fs with
            | [] => @List.Forall_nil _ _
            | f :: fs => @List.Forall_cons _ P f fs (LogicalEncoder_nested_ind f) (go fs)
            end) fs)
  end.
End LogicalInd.

(** ** Physical columns *)

(** The columns an encoder writes, from left to right. *)
Fixpoint columns_of `{Sampling} (e : LogicalEncoder) : list Z :=
  match e with
  | FlatColEncoder _ i => [i]
  | ListColEncoder _ i v => i :: columns_of v
  | ListOfStructOfPrimitiveColEncoder _ is_ => is_
  | StructColEncoder _ i fs => i :: concat (map columns_of fs)
  end.

Section Columns.
Context (pushdown : bool).

(** The number of physical columns of a type. *)
Fixpoint n_columns (dt : DataType) : Z :=
  match dt with
  | List child | LargeList child =>
      match child with mkField _ child_type _ =>
        match pushed_fields pushdown child_type with
        | Some fields => len fields
        | None => 1 + n_columns child_type
        end
      end
  | Struct fields => 1 + zsum (map (λ f, match f with mkField _ t _ => n_columns t end) fields)
  | _ => 1
  end.

(** The tree written to the footer. *)
Fixpoint tree_of (dt : DataType) : fb.LogicalTree :=
  match dt with
  | List child | LargeList child =>
      match child with mkField _ child_type _ =>
        match pushed_fields pushdown child_type with
        | Some _ => fb.mkLogicalTree fb.LIST_OF_STRUCT_OF_PRIMITIVE []
        | None => fb.mkLogicalTree fb.LIST [tree_of child_type]
        end
      end
  | Struct fields =>
      fb.mkLogicalTree fb.STRUCT (map (λ f, match f with mkField _ t _ => tree_of t end) fields)
  | _ => fb.mkLogicalTree fb.FLAT []
  end.

Lemma n_columns_nonneg dt : 0 ≤ n_columns dt.
Proof.
  assert (Hitems : ∀ f, field_all (λ dt, 0 ≤ n_columns dt) f → 0 ≤ n_columns (List f)).
  { intros [nm t b] Hf. cbn in *. destruct (pushed_fields pushdown t); [apply len_nonneg|].
    unfold field_all in Hf. cbn in Hf. lia. }
  apply (DataType_nested_ind (λ dt, 0 ≤ n_columns dt)); try (cbn; lia); try done.
  - by intros [].
  - intros fs Hfs. cbn. induction Hfs as [|[nm t b] fs Ht _ IH]; cbn; [unfold zsum; cbn; lia|].
    rewrite zsum_cons. unfold field_all in Ht. cbn in Ht. lia.
Qed.
End Columns.

Section Contract.
Context `{EncoderLibs} `{Codecs} `{Sampling} (string_hash : string → Z).
Context (max : Z) `{!BoundedUnits max} (L : Z) (HL : 0 ≤ L) (Hmax : 0 ≤ max).

(** The invariant: every physical encoder keeps its own. *)
Inductive log_ok : LogicalEncoder → Prop :=
  | flat_ok d i : phys_ok L d → log_ok (FlatColEncoder d i)
  | list_ok o i v : phys_ok L o → log_ok v → log_ok (ListColEncoder o i v)
  | pushed_ok es is_ : Forall (ls_ok L) es → log_ok (ListOfStructOfPrimitiveColEncoder es is_)
  | struct_ok v i fs : phys_ok L v → Forall log_ok fs → log_ok (StructColEncoder v i fs).

(** Chunks of the given columns. *)
Definition chunks_of (columns : list Z) (c : EncodedColumnChunk) : Prop :=
  short max L c ∧ column_index c ∈ columns.

Lemma chunks_of_sub is_ js cs :
  (∀ i, i ∈ is_ → i ∈ js) → Forall (chunks_of is_) cs → Forall (chunks_of js) cs.
Proof. intros Hsub Hcs. eapply Forall_impl; [exact Hcs|]. intros c [Hs Hi]. split; auto. Qed.

Lemma in_column_ok i m cs e' counter' ctx' :
  (∀ cs e' counter' ctx', m = Ok (cs, e', counter', ctx') → Forall (short max L) cs ∧ phys_ok L e') →
  in_column i m = Ok (cs, e', counter', ctx') → Forall (chunks_of [i]) cs ∧ phys_ok L e'.
Proof.
  intros Hm Hi. unfold in_column in Hi. apply obind_Ok in Hi as ([[[cs0 e0] n0] c0] & Hr & [= <- <- <- <-]).
  destruct (Hm _ _ _ _ Hr) as [Hcs He]. split; [|done]. apply Forall_map. eapply Forall_impl; [exact Hcs|].
  intros c Hc. split; [exact Hc|]. cbn. by left.
Qed.

Lemma pushed_chunks i is_ (c : option EncodedColumnChunk) :
  Forall (short max L) (option_list c) → i ∈ is_ →
  Forall (chunks_of is_) (map (λ c, update_column_index c i) (option_list c)).
Proof.
  intros Hc Hi. apply Forall_map. eapply Forall_impl; [exact Hc|]. intros x Hx. by split.
Qed.

Lemma encode_pushed_ok array es columns is_ cs es' :
  Forall (ls_ok L) es → encode_pushed es columns is_ array = Ok (cs, es') →
  Forall (chunks_of is_) cs ∧ Forall (ls_ok L) es'.
Proof.
  revert columns is_ cs es'. induction es as [|e es IH]; intros columns is_ cs es' Hes He; cbn in He.
  - by simplify_eq.
  - destruct columns as [|field columns]; [by simplify_eq|]. destruct is_ as [|i is_]; [by simplify_eq|].
    inversion_clear Hes as [|? ? Hok Hes'].
    apply obind_Ok in He as ([c e1] & Hls & He). apply obind_Ok in He as ([cs1 es1] & Hrest & [= <- <-]).
    apply (ls_encode_short max L HL Hmax) in Hls as [Hc He1]; [|done].
    apply IH in Hrest as [Hcs1 Hes1]; [|done]. split; [|by constructor].
    apply Forall_app. split; [apply pushed_chunks; [done|by left]|].
    eapply chunks_of_sub; [|exact Hcs1]. intros. by right.
Qed.

Lemma finish_pushed_ok es is_ cs es' :
  Forall (ls_ok L) es → finish_pushed es is_ = (cs, es') →
  Forall (chunks_of is_) cs ∧ Forall (ls_ok L) es'.
Proof.
  revert is_ cs es'. induction es as [|e es IH]; intros is_ cs es' Hes He; cbn in He.
  - by simplify_eq.
  - destruct is_ as [|i is_]; [by simplify_eq|]. inversion_clear Hes as [|? ? Hok Hes'].
    destruct (ls_finish e) as [c e1] eqn:Hls. destruct (finish_pushed es is_) as [cs1 es1] eqn:Hrest.
    simplify_eq. apply (ls_finish_short max L HL Hmax) in Hls as [Hc He1]; [|done].
    apply IH in Hrest as [Hcs1 Hes1]; [|done]. split; [|by constructor].
    apply Forall_app. split; [apply pushed_chunks; [done|by left]|].
    eapply chunks_of_sub; [|exact Hcs1]. intros. by right.
Qed.

(** What a step of an encoder keeps and returns. *)
Definition step_ok (e : LogicalEncoder) (cs : list EncodedColumnChunk) (e' : LogicalEncoder) : Prop :=
  log_ok e' ∧ columns_of e' = columns_of e ∧ Forall (chunks_of (columns_of e)) cs.

Lemma step_list o o' i v v' cs0 cs1 :
  Forall (chunks_of [i]) cs0 ∧ phys_ok L o' → step_ok v cs1 v' →
  step_ok (ListColEncoder o i v) (cs0 ++ cs1) (ListColEncoder o' i v').
Proof.
  intros [Hcs0 Ho] (Hok & Hcol & Hcs1). split_and!; [by constructor|cbn; by rewrite Hcol|].
  apply Forall_app. cbn. split.
  - eapply chunks_of_sub; [|exact Hcs0]. set_solver.
  - eapply chunks_of_sub; [|exact Hcs1]. set_solver.
Qed.

(** The same for the fields of a struct. *)
Definition fields_step (fs : list LogicalEncoder) (cs : list EncodedColumnChunk)
    (fs' : list LogicalEncoder) : Prop :=
  Forall log_ok fs' ∧ map columns_of fs' = map columns_of fs ∧
  Forall (chunks_of (concat (map columns_of fs))) cs.

Lemma fields_cons f f' fs fs' cs0 cs1 :
  step_ok f cs0 f' → fields_step fs cs1 fs' → fields_step (f :: fs) (cs0 ++ cs1) (f' :: fs').
Proof.
  intros (Hok & Hcol & Hcs0) (Hoks & Hcols & Hcs1).
  split_and!; [by constructor|cbn; by rewrite Hcol, Hcols|]. apply Forall_app. cbn. split.
  - eapply chunks_of_sub; [|exact Hcs0]. set_solver.
  - eapply chunks_of_sub; [|exact Hcs1]. set_solver.
Qed.

Lemma step_struct v v' i fs fs' cs0 cs1 :
  Forall (chunks_of [i]) cs0 ∧ phys_ok L v' → fields_step fs cs1 fs' →
  step_ok (StructColEncoder v i fs) (cs0 ++ cs1) (StructColEncoder v' i fs').
Proof.
  intros [Hcs0 Hv] (Hok & Hcol & Hcs1). split_and!; [by constructor|cbn; by rewrite Hcol|].
  apply Forall_app. cbn. split.
  - eapply chunks_of_sub; [|exact Hcs0]. set_solver.
  - eapply chunks_of_sub; [|exact Hcs1]. set_solver.
Qed.

(** A physical encoder of the column [i]. *)
Lemma column_encode_ok i d array counter ctx cs d' counter' ctx' :
  phys_ok L d →
  in_column i (phys_encode string_hash d array counter ctx) = Ok (cs, d', counter', ctx') →
  Forall (chunks_of [i]) cs ∧ phys_ok L d'.
Proof.
  intros Hd. apply in_column_ok. intros ????. by apply (phys_encode_short string_hash max L HL Hmax).
Qed.

Lemma column_finish_ok i d counter ctx cs d' counter' ctx' :
  phys_ok L d →
  in_column i (phys_finish string_hash d counter ctx) = Ok (cs, d', counter', ctx') →
  Forall (chunks_of [i]) cs ∧ phys_ok L d'.
Proof.
  intros Hd. apply in_column_ok. intros ????. by apply (phys_finish_short string_hash max L HL Hmax).
Qed.

Lemma log_encode_ok e array counter ctx cs e' counter' ctx' :
  log_ok e → log_encode_chunks string_hash e array counter ctx = Ok (cs, e', counter', ctx') →
  step_ok e cs e'.
Proof.
  revert array counter ctx cs e' counter' ctx'.
  induction e as [d i|o i v IHv|es is_|v i fs IHfs] using LogicalEncoder_nested_ind;
    intros array counter ctx cs e' counter' ctx' Hok He; cbn [log_encode_chunks] in He;
    unfold flat_encode, list_encode, pushed_encode in He;
    inversion Hok as [? ? Hd|? ? ? Ho Hv|? ? Hes|? ? ? Hv Hfs]; subst.
  - apply obind_Ok in He as ([[[cs0 d0] n0] c0] & Hd0 & [= <- <- <- <-]).
    apply column_encode_ok in Hd0; [|done]. destruct Hd0. split_and!; [by constructor|done|done].
  - apply obind_Ok in He as ([[[cs0 o0] n0] c0] & Ho0 & He). apply column_encode_ok in Ho0; [|done].
    apply obind_Ok in He as (items & _ & He).
    apply obind_Ok in He as ([[[cs1 v1] n1] c1] & Hv1 & [= <- <- <- <-]).
    apply step_list; [done|]. by eapply IHv.
  - apply obind_Ok in He as (values & _ & He). apply obind_Ok in He as (columns & _ & He).
    apply obind_Ok in He as ([cs0 es0] & Hes0 & [= <- <- <- <-]).
    apply encode_pushed_ok in Hes0 as [Hcs Hes']; [|done]. split_and!; [by constructor|done|done].
  - apply obind_Ok in He as ([[[cs0 v0] n0] c0] & Hv0 & He). apply column_encode_ok in Hv0; [|done].
    apply obind_Ok in He as (columns & _ & He).
    apply obind_Ok in He as ([[[cs1 fs1] n1] c1] & Hgo & [= <- <- <- <-]).
    apply step_struct; [done|]. clear Hok Hv0 Hv. revert columns n0 c0 cs1 fs1 n1 c1 Hgo Hfs.
    induction IHfs as [|f fs Hf _ IH]; intros columns n0 c0 cs1 fs1 n1 c1 Hgo Hfs; [by simplify_eq|].
    inversion_clear Hfs as [|? ? Hokf Hokfs]. destruct columns as [|column columns].
    { simplify_eq. split_and!; [by constructor|done|done]. }
    apply obind_Ok in Hgo as ([[[cs2 f2] n2] c2] & Hf2 & Hgo).
    apply obind_Ok in Hgo as ([[[cs3 fs3] n3] c3] & Hgo & [= <- <- <- <-]).
    apply fields_cons; [by eapply Hf|by eapply IH].
Qed.

Lemma log_finish_ok e counter ctx cs e' counter' ctx' :
  log_ok e → log_finish_chunks string_hash e counter ctx = Ok (cs, e', counter', ctx') →
  step_ok e cs e'.
Proof.
  revert counter ctx cs e' counter' ctx'.
  induction e as [d i|o i v IHv|es is_|v i fs IHfs] using LogicalEncoder_nested_ind;
    intros counter ctx cs e' counter' ctx' Hok He; cbn [log_finish_chunks] in He;
    unfold flat_finish, list_finish in He;
    inversion Hok as [? ? Hd|? ? ? Ho Hv|? ? Hes|? ? ? Hv Hfs]; subst.
  - apply obind_Ok in He as ([[[cs0 d0] n0] c0] & Hd0 & [= <- <- <- <-]).
    apply column_finish_ok in Hd0; [|done]. destruct Hd0. split_and!; [by constructor|done|done].
  - apply obind_Ok in He as ([[[cs0 o0] n0] c0] & Ho0 & He). apply column_finish_ok in Ho0; [|done].
    apply obind_Ok in He as ([[[cs1 v1] n1] c1] & Hv1 & [= <- <- <- <-]).
    apply step_list; [done|]. by eapply IHv.
  - destruct (finish_pushed es is_) as [cs0 es0] eqn:Hes0. simplify_eq.
    apply finish_pushed_ok in Hes0 as [Hcs Hes']; [|done]. split_and!; [by constructor|done|done].
  - apply obind_Ok in He as ([[[cs0 v0] n0] c0] & Hv0 & He). apply column_finish_ok in Hv0; [|done].
    apply obind_Ok in He as ([[[cs1 fs1] n1] c1] & Hgo & [= <- <- <- <-]).
    apply step_struct; [done|]. clear Hok Hv0 Hv. revert n0 c0 cs1 fs1 n1 c1 Hgo Hfs.
    induction IHfs as [|f fs Hf _ IH]; intros n0 c0 cs1 fs1 n1 c1 Hgo Hfs; [by simplify_eq|].
    inversion_clear Hfs as [|? ? Hokf Hokfs].
    apply obind_Ok in Hgo as ([[[cs2 f2] n2] c2] & Hf2 & Hgo).
    apply obind_Ok in Hgo as ([[[cs3 fs3] n3] c3] & Hgo & [= <- <- <- <-]).
    apply fields_cons; [by eapply Hf|by eapply IH].
Qed.

Lemma log_submit_ok e ctx e' ctx' :
  log_ok e → log_submit_dict string_hash e ctx = Ok (e', ctx') → step_ok e [] e'.
Proof.
  revert ctx e' ctx'.
  induction e as [d i|o i v IHv|es is_|v i fs IHfs] using LogicalEncoder_nested_ind;
    intros ctx e' ctx' Hok He; cbn [log_submit_dict] in He;
    inversion Hok as [? ? Hd|? ? ? Ho Hv|? ? Hes|? ? ? Hv Hfs]; subst.
  - apply obind_Ok in He as ([d0 c0] & Hd0 & [= <- <-]).
    apply (phys_submit_ok string_hash L) in Hd0; [|done]. split_and!; [by constructor|done|done].
  - apply obind_Ok in He as ([o0 c0] & Ho0 & He). apply (phys_submit_ok string_hash L) in Ho0; [|done].
    apply obind_Ok in He as ([v1 c1] & Hv1 & [= <- <-]).
    apply (step_list _ _ _ _ _ [] []); [done|]. by eapply IHv.
  - simplify_eq. split_and!; [by constructor|done|done].
  - apply obind_Ok in He as ([v0 c0] & Hv0 & He). apply (phys_submit_ok string_hash L) in Hv0; [|done].
    apply obind_Ok in He as ([fs1 c1] & Hgo & [= <- <-]).
    apply (step_struct _ _ _ _ _ [] []); [done|]. clear Hok Hv0 Hv. revert c0 fs1 c1 Hgo Hfs.
    induction IHfs as [|f fs Hf _ IH]; intros c0 fs1 c1 Hgo Hfs; [by simplify_eq|].
    inversion_clear Hfs as [|? ? Hokf Hokfs].
    apply obind_Ok in Hgo as ([f2 c2] & Hf2 & Hgo).
    apply obind_Ok in Hgo as ([fs3 c3] & Hgo & [= <- <-]).
    apply (fields_cons _ _ _ _ [] []); [by eapply Hf|by eapply IH].
Qed.

(** ** The contract *)

(** The state the writer may assume: columns below [n]. *)
Definition writable (n : Z) (e : LogicalEncoder) : Prop :=
  log_ok e ∧ Forall (λ i, 0 ≤ i < n) (columns_of e).

Lemma step_writable n e cs e' :
  L + 2 * max < 2 ^ 32 → writable n e → step_ok e cs e' →
  chunks_ok n (match cs with [] => None | _ => Some cs end) ∧ writable n e'.
Proof.
  intros Hfits [_ Hcols] (Hok & Hcol & Hcs). split; [|split; [done|by rewrite Hcol]].
  assert (Hall : Forall (λ c, 0 ≤ column_index c < n ∧ chunk_fits c) cs).
  { eapply Forall_impl; [exact Hcs|]. intros c [Hs Hi]. split.
    - by eapply Forall_forall in Hcols.
    - unfold chunk_fits, short in *. lia. }
  unfold chunks_ok. by destruct cs.
Qed.

Lemma logical_contract n :
  L + 2 * max < 2 ^ 32 →
  @EncoderContract LogicalEncoder SharedDictionaryContext (logical_encoder string_hash) n (writable n).
Proof.
  intros Hfits. split.
  - intros e a c ctx res e' c' ctx' Hw He. cbn in He. unfold then_some in He.
    apply obind_Ok in He as ([[[cs e1] n1] c1] & He & [= <- <- <- <-]).
    apply step_writable with (e := e); [done|done|]. eapply log_encode_ok; [apply Hw|done].
  - intros e c ctx res e' c' ctx' Hw He. cbn in He. unfold then_some in He.
    apply obind_Ok in He as ([[[cs e1] n1] c1] & He & [= <- <- <- <-]).
    apply step_writable with (e := e); [done|done|]. eapply log_finish_ok; [apply Hw|done].
  - intros e ctx e' ctx' Hw He. cbn in He.
    eapply (step_writable n e []); [done|done|]. eapply log_submit_ok; [apply Hw|done].
Qed.
End Contract.

(** ** Creating the encoders *)

Section Create.
Context `{EncoderLibs} `{Codecs} `{Sampling}.
Context (L : Z) (pushdown : bool) (size : Z) (Hsize : size ≤ L) (HL : 0 ≤ L).
Context (wasm : WASMWritingContext) (opt : DictionaryTypeOptions) (ct : CompressionType).
Context (seed : Z → Rng).

(** The encoder of a type, created when [idx] is the next column. *)
Definition created (dt : DataType) (idx : ColumnIndexSequence) (e : LogicalEncoder)
    (tree : fb.LogicalTree) (idx' : ColumnIndexSequence) : Prop :=
  log_ok L e ∧ columns_of e = seqZ (current_index idx) (n_columns pushdown dt) ∧
  current_index idx' = current_index idx + n_columns pushdown dt ∧ tree = tree_of pushdown dt.

Definition creates (dt : DataType) : Prop :=
  ∀ idx e tree idx',
    create_encoder pushdown size wasm opt ct seed dt idx = Ok (e, tree, idx') →
    created dt idx e tree idx'.

Lemma next_column_Ok idx i idx' :
  next_column_index idx = Ok (i, idx') → i = current_index idx ∧ current_index idx' = current_index idx + 1.
Proof.
  unfold next_column_index. intros Hn. apply obind_Ok in Hn as (n & [_ ->]%uadd_Ok & [= <- <-]). done.
Qed.

Lemma next_columns_Ok (fields : list Field) idx is_ idx' :
  traverse_st (λ idx (_ : Field), next_column_index idx) idx fields = Ok (is_, idx') →
  is_ = seqZ (current_index idx) (len fields) ∧ current_index idx' = current_index idx + len fields.
Proof.
  revert idx is_ idx'. induction fields as [|f fs IH]; intros idx is_ idx' Ht; cbn in Ht.
  - simplify_eq. rewrite (len_nil (A:=Field)). split; [done|lia].
  - apply obind_Ok in Ht as ([i idx1] & Hn & Ht). apply obind_Ok in Ht as ([is1 idx2] & Ht & [= <- <-]).
    apply next_column_Ok in Hn as [-> Hi]. apply IH in Ht as [-> Hi2].
    rewrite len_cons. pose proof (len_nonneg fs). rewrite (seqZ_cons (current_index idx)) by lia. split; [|lia].
    rewrite Hi. f_equal. f_equal; lia.
Qed.

Lemma seqZ_one i : seqZ i 1 = [i].
Proof. rewrite seqZ_cons by lia. done. Qed.

Lemma create_flat dt idx e tree idx' :
  n_columns pushdown dt = 1 → tree_of pushdown dt = fb.mkLogicalTree fb.FLAT [] →
  (if non_nest_types dt then
     let! d := create_physical_encoder dt size wasm opt ct (seed (get_current_index idx)) in
     let! '(i, idx) := next_column_index idx in
     Ok (FlatColEncoder d i, fb.mkLogicalTree fb.FLAT [], idx)
   else Panic PTodo) = Ok (e, tree, idx') →
  created dt idx e tree idx'.
Proof.
  intros Hn Ht Hc. destruct (non_nest_types dt); [|done].
  apply obind_Ok in Hc as (d & Hd & Hc). apply obind_Ok in Hc as ([i idx1] & Hi & [= <- <- <-]).
  apply next_column_Ok in Hi as [-> Hi]. unfold created. rewrite Hn, Ht. cbn. rewrite seqZ_one.
  split_and!; [|done|done|done]. constructor. by eapply (create_physical_ok L _ size).
Qed.

Lemma create_list nm child nullable (large : bool) :
  creates child →
  creates (if large then LargeList (mkField nm child nullable) else List (mkField nm child nullable)).
Proof.
  intros IH idx e tree idx' Hc.
  assert (Hc' : match pushed_fields pushdown child with
    | Some fields =>
        let! '(indexes, idx) := traverse_st (λ idx (_ : Field), next_column_index idx) idx fields in
        Ok (ListOfStructOfPrimitiveColEncoder
              (map (λ _, ListOfStructColEncoder_new size wasm ct) fields) indexes,
            fb.mkLogicalTree fb.LIST_OF_STRUCT_OF_PRIMITIVE [], idx)
    | None =>
        let! '(i, idx) := next_column_index idx in
        let! offsets_encoder := create_physical_encoder
          (if large then LargeList (mkField nm child nullable) else List (mkField nm child nullable))
          size wasm opt ct (seed i) in
        let! '(values_encoder, child_tree, idx) :=
          create_encoder pushdown size wasm opt ct seed child idx in
        Ok (ListColEncoder offsets_encoder i values_encoder, fb.mkLogicalTree fb.LIST [child_tree], idx)
    end = Ok (e, tree, idx')) by (by destruct large).
  clear Hc. unfold created.
  replace (n_columns pushdown _) with (match pushed_fields pushdown child with
    | Some fields => len fields | None => 1 + n_columns pushdown child end) by (by destruct large).
  replace (tree_of pushdown _) with (match pushed_fields pushdown child with
    | Some _ => fb.mkLogicalTree fb.LIST_OF_STRUCT_OF_PRIMITIVE []
    | None => fb.mkLogicalTree fb.LIST [tree_of pushdown child] end) by (by destruct large).
  destruct (pushed_fields pushdown child) as [fields|].
  - apply obind_Ok in Hc' as ([is_ idx1] & Hi & [= <- <- <-]). apply next_columns_Ok in Hi as [-> Hi].
    split_and!; [|done|done|done]. constructor. apply Forall_map, Forall_true. intros _.
    by apply room_fresh.
  - apply obind_Ok in Hc' as ([i idx1] & Hi & Hc'). apply next_column_Ok in Hi as [-> Hi].
    apply obind_Ok in Hc' as (o & Ho & Hc').
    apply obind_Ok in Hc' as ([[v t] idx2] & Hv & [= <- <- <-]).
    destruct (IH _ _ _ _ Hv) as (Hok & Hcol & Hidx & ->).
    pose proof (n_columns_nonneg pushdown child). cbn [columns_of]. split_and!; [|rewrite seqZ_cons by lia|lia|done].
    + constructor; [by eapply (create_physical_ok L _ size)|done].
    + rewrite Hcol, Hi. f_equal. f_equal; lia.
Qed.

Lemma create_struct fs : Forall (field_all creates) fs → creates (Struct fs).
Proof.
  intros Hfs idx e tree idx' Hc. cbn [create_encoder] in Hc.
  apply obind_Ok in Hc as ([i idx1] & Hi & Hc). apply next_column_Ok in Hi as [-> Hi].
  apply obind_Ok in Hc as ([[es trees] idx2] & Hgo & Hc).
  apply obind_Ok in Hc as (v & Hv & [= <- <- <-]).
  set (count := λ f : Field, match f with mkField _ t _ => n_columns pushdown t end).
  assert (Hfields : Forall (log_ok L) es ∧
    concat (map columns_of es) = seqZ (current_index idx1) (zsum (map count fs)) ∧
    current_index idx2 = current_index idx1 + zsum (map count fs) ∧ 0 ≤ zsum (map count fs) ∧
    trees = map (λ f, match f with mkField _ t _ => tree_of pushdown t end) fs).
  { clear Hi Hv. revert idx1 es trees idx2 Hgo.
    induction Hfs as [|[nm t b] fs Hf _ IH]; intros idx1 es trees idx2 Hgo.
    - simplify_eq. unfold zsum. cbn. split_and!; [constructor|done|lia|done|done].
    - apply obind_Ok in Hgo as ([[e1 t1] idx3] & He1 & Hgo).
      apply obind_Ok in Hgo as ([[es1 ts1] idx4] & Hgo & [= <- <- <-]).
      destruct (Hf _ _ _ _ He1) as (Hok & Hcol & Hidx & ->).
      destruct (IH _ _ _ _ Hgo) as (Hoks & Hcols & Hidxs & Hpos & ->).
      pose proof (n_columns_nonneg pushdown t). cbn [map concat]. rewrite zsum_cons.
      change (count (mkField nm t b)) with (n_columns pushdown t). cbn [data_type] in *.
      split_and!; [by constructor| |lia|lia|done].
      rewrite Hcol, Hcols, Hidx. symmetry. by apply seqZ_app; [|]. }
  destruct Hfields as (Hok & Hcol & Hidx & Hpos & ->).
  unfold created. cbn [columns_of n_columns tree_of]. fold count.
  split_and!; [|rewrite seqZ_cons by lia|lia|done].
  - constructor; [by eapply (create_physical_ok L _ size)|done].
  - rewrite Hcol, Hi. f_equal. f_equal; lia.
Qed.

Lemma create_encoder_ok dt : creates dt.
Proof.
  apply (DataType_nested_ind creates); try (intros; intros ? ? ? ? ?; done).
  - intros []; try done; intros idx e tree idx' Hc; by apply create_flat.
  - intros [nm t b] Hf. apply (create_list _ _ _ false), Hf.
  - intros [nm t b] Hf. apply (create_list _ _ _ true), Hf.
  - apply create_struct.
Qed.
End Create.

(** C31: the physical columns of a file.  The encoder made for a field, when [idx] is
    the next free column, writes exactly the columns [idx], [idx + 1], .. that its
    type needs, in the order of the tree, leaves the first column after them as the
    next free one, and describes itself by the tree of its type. *)
Theorem columns_numbered `{EncoderLibs} `{Codecs} `{Sampling} pushdown seed field field_id size idx
    wasm opt ct e tree idx' :
  create_logical_encoder pushdown seed field field_id size idx wasm opt ct = Ok (e, tree, idx') →
  columns_of e = seqZ (current_index idx) (n_columns pushdown (data_type field)) ∧
  current_index idx' = current_index idx + n_columns pushdown (data_type field) ∧
  tree = tree_of pushdown (data_type field).
Proof.
  intros Hc.
  by destruct (create_encoder_ok size pushdown size (Z.le_refl _) _ _ _ _ _ _ _ _ _ Hc).
Qed.

Section NewWriter.
Context `{!Checksum} `{!Flatbuffers} `{EncoderLibs} `{Codecs} `{Sampling}.
Context (string_hash : string → Z) (coeffs : list (Z * Z)).
Context (max : Z) `{!BoundedUnits max} (Hmax : 0 ≤ max).

#[local] Existing Instance logical_encoder.
#[local] Existing Instance shared_dictionary_ops.

(** The writer of the program: its encoders and its pool of dictionaries. *)
Definition new_writer (pushdown : bool) (seed : Z → Rng) (builtin : outcome (list Z))
    (sch : list Field) (o : FileWriterOptions)
  : outcome (FileWriter (E:=LogicalEncoder) (Ctx:=SharedDictionaryContext)) :=
  FileWriter_try_new (create_logical_encoder pushdown seed) SharedDictionaryContext_new builtin sch o.

(** The physical columns of a schema. *)
Definition schema_columns (pushdown : bool) (sch : list Field) : Z :=
  zsum (map (λ f, n_columns pushdown (data_type f)) sch).

Lemma schema_columns_nonneg pushdown sch : 0 ≤ schema_columns pushdown sch.
Proof.
  unfold schema_columns. induction sch as [|f sch IH]; cbn; [done|]. rewrite zsum_cons.
  pose proof (n_columns_nonneg pushdown (data_type f)). lia.
Qed.

Lemma create_encoders_ok pushdown seed wasm o sch encoders idx :
  create_encoders (create_logical_encoder pushdown seed) wasm o sch = Ok (encoders, idx) →
  current_index idx = schema_columns pushdown sch ∧
  Forall (writable (iounit_size o) (current_index idx)) (map fst encoders) ∧
  map snd encoders = map (λ f, tree_of pushdown (data_type f)) sch.
Proof.
  intros Hc. unfold create_encoders in Hc.
  assert (Hgen : ∀ l fs idx0 encoders idx,
    traverse_st (λ idx '(field_id, field),
      let! '(encoder, child_tree, idx) :=
        create_logical_encoder pushdown seed field (as_signed 32 field_id) (iounit_size o) idx wasm
          (dictionary_type o) (opt_compression_type o) in
      Ok ((encoder, child_tree), idx)) idx0 l = Ok (encoders, idx) →
    map snd l = fs → 0 ≤ current_index idx0 →
    current_index idx = current_index idx0 + schema_columns pushdown fs ∧
    Forall (writable (iounit_size o) (current_index idx)) (map fst encoders) ∧
    map snd encoders = map (λ f, tree_of pushdown (data_type f)) fs).
  { intros l. induction l as [|[id f] l IH]; intros fs idx0 es idx1 Ht Hfs Hpos; cbn in Ht.
    - simplify_eq. cbn. unfold schema_columns, zsum. cbn. split_and!; [lia|done|done].
    - apply obind_Ok in Ht as ([[e t] idx2] & He & Ht). subst fs.
      apply obind_Ok in He as ([[e2 t2] idx3] & He & [= <- <- <-]).
      apply obind_Ok in Ht as ([es1 idx4] & Ht & [= <- <-]).
      destruct (create_encoder_ok (iounit_size o) pushdown (iounit_size o) (Z.le_refl _)
        _ _ _ _ _ _ _ _ _ He) as (Hok & Hcol & Hidx & ->).
      pose proof (n_columns_nonneg pushdown (data_type f)).
      destruct (IH (map snd l) idx3 es1 idx4) as (Hidxs & Hoks & Htrees); [done|done|lia|].
      pose proof (schema_columns_nonneg pushdown (map snd l)).
      cbn [map fst snd]. unfold schema_columns in *. cbn [map]. rewrite zsum_cons.
      split_and!; [lia| |by rewrite Htrees]. constructor; [|done]. split; [done|]. rewrite Hcol.
      apply Forall_forall. intros i Hi%elem_of_seqZ. lia. }
  assert (Hsnd : map snd (zip (range (len sch)) sch) = sch).
  { change (map snd (zip (range (len sch)) sch)) with ((zip (range (len sch)) sch).*2).
    apply snd_zip. unfold range. rewrite length_seqZ. unfold len. lia. }
  apply (Hgen _ sch) in Hc; [|done|done]. exact Hc.
Qed.

Lemma new_writer_ok pushdown seed builtin sch o w :
  0 ≤ iounit_size o →
  new_writer pushdown seed builtin sch o = Ok w →
  num_physical_columns (state w) = schema_columns pushdown sch ∧
  Forall (writable (iounit_size o) (num_physical_columns (state w))) (column_encoders w) ∧
  logical_tree w
  = fb.mkLogicalTree fb.STRUCT (map (λ f, tree_of pushdown (data_type f)) sch).
Proof.
  intros Hs Hw. unfold new_writer, FileWriter_try_new in Hw.
  apply obind_Ok in Hw as (wasm & _ & Hw). apply obind_Ok in Hw as ([encoders idx] & He & [= <-]).
  apply create_encoders_ok in He as (Hidx & Hok & Htrees). cbn. by rewrite Htrees.
Qed.

Lemma new_writer_file `{!ChecksumLaws} `{!FlatbuffersLaws} pushdown seed builtin sch o w
    batches file counters :
  0 ≤ iounit_size o → iounit_size o + 2 * max < 2 ^ 32 →
  new_writer pushdown seed builtin sch o = Ok w →
  @write_file _ _ _ _ (logical_encoder string_hash) (shared_dictionary_ops string_hash coeffs)
    w batches = Ok (file, counters) →
  num_physical_columns (state w) = schema_columns pushdown sch ∧
  logical_tree w = fb.mkLogicalTree fb.STRUCT (map (λ f, tree_of pushdown (data_type f)) sch) ∧
  @file_holds _ _ _ _ (logical_encoder string_hash) (shared_dictionary_ops string_hash coeffs)
    sch o w batches file counters.
Proof.
  intros Hs Hfits Hw Hfile. destruct (new_writer_ok _ _ _ _ _ _ Hs Hw) as (Hn & Hok & Htree).
  split; [done|]. split; [done|].
  eapply (file_reads_back (writable (iounit_size o) (num_physical_columns (state w)))); [|exact Hw| | |exact Hfile].
  - by apply (logical_contract string_hash max (iounit_size o) Hs Hmax).
  - rewrite Hn. apply schema_columns_nonneg.
  - done.
Qed.

(** C25: the file of a real writer.  A writer made with the encoders and the pool of
    dictionaries of the program, for a schema and chunk sizes that leave 32 bits for
    the size of a chunk, has the physical columns and the tree of the schema; and
    whatever batches it writes, the finished file reads back as the row groups and
    chunks its encoders emitted. *)
Theorem new_writer_file_reads_back `{!ChecksumLaws} `{!FlatbuffersLaws} pushdown seed builtin sch o w
    batches file counters :
  0 ≤ iounit_size o → iounit_size o + 2 * max < 2 ^ 32 →
  new_writer pushdown seed builtin sch o = Ok w →
  @write_file _ _ _ _ (logical_encoder string_hash) (shared_dictionary_ops string_hash coeffs)
    w batches = Ok (file, counters) →
  num_physical_columns (state w) = schema_columns pushdown sch ∧
  logical_tree w = fb.mkLogicalTree fb.STRUCT (map (λ f, tree_of pushdown (data_type f)) sch) ∧
  @file_holds _ _ _ _ (logical_encoder string_hash) (shared_dictionary_ops string_hash coeffs)
    sch o w batches file counters.
Proof. apply new_writer_file. Qed.
End NewWriter.

(** ** Examples *)

Section Examples.
#[local] Existing Instance byte_encoder.
#[local] Existing Instance stored.
#[local] Existing Instance no_sampling.

(** A struct of an integer and a list of integers. *)
Definition nested_field : Field :=
  mkField "s" (Struct [mkField "a" Int32 true;
                       mkField "l" (List (mkField "item" Int64 true)) true]) true.

Lemma columns_numbered_witness :
  ∃ e tree idx', create_logical_encoder false (λ _, tt) nested_field 0 64 (mkColumnIndex 3)
      WASMWritingContext_empty NoDictionaryOption Uncompressed = Ok (e, tree, idx') ∧
    columns_of e = [3; 4; 5; 6] ∧ current_index idx' = 7 ∧
    tree = fb.mkLogicalTree fb.STRUCT [fb.mkLogicalTree fb.FLAT [];
             fb.mkLogicalTree fb.LIST [fb.mkLogicalTree fb.FLAT []]].
Proof.
  assert (∃ e tree idx', create_logical_encoder false (λ _, tt) nested_field 0 64 (mkColumnIndex 3)
      WASMWritingContext_empty NoDictionaryOption Uncompressed = Ok (e, tree, idx'))
    as (e & tree & idx' & Hc) by (by eexists _, _, _).
  exists e, tree, idx'. split; [done|].
  destruct (columns_numbered _ _ _ _ _ _ _ _ _ _ _ _ Hc) as (-> & -> & ->). done.
Defined.

Definition int_columns : list Field := [mkField "a" Int32 true; mkField "b" Int64 false].
Definition int_batches : list (list Array * Z) :=
  [([int_array [Some 1; None; Some 3]; PrimArray Int64 [Some (VInt 4); Some (VInt 5); None]], 3);
   ([int_array [Some 6; Some 7]; PrimArray Int64 [Some (VInt 8); None]], 2)].

#[local] Existing Instance sum_checksum.
#[local] Instance int_encoder : LogicalColEncoder LogicalEncoder SharedDictionaryContext :=
  logical_encoder length_hash.
#[local] Instance int_dictionaries : SharedDictionaryOps SharedDictionaryContext :=
  shared_dictionary_ops length_hash constant_coeffs.

Definition int_writer : outcome (FileWriter (E:=LogicalEncoder) (Ctx:=SharedDictionaryContext)) :=
  new_writer false (λ _, tt) (Ok []) int_columns small_groups.

(** Three and two rows, in row groups of three rows. *)
Lemma new_writer_file_reads_back_witness :
  ∃ w file counters, int_writer = Ok w ∧
    @write_file sum_checksum symbol_flatbuffers _ _ int_encoder int_dictionaries w int_batches
    = Ok (file, counters) ∧
    num_physical_columns (state w) = 2 ∧
    @file_holds sum_checksum symbol_flatbuffers _ _ int_encoder int_dictionaries int_columns
      small_groups w int_batches file counters.
Proof.
  assert (Hrun : match (let! w := int_writer in let! w1 := write_batches w int_batches in
        finish_groups w1) with
      | Ok w => Some (len (dictionaries (shared_dictionary_context w)))
      | _ => None end = Some 0) by by vm_compute.
  destruct int_writer as [w| |] eqn:Hw; [|done..]. cbn [obind] in Hrun.
  destruct (write_batches w int_batches) as [w1| |] eqn:Hw1; [|done..]. cbn [obind] in Hrun.
  destruct (finish_groups w1) as [w2| |] eqn:Hw2; [|done..]. injection Hrun as Hd.
  assert (∃ file counters, @write_file sum_checksum symbol_flatbuffers _ _ int_encoder
      int_dictionaries w int_batches = Ok (file, counters)) as (file & counters & Hf).
  { unfold write_file. rewrite Hw1. cbn [obind]. rewrite finish_file_split, Hw2. cbn [obind].
    destruct (@write_tail_no_dicts _ symbol_flatbuffers (schema w2) (logical_tree w2)
      (writer_schema_checksum w2) (get_sorted_wasms (wasm_context w2)) (state w2)) as [file Hf].
    eexists file, _. cbn [finish_and_flush int_dictionaries shared_dictionary_ops].
    unfold ctx_finish_and_flush. apply len_0 in Hd as ->.
    change (zip (range (len [])) []) with (@nil (Z * Dict.Dictionary)). cbn [traverse obind map].
    by rewrite Hf. }
  exists w, file, counters.
  destruct (@new_writer_file_reads_back sum_checksum symbol_flatbuffers _ _ _ length_hash
    constant_coeffs 257 byte_units_bounded ltac:(lia) sum_checksum_laws symbol_flatbuffers_laws
    false (λ _, tt : @Rng no_sampling) (Ok []) int_columns small_groups w int_batches file counters)
    as (Hn & _ & Hh); [done|done|exact Hw|exact Hf|].
  split_and!; [done|exact Hf|exact Hn|exact Hh].
Defined.
End Examples.
