(* ===== verification/Table.v ===== *)
(** * The columns of the row groups of a table

    When every column is flat and its encoder uses no dictionary of its own, the
    columns do not touch each other: the chunks of a column in a row group are what
    its encoder alone gives for the column's arrays in the batches of that group. *)

From S2P Require Import Prelude Arrow Common Footer Options Chunks Encoders.
From S2P Require Import Selection Reader FileRoundtrip Wire Writer WriterSpec Dict SharedDict.
From S2P Require Import PhysEnc PhysEncFacts LogicalEnc LogicalEncFacts.

(** ** Which batches are in which row group *)

Section Place.
Context {B : Type} (rows : B → Z) (row_group_size : Z).

Definition rows_of (bs : list B) : Z := zsum (map (wrap 32 ∘ rows) bs).

(** A row group is closed by the batch that fills it; the last one at the end. *)
Definition place_batch (st : list (list B) * list B) (b : B) : list (list B) * list B :=
  let '(closed, current) := st in
  let current := current ++ [b] in
  if row_group_size <=? rows_of current then (closed ++ [current], []) else (closed, current).

Definition batch_groups (batches : list B) : list (list B) :=
  let '(closed, current) := foldl place_batch ([], []) batches in closed ++ [current].

Lemma place_batches_concat closed current batches :
  let '(closed', current') := foldl place_batch (closed, current) batches in
  concat closed' ++ current' = concat closed ++ current ++ batches.
Proof.
  revert closed current. induction batches as [|b bs IH]; intros closed current; cbn [foldl].
  - by rewrite app_nil_r.
  - unfold place_batch at 2. destruct (row_group_size <=? rows_of (current ++ [b])).
    + specialize (IH (closed ++ [current ++ [b]]) []). destruct (foldl _ _ bs).
      rewrite IH, concat_app. cbn. by rewrite app_nil_r, <-!app_assoc.
    + specialize (IH closed (current ++ [b])). destruct (foldl _ _ bs). by rewrite IH, <-!app_assoc.
Qed.

(** No batch is lost, doubled or moved. *)
Lemma batch_groups_concat batches : concat (batch_groups batches) = batches.
Proof.
  unfold batch_groups. pose proof (place_batches_concat [] [] batches) as Hc.
  destruct (foldl _ _ batches). rewrite concat_app. cbn in *. by rewrite app_nil_r.
Qed.
End Place.

(** A batch is its columns and its number of rows; the arrays of column [i]. *)
Abbreviation Batch := (list Array * Z)%type.

Definition column (i : nat) (bs : list Batch) : list Array := omap (λ b, b.1 !! i) bs.

Lemma column_snoc i bs b a : b.1 !! i = Some a → column i (bs ++ [b]) = column i bs ++ [a].
Proof. intros Ha. unfold column. rewrite omap_app. cbn. by rewrite Ha. Qed.

(** ** One column among others *)

Section Columns.
Context `{EncoderLibs} `{Codecs} `{Sampling} (string_hash : string → Z) (coeffs : list (Z * Z)).
#[local] Instance encoders : LogicalColEncoder LogicalEncoder SharedDictionaryContext :=
  logical_encoder string_hash.
#[local] Instance dictionary_ops : SharedDictionaryOps SharedDictionaryContext :=
  shared_dictionary_ops string_hash coeffs.

Abbreviation S := (Spec LogicalEncoder SharedDictionaryContext).

Definition column_of (i : nat) (c : EncodedColumnChunk) : Prop := column_index c = Z.of_nat i.
#[export] Instance column_of_dec i c : Decision (column_of i c) :=
  decide (column_index c = Z.of_nat i).

(** How a step may change the pool of dictionaries. *)
Section Growing.
Context (grows : relation SharedDictionaryContext) `{!PreOrder grows}.

Record same_rest (s s' : S) : Prop := {
  sr_ctx : grows (sp_ctx s) (sp_ctx s');
  sr_rows : sp_rows s' = sp_rows s;
  sr_groups : sp_groups s' = sp_groups s;
  sr_current : g_rows (sp_current s') = g_rows (sp_current s);
  sr_width : length (sp_encoders s') = length (sp_encoders s);
}.

Lemma same_rest_trans s1 s2 s3 : same_rest s1 s2 → same_rest s2 s3 → same_rest s1 s3.
Proof using PreOrder0. intros [] []. split; [by etrans|congruence..]. Qed.

(** A step per column.  [Pre] becomes [Post] for each column, and a step of one
    column, as [only] says, leaves those of the others alone. *)
Lemma each_column {A} (only : nat → S → S → Prop) (f : S → Z * A → outcome S) (Pre Post : nat → A → S → Prop) k l s s' :
  (∀ i a s s', Pre i a s → f s (Z.of_nat i, a) = Ok s' →
     Post i a s' ∧ only i s s' ∧ same_rest s s') →
  (∀ i j a s s', i ≠ j → only i s s' → Pre j a s → Pre j a s') →
  (∀ i j a s s', i ≠ j → only i s s' → Post j a s → Post j a s') →
  (∀ i a, l !! i = Some a → Pre (k + i)%nat a s) →
  fold_m f s (zip (seqZ (Z.of_nat k) (len l)) l) = Ok s' →
  (∀ i a, l !! i = Some a → Post (k + i)%nat a s') ∧ same_rest s s' ∧
  (∀ j a, (j < k)%nat → Post j a s → Post j a s').
Proof.
  intros Hstep Hpre Hpost. revert k s. induction l as [|a l IH]; intros k s Hl Hf.
  - cbn in Hf. injection Hf as <-. split; [intros i a Hi; by rewrite lookup_nil in Hi|]. split; [by split|done].
  - rewrite len_cons, seqZ_cons in Hf by (pose proof (len_nonneg l); lia).
    cbn [zip zip_with fold_m] in Hf. apply obind_Ok in Hf as (s1 & Hs1 & Hf).
    destruct (Hstep k a s s1) as (Hka & Honly & Hrest); [|done|].
    { specialize (Hl 0%nat a eq_refl). by rewrite Nat.add_0_r in Hl. }
    replace (Z.succ (Z.of_nat k)) with (Z.of_nat (Datatypes.S k)) in Hf by lia.
    replace (Z.pred (1 + len l)) with (len l) in Hf by lia.
    destruct (IH (Datatypes.S k) s1) as (Hpl & Hrl & Hkeep).
    { intros i b Hb. specialize (Hl (Datatypes.S i) b Hb).
      replace (k + Datatypes.S i)%nat with (Datatypes.S k + i)%nat in Hl by lia.
      apply (Hpre k _ b s s1); [lia|done|done]. }
    { exact Hf. }
    split_and!.
    + intros [|i] b Hb; cbn in Hb; simplify_eq.
      * rewrite Nat.add_0_r. apply Hkeep; [lia|done].
      * replace (k + Datatypes.S i)%nat with (Datatypes.S k + i)%nat by lia. by apply Hpl.
    + by eapply same_rest_trans.
    + intros j b Hj Hjb. apply Hkeep; [lia|]. apply (Hpost k j b s s1); [lia|done|done].
Qed.

(** ** Batches *)

(** What is said of a column before, between and after the batches of a row group, for
    arrays that fit it, and that a step of another column does not touch it.  What a row
    group holds may refer to the pool of dictionaries. *)
Record ColumnSteps (fits : nat → Array → Prop) (only : nat → S → S → Prop)
    (pending finished : list Array → nat → S → Prop)
    (written : SharedDictionaryContext → list Array → nat → Group → Prop) : Prop := {
  grows_sharing c c' : grows c c' → ctx_is_multi_col_sharing c' = ctx_is_multi_col_sharing c;
  written_grows c c' arrs i g : grows c c' → written c arrs i g → written c' arrs i g;
  pending_apart arrs i j s s' : i ≠ j → only i s s' → pending arrs j s → pending arrs j s';
  finished_apart arrs i j s s' : i ≠ j → only i s s' → finished arrs j s → finished arrs j s';
  write_step rows arrs i (s : S) col s' :
    pending arrs i s → fits i col → sp_write_column ∅ rows s (Z.of_nat i, col) = Ok s' →
    pending (arrs ++ [col]) i s' ∧ only i s s' ∧ same_rest s s';
  finish_step arrs i (s : S) s' :
    pending arrs i s → sp_run_encoder finish s (Z.of_nat i) = Ok s' →
    finished arrs i s' ∧ only i s s' ∧ same_rest s s';
  pending_rows arrs i (s : S) rows group_rows :
    pending arrs i s →
    pending arrs i (mkSpec (sp_encoders s) (sp_counters s) (sp_ctx s) rows (sp_groups s)
                      (mkGroup group_rows (g_chunks (sp_current s))));
  finished_again arrs i s : finished arrs i s → pending [] i (sp_close_group s);
  finished_written arrs i s : finished arrs i s → written (sp_ctx s) arrs i (sp_current s);
}.

(** The row group holds the batches. *)
Definition group_written {written : list Array → nat → Group → Prop} (n : nat) (bs : list Batch)
    (g : Group) : Prop :=
  g_rows g = rows_of snd bs ∧ ∀ i, (i < n)%nat → written (column i bs) i g.

Section Batches.
Context {fits : nat → Array → Prop} {only : nat → S → S → Prop}.
Context {pending finished : list Array → nat → S → Prop}.
Context {written : SharedDictionaryContext → list Array → nat → Group → Prop}.
Context (steps : ColumnSteps fits only pending finished written) (n : nat).

(** A batch with an array for each column. *)
Definition batch_fits (b : Batch) : Prop :=
  length b.1 = n ∧ ∀ i a, b.1 !! i = Some a → fits i a.

(** The batches so far are in the closed row groups and in the current one. *)
Record table_state (ctx : SharedDictionaryContext) (st : list (list Batch) * list Batch) (s : S)
    : Prop := {
  ts_width : length (sp_encoders s) = n;
  ts_ctx : grows ctx (sp_ctx s);
  ts_closed : Forall2 (group_written (written:=written (sp_ctx s)) n) st.1 (sp_groups s);
  ts_rows : g_rows (sp_current s) = rows_of snd st.2;
  ts_columns i : (i < n)%nat → pending (column i st.2) i s;
}.

Lemma groups_grow c c' bss gs :
  grows c c' → Forall2 (group_written (written:=written c) n) bss gs →
  Forall2 (group_written (written:=written c') n) bss gs.
Proof using steps.
  intros Hc HF. eapply Forall2_impl; [exact HF|]. intros bs g [Hr Hg]. split; [done|].
  intros i Hi. eapply (written_grows _ _ _ _ _ steps); [exact Hc|by apply Hg].
Qed.

Lemma write_columns rows bs b (s s' : S) :
  batch_fits b → (∀ i, (i < n)%nat → pending (column i bs) i s) →
  fold_m (sp_write_column ∅ rows) s (Writer.enumerate b.1) = Ok s' →
  (∀ i, (i < n)%nat → pending (column i (bs ++ [b])) i s') ∧ same_rest s s'.
Proof.
  intros [Hn Hfits] Hp Hf. unfold Writer.enumerate, range in Hf.
  destruct (each_column only (sp_write_column ∅ rows) (λ i a s, pending (column i bs) i s ∧ fits i a)
    (λ i a, pending (column i bs ++ [a]) i) 0 b.1 s s') as (Hall & Hrest & _).
  - intros i a t t' [Hpre Hfit] Hw. by apply (write_step _ _ _ _ _ steps rows).
  - intros i j a t t' Hij Ho [Hpre Hfit]. split; [by apply (pending_apart _ _ _ _ _ steps _ i j t)|done].
  - intros i j a t t' Hij Ho. by apply (pending_apart _ _ _ _ _ steps _ i).
  - intros i a Ha. split; [|by apply Hfits]. apply Hp. rewrite <-Hn. by eapply lookup_lt_Some.
  - exact Hf.
  - split; [|done]. intros i Hi. destruct (lookup_lt_is_Some_2 b.1 i) as [a Ha]; [lia|].
    rewrite (column_snoc _ _ _ a) by done. by apply Hall.
Qed.

Lemma fold_range {T} (f : T → Z → outcome T) s m :
  fold_m f s (range (Z.of_nat m))
  = fold_m (λ s (p : Z * unit), f s p.1) s (zip (seqZ 0 (len (replicate m tt))) (replicate m tt)).
Proof.
  unfold range. rewrite len_replicate. set (l := seqZ 0 (Z.of_nat m)).
  assert (Hl : length l = m) by (unfold l; rewrite length_seqZ; lia). clearbody l. revert l Hl s.
  induction m as [|m IH]; intros [|x l] Hl s; try done. cbn.
  destruct (f s x); cbn; [|done..]. apply IH. by injection Hl.
Qed.

Lemma finish_columns bs (s s' : S) :
  length (sp_encoders s) = n → (∀ i, (i < n)%nat → pending (column i bs) i s) →
  sp_flush_pending s = Ok s' →
  (∀ i, (i < n)%nat → finished (column i bs) i s') ∧ same_rest s s'.
Proof.
  intros Hn Hp Hf. unfold sp_flush_pending, len in Hf. rewrite Hn, fold_range in Hf.
  destruct (each_column only (λ s (p : Z * unit), sp_run_encoder finish s p.1)
    (λ i _, pending (column i bs) i) (λ i _, finished (column i bs) i) 0 (replicate n tt) s s')
    as (Hall & Hrest & _).
  - intros i a t t' Hpre Hw. by apply (finish_step _ _ _ _ _ steps).
  - intros i j a t t' Hij Ho. by apply (pending_apart _ _ _ _ _ steps _ i).
  - intros i j a t t' Hij Ho. by apply (finished_apart _ _ _ _ _ steps _ i).
  - intros i a Ha. apply Hp. by apply lookup_replicate in Ha as [_ ?].
  - exact Hf.
  - split; [|done]. intros i Hi. apply (Hall i tt). by apply lookup_replicate.
Qed.

Lemma finish_group ctx closed current (s s' : S) :
  table_state ctx (closed, current) s → sp_flush_pending s = Ok s' →
  table_state ctx (closed ++ [current], []) (sp_close_group s').
Proof.
  intros [Hw Hctx Hc Hr Hp] Hf. destruct (finish_columns _ _ _ Hw Hp Hf) as [Hfin Hrest].
  destruct Hrest as [R1 R2 R3 R4 R5]. split; cbn in *.
  - congruence.
  - by etrans.
  - apply Forall2_app; [rewrite R3; by eapply groups_grow|]. constructor; [|done]. split; [congruence|].
    intros i Hi. by apply (finished_written _ _ _ _ _ steps), Hfin.
  - done.
  - intros i Hi. by eapply (finished_again _ _ _ _ _ steps), Hfin.
Qed.

Lemma write_batch_state ctx rgs st (s : S) b s' :
  batch_fits b → table_state ctx st s → sp_write_batch ∅ rgs s b.1 b.2 = Ok s' →
  table_state ctx (place_batch snd rgs st b) s'.
Proof.
  intros Hn [Hw Hctx Hc Hr Hp] Hb. unfold sp_write_batch in Hb.
  apply obind_Ok in Hb as (s1 & Hs1 & Hb). apply obind_Ok in Hb as (s2 & Hs2 & Hb).
  destruct (write_columns _ _ _ _ _ Hn Hp Hs1) as [Hp1 [R1 R2 R3 R4 R5]].
  unfold sp_add_rows in Hs2. apply obind_Ok in Hs2 as (in_file & Hfile & Hs2).
  apply obind_Ok in Hs2 as (in_group & Hgroup & [= <-]).
  apply uadd_Ok in Hfile as [_ ->]. apply uadd_Ok in Hgroup as [_ ->].
  destruct st as [closed current]. cbn [fst snd] in *. unfold place_batch.
  assert (Hrows : g_rows (sp_current s1) + wrap 32 b.2 = rows_of snd (current ++ [b])).
  { unfold rows_of. rewrite R4, Hr, map_app, zsum_app. cbn. rewrite zsum_cons. unfold rows_of, zsum.
    cbn. lia. }
  rewrite Hrows in Hb. cbn [sp_current g_rows] in Hb.
  assert (Hst : table_state ctx (closed, current ++ [b]) (mkSpec (sp_encoders s1) (sp_counters s1)
    (sp_ctx s1) (sp_rows s1 + wrap 32 b.2) (sp_groups s1)
    (mkGroup (rows_of snd (current ++ [b])) (g_chunks (sp_current s1))))).
  { split; cbn; [congruence|by etrans|rewrite R3; by eapply groups_grow|done|].
    intros i Hi. by apply (pending_rows _ _ _ _ _ steps), Hp1. }
  destruct (rgs <=? rows_of snd (current ++ [b])).
  - apply obind_Ok in Hb as (s3 & Hs3 & [= <-]). by eapply finish_group.
  - by injection Hb as <-.
Qed.

(** The row groups of a finished table. *)
Lemma table_written ctx rgs batches (s s1 s' : S) :
  Forall batch_fits batches → table_state ctx ([], []) s →
  is_multi_col_sharing ctx = false →
  sp_write_batches ∅ rgs s batches = Ok s1 → sp_finish s1 = Ok s' →
  Forall2 (group_written (written:=written (sp_ctx s')) n) (batch_groups snd rgs batches) (sp_groups s') ∧
  grows ctx (sp_ctx s').
Proof.
  intros Hb Hs Hshare Hw Hfin.
  assert (Hst : table_state ctx (foldl (place_batch snd rgs) ([], []) batches) s1).
  { clear Hfin. revert Hw. unfold sp_write_batches. revert Hs. generalize (@nil (list Batch), @nil Batch).
    revert s. induction Hb as [|b bs Hb _ IH]; intros s st Hs Hw; cbn in Hw.
    - by simplify_eq.
    - apply obind_Ok in Hw as (s2 & Hs2 & Hw). cbn [foldl]. eapply IH; [|exact Hw].
      by eapply write_batch_state. }
  unfold batch_groups. destruct (foldl _ _ _) as [closed current].
  pose proof (grows_sharing _ _ _ _ _ steps _ _ (ts_ctx _ _ _ Hst)) as Hsh.
  unfold sp_finish in Hfin. cbn [is_multi_col_sharing dictionary_ops shared_dictionary_ops] in Hfin, Hshare.
  rewrite Hsh, Hshare in Hfin. cbn [obind] in Hfin.
  apply obind_Ok in Hfin as (s3 & Hs3 & [= <-]).
  destruct (finish_group _ _ _ _ _ Hst Hs3) as [_ Hctx Hc _ _]. done.
Qed.
End Batches.
End Growing.

(** What a step of column [i] leaves alone. *)
Record only_column (i : nat) (s s' : S) : Prop := {
  oc_encoders j : j ≠ i → sp_encoders s' !! j = sp_encoders s !! j;
  oc_counters j : j ≠ i → sp_counters s' !! j = sp_counters s !! j;
  oc_chunks j : j ≠ i → filter (column_of j) (g_chunks (sp_current s'))
                        = filter (column_of j) (g_chunks (sp_current s));
}.

(** ** A flat column without a dictionary *)

Context (limit : Z) (wasm : WASMWritingContext) (enable_dict : bool) (ct : CompressionType).
Context (Hlimit : 0 ≤ limit).

Definition fresh : EncoderDictColEncoder := EncoderDictColEncoder_new limit wasm enable_dict ct.

Definition in_col (i : nat) (cs : list EncodedColumnChunk) : list EncodedColumnChunk :=
  map (λ c, update_column_index c (Z.of_nat i)) cs.

(** Column [i] has encoded [arrs] in the current row group. *)
Definition pending (arrs : list Array) (i : nat) (s : S) : Prop :=
  ∃ c0 chunks e c, fold_m local_step ([], fresh, c0) arrs = Ok (chunks, e, c) ∧
    sp_encoders s !! i = Some (FlatColEncoder (PEncoderDict e) (Z.of_nat i)) ∧
    sp_counters s !! i = Some c ∧
    filter (column_of i) (g_chunks (sp_current s)) = in_col i chunks.

(** The chunks of column [i] in a row group are those of [arrs]. *)
Definition column_written (arrs : list Array) (i : nat) (g : Group) : Prop :=
  ∃ c0 chunks e c, ed_run fresh arrs c0 = Ok (chunks, e, c) ∧
    filter (column_of i) (g_chunks g) = in_col i chunks.

Definition finished (arrs : list Array) (i : nat) (s : S) : Prop :=
  column_written arrs i (sp_current s) ∧ (∃ c, sp_counters s !! i = Some c) ∧
  sp_encoders s !! i = Some (FlatColEncoder (PEncoderDict fresh) (Z.of_nat i)).

Lemma in_col_same i cs : filter (column_of i) (in_col i cs) = in_col i cs.
Proof.
  induction cs as [|c cs IH]; [done|]. cbn [in_col map]. rewrite filter_cons_True by done.
  f_equal. exact IH.
Qed.

Lemma in_col_other i j cs : j ≠ i → filter (column_of j) (in_col i cs) = [].
Proof.
  intros Hj. induction cs as [|c cs IH]; [done|]. cbn [in_col map].
  rewrite filter_cons_False; [exact IH|]. unfold column_of. cbn. lia.
Qed.

Lemma pending_other arrs i j s s' :
  i ≠ j → only_column i s s' → pending arrs j s → pending arrs j s'.
Proof.
  intros Hij [He Hc Hch] (c0 & chunks & e & c & Hf & Hse & Hsc & Hfi).
  exists c0, chunks, e, c. by rewrite He, Hc, Hch by done.
Qed.

Lemma finished_other arrs i j s s' :
  i ≠ j → only_column i s s' → finished arrs j s → finished arrs j s'.
Proof.
  intros Hij [He Hc Hch] ((c0 & chunks & e & c & Hf & Hfi) & Hsc & Hse). unfold finished, column_written.
  rewrite He, Hc, Hch by done. split; [|done]. by exists c0, chunks, e, c.
Qed.

(** A step of column [i] of which the encoder is [e]. *)
Lemma run_column run (s : S) i s' e :
  sp_encoders s !! i = Some e → sp_run_encoder run s (Z.of_nat i) = Ok s' →
  ∃ c res e' c' ctx', sp_counters s !! i = Some c ∧ run e c (sp_ctx s) = Ok (res, e', c', ctx') ∧
    s' = mkSpec (<[i := e']> (sp_encoders s)) (<[i := c']> (sp_counters s)) ctx' (sp_rows s)
           (sp_groups s) (mkGroup (g_rows (sp_current s)) (g_chunks (sp_current s) ++ default [] res)).
Proof.
  intros He Hr. unfold sp_run_encoder in Hr. apply obind_Ok in Hr as (e1 & He1 & Hr).
  apply obind_Ok in Hr as (c & Hc & Hr). apply obind_Ok in Hr as ([[[res e'] c'] ctx'] & Hrun & [= <-]).
  apply index_Ok in He1 as [_ He1]. apply index_Ok in Hc as [_ Hc]. rewrite Nat2Z.id in *.
  simplify_eq. by exists c, res, e', c', ctx'.
Qed.

Lemma then_some_chunks cs e c ctx :
  ∃ res, then_some (Ok (cs, e, c, ctx)) = Ok (res, e, c, ctx) ∧ default [] res = cs.
Proof. unfold then_some. cbn. destruct cs; by eexists. Qed.

(** Emitting chunks of column [i]. *)
Lemma emit_only i (s : S) e' c' chunks :
  let s' : S := mkSpec (<[i := e']> (sp_encoders s)) (<[i := c']> (sp_counters s)) (sp_ctx s) (sp_rows s)
              (sp_groups s) (mkGroup (g_rows (sp_current s)) (g_chunks (sp_current s) ++ in_col i chunks))
  in only_column i s s' ∧ same_rest eq s s'.
Proof.
  cbv zeta. split; split; cbn; try done.
  - intros j Hj. by rewrite list_lookup_insert_ne.
  - intros j Hj. by rewrite list_lookup_insert_ne.
  - intros j Hj. by rewrite filter_app, in_col_other, app_nil_r.
  - by rewrite length_insert.
Qed.

Lemma write_pending rows arrs i (s : S) col s' :
  pending arrs i s → sp_write_column ∅ rows s (Z.of_nat i, col) = Ok s' →
  pending (arrs ++ [col]) i s' ∧ only_column i s s' ∧ same_rest eq s s'.
Proof.
  intros (c0 & chunks & e & c & Hf & Hse & Hsc & Hfi) Hw. unfold sp_write_column in Hw.
  apply obind_Ok in Hw as (x & _ & Hw). rewrite lookup_empty in Hw.
  apply (run_column _ _ _ _ _ Hse) in Hw as (c1 & res & e' & c' & ctx' & Hc1 & Hrun & ->).
  assert (c1 = c) as -> by congruence. cbn [encode encoders logical_encoder log_encode_chunks] in Hrun.
  unfold flat_encode, in_column, phys_encode in Hrun.
  destruct (ed_encode e col c) as [[[more e1] c2]| |] eqn:Hed; [|done..]. cbn [obind] in Hrun.
  fold (in_col i more) in Hrun.
  destruct (then_some_chunks (in_col i more) (FlatColEncoder (PEncoderDict e1) (Z.of_nat i)) c2 (sp_ctx s))
    as (res' & Hres & Hdef). rewrite Hres in Hrun. injection Hrun as <- <- <- <-. rewrite Hdef.
  split; [|apply emit_only].
  exists c0, (chunks ++ more), e1, c2. split_and!.
  - rewrite fold_m_app, Hf. cbn [obind fold_m]. unfold local_step. by rewrite Hed.
  - cbn. apply list_lookup_insert_eq. by eapply lookup_lt_Some.
  - cbn. apply list_lookup_insert_eq. by eapply lookup_lt_Some.
  - cbn. rewrite filter_app, Hfi, in_col_same. unfold in_col. by rewrite map_app.
Qed.

Lemma finish_pending arrs i (s : S) s' :
  pending arrs i s → sp_run_encoder finish s (Z.of_nat i) = Ok s' →
  finished arrs i s' ∧ only_column i s s' ∧ same_rest eq s s'.
Proof.
  intros (c0 & chunks & e & c & Hf & Hse & Hsc & Hfi) Hw.
  apply (run_column _ _ _ _ _ Hse) in Hw as (c1 & res & e' & c' & ctx' & Hc1 & Hrun & ->).
  assert (c1 = c) as -> by congruence. cbn [finish encoders logical_encoder log_finish_chunks] in Hrun.
  unfold flat_finish, in_column, phys_finish in Hrun.
  destruct (ed_finish e c) as [[more e1] c2] eqn:Hed. cbn [obind] in Hrun. fold (in_col i more) in Hrun.
  destruct (then_some_chunks (in_col i more) (FlatColEncoder (PEncoderDict e1) (Z.of_nat i)) c2 (sp_ctx s))
    as (res' & Hres & Hdef). rewrite Hres in Hrun. injection Hrun as <- <- <- <-. rewrite Hdef.
  assert (Hedrun : ed_run fresh arrs c0 = Ok (chunks ++ more, e1, c2))
    by (unfold ed_run; rewrite Hf; cbn [obind]; by rewrite Hed).
  destruct (ed_run_writes limit wasm enable_dict ct arrs c0 _ _ _ Hlimit Hedrun) as (_ & -> & _).
  split; [|apply emit_only]. unfold finished. cbn. split_and!.
  - exists c0, (chunks ++ more), fresh, c2. split; [done|]. cbn.
    rewrite filter_app, Hfi, in_col_same. unfold in_col. by rewrite map_app.
  - exists c2. apply list_lookup_insert_eq. by eapply lookup_lt_Some.
  - apply list_lookup_insert_eq. by eapply lookup_lt_Some.
Qed.

(** A finished column starts the next row group as new. *)
Lemma finished_pending arrs i s : finished arrs i s → pending [] i (sp_close_group s).
Proof. intros (_ & [c Hc] & He). by exists c, [], fresh, c. Qed.

Lemma flat_steps : ColumnSteps eq (λ _ _, True) only_column pending finished (λ _, column_written).
Proof.
  split.
  - by intros c c' ->.
  - done.
  - intros arrs i j s s'. apply pending_other.
  - intros arrs i j s s'. apply finished_other.
  - intros rows arrs i s col s' Hp _. by apply write_pending.
  - intros. by apply finish_pending.
  - done.
  - intros. by eapply finished_pending.
  - by intros arrs i s (Hw & _).
Qed.
End Columns.

(** ** The table of a new writer *)

(** Dictionaries are left to the encoding library, or there are none. *)
Definition no_dictionary_column (d : DictionaryTypeOptions) : Prop :=
  d = NoDictionaryOption ∨ d = EncoderDictionary.

(** No dictionary is shared by columns. *)
Abbreviation not_shared o := (dictionary_type o ≠ GlobalDictionaryMultiColSharing).

Lemma no_dictionary_not_shared o : no_dictionary_column (dictionary_type o) → not_shared o.
Proof. intros [-> | ->]; done. Qed.

Section New.
Context `{EncoderLibs} `{Codecs} `{Sampling} `{Checksum} `{Flatbuffers}.

Definition flat_schema (sch : list Field) : Prop := Forall (λ f, non_nest_types (data_type f) = true) sch.

(** The encoder of a column of a writer of options [o]. *)
Abbreviation fresh_of o wasm :=
  (fresh (iounit_size o) wasm (bool_decide (dictionary_type o = EncoderDictionary)) (opt_compression_type o)).

Lemma create_flat_encoder pushdown seed f id size k wasm d ct e tree idx :
  non_nest_types (data_type f) = true →
  create_logical_encoder pushdown seed f id size (mkColumnIndex k) wasm d ct = Ok (e, tree, idx) →
  (∃ p rng, e = FlatColEncoder p k ∧ create_physical_encoder (data_type f) size wasm d ct rng = Ok p) ∧
  idx = mkColumnIndex (k + 1) ∧ k + 1 < 2 ^ 32.
Proof.
  intros Hf Hc. unfold create_logical_encoder in Hc.
  assert (Hflat : (let! d := create_physical_encoder (data_type f) size wasm d ct
                              (seed (get_current_index (mkColumnIndex k))) in
     let! '(i, idx) := next_column_index (mkColumnIndex k) in
     Ok (FlatColEncoder d i, fb.mkLogicalTree fb.FLAT [], idx)) = Ok (e, tree, idx)).
  { revert Hc. destruct (data_type f); try done; cbn [create_encoder]; by rewrite Hf. }
  apply obind_Ok in Hflat as (p & Hphys & Hflat). unfold next_column_index in Hflat.
  cbn [current_index] in Hflat. apply obind_Ok in Hflat as ([i idx1] & Hi & [= <- _ <-]).
  apply obind_Ok in Hi as (k' & [Hk ->]%uadd_Ok & [= <- <-]). split; [by eexists p, _|done].
Qed.

Lemma create_flat_encoders pushdown seed wasm o sch encs idx :
  flat_schema sch →
  create_encoders (create_logical_encoder pushdown seed) wasm o sch = Ok (encs, idx) →
  length encs = length sch ∧ current_index idx = len sch ∧
  (sch ≠ [] → len sch < 2 ^ 32) ∧
  ∀ i f, sch !! i = Some f →
    ∃ p rng, map fst encs !! i = Some (FlatColEncoder p (Z.of_nat i)) ∧
      create_physical_encoder (data_type f) (iounit_size o) wasm (dictionary_type o) (opt_compression_type o) rng
      = Ok p.
Proof.
  intros Hflat Hc. unfold create_encoders, range in Hc.
  change ColumnIndexSequence_default with (mkColumnIndex (Z.of_nat 0)) in Hc.
  assert (Hgen : ∀ sch k ids encs idx, flat_schema sch → length ids = length sch →
    traverse_st (λ idx '(field_id, field),
      let! '(encoder, child_tree, idx) :=
        create_logical_encoder pushdown seed field (as_signed 32 field_id) (iounit_size o) idx wasm
          (dictionary_type o) (opt_compression_type o) in
      Ok ((encoder, child_tree), idx)) (mkColumnIndex (Z.of_nat k)) (zip ids sch) = Ok (encs, idx) →
    length encs = length sch ∧ current_index idx = Z.of_nat k + len sch ∧
    (sch ≠ [] → Z.of_nat k + len sch < 2 ^ 32) ∧
    ∀ i f, sch !! i = Some f →
      ∃ p rng, map fst encs !! i = Some (FlatColEncoder p (Z.of_nat (k + i))) ∧
        create_physical_encoder (data_type f) (iounit_size o) wasm (dictionary_type o) (opt_compression_type o) rng
        = Ok p).
  { clear sch encs idx Hflat Hc. intros sch. induction sch as [|f sch IH];
      intros k ids encs idx Hflat Hids Hc.
    - destruct ids; [|done]. cbn in Hc. simplify_eq. cbn. split_and!; [done| |done|intros i f Hi; done].
      change (len []) with 0. lia.
    - destruct ids as [|id ids]; [done|]. injection Hids as Hids. apply Forall_cons in Hflat as [Hf Hflat].
      cbn [zip zip_with traverse_st] in Hc. apply obind_Ok in Hc as ([et idx1] & Hc1 & Hc).
      apply obind_Ok in Hc1 as ([[e tree] idx2] & Hc1 & [= <- <-]).
      apply obind_Ok in Hc as ([encs' idx3] & Hc & [= <- <-]).
      apply create_flat_encoder in Hc1 as ((p & rng & -> & Hphys) & -> & Hk); [|done].
      replace (Z.of_nat k + 1) with (Z.of_nat (Datatypes.S k)) in Hc by lia.
      destruct (IH (Datatypes.S k) ids encs' idx3 Hflat Hids Hc) as (Hl & Hi & Hb & He).
      rewrite len_cons. split_and!.
      + cbn. by rewrite Hl.
      + lia.
      + intros _. destruct sch as [|f' sch]; [change (len []) with 0; lia|].
        specialize (Hb ltac:(done)). lia.
      + intros [|i] g Hg; cbn in Hg |- *.
        * injection Hg as <-. rewrite Nat.add_0_r. by exists p, rng.
        * replace (k + Datatypes.S i)%nat with (Datatypes.S k + i)%nat by lia. by apply He. }
  apply (Hgen sch 0%nat) in Hc; [exact Hc|done|]. rewrite length_seqZ. unfold len. lia.
Qed.

(** The columns of a writer without dictionaries are encoded by the plain encoder. *)
Lemma plain_encoder o wasm dt rng p :
  non_nest_types dt = true → no_dictionary_column (dictionary_type o) →
  create_physical_encoder dt (iounit_size o) wasm (dictionary_type o) (opt_compression_type o) rng = Ok p →
  p = PEncoderDict (fresh_of o wasm).
Proof.
  intros Hnn Hd Hp. unfold create_physical_encoder in Hp. rewrite Hnn in Hp.
  destruct Hd as [Hd|Hd]; rewrite Hd in *; by injection Hp as <-.
Qed.

(** What a new writer starts from when columns do not share dictionaries. *)
Lemma new_writer_parts pushdown seed builtin sch o w :
  not_shared o → opt_custom_encunit_len o = ∅ →
  FileWriter_try_new (create_logical_encoder pushdown seed) SharedDictionaryContext_new builtin sch o
    = Ok w →
  ∃ encs idx ctx,
    create_encoders (create_logical_encoder pushdown seed) (wasm_context w) o sch = Ok (encs, idx) ∧
    sp_new w = mkSpec (map fst encs) (replicate (Z.to_nat (current_index idx)) EncodingCounter_default)
                 ctx 0 [] (mkGroup 0 []) ∧
    ctx_is_multi_col_sharing ctx = false ∧ dictionaries ctx = [] ∧
    custom_encunit_len w = ∅ ∧ row_group_size w = opt_row_group_size o ∧
    num_physical_columns (state w) = current_index idx ∧
    ctx = SharedDictionaryContext_new (encoding_unit_len o) (iounit_size o) false (opt_compression_type o).
Proof.
  intros Hd Hcustom Hw. unfold FileWriter_try_new in Hw. apply obind_Ok in Hw as (wasm & _ & Hw).
  apply obind_Ok in Hw as ([encs idx] & Hc & [= <-]). eexists encs, idx, _. split; [exact Hc|].
  split; [done|]. rewrite (bool_decide_false _ Hd). by split_and!.
Qed.

(** A new writer starts an empty table. *)
Lemma new_table pushdown seed builtin sch o w :
  flat_schema sch → no_dictionary_column (dictionary_type o) → opt_custom_encunit_len o = ∅ →
  FileWriter_try_new (create_logical_encoder pushdown seed) SharedDictionaryContext_new builtin sch o
    = Ok w →
  ∃ ctx, table_state eq
      (pending:=pending (iounit_size o) (wasm_context w) (bool_decide (dictionary_type o = EncoderDictionary))
                  (opt_compression_type o))
      (written:=λ _, column_written (iounit_size o) (wasm_context w)
                  (bool_decide (dictionary_type o = EncoderDictionary)) (opt_compression_type o))
      (length sch) ctx ([], []) (sp_new w) ∧
    ctx_is_multi_col_sharing ctx = false ∧ dictionaries ctx = [] ∧
    custom_encunit_len w = ∅ ∧ row_group_size w = opt_row_group_size o ∧
    num_physical_columns (state w) = len sch ∧ (sch ≠ [] → len sch < 2 ^ 32).
Proof.
  intros Hflat Hd Hcustom Hw.
  destruct (new_writer_parts _ _ _ _ _ _ (no_dictionary_not_shared o Hd) Hcustom Hw)
    as (encs & idx & ctx & Hc & Hsp & Hshare & Hnd & Hcu & Hr & Hn & _).
  destruct (create_flat_encoders _ _ _ _ _ _ _ Hflat Hc) as (Hl & Hi & Hb & He). rewrite Hi in *.
  exists ctx. split; [|done]. rewrite Hsp.
  split; cbn; [by rewrite length_map, Hl|done|constructor|done|]. intros i Hlt.
  exists EncodingCounter_default, [], (fresh_of o (wasm_context w)), EncodingCounter_default.
  destruct (lookup_lt_is_Some_2 sch i Hlt) as [f Hf]. destruct (He i f Hf) as (p & rng & Hp & Hphys).
  pose proof (Forall_lookup_1 _ _ _ _ Hflat Hf) as Hnn. cbn beta in Hnn.
  apply plain_encoder in Hphys as ->; [|done|done].
  split_and!; [done|done| |done]. apply lookup_replicate. split; [done|]. unfold len. lia.
Qed.

(** The row group holds the batches, written column by column: the chunks of column
    [i] are, in order, a stream of the column's arrays cut at the chunk size. *)
Definition holds_batches (o : FileWriterOptions) (wasm : WASMWritingContext) (n : nat)
    (bs : list Batch) (g : Group) : Prop :=
  g_rows g = rows_of snd bs ∧
  ∀ i, (i < n)%nat → ∃ chunks,
    chunked (plain_units wasm (opt_compression_type o) (bool_decide (dictionary_type o = EncoderDictionary)))
      arr_len (iounit_size o) NoDictionary (column i bs) chunks ∧
    filter (column_of i) (g_chunks g) = in_col i chunks.

Section Rows.
Context (string_hash : string → Z) (coeffs : list (Z * Z)).
Context (max : Z) `{!BoundedUnits max} (Hmax : 0 ≤ max).
#[local] Instance new_encoders : LogicalColEncoder LogicalEncoder SharedDictionaryContext :=
  logical_encoder string_hash.
#[local] Instance new_dictionaries : SharedDictionaryOps SharedDictionaryContext :=
  shared_dictionary_ops string_hash coeffs.

(** C16: the row groups of a file.  When a writer of flat columns without dictionaries of
    their own writes batches and finishes, a row group is closed by the batch that brings
    it to the row group size and the last one at the end; every batch is in exactly one
    row group, in order.  The footer that is read from the file has one entry per row
    group, which gives its rows, those of its batches, its place in the file and, for each
    column, its chunks; and the chunks hold the column's arrays of these batches, in
    order, cut at the chunk size. *)
Theorem table_in_row_groups `{!ChecksumLaws} `{!FlatbuffersLaws} pushdown seed builtin sch o w batches
    file counters :
  0 ≤ iounit_size o → iounit_size o + 2 * max < 2 ^ 32 → flat_schema sch →
  no_dictionary_column (dictionary_type o) → opt_custom_encunit_len o = ∅ →
  new_writer pushdown seed builtin sch o = Ok w →
  Forall (λ b, length b.1 = length sch) batches →
  write_file w batches = Ok (file, counters) →
  concat (batch_groups snd (opt_row_group_size o) batches) = batches ∧
  ∃ groups,
    Forall2 (holds_batches o (wasm_context w) (length sch))
      (batch_groups snd (opt_row_group_size o) batches) groups ∧
    (len file - zsum (map group_len groups) < 2 ^ 32 →
     ∀ R (HR : Reader R) (r : R), ReaderOf R r file →
     ∃ entries, read_footer r = Ok (mkFooter sch entries) ∧
       Forall2 (group_entry (len sch) (opt_enable_io_unit_checksum o) file)
         (placed_groups groups) entries).
Proof using All.
  intros Hs Hfits Hflat Hd Hcustom Hw Hb Hfile. split; [apply batch_groups_concat|].
  destruct (new_table _ _ _ _ _ _ Hflat Hd Hcustom Hw) as (ctx & Hts & Hshare & _ & Hcu & Hrgs & Hn & _).
  destruct (new_writer_file string_hash coeffs max Hmax pushdown seed builtin sch o w batches file counters
    Hs Hfits Hw Hfile) as (_ & _ & s1 & s & Hs1 & Hsf & _ & _ & Hread).
  rewrite Hcu, Hrgs in Hs1. rewrite Hn in Hread. exists (sp_groups s). split.
  - destruct (table_written string_hash coeffs eq (flat_steps string_hash (iounit_size o) (wasm_context w)
      (bool_decide (dictionary_type o = EncoderDictionary)) (opt_compression_type o) Hs) (length sch) ctx
      (opt_row_group_size o) batches (sp_new w) s1 s) as [Hg _]; [|done..|].
    { eapply Forall_impl; [exact Hb|]. by split. }
    eapply Forall2_impl; [exact Hg|]. intros bs g [Hrows Hcols]. split; [done|]. intros i Hi.
    destruct (Hcols i Hi) as (c0 & chunks & e & c & Hrun & Hf). exists chunks. split; [|done].
    by apply ed_run_chunked in Hrun.
  - intros Hlen R HR r Hr. destruct (Hread Hlen R HR r Hr) as (ps & entries & _ & _ & Hfoot & Hg).
    by exists entries.
Qed.
End Rows.
End New.

(** ** An example *)

Section Examples.
#[local] Existing Instance byte_encoder.
#[local] Existing Instance stored.
#[local] Existing Instance no_sampling.
#[local] Existing Instance sum_checksum.
#[local] Existing Instance symbol_flatbuffers.

Definition table_schema : list Field := [mkField "a" Int32 true; mkField "s" Utf8 false].

Definition table_batch (ints : list (option Z)) (strings : list string) : Batch :=
  ([int_array ints; PrimArray Utf8 (map (λ s, Some (VStr s)) strings)], len strings).

(** Batches of three, two and two rows, for row groups of three rows. *)
Definition table_batches : list Batch :=
  [table_batch [Some 1; None; Some 3] ["a"; "b"; "c"];
   table_batch [Some 6; Some 7] ["d"; "e"]; table_batch [None; Some 0] ["f"; "g"]].

Definition table_writer : outcome (FileWriter (E:=LogicalEncoder) (Ctx:=SharedDictionaryContext)) :=
  new_writer false (λ _, tt : @Rng no_sampling) (Ok []) table_schema small_groups.

#[local] Instance table_encoder : LogicalColEncoder LogicalEncoder SharedDictionaryContext :=
  logical_encoder length_hash.
#[local] Instance table_dictionaries : SharedDictionaryOps SharedDictionaryContext :=
  shared_dictionary_ops length_hash constant_coeffs.

(** A file without dictionaries is finished. *)
Lemma finished_without_dicts w batches w1 w2 :
  write_batches w batches = Ok w1 → finish_groups w1 = Ok w2 →
  dictionaries (shared_dictionary_context w2) = [] →
  ∃ file counters, write_file w batches = Ok (file, counters).
Proof.
  intros Hw1 Hw2 Hd. unfold write_file. rewrite Hw1. cbn [obind]. rewrite finish_file_split, Hw2.
  cbn [obind].
  destruct (write_tail_no_dicts (schema w2) (logical_tree w2) (writer_schema_checksum w2)
    (get_sorted_wasms (wasm_context w2)) (state w2)) as [file Hf].
  eexists file, _. cbn [finish_and_flush table_dictionaries shared_dictionary_ops].
  unfold ctx_finish_and_flush. rewrite Hd.
  change (zip (range (len [])) []) with (@nil (Z * Dict.Dictionary)). cbn [traverse obind map].
  by rewrite Hf.
Qed.

Lemma table_in_row_groups_witness :
  ∃ w file counters groups, table_writer = Ok w ∧ write_file w table_batches = Ok (file, counters) ∧
    map length (batch_groups snd 3 table_batches) = [1; 2; 0]%nat ∧ map g_rows groups = [3; 4; 0] ∧
    Forall2 (holds_batches small_groups (wasm_context w) 2) (batch_groups snd 3 table_batches) groups.
Proof.
  assert (Hrun : match (let! w := table_writer in let! w1 := write_batches w table_batches in
        finish_groups w1) with
      | Ok w => Some (len (dictionaries (shared_dictionary_context w)))
      | _ => None end = Some 0) by by vm_compute.
  destruct table_writer as [w| |] eqn:Hw; [|done..]. cbn [obind] in Hrun.
  destruct (write_batches w table_batches) as [w1| |] eqn:Hw1; [|done..]. cbn [obind] in Hrun.
  destruct (finish_groups w1) as [w2| |] eqn:Hw2; [|done..]. injection Hrun as Hd%len_0.
  destruct (finished_without_dicts w table_batches w1 w2 Hw1 Hw2 Hd) as (file & counters & Hfile).
  destruct (@table_in_row_groups _ _ _ sum_checksum symbol_flatbuffers length_hash constant_coeffs 257
    byte_units_bounded ltac:(lia) sum_checksum_laws symbol_flatbuffers_laws false
    (λ _, tt : @Rng no_sampling) (Ok []) table_schema small_groups w table_batches file counters)
    as (_ & groups & Hg & _); [done|done|by repeat constructor|by right|done|exact Hw| |exact Hfile|].
  { by repeat constructor. }
  exists w, file, counters, groups. split_and!; [done|exact Hfile|by vm_compute| |exact Hg].
  assert (Hrows : map g_rows groups = map (rows_of snd) (batch_groups snd 3 table_batches)).
  { symmetry. apply list_eq_Forall2, Forall2_fmap, (Forall2_impl _ _ _ _ Hg). by intros bs g [-> _]. }
  rewrite Hrows. by vm_compute.
Defined.
End Examples.
