(* ===== verification/Decoders.v ===== *)
(** * Decoding units and chunks

    fff-poc/src/decoder/encunit.rs and physical.rs: a unit is decoded by vortex or
    by a WASM binary of the file; a chunk decoder walks over the units of one chunk,
    plain, with a dictionary of its own, or with a shared dictionary. *)

From S2P Require Import Prelude Arrow Common Footer Options Buffers.

(** ** What the decoders take from libraries

    Vortex, the WASM runtime behind [Runtime::call_multi_buf], and Arrow's [concat]
    of several nested arrays of one type. *)
Class DecoderLibs (RT : Type) := {
  vortex_decode : list Z → outcome Array;
  vortex_slice : list Z → Z → Z → outcome Array;
  vortex_list_decode : DataType → list Z → outcome Array;
  vortex_list_struct_decode : DataType → list Z → outcome Array;
  vortex_list_struct_slice : DataType → list Z → Z → Z → outcome Array;
  call_multi_buf : RT → string → list Z → outcome (list (list Z));
  Runtime_try_new : list Z → outcome RT;
  concat_nested : list Array → outcome Array;
}.

(** Arrow's [concat]: at least one array, all of one type. *)
Definition concat_arrays `{DecoderLibs} (arrs : list Array) : outcome Array :=
  match arrs with
  | [] => Err (External "concat requires input of at least one array")
  | [a] => Ok a
  | a :: _ =>
      let dt := arr_data_type a in
      if negb (forallb (λ b, bool_decide (arr_data_type b = dt)) arrs)
      then Err (External "It is not possible to concatenate arrays of different data types")
      else
        match mapM arr_vals arrs with
        | Some vals => Ok (PrimArray dt (concat vals))
        | None => concat_nested arrs
        end
  end.

(** ** Units *)

Definition WASM_FUNC_GENERAL : string := "decode_general_ffi".

(** The implementations of the trait [EncUnitDecoder]; [WASMEncUnitDecoderV2] decodes
    nothing yet. *)
Inductive EncUnitDecoder (RT : Type) :=
  | WASMEncUnitDecoder (data : list Z) (rt : RT) (func_name : string) (output_type : DataType)
      (num_rows : Z)
  | VortexEncUnitDecoder (data : list Z) (output_type : DataType).
Arguments WASMEncUnitDecoder {RT}.
Arguments VortexEncUnitDecoder {RT}.

Section Units.
Context {R RT : Type} `{Reader R} `{Flatbuffers} `{DecoderLibs RT} `{Codecs}.
(** The feature [list-offsets-pushdown]. *)
Context (pushdown : bool).

(** A list of structs without nesting, whose offsets were pushed down. *)
Definition pushed_down (dt : DataType) : bool :=
  match dt with
  | List child | LargeList child =>
      match data_type child with
      | Struct fields => forallb (λ f, non_nest_types (data_type f)) fields && pushdown
      | _ => false
      end
  | _ => false
  end.

Definition unit_decode (d : EncUnitDecoder RT) : outcome Array :=
  match d with
  | WASMEncUnitDecoder data rt func_name output_type num_rows =>
      if non_nest_types output_type then
        let! res := match call_multi_buf rt func_name data with
                    | Err _ => Err (General "WASM call failed")
                    | res => res
                    end in
        primitive_array_from_arrow_buffers_iter output_type res num_rows
      else Panic PTodo
  | VortexEncUnitDecoder data output_type =>
      if non_nest_types output_type then vortex_decode data
      else if pushed_down output_type then vortex_list_struct_decode output_type data
      else match output_type with
           | List _ | LargeList _ => vortex_list_decode output_type data
           | _ => Panic PTodo
           end
  end.

Definition unit_slice (d : EncUnitDecoder RT) (start stop : Z) : outcome Array :=
  match d with
  | WASMEncUnitDecoder _ _ _ _ _ => Err (NYI "slice")
  | VortexEncUnitDecoder data output_type =>
      if non_nest_types output_type then vortex_slice data start stop
      else if pushed_down output_type then vortex_list_struct_slice output_type data start stop
      else match output_type with
           | List _ | LargeList _ => Err (NYI "NYI")
           | _ => Panic PTodo
           end
  end.

(** [cmp_precedence(..).is_lt()], for versions without pre-release tags. *)
Definition version_lt (a b : Version) : bool :=
  (fb.major a <? fb.major b)
  || (fb.major a =? fb.major b)
     && ((fb.minor a <? fb.minor b) || (fb.minor a =? fb.minor b) && (fb.patch a <? fb.patch b)).

(** The reader is too old for a file of version [file_version]. *)
Definition incompatible (reader_version file_version : Version) : bool :=
  version_lt reader_version file_version
  && (negb (fb.major reader_version =? fb.major file_version) || (fb.major reader_version =? 0)).

(** The decoder in the file.  The context keeps the runtimes it has compiled
    ([get_runtime_again] in DecoderFacts.v). *)
Definition wasm_decoder (e : fb.Encoding) (data : list Z) (output_type : DataType)
    (ctx : WASMReadingContext R RT) (num_rows : Z) : outcome (EncUnitDecoder RT) :=
  let! w := ok_or (fb.wasm_encoding e) (General "not provided custom WASM in the file") in
  let! '(rt, _) := get_runtime Runtime_try_new ctx (fb.wasm_id w) in
  Ok (WASMEncUnitDecoder data rt WASM_FUNC_GENERAL output_type num_rows).

Definition create_encunit_decoder (e : fb.Encoding) (ct : CompressionType) (data : list Z)
    (num_rows : Z) (output_type : DataType) (wasm_context : option (WASMReadingContext R RT))
  : outcome (EncUnitDecoder RT) :=
  let! data := if ct =? Uncompressed then Ok data else decompress_data data ct in
  if fb.type_ e =? CASCADE then
    let! ctx := ok_or wasm_context (General "WASM context not found") in
    let! versions := ok_or (get_encoding_versions ctx) (General "Encoding versions not found") in
    let! encoding_version := ok_or (versions !! fb.type_ e) (General "Encoding version not found") in
    let! reader_version := unwrap (DEFAULT_ENCODING_VERSIONS !! fb.type_ e) in
    if incompatible reader_version encoding_version
    then wasm_decoder e data output_type ctx num_rows
    else Ok (VortexEncUnitDecoder data output_type)
  else if fb.type_ e =? CUSTOM_WASM then
    match wasm_context with
    | Some ctx => wasm_decoder e data output_type ctx num_rows
    | None => Err (General "WASM context required for custom encoding")
    end
  else Panic PTodo.
End Units.

(** ** The cache of shared dictionaries, as the decoders see it *)

Record SharedDictionaryCache := mkCache {
  cached_dictionaries : list (option Array);
  dictionary_compressed_sizes : list Z;
  dictionary_chunk_sizes : list Z;
  dictionary_chunk_references : list (list Z);
}.

Definition get_dict (c : SharedDictionaryCache) (i : Z) : option Array :=
  match cached_dictionaries c !! Z.to_nat i with Some d => d | None => None end.
Definition get_dict_size (c : SharedDictionaryCache) (i : Z) : option Z :=
  dictionary_compressed_sizes c !! Z.to_nat i.
Definition get_dict_chunk_sizes (c : SharedDictionaryCache) : list Z := dictionary_chunk_sizes c.
Definition get_dict_references (c : SharedDictionaryCache) : list (list Z) :=
  dictionary_chunk_references c.

(** ** Looking indices up *)

(** The type built from a dictionary of type [dt], when it can be one; a large
    string array is not the [StringArray] the code casts to. *)
Definition dict_array_type (dt : DataType) : outcome DataType :=
  match dt with
  | Int32 | Int64 | Float32 | Float64 | Utf8 | Utf8View | Date32 | Boolean => Ok dt
  | LargeUtf8 => Panic PUnwrap
  | Timestamp u _ => Ok (Timestamp u None)
  | Time32 Second | Time32 Millisecond | Time64 Microsecond | Time64 Nanosecond => Ok dt
  | _ => Err (General "Decoding other datatypes are not supported")
  end.

(** What lies under a null of a dictionary. *)
Definition null_slot (dt : DataType) : value :=
  match dt with
  | Utf8 | Utf8View => VStr ""
  | Float32 | Float64 => VFloat 0
  | Boolean => VBool false
  | _ => VInt 0
  end.

(** [dict_ref.value(ind)]: validity is not looked at. *)
Definition dict_value (dt : DataType) (dict : list (option value)) (i : Z) : outcome value :=
  let! v := index dict i in Ok (default (null_slot dt) v).

(** [index_downcast!] *)
Definition index_downcast (index_type dt : DataType) (dict : list (option value)) (indices : Array)
  : outcome (option Array) :=
  match indices with
  | PrimArray it idx =>
      if decide (it = index_type) then
        let! vals := traverse (λ i : option value, match i with
                       | None => Ok None
                       | Some (VInt x) => let! v := dict_value dt dict x in Ok (Some v)
                       | Some _ => Panic PUnwrap
                       end) idx in
        Ok (Some (PrimArray dt vals))
      else Err (General "Incorrect type of indices")
  | _ => Err (General "Incorrect type of indices")
  end.

(** [dict_index_to_data!], for a dictionary of any type. *)
Definition dict_index_to_data (dict indices : Array) : outcome (option Array) :=
  let! dt := dict_array_type (arr_data_type dict) in
  let! vals := unwrap (arr_vals dict) in
  let dict_len := len vals in
  if dict_len <? 2 ^ 8 then index_downcast UInt8 dt vals indices
  else if dict_len <? 2 ^ 16 then index_downcast UInt16 dt vals indices
  else if dict_len <? 2 ^ 32 then index_downcast UInt32 dt vals indices
  else index_downcast UInt64 dt vals indices.

(** ** Chunks *)

Section Chunks.
Context {R RT : Type} `{Reader R} `{Flatbuffers} `{DecoderLibs RT} `{Codecs}.
Context (pushdown : bool).

(** The units not decoded yet, and their bytes. *)
Record NoDictColDecoder := mkNoDict {
  nd_encunit_iter : list fb.EncUnit;
  nd_encoded_chunk_buf : list Z;
  nd_data_type : DataType;
  nd_wasm_context : option (WASMReadingContext R RT);
}.

Record DictColDecoder := mkDictDecoder {
  dd_encunit_iter : list fb.EncUnit;
  dd_encoded_chunk_buf : list Z;
  dd_data_type : DataType;
  dd_wasm_context : option (WASMReadingContext R RT);
}.

Record SharedDictColDecoder := mkSharedDictDecoder {
  sh_encunit_iter : list fb.EncUnit;
  sh_encoded_chunk_buf : list Z;
  sh_data_type : DataType;
  sh_wasm_context : option (WASMReadingContext R RT);
  shared_dictionary : Array;
}.

(** The decoder of the next unit, and the bytes after it. *)
Definition next_unit (u : fb.EncUnit) (buf : list Z) (dt : DataType)
    (wasm_context : option (WASMReadingContext R RT)) : outcome (EncUnitDecoder RT * list Z) :=
  let! '(data, buf) := split_to buf (fb.eu_size u) in
  let! e := unwrap (fb.eu_encoding u) in
  let! d := create_encunit_decoder e (fb.eu_compression u) data (fb.eu_num_rows u) dt wasm_context in
  Ok (d, buf).

Definition nd_decode_batch (d : NoDictColDecoder) : outcome (option Array * NoDictColDecoder) :=
  match nd_encunit_iter d with
  | [] => Ok (None, d)
  | u :: us =>
      let! '(dec, buf) := next_unit u (nd_encoded_chunk_buf d) (nd_data_type d) (nd_wasm_context d) in
      let! a := unit_decode pushdown dec in
      Ok (Some a, mkNoDict us buf (nd_data_type d) (nd_wasm_context d))
  end.

(** Some rows of a unit: a slice, or a slice of the whole when there is no slicing. *)
Definition unit_rows (dec : EncUnitDecoder RT) (start n : Z) : outcome Array :=
  match unit_slice pushdown dec start (start + n) with
  | Err _ => let! a := unit_decode pushdown dec in arr_slice a start n
  | res => res
  end.

(** The loop of [decode_row_at]. *)
Fixpoint row_loop (dt : DataType) (ctx : option (WASMReadingContext R RT)) (row_id cur remaining : Z)
    (arrays : list Array) (us : list fb.EncUnit) (buf : list Z)
  : outcome (list Array * list fb.EncUnit * list Z) :=
  match us with
  | [] => Ok (arrays, [], buf)
  | u :: us =>
      let n := fb.eu_num_rows u in
      let! next := uadd 64 cur n in
      let! '(arrays, remaining, buf) :=
        if row_id <=? next then
          let! idx := usub row_id cur in
          let! left := usub n idx in
          let to_decode := Z.min remaining left in
          let! '(dec, buf) := next_unit u buf dt ctx in
          let! a := unit_rows dec idx to_decode in
          Ok (arrays ++ [a], remaining - to_decode, buf)
        else
          let! '(_, buf) := split_to buf (fb.eu_size u) in
          Ok (arrays, remaining, buf) in
      if remaining =? 0 then Ok (arrays, us, buf)
      else row_loop dt ctx row_id next remaining arrays us buf
  end.

Definition nd_decode_row_at (d : NoDictColDecoder) (row_id n : Z)
  : outcome (option Array * NoDictColDecoder) :=
  let! '(arrays, us, buf) :=
    row_loop (nd_data_type d) (nd_wasm_context d) row_id 0 n [] (nd_encunit_iter d)
      (nd_encoded_chunk_buf d) in
  let d := mkNoDict us buf (nd_data_type d) (nd_wasm_context d) in
  match arrays with
  | [] => Ok (None, d)
  | _ => let! a := concat_arrays arrays in Ok (Some a, d)
  end.

(** [Int32Array::new_null(1)] *)
Definition empty_dictionary : Array := PrimArray Int32 [None].

Definition dd_decode_batch (d : DictColDecoder) : outcome (option Array * DictColDecoder) :=
  match dd_encunit_iter d with
  | [] => Ok (None, d)
  | du :: us =>
      let! '(dict_decoder, buf) :=
        next_unit du (dd_encoded_chunk_buf d) (dd_data_type d) (dd_wasm_context d) in
      let! dict := if 0 <? fb.eu_num_rows du then unit_decode pushdown dict_decoder
                   else Ok empty_dictionary in
      match us with
      | [] => Err (NYI "Index does not exists")
      | iu :: us =>
          let! '(indices_decoder, buf) := next_unit iu buf Int64 (dd_wasm_context d) in
          let! indices := unit_decode pushdown indices_decoder in
          let! _ := if decide (arr_data_type indices = UInt64) then Ok tt
                    else Err (General "Incorrect type of indices") in
          let! a := dict_index_to_data dict indices in
          Ok (a, mkDictDecoder us buf (dd_data_type d) (dd_wasm_context d))
      end
  end.

Definition sh_decode_batch (d : SharedDictColDecoder) : outcome (option Array * SharedDictColDecoder) :=
  match sh_encunit_iter d with
  | [] => Ok (None, d)
  | iu :: us =>
      let! '(indices_decoder, buf) :=
        next_unit iu (sh_encoded_chunk_buf d) Int64 (sh_wasm_context d) in
      let! indices := unit_decode pushdown indices_decoder in
      let! a := dict_index_to_data (shared_dictionary d) indices in
      Ok (a, mkSharedDictDecoder us buf (sh_data_type d) (sh_wasm_context d) (shared_dictionary d))
  end.

(** The trait [ChunkDecoder]. *)
Inductive ChunkDecoder :=
  | CNoDict (d : NoDictColDecoder)
  | CDict (d : DictColDecoder)
  | CSharedDict (d : SharedDictColDecoder).

Definition chunk_decode_batch (d : ChunkDecoder) : outcome (option Array * ChunkDecoder) :=
  match d with
  | CNoDict d => let! '(a, d) := nd_decode_batch d in Ok (a, CNoDict d)
  | CDict d => let! '(a, d) := dd_decode_batch d in Ok (a, CDict d)
  | CSharedDict d => let! '(a, d) := sh_decode_batch d in Ok (a, CSharedDict d)
  end.

Definition chunk_decode_row_at (d : ChunkDecoder) (row_id n : Z)
  : outcome (option Array * ChunkDecoder) :=
  match d with
  | CNoDict d => let! '(a, d) := nd_decode_row_at d row_id n in Ok (a, CNoDict d)
  | CDict _ | CSharedDict _ => Err (NYI "Random access for dict is not implemented yet")
  end.

Definition create_physical_decoder (encunit_iter : list fb.EncUnit) (e : fb.DictionaryEncoding)
    (shared_dictionary_id : option Z) (dt : DataType) (buf : list Z)
    (ctx : option (WASMReadingContext R RT)) (cache : option SharedDictionaryCache)
  : outcome ChunkDecoder :=
  let supported := non_nest_types dt ||
    match dt with List _ | LargeList _ => true | _ => false end in
  if negb supported then Panic PTodo
  else
    match e with
    | fb.NoDictionary => Ok (CNoDict (mkNoDict encunit_iter buf dt ctx))
    | fb.LocalDictionary _ => Ok (CDict (mkDictDecoder encunit_iter buf dt ctx))
    | fb.SharedDictionary _ =>
        let! cache := ok_or cache
          (General "Shared dictionary cache not found for a shared dictionary column") in
        let! id := ok_or shared_dictionary_id (General "Shared dictionary ID not found") in
        let! dict := ok_or (get_dict cache id) (General "Shared dictionary not found in cache") in
        Ok (CSharedDict (mkSharedDictDecoder encunit_iter buf dt ctx dict))
    end.

(** ** Decoding a whole chunk

    [while let Some(array) = decoder.decode_batch()? { arrays.push(array) }].  The
    bound on the iterations is the number of units: every iteration takes one. *)
Definition units_left (d : ChunkDecoder) : list fb.EncUnit :=
  match d with
  | CNoDict d => nd_encunit_iter d
  | CDict d => dd_encunit_iter d
  | CSharedDict d => sh_encunit_iter d
  end.

Fixpoint decode_all (fuel : nat) (d : ChunkDecoder) : outcome (list Array * ChunkDecoder) :=
  match fuel with
  | O => Ok ([], d)
  | S fuel =>
      let! '(a, d) := chunk_decode_batch d in
      match a with
      | Some a => let! '(arrays, d) := decode_all fuel d in Ok (a :: arrays, d)
      | None => Ok ([], d)
      end
  end.

Definition decode_chunk (d : ChunkDecoder) : outcome (list Array * ChunkDecoder) :=
  decode_all (S (length (units_left d))) d.
End Chunks.
