(* ===== verification/DictCache.v ===== *)
(** * fff-poc/src/dict/shared_dictionary_cache.rs: reading the shared dictionaries

    [try_new_read_all] decodes every dictionary of a file when the file is opened. *)

From S2P Require Import Prelude Arrow Common Footer Options Buffers Decoders.

Section Cache.
Context {R RT : Type} `{Reader R} `{Flatbuffers} `{DecoderLibs RT} `{Codecs}.
Context (pushdown : bool).

(** One chunk of a dictionary of type [dt]. *)
Definition read_dict_chunk (r : R) (ctx : option (WASMReadingContext R RT)) (dt : DataType)
    (chunk_meta : fb.Chunk) : outcome Array :=
  let! buf := read_exact_at r (fb.chunk_size chunk_meta) (fb.chunk_offset chunk_meta) in
  let! units := ok_or (fb.encunits chunk_meta) (General "No chunks in column meta") in
  let! decoder := create_physical_decoder units (fb.chunk_encoding chunk_meta) None dt buf ctx None in
  let! arrays :=
    if fb.chunk_num_rows chunk_meta =? 0 then Ok [empty_dictionary]
    else let! '(arrays, _) := decode_chunk pushdown decoder in Ok arrays in
  match arrays with
  | [a] => Ok a
  | _ => Err (NYI "Now we only handle the case where each dictionary chunk has a single EncUnit")
  end.

(** The dictionary in the chunks [chunk_ids], and their size. *)
Definition read_dictionary (r : R) (ctx : option (WASMReadingContext R RT)) (chunks : list fb.Chunk)
    (dt : DataType) (chunk_ids : list Z) : outcome (Array * Z) :=
  let! dict_arrs_sizes :=
    traverse (λ id,
        let! m := index chunks id in
        let! a := read_dict_chunk r ctx dt m in
        Ok (a, fb.chunk_size m)) chunk_ids in
  let dict_size := zsum (map snd dict_arrs_sizes) in
  match map fst dict_arrs_sizes with
  | [a] => Ok (a, dict_size)
  | [a; b] =>
      let! _ := assert (bool_decide (arr_data_type a = arr_data_type b)) in
      let! c := concat_arrays [a; b] in
      Ok (c, dict_size)
  | _ => Err (General "Now we only handle the case where each dictionary has <=2 chunks")
  end.

Definition try_new_read_all (r : R) (t : fb.SharedDictionaryTable)
    (ctx : option (WASMReadingContext R RT)) : outcome SharedDictionaryCache :=
  let! ids := unwrap (fb.dictionary_positions t) in
  let! positions := traverse unwrap ids in
  let! chunks := unwrap (fb.dictionary_chunks t) in
  let chunk_sizes := map fb.chunk_size chunks in
  let! dict_schema := ok_or (fb.dictionary_schema t) (ParseError "Shared dictionary schema not found") in
  let! message := ok_or (root_as_message dict_schema) (ParseError "Unable to get root as message") in
  let! fields := ok_or message (ParseError "Unable to read IPC message as schema") in
  let! dictionaries :=
    traverse (λ '(i, chunk_ids),
        let! f := index fields i in
        read_dictionary r ctx chunks (data_type f) chunk_ids)
      (zip (range (len positions)) positions) in
  Ok (mkCache (map (λ da, Some da.1) dictionaries) (map snd dictionaries) chunk_sizes positions).
End Cache.
