(* ===== verification/LogicalDec.v ===== *)
(** * fff-poc/src/decoder/logical.rs: the logical column decoders

    A decoder per field of the schema reads the chunks of the physical columns
    below the field and puts nested arrays together again. *)

From S2P Require Import Prelude Arrow Common Footer Options Buffers Decoders.

(** Vortex gives back string and binary views. *)
Definition view_type (dt : DataType) : DataType :=
  match dt with
  | Utf8 | LargeUtf8 => Utf8View
  | Binary | LargeBinary => BinaryView
  | dt => dt
  end.

Definition field_to_view (f : Field) : Field := mkField (name f) (view_type (data_type f)) (nullable f).

Section LogicalDecoders.
Context {R RT : Type} `{Reader R} `{Flatbuffers} `{DecoderLibs RT} `{Codecs} `{Checksum}.
Context (pushdown : bool).

(** [chunk_decoder] is the decoder of the last chunk read.  The reader, the WASM
    context and the dictionaries are shared references. *)
Record PrimitiveColDecoder := mkPrimitive {
  pr_r : R;
  pr_chunk_decoder : option (ChunkDecoder (R:=R) (RT:=RT));
  pr_chunks_meta_iter : list fb.Chunk;
  pr_primitive_type : DataType;
  pr_wasm_context : option (WASMReadingContext R RT);
  pr_shared_dictionary_cache : SharedDictionaryCache;
  pr_checksum_type : option ChecksumType;
}.

Definition set_iter (p : PrimitiveColDecoder) (d : option ChunkDecoder) (chunks : list fb.Chunk)
  : PrimitiveColDecoder :=
  mkPrimitive (pr_r p) d chunks (pr_primitive_type p) (pr_wasm_context p)
    (pr_shared_dictionary_cache p) (pr_checksum_type p).

Definition read_chunk (p : PrimitiveColDecoder) (offset size : Z) (checksum : option Z)
  : outcome (list Z) :=
  let! buf := read_exact_at (pr_r p) size offset in
  match pr_checksum_type p with
  | None => Ok buf
  | Some t =>
      let! checksum := ok_or checksum (General "No checksum in column meta for chunk") in
      let computed_checksum := finalize (update (create_checksum t) buf) in
      if negb (checksum =? computed_checksum) then Err (General "Checksum verification failed")
      else Ok buf
  end.

(** [chunk_meta.encoding_as_shared_dictionary()] *)
Definition encoding_as_shared_dictionary (m : fb.Chunk) : option Z :=
  match fb.chunk_encoding m with fb.SharedDictionary i => Some i | _ => None end.

(** Reading a chunk and making its decoder. *)
Definition open_chunk (p : PrimitiveColDecoder) (m : fb.Chunk) : outcome ChunkDecoder :=
  let! buf := read_chunk p (fb.chunk_offset m) (fb.chunk_size m) (fb.checksum m) in
  let! units := ok_or (fb.encunits m) (General "No chunks in column meta") in
  create_physical_decoder units (fb.chunk_encoding m) (encoding_as_shared_dictionary m)
    (pr_primitive_type p) buf (pr_wasm_context p) (Some (pr_shared_dictionary_cache p)).

Fixpoint prim_batches (p : PrimitiveColDecoder) (last : option ChunkDecoder) (chunks : list fb.Chunk)
  : outcome (list Array * option ChunkDecoder) :=
  match chunks with
  | [] => Ok ([], last)
  | m :: chunks =>
      let! d := open_chunk p m in
      let! '(arrays, d) := decode_chunk pushdown d in
      let! '(more, last) := prim_batches p (Some d) chunks in
      Ok (arrays ++ more, last)
  end.

Definition prim_decode_batch (p : PrimitiveColDecoder) : outcome (list Array * PrimitiveColDecoder) :=
  let! '(arrays, last) := prim_batches p (pr_chunk_decoder p) (pr_chunks_meta_iter p) in
  Ok (arrays, set_iter p last []).

(** The inner loop of [decode_row_at]: it stops when a chunk has no more rows to
    give.  Every iteration takes a unit of the chunk. *)
Fixpoint rows_of_chunk (fuel : nat) (d : ChunkDecoder) (row to_decode decoded : Z)
  : outcome (list Array * Z * ChunkDecoder) :=
  match fuel with
  | O => Ok ([], decoded, d)
  | S fuel =>
      let! '(a, d) := chunk_decode_row_at pushdown d row to_decode in
      match a with
      | None => Ok ([], decoded, d)
      | Some a =>
          let! to_decode := usub to_decode (arr_len a) in
          let! decoded := uadd 64 decoded (arr_len a) in
          if to_decode =? 0 then Ok ([a], decoded, d)
          else
            let! '(more, decoded, d) := rows_of_chunk fuel d row to_decode decoded in
            Ok (a :: more, decoded, d)
      end
  end.

(** The loop over the chunks; [cur_row] only counts chunks that are skipped. *)
Fixpoint prim_rows (p : PrimitiveColDecoder) (last : option ChunkDecoder) (row_id cur_row remaining : Z)
    (chunks : list fb.Chunk) : outcome (list Array * option ChunkDecoder * list fb.Chunk) :=
  match chunks with
  | [] => Ok ([], last, [])
  | m :: chunks =>
      if remaining =? 0 then Ok ([], last, chunks)
      else
        let n := fb.chunk_num_rows m in
        let! end_ := uadd 64 cur_row n in
        if end_ <=? row_id then prim_rows p last row_id end_ remaining chunks
        else
          let! row := usub row_id cur_row in
          let! left := usub n row in
          let to_decode := Z.min left remaining in
          let! d := open_chunk p m in
          let! '(arrays, decoded, d) :=
            rows_of_chunk (S (length (units_left d))) d row to_decode 0 in
          let! remaining := usub remaining decoded in
          let! '(more, last, chunks) := prim_rows p (Some d) row_id cur_row remaining chunks in
          Ok (arrays ++ more, last, chunks)
  end.

Definition prim_decode_row_at (p : PrimitiveColDecoder) (row_id n : Z)
  : outcome (list Array * PrimitiveColDecoder) :=
  let! '(arrays, last, chunks) :=
    prim_rows p (pr_chunk_decoder p) row_id 0 n (pr_chunks_meta_iter p) in
  Ok (arrays, set_iter p last chunks).

(** ** The trait LogicalColDecoder *)

Inductive LogicalColDecoder :=
  | LPrimitive (p : PrimitiveColDecoder)
  | LList (field_type : DataType) (validity_offsets : PrimitiveColDecoder)
      (values : LogicalColDecoder)
  | LStruct (fields : list Field) (validity : PrimitiveColDecoder)
      (children : list LogicalColDecoder).

(** [as_list::<i32>()] or [<i64>]: the offsets and the validity. *)
Definition as_list (large : bool) (a : Array) : outcome (list Z * option (list bool)) :=
  match a with
  | ListArray l _ offsets _ nulls => if Bool.eqb l large then Ok (offsets, nulls) else Panic PUnwrap
  | _ => Panic PUnwrap
  end.

(** One list array from its validity and offsets, and its values. *)
Definition join_list (field_type : DataType) (vv : Array * Array) : outcome Array :=
  let '(v_o, val) := vv in
  match field_type with
  | List child =>
      let! '(offsets, nulls) := as_list false v_o in
      let! offsets := offset_buffer offsets in
      list_array_new false (field_to_view child) offsets val nulls
  | LargeList child =>
      let! '(offsets, nulls) := as_list true v_o in
      let! offsets := offset_buffer offsets in
      list_array_new true (field_to_view child) offsets val nulls
  | _ => Panic PTodo
  end.

(** [as_boolean().values()]: the bits, whatever the validity. *)
Definition boolean_values (a : Array) : outcome (list bool) :=
  match a with
  | PrimArray Boolean vals =>
      Ok (map (λ v, match v with Some (VBool b) => b | _ => false end) vals)
  | _ => Panic PUnwrap
  end.

(** One struct array from its validity and its columns. *)
Definition join_struct (fields : list Field) (vc : Array * list Array) : outcome Array :=
  let '(v, columns) := vc in
  let! bits := boolean_values v in
  struct_array_new (map field_to_view fields) columns (match bits with [] => None | _ => Some bits end).

(** The first arrays of all columns, the second ones, and so on, as many as the
    first column has. *)
Fixpoint transpose_n (n : nat) (v : list (list Array)) : outcome (list (list Array)) :=
  match n with
  | O => Ok []
  | S n =>
      let! heads := traverse (λ c, unwrap (head c)) v in
      let! rest := transpose_n n (map tail v) in
      Ok (heads :: rest)
  end.

Definition transpose (v : list (list Array)) : outcome (list (list Array)) :=
  match v with
  | [] => Panic PAssert
  | c :: _ => transpose_n (length c) v
  end.

Fixpoint log_decode_batch (d : LogicalColDecoder) : outcome (list Array * LogicalColDecoder) :=
  match d with
  | LPrimitive p => let! '(arrays, p) := prim_decode_batch p in Ok (arrays, LPrimitive p)
  | LList ft vo values =>
      let! '(validity_offsets, vo) := prim_decode_batch vo in
      let! '(vals, values) := log_decode_batch values in
      let! res := traverse (join_list ft) (zip validity_offsets vals) in
      Ok (res, LList ft vo values)
  | LStruct fields v children =>
      let! '(validity, v) := prim_decode_batch v in
      let! '(columns, children) :=
        (fix go children : outcome (list (list Array) * list LogicalColDecoder) :=
           match children with
           | [] => Ok ([], [])
           | c :: children =>
               let! '(column, c) := log_decode_batch c in
               let! '(columns, children) := go children in
               Ok (column :: columns, c :: children)
           end) children in
      let! rows := transpose columns in
      let! res := traverse (join_struct fields) (zip validity rows) in
      Ok (res, LStruct fields v children)
  end.

Definition log_decode_row_at (d : LogicalColDecoder) (row_id n : Z)
  : outcome (list Array * LogicalColDecoder) :=
  match d with
  | LPrimitive p => let! '(arrays, p) := prim_decode_row_at p row_id n in Ok (arrays, LPrimitive p)
  | LList _ _ _ | LStruct _ _ _ => Panic PTodo
  end.

(** ** create_logical_decoder *)

(** The chunks of the next physical column. *)
Definition next_column_chunks (column_metas : list fb.ColumnMetadata) (idx : ColumnIndexSequence)
  : outcome (list fb.Chunk * ColumnIndexSequence) :=
  let! '(i, idx) := next_column_index idx in
  let! m := unwrap (column_metas !! Z.to_nat i) in
  let! chunks := ok_or (fb.column_chunks m) (General "No chunks in column meta") in
  Ok (chunks, idx).

Section Create.
Context (r : R) (column_metas : list fb.ColumnMetadata) (ctx : option (WASMReadingContext R RT))
  (cache : SharedDictionaryCache) (checksum_type : option ChecksumType).

Definition primitive_decoder (chunks : list fb.Chunk) (dt : DataType) : PrimitiveColDecoder :=
  mkPrimitive r None chunks dt ctx cache checksum_type.

Fixpoint create_decoder (dt : DataType) (idx : ColumnIndexSequence)
  : outcome (LogicalColDecoder * ColumnIndexSequence) :=
  let! '(chunks, idx) := next_column_chunks column_metas idx in
  match dt with
  | List (mkField _ child _) | LargeList (mkField _ child _) =>
      let! '(values, idx) := create_decoder child idx in
      Ok (LList dt (primitive_decoder chunks dt) values, idx)
  | Struct fields =>
      let! '(children, idx) :=
        (fix go fields idx : outcome (list LogicalColDecoder * ColumnIndexSequence) :=
           match fields with
           | [] => Ok ([], idx)
           | mkField _ t _ :: fields =>
               let! '(c, idx) := create_decoder t idx in
               let! '(children, idx) := go fields idx in
               Ok (c :: children, idx)
           end) fields idx in
      Ok (LStruct fields (primitive_decoder chunks Boolean) children, idx)
  | dt =>
      if non_nest_types dt then Ok (LPrimitive (primitive_decoder chunks dt), idx) else Panic PTodo
  end.

Definition create_logical_decoder (field : Field) (idx : ColumnIndexSequence)
  : outcome (LogicalColDecoder * ColumnIndexSequence) := create_decoder (data_type field) idx.
End Create.

(** [advance_column_index]: one column for a list, whatever is in it. *)
Definition advance_column_index (field : Field) (idx : ColumnIndexSequence)
  : outcome ColumnIndexSequence :=
  match data_type field with
  | List _ | LargeList _ => let! '(_, idx) := next_column_index idx in Ok idx
  | dt => if non_nest_types dt then let! '(_, idx) := next_column_index idx in Ok idx else Panic PTodo
  end.
End LogicalDecoders.
