(* ===== verification/ListStructDec.v ===== *)
(** * fff-poc/src/decoder/logical.rs: point access to lists of structs

    The experimental decoders behind [point_access_list_struct]: one field of the
    structs of one list.  With the feature [list-offsets-pushdown] every field has
    the offsets of the lists; without it the offsets are read first. *)

From S2P Require Import Prelude Arrow Common Footer Options Buffers Decoders LogicalDec.

Section ListStruct.
Context {R RT : Type} `{Reader R} `{Flatbuffers} `{DecoderLibs RT} `{Codecs} `{Checksum}.
Context (pushdown : bool).

Abbreviation Prim := (PrimitiveColDecoder (R:=R) (RT:=RT)).

Record StructOfNonNestColDecoder := mkStructOfNonNest {
  sn_fields : list Field;
  sn_struct_validity_decoder : Prim;
  sn_children : list Prim;
}.

(** The implementations of [LogicalListStructNonNestedColDecoder]. *)
Inductive ListStructDecoder :=
  | OffsetPushdownListStructColDecoder (children : list Prim)
  | ListStructColDecoder (field_type : DataType) (validity_offsets_decoder : Prim)
      (children : StructOfNonNestColDecoder).

(** A column of several, decoded at some rows. *)
Definition decode_child (children : list Prim) (project_idx row_id n : Z)
  : outcome (list Array * list Prim) :=
  let! c := index children project_idx in
  let! '(arrays, c) := prim_decode_row_at pushdown c row_id n in
  Ok (arrays, <[Z.to_nat project_idx := c]> children).

Definition sn_decode (d : StructOfNonNestColDecoder) (project_idx row_id n : Z)
  : outcome (list Array * StructOfNonNestColDecoder) :=
  let! '(validity, v) := prim_decode_row_at pushdown (sn_struct_validity_decoder d) row_id n in
  let! '(values, children) := decode_child (sn_children d) project_idx row_id n in
  let! res :=
    traverse (λ '(v, val),
        let! bits := boolean_values v in
        let! f := index (sn_fields d) project_idx in
        struct_array_new [field_to_view f] [val] (match bits with [] => None | _ => Some bits end))
      (zip validity values) in
  Ok (res, mkStructOfNonNest (sn_fields d) v children).

(** [OffsetBufferBuilder]: the offsets of lists of the lengths [ls]. *)
Fixpoint offsets_of_lengths (start : Z) (ls : list Z) : list Z :=
  start :: match ls with [] => [] | l :: ls => offsets_of_lengths (start + l) ls end.

Definition sliced_offsets (offsets : list Z) (n : Z) : outcome (list Z) :=
  let! ls := traverse (λ i,
      let! b := index offsets (i + 1) in
      let! a := index offsets i in
      usub b a) (range n) in
  let res := offsets_of_lengths 0 ls in
  let! _ := assert (default 0 (last res) <? 2 ^ 31) in
  Ok res.

Definition decode_batch_at_with_proj (d : ListStructDecoder) (project_idx row_id n : Z)
  : outcome (list Array * ListStructDecoder) :=
  match d with
  | OffsetPushdownListStructColDecoder children =>
      let! '(res, children) := decode_child children project_idx row_id n in
      Ok (res, OffsetPushdownListStructColDecoder children)
  | ListStructColDecoder field_type vo children =>
      let! '(v_o, vo) := prim_decode_row_at pushdown vo row_id n in
      let! v_o := concat_arrays v_o in
      match field_type with
      | List child =>
          match data_type child with
          | Struct struct_fields =>
              let! '(offsets, nulls) := as_list false v_o in
              let! offsets := offset_buffer offsets in
              let! offsets_sliced := sliced_offsets offsets n in
              let! first := index offsets 0 in
              let! last := index offsets n in
              let! count := usub last first in
              let! '(val, children) := sn_decode children project_idx first count in
              let! f := index struct_fields project_idx in
              let! values := concat_arrays val in
              let! a := list_array_new false
                          (mkField (name child) (Struct [field_to_view f]) (nullable child))
                          offsets_sliced values nulls in
              Ok ([a], ListStructColDecoder field_type vo children)
          | _ => Panic PTodo
          end
      | _ => Panic PTodo
      end
  end.

(** ** create_list_struct_decoder *)
Section Create.
Context (r : R) (column_metas : list fb.ColumnMetadata) (ctx : option (WASMReadingContext R RT))
  (cache : SharedDictionaryCache).

Abbreviation prim chunks dt := (primitive_decoder r ctx cache None chunks dt).

(** The type of the column of one field that carries the offsets. *)
Definition pushed_type (large : bool) (child f : Field) : DataType :=
  let item := mkField (name child) (Struct [f]) (nullable child) in
  if large then LargeList item else List item.

(** The loop over the fields; the first column has been taken already. *)
Fixpoint pushdown_children (large : bool) (child : Field) (chunks : list fb.Chunk)
    (fields : list Field) (idx : ColumnIndexSequence)
  : outcome (list Prim * ColumnIndexSequence) :=
  match fields with
  | [] => Ok ([], idx)
  | f :: fields =>
      let this := prim chunks (pushed_type large child f) in
      match fields with
      | [] => Ok ([this], idx)
      | _ =>
          let! '(chunks, idx) := next_column_chunks column_metas idx in
          let! '(children, idx) := pushdown_children large child chunks fields idx in
          Ok (this :: children, idx)
      end
  end.

(** A missing list of chunks panics for a field, unlike for the other columns. *)
Definition field_decoder (idx : ColumnIndexSequence) (f : Field)
  : outcome (Prim * ColumnIndexSequence) :=
  let! '(i, idx) := next_column_index idx in
  let! m := unwrap (column_metas !! Z.to_nat i) in
  let! chunks := unwrap (fb.column_chunks m) in
  Ok (prim chunks (data_type f), idx).

Definition create_list_struct_decoder (field : Field) (idx : ColumnIndexSequence)
  : outcome (ListStructDecoder * ColumnIndexSequence) :=
  let! '(chunks, idx) := next_column_chunks column_metas idx in
  let create large child :=
    match data_type child with
    | Struct fields =>
        if forallb (λ f, non_nest_types (data_type f)) fields then
          if pushdown then
            let! '(children, idx) := pushdown_children large child chunks fields idx in
            Ok (OffsetPushdownListStructColDecoder children, idx)
          else
            let! '(validity_chunks, idx) := next_column_chunks column_metas idx in
            let! '(children, idx) := traverse_st field_decoder idx fields in
            Ok (ListStructColDecoder (data_type field) (prim chunks (data_type field))
                  (mkStructOfNonNest fields (prim validity_chunks Boolean) children), idx)
        else Panic PTodo
    | _ => Panic PTodo
    end in
  match data_type field with
  | List child => create false child
  | LargeList child => create true child
  | _ => Panic PTodo
  end.
End Create.
End ListStruct.
