(* ===== verification/OpenFile.v ===== *)
(** * Opening a written file

    What [FileReaderV2Builder::build] finds in a file with the layout of
    [write_tail]: the schema, the metadata buffers of the projected columns of every
    row group, the WASM context and the shared dictionaries. *)

From S2P Require Import Prelude Arrow Common Footer Options Chunks Writer Selection Reader.
From S2P Require Import Wire FileRoundtrip.

Section Open.
Context `{Checksum} `{!ChecksumLaws} `{Flatbuffers} `{!FlatbuffersLaws}.
Context {R RT Cache : Type} `{Reader R}.
Context (read_all : R → fb.SharedDictionaryTable → option (WASMReadingContext R RT) →
                    outcome Cache).

(** The columns of a row group that a projection asks for. *)
Definition project {A} (p : Projection) (l : list A) : outcome (list A) :=
  match p with
  | ProjectAll => Ok l
  | LeafColumnIndexes idx => traverse (index l) idx
  end.

Lemma project_related {A} (Q : fb.MetadataSection → A → Prop) p xs ys ms :
  Forall2 Q xs ys → project p ys = Ok ms → ∃ ps, projected_columns p xs = Ok ps ∧ Forall2 Q ps ms.
Proof.
  intros HQ. destruct p as [|idx]; cbn.
  - intros [= <-]. by exists xs.
  - revert ms. induction idx as [|i idx IH]; intros ms Hms; cbn in *.
    + simplify_eq. exists []. by split.
    + apply obind_Ok in Hms as (y & Hy & Hms). apply obind_Ok in Hms as (ms' & Hms & [= <-]).
      destruct (IH _ Hms) as (ps & -> & Hps). apply index_Ok in Hy as [Hi Hy].
      destruct (Forall2_lookup_r _ _ _ _ _ HQ Hy) as (x & Hx & Hxy).
      rewrite (proj2 (index_Ok xs i x)) by done. cbn. exists (x :: ps). by split; [|constructor].
Qed.

(** The section [s] of the file is the metadata [m]. *)
Definition section_at (data meta : list Z) (s : fb.MetadataSection) (m : ColumnMetadata) : Prop :=
  ∃ pre post, meta = pre ++ enc_meta m ++ post ∧
    fb.offset s = len data + len pre ∧ fb.size_ s = len (enc_meta m).

Lemma sections_at data meta pre ms post :
  meta = pre ++ concat (map enc_meta ms) ++ post → len meta < 2 ^ 32 →
  Forall2 (section_at data meta)
    (map MetadataSection_to_fb (sections_from (len data + len pre) ms)) ms.
Proof.
  intros -> Hlen. revert pre Hlen. induction ms as [|m ms IH]; intros pre Hlen; [constructor|].
  cbn [sections_from map concat] in *. rewrite <-app_assoc in *. constructor.
  - exists pre, (concat (map enc_meta ms) ++ post). split_and!; [done|done|]. cbn.
    apply wrap_small. rewrite !len_app in Hlen. pose proof (len_nonneg pre).
    pose proof (len_nonneg (enc_meta m)). pose proof (len_nonneg (concat (map enc_meta ms))).
    pose proof (len_nonneg post). unfold in_u. lia.
  - specialize (IH (pre ++ enc_meta m)). rewrite <-app_assoc, (len_app pre (enc_meta m)), Z.add_assoc in IH. by apply IH.
Qed.

Definition group_at (data meta : list Z) (g : fb.RowGroupMetadata) (rg : RowGroupMetadata) : Prop :=
  ∃ sections, fb.col_metadatas g = Some sections ∧
    Forall2 (section_at data meta) sections (col_metadatas rg).

Lemma groups_at data meta pre rgs post :
  meta = pre ++ concat (concat (map group_bytes rgs)) ++ post → len meta < 2 ^ 32 →
  Forall2 (group_at data meta) (map Indirect_to_fb (groups_from (len data + len pre) rgs)) rgs.
Proof.
  intros -> Hlen. revert pre Hlen. induction rgs as [|rg rgs IH]; intros pre Hlen; [constructor|].
  cbn [groups_from map concat] in *. rewrite concat_app, <-app_assoc in *. constructor.
  - eexists. split; [done|].
    by apply (sections_at data _ pre (col_metadatas rg) (concat (concat (map group_bytes rgs)) ++ post)).
  - specialize (IH (pre ++ concat (group_bytes rg))).
    rewrite <-app_assoc, (len_app pre (concat (group_bytes rg))), Z.add_assoc in IH. by apply IH.
Qed.

(** ** A file and its parts *)

Context (b : FileReaderV2Builder (R:=R) (RT:=RT)) (file data meta : list Z) (ffb : fb.Footer) (sc : Z).
Context (Hr : ReaderOf R (b_reader b) file) (Hahead : read_ahead b = false).
Context (Hsc : in_u 64 sc) (Hlen : len (meta ++ enc_footer ffb) < 2 ^ 32).
Context (Hfile : file = (data ++ meta ++ enc_footer ffb) ++
    postscript_bytes (len (meta ++ enc_footer ffb)) (len (enc_footer ffb))
      (checksum_of XxHash (data ++ meta ++ enc_footer ffb)) sc).

Definition the_postscript : PostScript :=
  mkPostScript (len (meta ++ enc_footer ffb)) (len (enc_footer ffb)) Uncompressed XxHash
    (checksum_of XxHash (data ++ meta ++ enc_footer ffb)) sc MAJOR_VERSION MINOR_VERSION.

Lemma lens_small : 0 ≤ len (enc_footer ffb) < 2 ^ 32 ∧ 0 ≤ len meta.
Proof.
  pose proof (len_nonneg meta). pose proof (len_nonneg (enc_footer ffb)).
  rewrite len_app in Hlen. lia.
Qed.

Lemma file_len : len file = len data + len meta + len (enc_footer ffb) + 32.
Proof. rewrite Hfile, !len_app, postscript_bytes_len. lia. Qed.

Lemma read_postscript_here : read_postscript (b_reader b) (len file) = Ok the_postscript.
Proof.
  destruct lens_small. rewrite Hfile in Hr |- *. apply read_postscript_ok; [done| | | |done].
  - split; [apply len_nonneg|done].
  - done.
  - apply finalize_u64.
Qed.

Lemma verify_here :
  verify_file_checksum (b_reader b) (len file) (ps_data_checksum the_postscript)
    (checksum_type the_postscript) = Ok tt.
Proof. rewrite Hfile in Hr |- *. by apply verify_file_checksum_ok. Qed.

Lemma footer_here ahead : read_footer_fbs b ahead (len file) the_postscript = Ok ffb.
Proof.
  pose proof file_len as Hl. destruct lens_small. pose proof (len_nonneg data).
  unfold read_footer_fbs. rewrite Hahead. cbn [footer_size the_postscript]. unfold POSTSCRIPT_SIZE, usub.
  rewrite (proj2 (Z.leb_le _ _)) by lia. cbn [obind]. rewrite (proj2 (Z.leb_le _ _)) by lia. cbn [obind].
  rewrite (reader_range (b_reader b) file (data ++ meta) (enc_footer ffb)
    (postscript_bytes (len (meta ++ enc_footer ffb)) (len (enc_footer ffb))
       (checksum_of XxHash (data ++ meta ++ enc_footer ffb)) sc)); [|done| | |done].
  - cbn [obind]. by rewrite footer_roundtrip.
  - by rewrite Hfile, <-!app_assoc.
  - rewrite len_app. lia.
Qed.

(** All column metadata is read at once, or none. *)
Lemma all_metadata_here ahead total :
  ∃ all, read_all_metadata b ahead (len file) the_postscript total = Ok all ∧
    (all = None ∨ all = Some meta).
Proof.
  pose proof file_len as Hl. destruct lens_small. pose proof (len_nonneg data).
  unfold read_all_metadata. destruct (_ || _); [|eexists; by split; [|left]].
  rewrite Hahead. cbn [metadata_size footer_size the_postscript]. unfold POSTSCRIPT_SIZE, usub.
  rewrite (proj2 (Z.leb_le _ _)) by (rewrite len_app; lia). cbn [obind].
  rewrite (proj2 (Z.leb_le _ _)) by lia. cbn [obind].
  rewrite (proj2 (Z.leb_le _ _)) by (rewrite len_app; lia). cbn [obind].
  rewrite (reader_range (b_reader b) file data meta (enc_footer ffb ++
    postscript_bytes (len (meta ++ enc_footer ffb)) (len (enc_footer ffb))
       (checksum_of XxHash (data ++ meta ++ enc_footer ffb)) sc)); [|done| | |].
  - eexists. by split; [|right].
  - by rewrite Hfile, <-!app_assoc.
  - rewrite len_app. lia.
  - rewrite len_app. lia.
Qed.

Lemma column_buffer_here all s m :
  all = None ∨ all = Some meta → section_at data meta s m →
  column_meta_buffer b all (len file) the_postscript s = Ok (enc_meta m).
Proof.
  pose proof file_len as Hl. destruct lens_small. pose proof (len_nonneg data).
  intros Hall (pre & post & Hm & Hoff & Hsize). unfold column_meta_buffer. rewrite Hoff, Hsize.
  pose proof (len_nonneg pre). pose proof (len_nonneg (enc_meta m)).
  assert (Hb : len pre + len (enc_meta m) ≤ len meta)
    by (rewrite Hm, !len_app; pose proof (len_nonneg post); lia).
  destruct Hall as [-> | ->].
  - apply (reader_range (b_reader b) file (data ++ pre) (enc_meta m) (post ++ enc_footer ffb ++
      postscript_bytes (len (meta ++ enc_footer ffb)) (len (enc_footer ffb))
       (checksum_of XxHash (data ++ meta ++ enc_footer ffb)) sc)); [done| | |done].
    + by rewrite Hfile, Hm at 1; rewrite <-!app_assoc.
    + by rewrite len_app.
  - cbn [metadata_size the_postscript]. unfold POSTSCRIPT_SIZE, usub, uadd. rewrite len_app in *.
    rewrite (proj2 (Z.leb_le _ _)) by lia. cbn [obind].
    rewrite (proj2 (Z.leb_le _ _)) by lia. cbn [obind].
    rewrite (proj2 (Z.leb_le _ _)) by lia. cbn [obind].
    assert (2 ^ 32 < 2 ^ 64) by done.
    replace (len data + len pre - (len file - 32 - (len meta + len (enc_footer ffb)))) with (len pre) by lia.
    rewrite (proj2 (Z.ltb_lt _ _)) by lia. cbn [obind]. rewrite Hm. by apply slice_mid.
Qed.

(** ** The builder *)

Context (sch : list Field) (tree : fb.LogicalTree) (rgs : list RowGroupMetadata).
Context (counts offs szs : list Z) (table : fb.SharedDictionaryTable).
Context (Hmeta : meta = concat (concat (map group_bytes rgs))) (Hrgs : rgs ≠ []).
Context (Hschema : fb.schema ffb = Some (schema_to_bytes sch)) (Htree : fb.logical_tree ffb = Some tree).
Context (Hgroups : fb.row_groups ffb = Some (fb.mkRowGroups (Some counts) (Some offs) (Some szs)
    (Some (map Indirect_to_fb (groups_from (len data) rgs))))).
Context (Htable : fb.shared_dictionary_table ffb = Some table).

Definition the_versions : option (gmap EncodingType Version) :=
  option_map (foldl (λ m v, <[fb.ev_encoding_type v := fb.ev_version v]> m) ∅)
    (fb.encoding_versions ffb).

Definition the_pointers : list RowGroupCntNPointer :=
  map (λ '(row_count, offset, size), mkPointer row_count offset size) (zip3 counts offs szs).

Lemma build_here mss :
  Forall2 (λ rg ms, project (b_projections b) (col_metadatas rg) = Ok ms) rgs mss →
  build read_all b =
    let! ctx := wasm_reading_context b (fb.optional_sections ffb) the_versions in
    let! cache := unwrap_res (read_all (b_reader b) table ctx) in
    Ok (mkReaderV2 (b_reader b) sch (b_projections b) (b_selection b) (map (map enc_meta) mss)
          the_pointers ctx (Some cache)
          (if b_verify_io_unit_checksum b then Some XxHash else None)).
Proof.
  intros Hms. unfold build. rewrite (reader_size_ok (r:=b_reader b)), Hahead. cbn [obind].
  rewrite read_postscript_here. cbn [obind].
  assert (Hver : (if b_verify_file_checksum b
      then verify_file_checksum (b_reader b) (len file) (ps_data_checksum the_postscript)
             (checksum_type the_postscript) else Ok tt) = Ok tt)
    by (destruct (b_verify_file_checksum b); [apply verify_here|done]).
  rewrite Hver. cbn [obind]. rewrite footer_here. cbn [obind]. unfold parse_footer.
  rewrite Hschema. cbn [ok_or obind]. rewrite schema_roundtrip. cbn [ok_or obind].
  rewrite Htree, Hgroups, Htable. cbn [unwrap ok_or obind parsed_row_groups parsed_sections parsed_dict
    parsed_versions parsed_schema fb.row_group_metadatas fb.row_counts fb.rg_offsets fb.rg_sizes].
  pose proof (groups_at data meta [] rgs []) as Hg. cbn [app] in Hg.
  rewrite (len_nil (A:=Z)), Z.add_0_r, app_nil_r in Hg.
  specialize (Hg Hmeta ltac:(pose proof lens_small; rewrite len_app in Hlen; lia)).
  set (groups := map Indirect_to_fb (groups_from (len data) rgs)) in *.
  assert (∃ g, index groups 0 = Ok g ∧ is_Some (fb.col_metadatas g)) as (g & -> & [cols Hcols]).
  { destruct Hg as [|g rg ? ? (s & Hs & _)]; [done|]. exists g. split; [done|]. by rewrite Hs. }
  cbn [obind]. rewrite Hcols. cbn [unwrap obind].
  destruct (all_metadata_here [] (len cols)) as (all & -> & Hall). cbn [obind].
  assert (Hbufs : traverse (λ rg,
        let! sections := unwrap (fb.col_metadatas rg) in
        let! ptrs := projected_columns (b_projections b) sections in
        traverse (column_meta_buffer b all (len file) the_postscript) ptrs) groups
      = Ok (map (map enc_meta) mss)).
  { apply traverse_Ok. clear Hrgs Hgroups Hmeta Hcols cols g. revert mss Hms.
    induction Hg as [|g rg groups rgs' (s & Hs & Hat) _ IH]; intros mss Hms.
    - by apply Forall2_nil_inv_l in Hms as ->.
    - apply Forall2_cons_inv_l in Hms as (ms & mss' & Hp & Hms & ->). constructor; [|by apply IH].
      rewrite Hs. cbn [unwrap obind].
      destruct (project_related _ _ _ _ _ Hat Hp) as (ptrs & -> & Hptrs). cbn [obind].
      apply traverse_Ok. clear Hp. induction Hptrs as [|p m ptrs ms Hpm _ IHp]; [constructor|].
      constructor; [by apply column_buffer_here|done]. }
  rewrite Hbufs. cbn [obind]. fold the_versions.
  destruct (wasm_reading_context _ _ _); [|done..]. cbn [obind].
  destruct (unwrap_res (read_all _ _ _)); done.
Qed.
End Open.

(** ** The footer of the projected columns *)

Section Footer.
Context `{Flatbuffers} `{!FlatbuffersLaws}.

Lemma projected_footer sch mss counts offs szs :
  Footer_try_new_with_projection
    (map (λ '(row_count, offset, size), mkPointer row_count offset size) (zip3 counts offs szs))
    (map (map enc_meta) mss) sch
  = Ok (mkFooter sch (grouped (map mkRowGroupMetadata mss) counts offs szs)).
Proof.
  unfold Footer_try_new_with_projection.
  assert (Hcols : ∀ ms, traverse (λ b, unwrap (root_column_metadata b)) (map enc_meta ms)
    = Ok (map ColumnMetadata_to_fb ms)).
  { intros ms. rewrite traverse_map. rewrite <-traverse_pure. apply traverse_ext. intros m _.
    unfold enc_meta. by rewrite column_metadata_roundtrip. }
  revert counts offs szs. induction mss as [|ms mss IH]; intros counts offs szs; [done|].
  destruct counts as [|c counts]; [done|]. destruct offs as [|o offs]; [done|].
  destruct szs as [|z szs]; [done|]. specialize (IH counts offs szs).
  apply obind_Ok in IH as (rest & Hrest & [= ->]).
  cbn [map zip3 zip zip_with traverse grouped ptr_row_count ptr_offset ptr_size col_metadatas].
  rewrite Hcols. cbn [obind]. by rewrite Hrest.
Qed.
End Footer.

(** ** The tail of a finished file *)

(** The context in which the units of the file are decoded. *)
Definition file_context {R RT} `{Reader R} (b : FileReaderV2Builder (R:=R) (RT:=RT)) (start size : Z)
  : WASMReadingContext R RT :=
  match wasm_rts b with
  | Some rts => new_with_rt_and_versions rts (Some DEFAULT_ENCODING_VERSIONS)
  | None => new_with_versions (mkMetadataSection start (wrap 32 size) Uncompressed) (b_reader b)
              (Some DEFAULT_ENCODING_VERSIONS)
  end.

(** The WASM binaries of a file, one after the other and then their table. *)
Record holds_wasms `{Flatbuffers} (file : list Z) (binaries : list (list Z)) (start size : Z) : Prop := {
  hw_file : ∃ pre post,
    let table := enc_wasm_binaries (fb.mkWASMBinaries (Some (wasm_sections_from (len pre) binaries))) in
    file = pre ++ concat binaries ++ table ++ post ∧ start = len (pre ++ concat binaries) ∧ size = len table;
  hw_size : size < 2 ^ 32;
  hw_binaries : len (concat binaries) < 2 ^ 32;
}.

Section Tail.
Context `{Checksum} `{!ChecksumLaws} `{Flatbuffers} `{!FlatbuffersLaws}.
Context {R RT Cache : Type} `{Reader R}.
Context (read_all : R → fb.SharedDictionaryTable → option (WASMReadingContext R RT) →
                    outcome Cache).

Lemma default_versions_read :
  foldl (λ m v, <[fb.ev_encoding_type v := fb.ev_version v]> m) ∅
    (map EncodingVersion_to_fb create_default_encoding_versions) = DEFAULT_ENCODING_VERSIONS.
Proof. by vm_compute. Qed.

Lemma tail_wasms groups dicts wasms meta post file :
  let table := enc_wasm_binaries (fb.mkWASMBinaries (Some (wasm_sections_from (len (groups ++ dicts)) wasms))) in
  file = groups ++ dicts ++ concat wasms ++ table ++ meta ++ post → len file - len groups < 2 ^ 32 →
  holds_wasms file wasms (len (groups ++ dicts ++ concat wasms)) (len table).
Proof.
  cbv zeta. set (table := enc_wasm_binaries _). intros -> Hlen. rewrite !len_app in Hlen.
  pose proof (len_nonneg dicts). pose proof (len_nonneg table). pose proof (len_nonneg (concat wasms)).
  pose proof (len_nonneg meta). pose proof (len_nonneg post).
  split; [|lia|lia]. exists (groups ++ dicts), (meta ++ post). cbv zeta. by rewrite <-!app_assoc.
Qed.

Lemma open_tail (b : FileReaderV2Builder (R:=R) (RT:=RT)) sch tree wasm_binaries dicts peers dtypes st
    file mss :
  sink_ok (sink st) → indirect_row_group_metadata (row_groups_table st) = [] →
  row_group_metadata (row_groups_table st) ≠ [] →
  write_tail sch tree (create_checksum XxHash) wasm_binaries dicts peers dtypes st = Ok file →
  len file - len (out (sink st)) < 2 ^ 32 → ReaderOf R (b_reader b) file → read_ahead b = false →
  Forall2 (λ rg ms, project (b_projections b) (col_metadatas rg) = Ok ms)
    (row_group_metadata (row_groups_table st)) mss →
  ∃ start size positions,
    dict_positions peers (dict_metas (enable_io_unit_checksum st) (len (out (sink st))) dicts)
      = Ok positions ∧
    (∃ more, file = out (sink st) ++ dicts_bytes dicts ++ more) ∧
    holds_wasms file wasm_binaries start size ∧
    build read_all b =
      let! cache := unwrap_res (read_all (b_reader b)
        (SharedDictionaryTable_to_fb
           (concat (dict_metas (enable_io_unit_checksum st) (len (out (sink st))) dicts)) positions dtypes)
        (Some (file_context b start size))) in
      Ok (mkReaderV2 (b_reader b) sch (b_projections b) (b_selection b) (map (map enc_meta) mss)
            (the_pointers (row_counts (row_groups_table st)) (offsets (row_groups_table st))
               (sizes (row_groups_table st)))
            (Some (file_context b start size)) (Some cache)
            (if b_verify_io_unit_checksum b then Some XxHash else None)).
Proof.
  intros Hok Hind Hne Htail Hlen Hr Hahead Hms.
  destruct (write_tail_layout _ _ _ _ _ _ _ _ _ Hok Htail)
    as [data meta ffb positions Hdata Hmeta Hpos Hs Ht Hrg Hsec Hdict Hvers Hfile].
  rewrite Hind, app_nil_l in Hrg. cbv zeta in Hdata.
  assert (Hmore : ∃ more, file = out (sink st) ++ dicts_bytes dicts ++ more)
    by (rewrite Hfile, Hdata, <-!app_assoc; by eexists).
  assert (Hwasms : holds_wasms file wasm_binaries
    (len (out (sink st) ++ dicts_bytes dicts ++ concat wasm_binaries))
    (len (enc_wasm_binaries (fb.mkWASMBinaries (Some (wasm_sections_from
       (len (out (sink st) ++ dicts_bytes dicts)) wasm_binaries)))))).
  { match type of Hfile with _ = _ ++ ?ps =>
      apply (tail_wasms (out (sink st)) (dicts_bytes dicts) wasm_binaries (meta ++ enc_footer ffb) ps file);
        [|done] end.
    rewrite Hfile, Hdata. by rewrite <-!app_assoc. }
  assert (Hm : len (meta ++ enc_footer ffb) < 2 ^ 32).
  { rewrite Hfile, Hdata, !len_app, postscript_bytes_len in Hlen. rewrite len_app.
    pose proof (len_nonneg (dicts_bytes dicts)). pose proof (len_nonneg (concat wasm_binaries)).
    match goal with |- context [len (enc_wasm_binaries ?x)] =>
      pose proof (len_nonneg (enc_wasm_binaries x)) | _ => idtac end.
    match type of Hlen with context [len (enc_wasm_binaries ?x)] =>
      pose proof (len_nonneg (enc_wasm_binaries x)) end. lia. }
  assert (Hmm : in_u 32 (len (meta ++ enc_footer ffb)) ∧ in_u 32 (len (enc_footer ffb))).
  { rewrite len_app in *. pose proof (len_nonneg meta). pose proof (len_nonneg (enc_footer ffb)).
    unfold in_u. lia. }
  destruct Hmm as [Hmm Hff]. rewrite !wrap_small in Hfile by done.
  eexists _, _, positions. split; [done|]. split; [done|]. split; [exact Hwasms|].
  rewrite (build_here read_all b file data meta ffb _ Hr Hahead (finalize_u64 _) Hm Hfile sch tree
    (row_group_metadata (row_groups_table st)) _ _ _ _ Hmeta Hne Hs Ht Hrg Hdict mss Hms).
  unfold the_versions. rewrite Hvers. cbn [option_map]. rewrite default_versions_read, Hsec.
  unfold wasm_reading_context, file_context, optional_metadata_section.
  destruct (wasm_rts b); done.
Qed.
End Tail.

(** ** The runtimes of a file *)

Section Runtimes.
Context {R RT : Type} `{Reader R} `{Flatbuffers} `{!FlatbuffersLaws} (compile : list Z → outcome RT).

(** Each binary is compiled, and found under its position. *)
Lemma load_wasms (r : R) file binaries rts pre rest k (m : gmap WASMId RT) :
  ReaderOf R r file → file = pre ++ concat binaries ++ rest →
  Forall2 (λ w rt, compile w = Ok rt) binaries rts → len (concat binaries) < 2 ^ 32 →
  Z.of_nat k + len binaries ≤ 2 ^ 32 →
  ∃ m', fold_m (load_wasm compile r) (Z.of_nat k, m) (wasm_sections_from (len pre) binaries)
    = Ok (Z.of_nat k + len binaries, m') ∧
    (∀ j rt, rts !! j = Some rt → m' !! Z.of_nat (k + j) = Some rt) ∧
    (∀ id, id < Z.of_nat k → m' !! id = m !! id).
Proof.
  intros Hr Hfile HF. revert pre k m Hfile.
  induction HF as [|w rt binaries rts Hw _ IH]; intros pre k m Hfile Hlen Hk.
  - exists m. cbn. rewrite (len_nil (A:=list Z)), Z.add_0_r. split_and!; [done| |done].
    intros j rt Hj. by rewrite lookup_nil in Hj.
  - cbn [concat] in Hfile, Hlen. rewrite len_app in Hlen. rewrite len_cons in Hk |- *.
    pose proof (len_nonneg w). pose proof (len_nonneg (concat binaries)). pose proof (len_nonneg binaries).
    cbn [wasm_sections_from fold_m]. unfold load_wasm at 1. cbn [fb.size_ fb.offset].
    rewrite (wrap_small 32 (len w)) by (unfold in_u; lia).
    rewrite (reader_range r file pre w (concat binaries ++ rest)) by (done || by rewrite Hfile, <-app_assoc).
    cbn [unwrap_res obind]. rewrite Hw. cbn [unwrap_res obind].
    rewrite (wrap_small 32 (Z.of_nat k)) by (unfold in_u; lia).
    replace (Z.of_nat k + 1) with (Z.of_nat (S k)) by lia. rewrite <-len_app.
    destruct (IH (pre ++ w) (S k) (<[Z.of_nat k := rt]> m)) as (m' & Hm' & Hin & Hold);
      [by rewrite Hfile, <-!app_assoc|lia|lia|].
    exists m'. split_and!.
    + rewrite Hm'. do 2 f_equal. lia.
    + intros [|j] rt' Hj.
      * injection Hj as <-. rewrite Nat.add_0_r, Hold by lia. apply lookup_insert_eq.
      * replace (k + S j)%nat with (S k + j)%nat by lia. by apply Hin.
    + intros id Hid. rewrite Hold by lia. apply lookup_insert_ne. lia.
Qed.

(** The reader of a file finds the runtime of each of its binaries. *)
Lemma file_runtimes (b : FileReaderV2Builder (R:=R) (RT:=RT)) file binaries start size rts k rt :
  wasm_rts b = None → ReaderOf R (b_reader b) file → holds_wasms file binaries start size →
  len binaries ≤ 2 ^ 32 → Forall2 (λ w rt, compile w = Ok rt) binaries rts → rts !! k = Some rt →
  ∃ c, get_runtime compile (file_context b start size) (Z.of_nat k) = Ok (rt, c).
Proof.
  intros Hnone Hr [(pre & post & Hfile & Hstart & Hsize) Hs32 Hb32] Hnum HF Hk. cbv zeta in *.
  unfold file_context. rewrite Hnone. unfold get_runtime, new_with_versions, init_runtimes.
  cbn [lazy_wasm wasm_locations reading_r ms_size ms_offset unwrap obind].
  rewrite (wrap_small 32 size) by (unfold in_u; rewrite Hsize in *; split; [apply len_nonneg|done]).
  rewrite (reader_range (b_reader b) file (pre ++ concat binaries)
    (enc_wasm_binaries (fb.mkWASMBinaries (Some (wasm_sections_from (len pre) binaries)))) post)
    by (done || by rewrite Hfile, <-!app_assoc).
  cbn [unwrap_res obind]. rewrite wasm_binaries_roundtrip. cbn [unwrap obind fb.wasm_binaries].
  destruct (load_wasms (b_reader b) file binaries rts pre (enc_wasm_binaries (fb.mkWASMBinaries
    (Some (wasm_sections_from (len pre) binaries))) ++ post) 0 ∅ Hr Hfile HF Hb32) as (m & Hm & Hin & _); [lia|].
  change (Z.of_nat 0) with 0 in Hm. rewrite Hm. cbn [obind].
  specialize (Hin k rt Hk). cbn [Nat.add] in Hin.
  eexists. exact (f_equal (λ o, let! rt := unwrap o in Ok (rt, _)) Hin).
Qed.
End Runtimes.
