(* ===== verification/ReadFile.v ===== *)
(** * fff-poc/src/reader/mod.rs: reading record batches

    [read_file_based_on_footer] decodes the selected columns of the selected row
    groups; [FileReaderV2] and the legacy [FileReader] call it. *)

From S2P Require Import Prelude Arrow Common Footer Options Selection Reader.
From S2P Require Import Buffers Decoders DictCache LogicalDec ListStructDec.

(** ** Record batches *)

Record RecordBatch := mkBatch { rb_schema : list Field; rb_columns : list Array }.

(** [null_count() > 0]: a null array has no validity buffer, and counts none. *)
Definition has_nulls (a : Array) : bool :=
  match a with PrimArray Null _ => false | a => arr_is_nullable a end.

(** [RecordBatch::try_new] *)
Definition RecordBatch_try_new (schema : list Field) (columns : list Array) : outcome RecordBatch :=
  match columns with
  | [] =>
      if len schema =? 0
      then Err (External "must either specify a row count or at least one column")
      else Err (External "number of columns must match number of fields in schema")
  | c :: _ =>
      if negb (len schema =? len columns)
      then Err (External "number of columns must match number of fields in schema")
      else if negb (forallb (λ a, arr_len a =? arr_len c) columns)
      then Err (External "all columns in a record batch must have the same length")
      else if negb (forallb (λ '(f, a), nullable f || negb (has_nulls a)) (zip schema columns))
      then Err (External "Column is declared as non-nullable but contains null values")
      else if negb (forallb (λ '(f, a), bool_decide (data_type f = arr_data_type a)) (zip schema columns))
      then Err (External "column types must match schema types")
      else Ok (mkBatch schema columns)
  end.

Section ReadFile.
Context {R RT : Type} `{Reader R} `{Flatbuffers} `{DecoderLibs RT} `{Codecs} `{Checksum}.
Context (pushdown : bool).

Abbreviation Reader2 := (FileReaderV2 (R:=R) (RT:=RT) (Cache:=SharedDictionaryCache)).

(** [schema()] *)
Definition reader_v2_schema (r : Reader2) : list Field := reader_schema r.

(** One column of a row group. *)
Definition decode_col (r : R) (metas : list fb.ColumnMetadata)
    (ctx : option (WASMReadingContext R RT)) (cache : SharedDictionaryCache)
    (ck : option ChecksumType) (sel : Selection) (idx : ColumnIndexSequence) (f : Field)
  : outcome (list Array * ColumnIndexSequence) :=
  let! '(d, idx) := create_logical_decoder r metas ctx cache ck f idx in
  let! '(arrays, _) :=
    match sel with
    | RowIndexes row_indexes => let! row := index row_indexes 0 in log_decode_row_at pushdown d row 1
    | All => log_decode_batch pushdown d
    end in
  Ok (arrays, idx).

(** The batch of the [i]-th arrays of all columns.  The names are those of the
    first fields of the schema. *)
Definition nth_batch (schema : list Field) (columns : list (list Array)) (i : Z)
  : outcome RecordBatch :=
  let! this := traverse (λ c, index c i) columns in
  RecordBatch_try_new
    (map (λ '(c, f), mkField (name f) (arr_data_type c) (nullable f)) (zip this schema)) this.

(** The columns of one row group.  With a projection, a column that does not exist
    panics when its turn comes. *)
Definition decode_columns (r : R) (metas : list fb.ColumnMetadata) (p : Projection)
    (schema : list Field) (ctx : option (WASMReadingContext R RT)) (cache : SharedDictionaryCache)
    (ck : option ChecksumType) (sel : Selection) : outcome (list (list Array)) :=
  let fields := match p with
                | ProjectAll => map Some schema
                | LeafColumnIndexes idx => map (λ v, schema !! Z.to_nat v) idx
                end in
  let! '(columns, _) :=
    traverse_st (λ idx f, let! f := unwrap f in decode_col r metas ctx cache ck sel idx f)
      ColumnIndexSequence_default fields in
  Ok columns.

Definition read_row_group (r : R) (schema : list Field) (p : Projection)
    (ctx : option (WASMReadingContext R RT)) (cache : SharedDictionaryCache)
    (ck : option ChecksumType) (ms : GroupedColumnMetadata * Selection)
  : outcome (list RecordBatch) :=
  let '(m, sel) := ms in
  let! columns := decode_columns r (column_metadatas m) p schema ctx cache ck sel in
  let! first := index columns 0 in
  traverse (nth_batch schema columns) (range (len first)).

Definition read_file_based_on_footer (r : R) (footer : Footer) (p : Projection) (sel : Selection)
    (ctx : option (WASMReadingContext R RT)) (cache : option SharedDictionaryCache)
    (ck : option ChecksumType) : outcome (list RecordBatch) :=
  let! cache := unwrap cache in
  let! selected := process_selection row_count sel (row_group_metadatas footer) in
  let! batches := traverse (read_row_group r (footer_schema footer) p ctx cache ck) selected in
  Ok (concat batches).

(** The footer of the projected columns. *)
Definition reader_footer (r : Reader2) : outcome Footer :=
  Footer_try_new_with_projection (row_group_cnt_n_pointers r) (grouped_column_metadata_buffers r)
    (reader_schema r).

Definition read_file (r : Reader2) : outcome (list RecordBatch) :=
  let! footer := reader_footer r in
  read_file_based_on_footer (reader r) footer (projections r) (selection r) (reader_wasm_context r)
    (shared_dictionary_cache r) (reader_checksum_type r).

(** ** Sizes of the shared dictionaries *)

(** The dictionaries that the chunks of a column refer to. *)
Definition referenced_dicts (m : fb.ColumnMetadata) : outcome (gset Z) :=
  let! chunks := unwrap (fb.column_chunks m) in
  Ok (list_to_set (omap encoding_as_shared_dictionary chunks)).

(** [referenced_dicts\[field_id\].insert(..)] for every column of a row group. *)
Definition add_row_group_dicts (refs : list (gset Z)) (m : GroupedColumnMetadata)
  : outcome (list (gset Z)) :=
  fold_m (λ refs '(field_id, m),
      let! ds := referenced_dicts m in
      if decide (ds = ∅) then Ok refs
      else let! old := index refs field_id in Ok (<[Z.to_nat field_id := old ∪ ds]> refs))
    refs (zip (range (len (column_metadatas m))) (column_metadatas m)).

(** A column joins the columns that refer to a chunk: it shares the chunk with each
    of them.  A set is visited in the order of [elements]. *)
Definition join_chunk (chunk_sizes : list Z) (col : Z)
    (st : list (gset Z) * list (list (Z * Z))) (chunk : Z)
  : outcome (list (gset Z) * list (list (Z * Z))) :=
  let '(referencing, peers) := st in
  let! ref_cols := index referencing chunk in
  let! peers :=
    fold_m (λ peers peer,
        let! size := index chunk_sizes chunk in
        let! mine := index peers col in
        let peers := <[Z.to_nat col := mine ++ [(peer, size)]]> peers in
        let! theirs := index peers peer in
        Ok (<[Z.to_nat peer := theirs ++ [(col, size)]]> peers)) peers (elements ref_cols) in
  Ok (<[Z.to_nat chunk := {[ col ]} ∪ ref_cols]> referencing, peers).

Definition join_column (chunk_sizes : list Z) (dict_ref_to_chunks : list (list Z))
    (st : list (gset Z) * list (list (Z * Z))) (cd : Z * gset Z)
  : outcome (list (gset Z) * list (list (Z * Z))) :=
  let '(col, dicts) := cd in
  fold_m (λ st dict,
      let! chunks := index dict_ref_to_chunks dict in
      fold_m (join_chunk chunk_sizes col) st chunks) st (elements dicts).

Definition dict_counter (cache : SharedDictionaryCache) (dicts : gset Z) : outcome EncodingCounter :=
  let! sizes := traverse (λ d, unwrap (get_dict_size cache d)) (elements dicts) in
  Ok (mkCounter GlobalDictionary (zsum sizes) 0).

Definition get_shared_dict_size_based_on_footer (footer : Footer) (cache : SharedDictionaryCache)
  : outcome (list EncodingCounter * list (list (Z * Z))) :=
  let n := length (footer_schema footer) in
  let chunk_sizes := get_dict_chunk_sizes cache in
  let! refs := fold_m add_row_group_dicts (replicate n ∅) (row_group_metadatas footer) in
  let! '(_, peers) :=
    fold_m (join_column chunk_sizes (get_dict_references cache))
      (replicate (length chunk_sizes) ∅, replicate n []) (zip (range (len refs)) refs) in
  let! counters := traverse (dict_counter cache) refs in
  Ok (counters, peers).

Definition get_shared_dict_sizes (r : Reader2)
  : outcome (list EncodingCounter * list (list (Z * Z))) :=
  let! footer := reader_footer r in
  let! cache := unwrap (shared_dictionary_cache r) in
  get_shared_dict_size_based_on_footer footer cache.

(** ** Point access *)

Definition access_row_group (r : R) (col_leaf_id : Z) (top_col_field : Field) (row_id : Z)
    (ctx : option (WASMReadingContext R RT)) (cache : SharedDictionaryCache)
    (m : GroupedColumnMetadata) : outcome RecordBatch :=
  let! '(d, _) := create_list_struct_decoder pushdown r (column_metadatas m) ctx cache top_col_field
                    ColumnIndexSequence_default in
  let! '(arrays, _) := decode_batch_at_with_proj pushdown d col_leaf_id row_id 1 in
  let! column := unwrap_res (concat_arrays arrays) in
  unwrap_res (RecordBatch_try_new
                [mkField "item" (arr_data_type column) (arr_is_nullable column)] [column]).

Definition point_access_based_on_footer (r : R) (footer : Footer) (col_leaf_id : Z)
    (top_col_field : Field) (row_id : Z) (ctx : option (WASMReadingContext R RT))
    (cache : option SharedDictionaryCache) : outcome (list RecordBatch) :=
  let! cache := unwrap cache in
  traverse (access_row_group r col_leaf_id top_col_field row_id ctx cache)
    (row_group_metadatas footer).

Definition point_access_list_struct (r : Reader2) (col_leaf_id : Z) (col_field : Field) (row_id : Z)
  : outcome (list RecordBatch) :=
  let! footer := reader_footer r in
  point_access_based_on_footer (reader r) footer col_leaf_id col_field row_id (reader_wasm_context r)
    (shared_dictionary_cache r).

(** ** Statistics

    What [collect_stat_for_col] prints of a column: name, type, number of the field
    and size of its chunks.  The validity of a list or struct comes first, then its
    children, which keep the number of the field. *)
Record ColumnStat := mkStat {
  stat_name : string;
  stat_type : DataType;
  stat_id : Z;
  stat_size : Z;
}.

Fixpoint collect_stat (column_metas : list fb.ColumnMetadata) (id : Z) (col_name : string)
    (dt : DataType) (idx : ColumnIndexSequence) : outcome (list ColumnStat * ColumnIndexSequence) :=
  let! '(i, idx) := next_column_index idx in
  let! m := unwrap (column_metas !! Z.to_nat i) in
  let! chunks := unwrap (fb.column_chunks m) in
  let this := mkStat col_name dt id (zsum (map fb.chunk_size chunks)) in
  match dt with
  | List (mkField n t _) | LargeList (mkField n t _) =>
      let! '(stats, idx) := collect_stat column_metas id n t idx in Ok (this :: stats, idx)
  | Struct fields =>
      let! '(stats, idx) :=
        (fix go fields idx : outcome (list ColumnStat * ColumnIndexSequence) :=
           match fields with
           | [] => Ok ([], idx)
           | mkField n t _ :: fields =>
               let! '(stats, idx) := collect_stat column_metas id n t idx in
               let! '(more, idx) := go fields idx in
               Ok (stats ++ more, idx)
           end) fields idx in
      Ok (this :: stats, idx)
  | dt => if non_nest_types dt then Ok ([this], idx) else Panic PTodo
  end.

Definition collect_stat_for_col (column_metas : list fb.ColumnMetadata) (idx : ColumnIndexSequence)
    (field : Z * Field) : outcome (list ColumnStat * ColumnIndexSequence) :=
  collect_stat column_metas field.1 (name field.2) (data_type field.2) idx.

Definition collect_stats (footer : Footer) : outcome (list ColumnStat) :=
  let fields := zip (range (len (footer_schema footer))) (footer_schema footer) in
  let! stats :=
    traverse (λ m,
        let! '(stats, _) := traverse_st (collect_stat_for_col (column_metadatas m))
                              ColumnIndexSequence_default fields in
        Ok (concat stats)) (row_group_metadatas footer) in
  Ok (concat stats).

(** ** Opening a file *)

(** [FileReaderV2Builder::build], with the shared dictionaries read. *)
Definition open_file (b : FileReaderV2Builder (R:=R) (RT:=RT)) : outcome Reader2 :=
  Reader.build (try_new_read_all pushdown) b.
End ReadFile.

(** ** The legacy reader *)
Section Legacy.
Context {R RT : Type} `{Reader R} `{Flatbuffers} `{DecoderLibs RT} `{Codecs} `{Checksum}.

(** [FileReader::read_file]: no dictionaries, although the next step needs them. *)
Definition FileReader_read_file (pushdown : bool) (r : R) : outcome (list RecordBatch) :=
  let! footer := read_footer r in
  read_file_based_on_footer (RT:=RT) pushdown r footer ProjectAll All None None None.
End Legacy.
