(* ===== verification/DecoderFacts.v ===== *)
(** * Decoding gives back what was encoded

    [decode_chunk] ends, and satisfies the equation of the loop it models; a chunk
    that holds plain units decodes to the arrays it was made of, a chunk of indices
    to the rows they stand for; and a column decoder reads the chunks of a file. *)

From S2P Require Import Prelude Arrow EncUnit Common Footer Options Chunks Encoders.
From S2P Require Import Writer Dict SharedDict Buffers PhysEnc PhysEncFacts.
From S2P Require Import Decoders DictCache LogicalDec Wire.

(** ** The runtimes of a file *)

Section Runtimes.
Context {R RT : Type} `{Reader R} `{Flatbuffers} (compile : list Z → outcome RT).

(** Keeping the compiled runtimes changes no later answer. *)
Lemma get_runtime_again (c c' : WASMReadingContext R RT) id rt id' :
  get_runtime compile c id = Ok (rt, c') →
  omap_ok fst (get_runtime compile c' id') = omap_ok fst (get_runtime compile c id').
Proof.
  unfold get_runtime. intros Hrt. apply obind_Ok in Hrt as (ws & Hws & Hrt).
  apply obind_Ok in Hrt as (rt' & Hid & [= <- <-]). rewrite Hws. cbn [obind lazy_wasm].
  by destruct (ws !! id').
Qed.
End Runtimes.

(** ** The loop of a chunk *)

Section Loop.
Context {R RT : Type} `{Reader R} `{Flatbuffers} `{DecoderLibs RT} `{Codecs} (pushdown : bool).

Abbreviation Chunk := (ChunkDecoder (R:=R) (RT:=RT)).

(** Every array takes a unit. *)
Lemma decode_batch_takes (d d' : Chunk) a :
  chunk_decode_batch pushdown d = Ok (a, d') →
  match a with
  | Some _ => (length (units_left d') < length (units_left d))%nat
  | None => d' = d ∧ units_left d = [] ∨ (length (units_left d') < length (units_left d))%nat
  end.
Proof.
  intros Hd. destruct d as [d|d|d]; cbn [chunk_decode_batch] in Hd;
    apply obind_Ok in Hd as ([o e] & Hd & [= <- <-]).
  - unfold nd_decode_batch in Hd. destruct (nd_encunit_iter d) as [|u us] eqn:Hus.
    { simplify_eq. by left. }
    apply obind_Ok in Hd as ([dec buf] & _ & Hd). apply obind_Ok in Hd as (x & _ & [= <- <-]).
    cbn. rewrite Hus. cbn. lia.
  - unfold dd_decode_batch in Hd. destruct (dd_encunit_iter d) as [|u us] eqn:Hus.
    { simplify_eq. by left. }
    apply obind_Ok in Hd as ([dec buf] & _ & Hd). apply obind_Ok in Hd as (dict & _ & Hd).
    destruct us as [|iu us]; [done|]. apply obind_Ok in Hd as ([dec' buf'] & _ & Hd).
    apply obind_Ok in Hd as (i & _ & Hd). apply obind_Ok in Hd as (x & _ & Hd).
    apply obind_Ok in Hd as (y & _ & [= <- <-]).
    assert (length us < length (units_left (CDict d)))%nat by (cbn; rewrite Hus; cbn; lia).
    destruct y; [done|by right].
  - unfold sh_decode_batch in Hd. destruct (sh_encunit_iter d) as [|u us] eqn:Hus.
    { simplify_eq. by left. }
    apply obind_Ok in Hd as ([dec buf] & _ & Hd). apply obind_Ok in Hd as (i & _ & Hd).
    apply obind_Ok in Hd as (y & _ & [= <- <-]).
    assert (length us < length (units_left (CSharedDict d)))%nat by (cbn; rewrite Hus; cbn; lia).
    destruct y; [done|by right].
Qed.

(** More iterations than units change nothing. *)
Lemma decode_all_more m n (d : Chunk) :
  (length (units_left d) < n)%nat → (n ≤ m)%nat →
  decode_all pushdown m d = decode_all pushdown n d.
Proof.
  revert n d. induction m as [|m IH]; intros n d Hn Hm; [lia|].
  destruct n as [|n]; [lia|]. cbn [decode_all].
  destruct (chunk_decode_batch pushdown d) as [[a d']| |] eqn:Hd; [|done..]. cbn [obind].
  destruct a as [a|]; [|done]. apply decode_batch_takes in Hd. by rewrite (IH n) by lia.
Qed.

(** C34: decoding a chunk terminates, and the number of its units bounds the loop:
    [decode_chunk] satisfies the equation of the [while let] loop it models, in which
    nothing bounds the iterations. *)
Theorem decode_chunk_loop (d : Chunk) :
  decode_chunk pushdown d =
    let! '(a, d) := chunk_decode_batch pushdown d in
    match a with
    | Some a => let! '(arrays, d) := decode_chunk pushdown d in Ok (a :: arrays, d)
    | None => Ok ([], d)
    end.
Proof.
  unfold decode_chunk at 1. cbn [decode_all].
  destruct (chunk_decode_batch pushdown d) as [[a d']| |] eqn:Hd; [|done..]. cbn [obind].
  destruct a as [a|]; [|done]. apply decode_batch_takes in Hd. unfold decode_chunk.
  by rewrite (decode_all_more (length (units_left d)) (S (length (units_left d')))) by lia.
Qed.
End Loop.

(** ** Units of the built-in codec *)

(** What is relied on of vortex: an array of a type it keeps decodes to itself,
    strings and binary values as views. *)
Class VortexLaws `{EncoderLibs} {RT} `{DecoderLibs RT} (keeps : DataType → Prop) := {
  vortex_decode_encode enable_dict dt vals u :
    non_nest_types dt = true → keeps dt → vortex_encode enable_dict (PrimArray dt vals) = Ok u →
    vortex_decode (EncUnit_try_serialize u) = Ok (PrimArray (view_type dt) vals);
}.

(** What is relied on of vortex: slicing an encoded array gives the rows of the slice. *)
Class VortexSliceLaws `{EncoderLibs} {RT} `{DecoderLibs RT} (keeps : DataType → Prop) := {
  vortex_slice_encode enable_dict dt vals u start stop :
    non_nest_types dt = true → keeps dt → vortex_encode enable_dict (PrimArray dt vals) = Ok u →
    0 ≤ start → start ≤ stop → stop ≤ len vals →
    vortex_slice (EncUnit_try_serialize u) start stop
    = Ok (PrimArray (view_type dt) (sub_list vals start (stop - start)));
}.

(** The array as it is read back. *)
Definition to_view (a : Array) : Array :=
  match a with PrimArray dt vals => PrimArray (view_type dt) vals | a => a end.

(** Nothing of type [dt] is written for a WASM decoder. *)
Definition built_in (wasm : WASMWritingContext) (dt : DataType) : Prop :=
  data_type_to_wasm_lib wasm dt = None ∧ always_set_custom_wasm_for_built_in wasm = false.

(** A plain array of a type that vortex keeps. *)
Definition plain (keeps : DataType → Prop) (wasm : WASMWritingContext) (a : Array) : Prop :=
  ∃ dt vals, a = PrimArray dt vals ∧ non_nest_types dt = true ∧ keeps dt ∧ built_in wasm dt.

(** The entry of a unit in the metadata of its chunk. *)
Definition unit_recorded (u : SerializedEncUnit) (b : EncUnit) : Prop :=
  eu_size b = len (bytes u) ∧ eu_num_rows b = su_num_rows u ∧
  eu_encoding b = su_encoding u ∧ eu_compression b = su_compression_type u.

Section Plain.
Context {R RT : Type} `{Reader R} `{Flatbuffers} `{EncoderLibs} `{DecoderLibs RT}.
Context `{Codecs} `{!CodecsLaws} (keeps : DataType → Prop) `{!VortexLaws keeps} (pushdown : bool).

(** The file's own version of the built-in encoding is one this reader decodes. *)
Definition reads_builtin (ctx : option (WASMReadingContext R RT)) : Prop :=
  ∃ c versions file_version reader_version, ctx = Some c ∧
    get_encoding_versions c = Some versions ∧ versions !! CASCADE = Some file_version ∧
    DEFAULT_ENCODING_VERSIONS !! CASCADE = Some reader_version ∧
    incompatible reader_version file_version = false.

Lemma create_builtin ctx e ct z data n dt :
  reads_builtin ctx → fb.type_ e = CASCADE → compress_data data ct = Ok z →
  create_encunit_decoder e ct z n dt ctx = Ok (VortexEncUnitDecoder data dt).
Proof.
  intros (c & versions & fv & rv & -> & Hv & Hfv & Hrv & Hinc) He Hz.
  unfold create_encunit_decoder. rewrite He.
  assert (Hd : (if ct =? Uncompressed then Ok z else decompress_data z ct) = Ok data).
  { apply compress_roundtrip in Hz. destruct (ct =? Uncompressed) eqn:Hu; [|done].
    unfold decompress_data in Hz. by rewrite Hu in Hz. }
  rewrite Hd. cbn [obind ok_or]. rewrite Z.eqb_refl, Hv. cbn [obind ok_or].
  rewrite Hfv. cbn [obind ok_or]. rewrite Hrv. cbn [obind unwrap]. by rewrite Hinc.
Qed.

(** The parts of a built-in unit. *)
Lemma builtin_unit wasm ct ed a u :
  built_in wasm (arr_data_type a) → encode_unit wasm ct ed a = Ok u →
  ∃ v, vortex_encode ed a = Ok v ∧ compress_data (EncUnit_try_serialize v) ct = Ok (bytes u) ∧
    encoding_type (su_encoding u) = CASCADE ∧ su_compression_type u = ct ∧
    su_num_rows u = wrap 32 (arr_len a).
Proof.
  intros [Hlib Hset] Hu. unfold encode_unit, create_encunit_encoder in Hu. rewrite Hlib in Hu.
  cbn [obind] in Hu. apply obind_Ok in Hu as (b & Hb & Hu). apply obind_Ok in Hu as (z & Hz & Hu).
  apply obind_Ok in Hu as (e & He & [= <-]). unfold encode_array in Hb.
  apply obind_Ok in Hb as (v & Hv & [= <-]). rewrite unwrap_res_Ok in Hv.
  exists v. split; [exact Hv|]. split; [exact Hz|]. split; [|done]. cbn.
  unfold unit_encoding in He. rewrite Hset in He. cbn in He. by injection He as <-.
Qed.

Lemma next_unit_builtin ctx wasm ct ed a u b dt rest :
  reads_builtin ctx → built_in wasm (arr_data_type a) → encode_unit wasm ct ed a = Ok u →
  unit_recorded u b →
  ∃ v, vortex_encode ed a = Ok v ∧
    next_unit (EncUnit_to_fb b) (bytes u ++ rest) dt ctx
    = Ok (VortexEncUnitDecoder (EncUnit_try_serialize v) dt, rest).
Proof.
  intros Hctx Hb Hu (Hsize & _ & Henc & Hct).
  destruct (builtin_unit _ _ _ _ _ Hb Hu) as (v & Hv & Hz & Ht & Hcomp & _).
  exists v. split; [done|]. unfold next_unit. cbn [fb.eu_size EncUnit_to_fb].
  rewrite split_to_app by done. cbn [obind fb.eu_encoding EncUnit_to_fb unwrap].
  cbn [fb.eu_compression fb.eu_num_rows].
  rewrite (create_builtin _ _ _ _ (EncUnit_try_serialize v)); [done|exact Hctx| |].
  - cbn. by rewrite Henc.
  - cbn. by rewrite Hct, Hcomp.
Qed.

(** Units of [a] decode to an array related to it, whatever follows them. *)
Definition unit_reads (ctx : option (WASMReadingContext R RT)) (wasm : WASMWritingContext)
    (ct : CompressionType) (ed : bool) (dt : DataType) (rel : Array → Array → Prop) (a : Array) : Prop :=
  ∀ u b rest, encode_unit wasm ct ed a = Ok u → unit_recorded u b →
    ∃ dec a', next_unit (EncUnit_to_fb b) (bytes u ++ rest) dt ctx = Ok (dec, rest) ∧
      unit_decode pushdown dec = Ok a' ∧ rel a a'.

(** A plain unit decodes to its array. *)
Lemma plain_unit_decodes ctx wasm ct ed a u b dt rest :
  reads_builtin ctx → plain keeps wasm a → arr_data_type a = dt ∨ non_nest_types dt = true →
  encode_unit wasm ct ed a = Ok u → unit_recorded u b →
  ∃ dec, next_unit (EncUnit_to_fb b) (bytes u ++ rest) dt ctx = Ok (dec, rest) ∧
    unit_decode pushdown dec = Ok (to_view a).
Proof.
  intros Hctx (t & vals & -> & Ht & Hk & Hb) Hdt Hu Hrec. cbn [arr_data_type] in Hdt.
  destruct (next_unit_builtin ctx wasm ct ed (PrimArray t vals) u b dt rest Hctx Hb Hu Hrec) as (v & Hv & Hn).
  eexists. split; [exact Hn|]. cbn [unit_decode].
  assert (Hnn : non_nest_types dt = true) by (destruct Hdt as [<-|]; done).
  rewrite Hnn. by apply (vortex_decode_encode (keeps:=keeps)) in Hv.
Qed.

(** *** Chunks of plain units *)

(** The metadata of the units of a chunk. *)
Definition units_recorded (c : EncodedColumnChunk) (units : list fb.EncUnit) : Prop :=
  ∃ blocks, Forall2 unit_recorded (encunits c) blocks ∧ units = map EncUnit_to_fb blocks.

(** Each group of arrays is a chunk that decodes to them. *)
Lemma units_decode ctx wasm ct ed dt rel g uss blocks :
  Forall (unit_reads ctx wasm ct ed dt rel) g →
  Forall2 (λ a us, plain_units wasm ct ed a = Ok us) g uss →
  Forall2 unit_recorded (concat uss) blocks →
  ∃ arrs, decode_chunk pushdown (CNoDict (mkNoDict (map EncUnit_to_fb blocks)
      (concat (map bytes (concat uss))) dt ctx))
    = Ok (arrs, CNoDict (mkNoDict [] [] dt ctx)) ∧ Forall2 rel g arrs.
Proof.
  intros Hg HF. revert blocks. induction HF as [|a us g uss Ha _ IH]; intros blocks Hrec.
  - apply Forall2_nil_inv_l in Hrec as ->. by exists [].
  - apply plain_units_one in Ha as (u & -> & Hu). cbn [concat app] in Hrec |- *.
    apply Forall2_cons_inv_l in Hrec as (b & blocks' & Hb & Hrec & ->).
    apply Forall_cons in Hg as [Hga Hg].
    destruct (Hga u b (concat (map bytes (concat uss))) Hu Hb) as (dec & a' & Hn & Hdec & Hrel).
    destruct (IH Hg _ Hrec) as (arrs & Harrs & HFr). exists (a' :: arrs). split; [|by constructor].
    rewrite decode_chunk_loop. cbn [map concat chunk_decode_batch nd_decode_batch nd_encunit_iter
      nd_encoded_chunk_buf nd_data_type nd_wasm_context].
    rewrite Hn. cbn [obind]. rewrite Hdec. cbn [obind]. by rewrite Harrs.
Qed.

Lemma chunk_decodes ctx wasm ct ed dt rel g c units :
  Forall (unit_reads ctx wasm ct ed dt rel) g →
  holds (plain_units wasm ct ed) arr_len NoDictionary g c → units_recorded c units →
  ∃ arrs, decode_chunk pushdown (CNoDict (mkNoDict units (chunk_bytes c) dt ctx))
    = Ok (arrs, CNoDict (mkNoDict [] [] dt ctx)) ∧ Forall2 rel g arrs.
Proof.
  intros Hg (uss & HF & ->) (blocks & Hrec & ->). cbn [encunits] in Hrec.
  by apply (units_decode ctx wasm ct ed).
Qed.
End Plain.

(** ** A column in a file *)

Section Column.
Context {R RT : Type} `{Reader R} `{Flatbuffers} `{EncoderLibs} `{DecoderLibs RT}.
Context `{Codecs} `{!CodecsLaws} `{Checksum} (pushdown : bool).

Abbreviation Prim := (PrimitiveColDecoder (R:=R) (RT:=RT)).

(** Chunks are decoded one after the other. *)
Definition chunk_gives (p : Prim) (m : fb.Chunk) (arrs : list Array) : Prop :=
  ∃ d d', open_chunk p m = Ok d ∧ decode_chunk pushdown d = Ok (arrs, d').

Lemma prim_batches_gives p last ms arrss :
  Forall2 (chunk_gives p) ms arrss →
  ∃ last', prim_batches pushdown p last ms = Ok (concat arrss, last').
Proof.
  intros HF. revert last. induction HF as [|m arrs ms arrss (d & d' & Hd & Hdec) _ IH]; intros last.
  - by eexists.
  - cbn [prim_batches]. rewrite Hd. cbn [obind]. rewrite Hdec. cbn [obind].
    destruct (IH (Some d')) as [last' ->]. by eexists.
Qed.

Lemma prim_decode_gives p arrss :
  Forall2 (chunk_gives p) (pr_chunks_meta_iter p) arrss →
  ∃ p', prim_decode_batch pushdown p = Ok (concat arrss, p') ∧ pr_chunks_meta_iter p' = [].
Proof.
  intros HF. unfold prim_decode_batch. destruct (prim_batches_gives p (pr_chunk_decoder p) _ _ HF)
    as [last ->]. by eexists.
Qed.

(** A decoder that verifies checksums needs a file that has them. *)
Definition verifiable (ck : bool) (p : Prim) : Prop := pr_checksum_type p = None ∨ ck = true.

(** A recorded chunk is read as it was written. *)
Lemma read_chunk_recorded p ck file c m :
  ReaderOf R (pr_r p) file → verifiable ck p → records ck file c m →
  read_chunk p (chunk_offset m) (chunk_size m) (chunk_checksum m) = Ok (chunk_bytes c).
Proof.
  intros Hr Hv ((pre & post & Hf & Ho & Hs) & _ & _ & _ & Hck). unfold read_chunk.
  rewrite (reader_range (pr_r p) file pre (chunk_bytes c) post) by done. cbn [obind].
  destruct Hv as [->|Hv]; [done|]. rewrite Hv in Hck. rewrite Hck.
  destruct (pr_checksum_type p) as [[]|]; [|done]. cbn [obind ok_or]. unfold checksum_of.
  by rewrite Z.eqb_refl.
Qed.

Lemma records_units ck file c m :
  records ck file c m → units_recorded c (map EncUnit_to_fb (blocks m)).
Proof. intros (_ & _ & _ & Hu & _). by exists (blocks m). Qed.

(** The types that a physical column has. *)
Definition physical_type (dt : DataType) : bool :=
  non_nest_types dt || match dt with List _ | LargeList _ => true | _ => false end.

Lemma open_plain_chunk p ck file c m :
  ReaderOf R (pr_r p) file → verifiable ck p → records ck file c m → dict_encoding c = NoDictionary →
  physical_type (pr_primitive_type p) = true →
  open_chunk p (Chunk_to_fb m) = Ok (CNoDict (mkNoDict (map EncUnit_to_fb (blocks m)) (chunk_bytes c)
    (pr_primitive_type p) (pr_wasm_context p))).
Proof.
  intros Hr Hv Hrec Hde Hnn. unfold open_chunk. cbn [fb.chunk_offset fb.chunk_size fb.checksum Chunk_to_fb].
  rewrite (read_chunk_recorded _ _ _ _ _ Hr Hv Hrec). cbn [obind fb.encunits Chunk_to_fb ok_or].
  destruct Hrec as (_ & _ & He & _ & _). cbn [fb.chunk_encoding Chunk_to_fb]. rewrite He, Hde.
  unfold create_physical_decoder. unfold physical_type in Hnn. by rewrite Hnn.
Qed.

(** The chunks of arrays whose units are read, recorded in a file, give the arrays. *)
Lemma chunks_give rel p ck file wasm ct ed groups chunks metas :
  ReaderOf R (pr_r p) file → verifiable ck p → physical_type (pr_primitive_type p) = true →
  Forall (unit_reads pushdown (pr_wasm_context p) wasm ct ed (pr_primitive_type p) rel) (concat groups) →
  Forall2 (holds (plain_units wasm ct ed) arr_len NoDictionary) groups chunks →
  Forall2 (records ck file) chunks metas →
  ∃ arrss, Forall2 (chunk_gives p) (map Chunk_to_fb metas) arrss ∧ Forall2 (Forall2 rel) groups arrss.
Proof.
  intros Hr Hv Hnn Hg Hh. revert metas.
  induction Hh as [|g c groups chunks Hgc _ IH]; intros metas Hrec.
  - apply Forall2_nil_inv_l in Hrec as ->. by exists [].
  - apply Forall2_cons_inv_l in Hrec as (m & metas' & Hm & Hrec & ->).
    cbn [concat] in Hg. apply Forall_app in Hg as [Hgg Hg].
    destruct (IH Hg _ Hrec) as (arrss & Harrss & HFr).
    destruct (chunk_decodes pushdown _ wasm ct ed _ rel g c (map EncUnit_to_fb (blocks m)) Hgg Hgc)
      as (arrs & Harrs & Hga); [by eapply records_units|].
    exists (arrs :: arrss). split; [|by constructor]. cbn [map]. constructor; [|done].
    eexists _, _. split; [|exact Harrs].
    apply (open_plain_chunk p ck file c m); try done. by destruct Hgc as (uss & _ & ->).
Qed.

(** A column whose chunks were filled with [arrs]. *)
Lemma chunked_read rel limit wasm ct ed arrs chunks ck file metas p :
  chunked (plain_units wasm ct ed) arr_len limit NoDictionary arrs chunks →
  Forall2 (records ck file) chunks metas →
  ReaderOf R (pr_r p) file → verifiable ck p → physical_type (pr_primitive_type p) = true →
  Forall (unit_reads pushdown (pr_wasm_context p) wasm ct ed (pr_primitive_type p) rel) arrs →
  pr_chunks_meta_iter p = map Chunk_to_fb metas →
  ∃ arrs' p', prim_decode_batch pushdown p = Ok (arrs', p') ∧ pr_chunks_meta_iter p' = [] ∧
    Forall2 rel arrs arrs'.
Proof.
  intros (groups & <- & Hg & _) Hrec Hr Hv Hty Hreads Hms.
  destruct (chunks_give rel p ck file wasm ct ed groups chunks metas) as (arrss & Hgive & HF); [done..|].
  rewrite <-Hms in Hgive. destruct (prim_decode_gives p _ Hgive) as (p' & Hp & Hnil).
  exists (concat arrss), p'. split; [done|]. split; [done|]. clear - HF.
  induction HF; [constructor|]. cbn. by apply Forall2_app.
Qed.

Lemma column_read keeps `{!VortexLaws keeps} limit wasm ct ed arrs counter chunks e' counter'
    ck file metas p dt :
  0 ≤ limit →
  ed_run (EncoderDictColEncoder_new limit wasm ed ct) arrs counter = Ok (chunks, e', counter') →
  Forall2 (records ck file) chunks metas →
  Forall (λ a, ∃ vals, a = PrimArray dt vals) arrs →
  non_nest_types dt = true → keeps dt → built_in wasm dt →
  ReaderOf R (pr_r p) file → verifiable ck p → reads_builtin (pr_wasm_context p) →
  pr_chunks_meta_iter p = map Chunk_to_fb metas → pr_primitive_type p = dt →
  ∃ p', prim_decode_batch pushdown p = Ok (map to_view arrs, p') ∧ pr_chunks_meta_iter p' = [].
Proof.
  intros Hl Hrun Hrec Harrs Hnn Hk Hb Hr Hv Hctx Hms Hdt.
  apply ed_run_chunked in Hrun; [|done].
  destruct (chunked_read (λ a a', a' = to_view a) limit wasm ct ed arrs chunks ck file metas p)
    as (arrs' & p' & Hp & Hnil & HF); [done..| | |done|].
  - unfold physical_type. by rewrite Hdt, Hnn.
  - eapply Forall_impl; [exact Harrs|]. intros a [vals ->] u b rest Hu Hb'.
    destruct (plain_unit_decodes keeps pushdown (pr_wasm_context p) wasm ct ed (PrimArray dt vals) u b
      (pr_primitive_type p) rest) as (dec & Hn & Hd); [done|by exists dt, vals|by left|done..|].
    by eexists _, _.
  - exists p'. split; [|done]. rewrite Hp. do 2 f_equal. clear - HF.
    induction HF as [|a a' l l' -> _ IH]; [done|]. cbn. by rewrite IH.
Qed.
(** A column is read back from the file.  The arrays of one type that an encoder
    without a dictionary of its own encoded, for one row group, are what the column
    decoder gives when the metadata of the encoder's chunks records where they are in
    a file: all of them, in order, with strings as views; with checksums verified if
    the file has them; and every chunk is read to its end. *)
Theorem column_reads_back keeps `{!VortexLaws keeps} limit wasm ct ed arrs counter chunks e' counter'
    ck file metas p dt :
  0 ≤ limit →
  ed_run (EncoderDictColEncoder_new limit wasm ed ct) arrs counter = Ok (chunks, e', counter') →
  Forall2 (records ck file) chunks metas →
  Forall (λ a, ∃ vals, a = PrimArray dt vals) arrs →
  non_nest_types dt = true → keeps dt → built_in wasm dt →
  ReaderOf R (pr_r p) file → verifiable ck p → reads_builtin (pr_wasm_context p) →
  pr_chunks_meta_iter p = map Chunk_to_fb metas → pr_primitive_type p = dt →
  ∃ p', prim_decode_batch pushdown p = Ok (map to_view arrs, p') ∧ pr_chunks_meta_iter p' = [].
Proof. by apply column_read. Qed.
End Column.

(** ** Columns with a shared dictionary *)

Section SharedColumn.
Context {R RT : Type} `{Reader R} `{Flatbuffers} `{EncoderLibs} `{DecoderLibs RT}.
Context `{Codecs} `{!CodecsLaws} `{Checksum} (pushdown : bool).
Context (keeps : DataType → Prop) `{!VortexLaws keeps}.

(** Vortex keeps the index types, and none of them is written for a WASM decoder. *)
Definition plain_indexes (wasm : WASMWritingContext) : Prop :=
  ∀ n, keeps (index_type n) ∧ built_in wasm (index_type n).

Lemma index_type_flat n : non_nest_types (index_type n) = true ∧ view_type (index_type n) = index_type n.
Proof. unfold index_type. by repeat case_match. Qed.

Lemma dict_value_at out (dict : list value) i :
  0 ≤ i < len dict → ∃ v, dict !! Z.to_nat i = Some v ∧ dict_value out (map Some dict) i = Ok v.
Proof.
  intros Hi. destruct (lookup_lt_is_Some_2 dict (Z.to_nat i)) as [v Hv]; [unfold len in Hi; lia|].
  exists v. split; [done|]. unfold dict_value. rewrite (proj2 (index_Ok (map Some dict) i (Some v))).
  - done.
  - split; [lia|]. by rewrite list_lookup_fmap, Hv.
Qed.

(** Looking up indices of a dictionary without nulls. *)
Lemma lookup_indexes out (dict : list value) sl :
  Forall (index_below (len dict)) sl →
  index_downcast (index_type (len dict)) out (map Some dict)
    (PrimArray (index_type (len dict)) (map (option_map VInt) sl))
  = Ok (Some (PrimArray out (lookup_rows dict (map (option_map VInt) sl)))).
Proof.
  intros Hsl. unfold index_downcast. rewrite decide_True by done.
  assert (Ht : traverse (λ i : option value, match i with
       | None => Ok None
       | Some (VInt x) => let! v := dict_value out (map Some dict) x in Ok (Some v)
       | Some _ => Panic PUnwrap
       end) (map (option_map VInt) sl) = Ok (lookup_rows dict (map (option_map VInt) sl))).
  { induction Hsl as [|o sl Ho _ IH]; [done|]. cbn [map traverse lookup_rows] in *.
    destruct o as [i|]; cbn [option_map lookup_row obind].
    - cbn in Ho. destruct (dict_value_at out dict i) as (v & Hv & ->); [done|].
      cbn [obind]. unfold lookup_rows in IH. by rewrite IH, Hv.
    - unfold lookup_rows in IH. by rewrite IH. }
  rewrite Ht. done.
Qed.

Lemma indexes_to_data vdt out (dict : list value) vals idx :
  dict_array_type vdt = Ok out → indexes dict vals idx →
  dict_index_to_data (PrimArray vdt (map Some dict)) idx = Ok (Some (PrimArray out vals)).
Proof.
  intros Hout (sl & -> & Hsl & <-). unfold dict_index_to_data. cbn [arr_data_type arr_vals unwrap].
  rewrite Hout. cbn [obind]. rewrite len_map. pose proof (lookup_indexes out dict sl Hsl) as Hl.
  unfold index_type in *. by repeat case_match.
Qed.

(** Index arrays of a dictionary, and the arrays that looking them up in [darr] gives. *)
Definition looked_up (dict : list value) (darr : Array) (out : DataType) (vals : list (option value))
    (idx : Array) : Prop :=
  indexes dict vals idx ∧ dict_index_to_data darr idx = Ok (Some (PrimArray out vals)).

Lemma indexes_looked_up vdt out (dict : list value) cols idxs :
  dict_array_type vdt = Ok out → Forall2 (indexes dict) cols idxs →
  Forall2 (looked_up dict (PrimArray vdt (map Some dict)) out) cols idxs.
Proof.
  intros Hout HF. eapply Forall2_impl; [exact HF|]. intros vals idx Hidx.
  split; [done|by apply indexes_to_data].
Qed.

(** A chunk of index arrays gives the rows they stand for. *)
Lemma index_units_decode ctx wasm ct dt darr out (dict : list value) cols idxs uss blocks :
  reads_builtin ctx → plain_indexes wasm →
  Forall2 (looked_up dict darr out) cols idxs →
  Forall2 (λ a us, plain_units wasm ct false a = Ok us) idxs uss →
  Forall2 unit_recorded (concat uss) blocks →
  decode_chunk pushdown (CSharedDict (mkSharedDictDecoder (map EncUnit_to_fb blocks)
    (concat (map bytes (concat uss))) dt ctx darr))
  = Ok (map (PrimArray out) cols, CSharedDict (mkSharedDictDecoder [] [] dt ctx darr)).
Proof.
  intros Hctx Hpl Hidx HF. revert cols blocks Hidx.
  induction HF as [|a us idxs uss Ha _ IH]; intros cols blocks Hidx Hrec.
  - apply Forall2_nil_inv_r in Hidx as ->. by apply Forall2_nil_inv_l in Hrec as ->.
  - apply Forall2_cons_inv_r in Hidx as (vals & cols' & [Hv Hlook] & Hidx & ->).
    apply plain_units_one in Ha as (u & -> & Hu). cbn [concat app] in Hrec |- *.
    apply Forall2_cons_inv_l in Hrec as (b & blocks' & Hb & Hrec & ->).
    destruct (index_type_flat (len dict)) as [Hnn Hview]. destruct (Hpl (len dict)) as [Hk Hbi].
    assert (Hpa : plain keeps wasm a) by (destruct Hv as (sl & -> & _); by eexists _, _).
    destruct (plain_unit_decodes keeps pushdown ctx _ _ _ _ _ _ Int64
      (concat (map bytes (concat uss))) Hctx Hpa (or_intror eq_refl) Hu Hb) as (dec & Hn & Hdec).
    rewrite decode_chunk_loop. cbn [map concat chunk_decode_batch sh_decode_batch sh_encunit_iter
      sh_encoded_chunk_buf sh_data_type sh_wasm_context shared_dictionary].
    rewrite Hn. cbn [obind]. rewrite Hdec. cbn [obind].
    assert (Hto : to_view a = a) by (destruct Hv as (sl & -> & _); cbn; by rewrite Hview).
    rewrite Hto, Hlook. cbn [obind].
    rewrite (IH _ _ Hidx Hrec). done.
Qed.

(** The chunk names a dictionary that the cache has. *)
Lemma open_shared_chunk (p : PrimitiveColDecoder (R:=R) (RT:=RT)) ck file c m id dict :
  ReaderOf R (pr_r p) file → verifiable ck p → records ck file c m →
  dict_encoding c = SharedDictionary id → non_nest_types (pr_primitive_type p) = true →
  get_dict (pr_shared_dictionary_cache p) id = Some dict →
  open_chunk p (Chunk_to_fb m) = Ok (CSharedDict (mkSharedDictDecoder (map EncUnit_to_fb (blocks m))
    (chunk_bytes c) (pr_primitive_type p) (pr_wasm_context p) dict)).
Proof.
  intros Hr Hv Hrec Hde Hnn Hd. unfold open_chunk.
  cbn [fb.chunk_offset fb.chunk_size fb.checksum Chunk_to_fb].
  rewrite (read_chunk_recorded _ _ _ _ _ Hr Hv Hrec). cbn [obind fb.encunits Chunk_to_fb ok_or].
  destruct Hrec as (_ & _ & He & _ & _). unfold encoding_as_shared_dictionary.
  cbn [fb.chunk_encoding Chunk_to_fb]. rewrite He, Hde.
  unfold create_physical_decoder. rewrite Hnn. cbn [negb orb ok_or obind]. by rewrite Hd.
Qed.

Lemma shared_chunks_give (p : PrimitiveColDecoder (R:=R) (RT:=RT)) ck file wasm ct id darr out dict cols groups chunks metas :
  ReaderOf R (pr_r p) file → verifiable ck p → reads_builtin (pr_wasm_context p) →
  non_nest_types (pr_primitive_type p) = true → plain_indexes wasm →
  get_dict (pr_shared_dictionary_cache p) id = Some darr →
  Forall2 (looked_up dict darr out) cols (concat groups) →
  Forall2 (holds (plain_units wasm ct false) arr_len (SharedDictionary id)) groups chunks →
  Forall2 (records ck file) chunks metas →
  ∃ colss, concat colss = cols ∧
    Forall2 (chunk_gives pushdown p) (map Chunk_to_fb metas) (map (map (PrimArray out)) colss).
Proof.
  intros Hr Hv Hctx Hnn Hpl Hd Hidx Hh. revert metas cols Hidx.
  induction Hh as [|g c groups chunks Hg _ IH]; intros metas cols Hidx Hrec.
  - apply Forall2_nil_inv_l in Hrec as ->. apply Forall2_nil_inv_r in Hidx as ->. by exists [].
  - apply Forall2_cons_inv_l in Hrec as (m & metas' & Hm & Hrec & ->). cbn [concat] in Hidx.
    apply Forall2_app_inv_r in Hidx as (cs & cols' & Hcs & Hcols & ->).
    destruct (IH _ _ Hcols Hrec) as (colss & <- & Hgives). exists (cs :: colss). split; [done|].
    cbn [map]. constructor; [|done]. eexists _, _. split.
    + apply (open_shared_chunk p ck file c m id); try done. by destruct Hg as (uss & _ & ->).
    + destruct Hg as (uss & HF & ->). destruct (records_units _ _ _ _ Hm) as (bl & Hbl & Heq).
      rewrite Heq. by apply (index_units_decode _ wasm ct _ darr out dict cs g).
Qed.

(** The chunks of arrays name one dictionary, and there is one. *)
Lemma chunked_names enc limit id (arrs : list Array) chunks :
  arrs ≠ [] → chunked enc arr_len limit (SharedDictionary id) arrs chunks →
  chunks ≠ [] ∧ Forall (λ c, dict_encoding c = SharedDictionary id) chunks.
Proof.
  intros Hne (groups & <- & Hg & _). split.
  - intros ->. by apply Forall2_nil_inv_r in Hg as ->.
  - eapply Forall2_Forall_r; [exact Hg|]. apply Forall_true. by intros g c (uss & _ & ->).
Qed.

(** C12: a column with a shared dictionary is read back from the file.  When the
    arrays an encoder has buffered are encoded, all the chunks name one dictionary, a
    dictionary of the pool for the type of the column.  A column decoder that reads the
    chunks from a file they are recorded in, and that finds the values of this dictionary
    in its cache under the number the chunks name, gives one array per buffered array,
    with the same values and nulls. *)
Theorem shared_column_reads_back `{Sampling} `{!NonEmptyUnits} string_hash e counter ctx chunks e'
    counter' ctx' dt cols ck file metas (p : PrimitiveColDecoder (R:=R) (RT:=RT)) out :
  Forall (dictionary_ok string_hash) (dictionaries ctx) → is_Some (method_table dt) →
  sd_buffered_arrays e = map (PrimArray dt) cols → cols ≠ [] →
  len (dictionaries ctx) < 2 ^ 32 - 1 → 0 ≤ sd_column_chunk_size e →
  (∀ id, sd_submitted_dict_idx e = Some id →
     0 ≤ id ∧ ∃ d, dictionaries ctx !! Z.to_nat id = Some d ∧ datatype d = dt) →
  encode_dict_scope string_hash e counter ctx = Ok (chunks, e', counter', ctx') →
  Forall2 (records ck file) chunks metas →
  ReaderOf R (pr_r p) file → verifiable ck p → reads_builtin (pr_wasm_context p) →
  plain_indexes (sd_wasm e) → non_nest_types (pr_primitive_type p) = true →
  pr_chunks_meta_iter p = map Chunk_to_fb metas → dict_array_type (view_type dt) = Ok out →
  ∃ id d, chunks ≠ [] ∧ Forall (λ c, dict_encoding c = SharedDictionary id) chunks ∧
    0 ≤ id ∧ dictionaries ctx' !! Z.to_nat id = Some d ∧ datatype d = dt ∧
    (get_dict (pr_shared_dictionary_cache p) id
       = Some (PrimArray (view_type dt) (map Some (dict_values d))) →
     ∃ p', prim_decode_batch pushdown p = Ok (map (PrimArray out) cols, p')).
Proof.
  intros Hok Hdt Hbuf Hne Hsmall Hlimit Hsub He Hrec Hr Hv Hctx Hpl Hnn Hms Hout.
  destruct (encode_dict_scope_ok string_hash e counter ctx chunks e' counter' ctx' dt cols)
    as (id & d & idxs & Hid & Hd & Hty & _ & Hidx & Hchunked & _ & _); try done.
  assert (Hidxs : idxs ≠ []) by (intros ->; by apply Forall2_nil_inv_r in Hidx).
  destruct (chunked_names _ _ _ _ _ Hidxs Hchunked) as [Hsome Hnames].
  destruct Hchunked as (groups & <- & Hg & _).
  exists id, d. split_and!; [done..|]. intros Hcache.
  destruct (shared_chunks_give p ck file _ _ id _ out _ cols groups chunks metas Hr Hv Hctx Hnn Hpl
    Hcache (indexes_looked_up _ _ _ _ _ Hout Hidx) Hg Hrec) as (colss & <- & Hgive). rewrite <-Hms in Hgive.
  destruct (prim_decode_gives _ p _ Hgive) as (p' & Hp & _). exists p'. by rewrite Hp, concat_map.
Qed.
End SharedColumn.

(** ** Examples

    The small instance of [Encoders.v], and its decoder. *)

Definition byte_type (t : Z) : option DataType :=
  [UInt8; UInt16; UInt32; UInt64; Int32; Int64; Utf8] !! Z.to_nat t.

Definition byte_value (dt : DataType) (b : Z) : option value :=
  if b =? 0 then None
  else match dt with
       | Utf8 => Some (VStr (String.String (Ascii.ascii_of_N (Z.to_N (b - 1))) String.EmptyString))
       | _ => Some (VInt (b - 1))
       end.

Definition byte_decode (bs : list Z) : outcome Array :=
  match bs with
  | t :: _ :: bs =>
      let! dt := ok_or (byte_type t) (NYI "type") in
      Ok (PrimArray (view_type dt) (map (byte_value dt) bs))
  | _ => Err (General "no type")
  end.

Definition byte_decoder : DecoderLibs unit := {|
  vortex_decode := byte_decode;
  vortex_slice bs start stop :=
    let! a := byte_decode bs in
    let! vals := unwrap (arr_vals a) in
    let! vals := slice vals start stop in Ok (PrimArray (arr_data_type a) vals);
  vortex_list_decode _ _ := Err (NYI "nested array");
  vortex_list_struct_decode _ _ := Err (NYI "list of structs");
  vortex_list_struct_slice _ _ _ _ := Err (NYI "list of structs");
  call_multi_buf _ _ _ := Err (General "no libraries");
  Runtime_try_new _ := Err (General "no libraries");
  concat_nested _ := Err (NYI "nested array");
|}.

Definition byte_kept (dt : DataType) : Prop := is_Some (type_byte dt).

Lemma type_byte_back dt t :
  type_byte dt = Some t → byte_type t = Some dt.
Proof. destruct dt; intros [= <-]; done. Qed.

Lemma value_byte_back dt v b :
  value_byte dt v = Some b → byte_kept dt → byte_value dt b = v.
Proof.
  intros Hv [t Ht]. destruct v as [[x|x|s|x]|]; cbn in Hv; [|done| |done|by injection Hv as <-].
  - case_bool_decide as Hdt; [|done]. destruct (Z.leb_spec 0 x); [|done].
    destruct (Z.ltb_spec x 255); [|done]. injection Hv as <-. unfold byte_value.
    rewrite (proj2 (Z.eqb_neq (1 + x) 0)) by lia. replace (1 + x - 1) with x by lia. by destruct dt.
  - destruct s as [|c [|]]; [done| |done]. case_bool_decide as Hdt; [|done]. subst dt. cbn in Hv.
    destruct (Z.ltb_spec (Z.of_N (Ascii.N_of_ascii c)) 255); [|done]. injection Hv as <-. unfold byte_value.
    rewrite (proj2 (Z.eqb_neq _ 0)) by lia.
    replace (1 + Z.of_N (Ascii.N_of_ascii c) - 1) with (Z.of_N (Ascii.N_of_ascii c)) by lia.
    by rewrite N2Z.id, Ascii.ascii_N_embedding.
Qed.

Lemma byte_decode_encode arr u dt vals :
  arr = PrimArray dt vals → byte_encode arr = Ok u →
  byte_decode (EncUnit_try_serialize u) = Ok (PrimArray (view_type dt) vals).
Proof.
  intros -> Hu. unfold byte_encode in Hu. destruct (type_byte dt) as [t|] eqn:Ht; [|done].
  destruct (len vals <? 256); [|done]. destruct (mapM (value_byte dt) vals) as [bs|] eqn:Hm; [|done].
  injection Hu as <-. cbn. rewrite app_nil_r, (type_byte_back _ _ Ht). cbn [ok_or obind]. do 2 f_equal.
  apply mapM_Some_1 in Hm. induction Hm as [|v b vals bs Hv _ IH]; [done|]. cbn [map].
  by rewrite IH, (value_byte_back dt v b) by (done || by eexists).
Qed.

#[global] Instance byte_laws : @VortexLaws byte_encoder unit byte_decoder byte_kept.
Proof. split. intros ed dt vals u _ _ Hu. by apply (byte_decode_encode (PrimArray dt vals)). Qed.

#[global] Instance byte_slice_laws : @VortexSliceLaws byte_encoder unit byte_decoder byte_kept.
Proof.
  split. intros ed dt vals u start stop _ _ Hu H0 Hs Hn. cbn [vortex_slice byte_decoder].
  rewrite (byte_decode_encode (PrimArray dt vals) u dt vals eq_refl Hu). cbn [obind arr_vals unwrap].
  rewrite slice_sub_list by done. done.
Qed.

Lemma stored_laws : @CodecsLaws stored.
Proof. split; [done|]. by intros d c [= <-]. Qed.

(** Chunks written one after the other are recorded. *)
Lemma placed_all_records `{Checksum} ck pre chunks post :
  Forall chunk_fits chunks →
  Forall2 (records ck (pre ++ concat (map chunk_bytes chunks) ++ post)) chunks
    (map snd (placed ck (len pre) chunks)).
Proof.
  intros Hfit. revert pre. induction Hfit as [|c chunks Hc Hfit IH]; intros pre; [constructor|].
  cbn [map concat placed snd]. constructor.
  - apply chunk_meta_records; [done|]. exists pre, (concat (map chunk_bytes chunks) ++ post).
    by rewrite <-!app_assoc.
  - specialize (IH (pre ++ chunk_bytes c)). rewrite len_app in IH. by rewrite <-!app_assoc in *.
Qed.

Section Examples.
#[local] Existing Instance byte_encoder.
#[local] Existing Instance byte_decoder.
#[local] Existing Instance stored.
#[local] Existing Instance stored_laws.
#[local] Existing Instance sum_checksum.
#[local] Existing Instance no_sampling.
#[local] Existing Instance symbol_flatbuffers.
#[local] Existing Instance byte_units_nonempty.

Definition current_context : WASMReadingContext (list Z) unit :=
  mkReading None None None (Some DEFAULT_ENCODING_VERSIONS).

Lemma current_reads_builtin : reads_builtin (Some current_context).
Proof.
  eexists _, DEFAULT_ENCODING_VERSIONS, _, _. repeat (split; [done|]). by vm_compute.
Qed.

Definition chunk_fitsb (c : EncodedColumnChunk) : bool := len (chunk_bytes c) <? 2 ^ 32.

Lemma chunks_fit chunks : forallb chunk_fitsb chunks = true → Forall chunk_fits chunks.
Proof.
  rewrite forallb_forall, Forall_forall. intros Hc c Hin. apply Z.ltb_lt, Hc. by apply list_elem_of_In.
Qed.

(** The chunks as the whole of a file, and a decoder of a column of them. *)
Definition chunks_file (chunks : list EncodedColumnChunk) : list Z := concat (map chunk_bytes chunks).
Definition chunks_decoder (chunks : list EncodedColumnChunk) (dt : DataType)
    (cache : SharedDictionaryCache) : PrimitiveColDecoder (R:=list Z) (RT:=unit) :=
  mkPrimitive (chunks_file chunks) None (map Chunk_to_fb (map snd (placed true 0 chunks))) dt
    (Some current_context) cache (Some XxHash).

Lemma chunks_file_records chunks :
  Forall chunk_fits chunks →
  Forall2 (records true (chunks_file chunks)) chunks (map snd (placed true 0 chunks)).
Proof.
  intros Hfit. unfold chunks_file. pose proof (placed_all_records true [] chunks [] Hfit) as Hrec.
  by rewrite app_nil_l, app_nil_r in Hrec.
Qed.

Lemma column_reads_back_witness :
  ∃ chunks e' counter' p', example_run = Ok (chunks, e', counter') ∧ len chunks = 2 ∧
    prim_decode_batch true (chunks_decoder chunks Int32 (mkCache [] [] [] [])) = Ok (example_arrays, p').
Proof.
  assert (Hrun : match example_run with
    | Ok (chunks, _, _) => forallb chunk_fitsb chunks && (len chunks =? 2)
        && (len (chunks_file chunks) <? 2 ^ 64) | _ => false end = true) by by vm_compute.
  destruct example_run as [[[chunks e'] counter']| |] eqn:He; [|done..].
  apply andb_prop in Hrun as [Hrun Hlen]. apply andb_prop in Hrun as [Hfit Hn].
  apply chunks_fit in Hfit. apply Z.eqb_eq in Hn. apply Z.ltb_lt in Hlen.
  destruct (column_reads_back true byte_kept 4 WASMWritingContext_empty Uncompressed false
    example_arrays EncodingCounter_default chunks e' counter' true (chunks_file chunks)
    (map snd (placed true 0 chunks)) (chunks_decoder chunks Int32 (mkCache [] [] [] [])) Int32)
    as (p' & Hp & _).
  - lia.
  - exact He.
  - by apply chunks_file_records.
  - unfold example_arrays, int_array. repeat (constructor; [by eexists|]). constructor.
  - done.
  - by eexists.
  - by split.
  - by apply slice_reader_of.
  - by right.
  - exact current_reads_builtin.
  - done.
  - done.
  - exists chunks, e', counter', p'. split_and!; [done|exact Hn|exact Hp].
Defined.

(** The dictionary of the scope is the first of the pool. *)
Definition example_cache : SharedDictionaryCache :=
  mkCache [Some (PrimArray Int32 (map (Some ∘ VInt) [7; 9]))] [] [] [].

Lemma shared_column_reads_back_witness :
  ∃ chunks e' counter' ctx' p', example_scope_run = Ok (chunks, e', counter', ctx') ∧
    prim_decode_batch true (chunks_decoder chunks Int32 example_cache)
    = Ok (map (PrimArray Int32) example_columns, p').
Proof.
  assert (Hrun : match example_scope_run with
    | Ok (chunks, _, _, ctx') => forallb chunk_fitsb chunks && (len (chunks_file chunks) <? 2 ^ 64)
        && bool_decide (map dict_values (dictionaries ctx') = [map VInt [7; 9]])
    | _ => false end = true) by by vm_compute.
  destruct example_scope_run as [[[[chunks e'] counter'] ctx']| |] eqn:He; [|done..].
  apply andb_prop in Hrun as [Hrun Hd]. apply andb_prop in Hrun as [Hfit Hlen].
  apply chunks_fit in Hfit. apply Z.ltb_lt in Hlen. apply bool_decide_eq_true in Hd.
  destruct (shared_column_reads_back true byte_kept length_hash example_scope
    EncodingCounter_default example_pool chunks e' counter' ctx' Int32 example_columns true
    (chunks_file chunks) (map snd (placed true 0 chunks)) (chunks_decoder chunks Int32 example_cache) Int32)
    as (id & d & _ & _ & _ & Hid & _ & Hp).
  - constructor.
  - by eexists.
  - done.
  - done.
  - done.
  - done.
  - done.
  - exact He.
  - by apply chunks_file_records.
  - by apply slice_reader_of.
  - by right.
  - exact current_reads_builtin.
  - intros n. unfold index_type. by repeat case_match; (split; [by eexists|by split]).
  - done.
  - done.
  - done.
  - apply (f_equal (λ l, l !! Z.to_nat id)) in Hd. rewrite list_lookup_fmap, Hid in Hd. cbn in Hd.
    destruct Hp as [p' Hp].
    + unfold get_dict. cbn. destruct (Z.to_nat id); [|done]. injection Hd as ->. done.
    + exists chunks, e', counter', ctx', p'. by split.
Defined.
End Examples.
