(* ===== verification/DictRead.v ===== *)
(** * The dictionaries of a file

    What [SharedDictionaryCache::try_new_read_all] reads is what
    [SharedDictionaryContext::finish_and_flush] wrote: every dictionary of the pool, from
    its own chunks and those of the dictionary it was merged with. *)

From S2P Require Import Prelude Arrow EncUnit Common Footer Options Chunks Encoders Buffers.
From S2P Require Import Wire Writer FileRoundtrip Dict SharedDict PhysEnc PhysEncFacts.
From S2P Require Import Decoders DictCache LogicalDec DecoderFacts.
From stdpp Require Import list.
Open Scope Z_scope.

(** The types that dictionaries have are flat. *)
Lemma method_table_flat dt t s :
  method_table dt = Some (t, s) → non_nest_types dt = true ∧ non_nest_types (default_type t) = true.
Proof. unfold method_table. intros Hm. by repeat case_match; simplify_eq. Qed.

Section Read.
Context {R RT : Type} `{Reader R} `{Flatbuffers} `{!FlatbuffersLaws} `{EncoderLibs} `{DecoderLibs RT}.
Context `{Codecs} `{!CodecsLaws} `{Checksum} (pushdown : bool).
Context (keeps : DataType → Prop) `{!VortexLaws keeps} (wasm : WASMWritingContext).
Context (r : R) (file : list Z) (Hr : ReaderOf R r file) (ck : bool).
Context (ctx : option (WASMReadingContext R RT)) (Hctx : reads_builtin ctx).

(** Values as an array of the cache. *)
Definition cached_values (dt : DataType) (vals : list value) : Array :=
  match vals with [] => empty_dictionary | _ => PrimArray (view_type dt) (map Some vals) end.

(** A chunk of a dictionary gives the values it holds. *)
Lemma dict_chunk_read dt dt' vals c m :
  plain keeps wasm (PrimArray dt (map Some vals)) → non_nest_types dt' = true →
  holds_values wasm Uncompressed dt vals c → records ck file c m →
  read_dict_chunk pushdown r ctx dt' (Chunk_to_fb m) = Ok (cached_values dt vals).
Proof using All.
  intros Hplain Hdt' (enc & b & e & Henc & Hb & He & Hc) Hrec.
  assert (Hu : encode_unit wasm Uncompressed false (PrimArray dt (map Some vals))
    = Ok (mkSerialized b (wrap 32 (len vals)) e Uncompressed)).
  { unfold encode_unit. cbn [arr_data_type arr_len]. rewrite Henc. cbn [obind]. rewrite Hb. cbn [obind].
    unfold compress_data. cbn. rewrite He. cbn. by rewrite len_map. }
  set (u := mkSerialized _ _ _ _) in *.
  destruct (records_units _ _ _ _ Hrec) as (bl & Hbl & Hmap). destruct Hrec as ((pre & post & Hf & Ho & Hs) & Hn & Hde & _).
  rewrite Hc in *. cbn [encunits num_rows dict_encoding] in *.
  apply Forall2_cons_inv_l in Hbl as (b1 & bl' & Hb1 & Hnil & ->). apply Forall2_nil_inv_l in Hnil as ->.
  assert (Hbytes : chunk_bytes (mkChunkData [u] (len vals) NoDictionary 0) = bytes u)
    by (unfold chunk_bytes; cbn; by rewrite app_nil_r).
  rewrite Hbytes in *. unfold read_dict_chunk. cbn [fb.chunk_size fb.chunk_offset fb.encunits Chunk_to_fb].
  rewrite (reader_range r file pre (bytes u) post) by done. cbn [obind ok_or fb.chunk_encoding Chunk_to_fb].
  rewrite Hde. unfold create_physical_decoder. rewrite Hdt'. cbn [negb orb obind fb.chunk_num_rows Chunk_to_fb].
  rewrite Hn, Hmap. unfold cached_values. destruct vals as [|v vals]; [done|].
  rewrite len_cons, (proj2 (Z.eqb_neq _ 0)) by (pose proof (len_nonneg vals); lia).
  destruct (plain_unit_decodes keeps pushdown ctx wasm Uncompressed false _ u b1 dt' [] Hctx Hplain
    (or_intror Hdt') Hu Hb1) as (dec & Hnext & Hdec). rewrite app_nil_r in Hnext.
  rewrite !decode_chunk_loop.
  cbn [map chunk_decode_batch nd_decode_batch nd_encunit_iter nd_encoded_chunk_buf nd_data_type nd_wasm_context].
  rewrite Hnext. cbn [obind]. rewrite Hdec. done.
Qed.

(** What the cache holds for a dictionary; an empty one is a null of another type. *)
Definition cached (d : Dict.Dictionary) : Array := cached_values (finished_type d) (dict_values d).

Definition dict_kept (d : Dict.Dictionary) : Prop := keeps (finished_type d) ∧ built_in wasm (finished_type d).

Lemma dict_plain string_hash d vals :
  dictionary_ok string_hash d → dict_kept d →
  plain keeps wasm (PrimArray (finished_type d) (map Some vals)) ∧ non_nest_types (datatype d) = true.
Proof using Type.
  intros [(t & Ht) _] [Hk Hb]. destruct (method_table_flat _ _ _ Ht) as [Hnn Hnn']. split; [|done].
  exists (finished_type d), (map Some vals). split_and!; try done. unfold finished_type. by rewrite Ht.
Qed.

(** A dictionary is read from its one or two chunks. *)
Lemma dictionary_read string_hash all metas d ids :
  dictionary_ok string_hash d → dict_kept d → Forall2 (records ck file) all metas →
  reads_back (holds_values wasm Uncompressed) all d ids →
  ∃ size, read_dictionary pushdown r ctx (map Chunk_to_fb metas) (datatype d) ids = Ok (cached d, size).
Proof using All.
  intros Hok Hkept Hrec (own & ps & Hown & HF & Hcat & Hfew). apply traverse_Ok in Hown.
  assert (Hall : ∃ sizes, traverse (λ id,
        let! m := index (map Chunk_to_fb metas) id in
        let! a := read_dict_chunk pushdown r ctx (datatype d) m in
        Ok (a, fb.chunk_size m)) ids = Ok (zip (map (cached_values (finished_type d)) ps) sizes) ∧
      length sizes = length ps).
  { clear Hcat Hfew. revert ids Hown. induction HF as [|vals c ps own Hc _ IH]; intros ids Hown.
    - apply Forall2_nil_inv_r in Hown as ->. by exists [].
    - apply Forall2_cons_inv_r in Hown as (id & ids' & Hid & Hown & ->).
      destruct (IH _ Hown) as (sizes & Hsizes & Hl). apply index_Ok in Hid as [Hid0 Hid].
      destruct (Forall2_lookup_l _ _ _ _ _ Hrec Hid) as (m & Hm & Hcm).
      exists (fb.chunk_size (Chunk_to_fb m) :: sizes). split; [|cbn; by rewrite Hl]. cbn [traverse].
      rewrite (proj2 (index_Ok _ id (Chunk_to_fb m))) by (split; [done|by rewrite list_lookup_fmap, Hm]).
      cbn [obind]. destruct (dict_plain string_hash d vals Hok Hkept) as [Hplain Hnn].
      rewrite (dict_chunk_read (finished_type d) (datatype d) vals c m) by done. cbn [obind].
      by rewrite Hsizes. }
  destruct Hall as (sizes & Hall & Hl). unfold read_dictionary. rewrite Hall. cbn [obind].
  unfold one_or_two in Hfew. destruct ps as [|p1 [|p2 [|]]]; try done.
  - destruct sizes as [|z1 [|]]; try done. cbn. eexists. unfold cached. rewrite <-Hcat. cbn.
    by rewrite app_nil_r.
  - destruct sizes as [|z1 [|z2 [|]]]; try done. destruct Hfew as [Hp1 Hp2]. cbn. unfold cached. rewrite <-Hcat.
    destruct p1 as [|v1 p1], p2 as [|v2 p2]; try done. cbn.
    rewrite !bool_decide_true by done. cbn. eexists. by rewrite !app_nil_r, map_app.
Qed.

(** The cache holds every dictionary. *)
Lemma dictionaries_read string_hash dicts all metas positions :
  Forall (dictionary_ok string_hash) dicts → Forall dict_kept dicts → Forall2 (records ck file) all metas →
  Forall2 (reads_back (holds_values wasm Uncompressed) all) dicts positions →
  ∃ cache, try_new_read_all pushdown r (SharedDictionaryTable_to_fb metas positions (map datatype dicts)) ctx
      = Ok cache ∧
    ∀ i d, dicts !! i = Some d → get_dict cache (Z.of_nat i) = Some (cached d).
Proof using All.
  intros Hok Hkept Hrec HF. unfold try_new_read_all. cbn [fb.dictionary_positions fb.dictionary_chunks
    fb.dictionary_schema SharedDictionaryTable_to_fb unwrap obind].
  assert (Hpos : traverse unwrap (map Some positions) = Ok positions).
  { clear. induction positions as [|p ps IH]; [done|]. cbn [map traverse unwrap obind]. by rewrite IH. }
  rewrite Hpos. cbn [obind ok_or]. rewrite schema_roundtrip. cbn [obind ok_or].
  set (fields := map (λ dt, mkField "" dt false) (map datatype dicts)).
  destruct (traverse_total (λ '(i, chunk_ids), let! f := index fields i in
      read_dictionary pushdown r ctx (map Chunk_to_fb metas) (data_type f) chunk_ids)
    (λ ip da, ∃ d, dicts !! Z.to_nat ip.1 = Some d ∧ da.1 = cached d)
    (zip (range (len positions)) positions)) as (das & Hdas & HFd).
  { apply Forall_lookup. intros k [x ids] Hk. apply lookup_zip_Some in Hk as [Hx Hids].
    apply lookup_seqZ in Hx as [-> _]. rewrite Z.add_0_l.
    destruct (Forall2_lookup_r _ _ _ _ _ HF Hids) as (d & Hd & Hback).
    assert (Hf : index fields (Z.of_nat k) = Ok (mkField "" (datatype d) false)).
    { apply index_Ok. split; [lia|]. unfold fields. by rewrite Nat2Z.id, !list_lookup_fmap, Hd. }
    rewrite Hf. cbn [obind data_type].
    destruct (dictionary_read string_hash all metas d ids) as (size & ->); [|by eapply Forall_lookup_1|done..|].
    - by apply (Forall_lookup_1 _ _ _ _ Hok Hd).
    - eexists. split; [done|]. exists d. cbn [fst]. by rewrite Nat2Z.id. }
  rewrite Hdas. cbn [obind]. eexists. split; [done|]. intros i d Hd.
  destruct (Forall2_lookup_l _ _ _ _ _ HF Hd) as (ids & Hids & _).
  assert (Hz : zip (range (len positions)) positions !! i = Some (Z.of_nat i, ids)).
  { apply lookup_zip_Some. split; [|done]. apply lookup_seqZ. apply lookup_lt_Some in Hids. unfold len. lia. }
  destruct (Forall2_lookup_l _ _ _ _ _ HFd Hz) as (da & Hda & d' & Hd' & Hc). cbn [fst] in Hd'.
  rewrite Nat2Z.id in Hd'. assert (d' = d) as -> by congruence. unfold get_dict. cbn [cached_dictionaries].
  by rewrite Nat2Z.id, list_lookup_fmap, Hda, <-Hc.
Qed.
End Read.

(** ** From the pool to the file and back *)

(** The metadata of the dictionaries' chunks. *)
Lemma dict_metas_lens `{Checksum} ck off (dicts : list (list EncodedColumnChunk)) : map len (dict_metas ck off dicts) = map len dicts.
Proof.
  revert off. induction dicts as [|d dicts IH]; intros off; [done|]. cbn [dict_metas map]. rewrite IH. f_equal.
  rewrite len_map. clear. revert off. induction d as [|c d IH]; intros off; [done|].
  cbn [placed]. by rewrite !len_cons, IH.
Qed.

Lemma dict_metas_records `{Checksum} ck before dicts after :
  Forall chunk_fits (concat dicts) →
  Forall2 (records ck (before ++ dicts_bytes dicts ++ after)) (concat dicts)
    (concat (dict_metas ck (len before) dicts)).
Proof.
  revert before. induction dicts as [|d dicts IH]; intros before Hfit; [constructor|].
  cbn [concat dict_metas] in *. apply Forall_app in Hfit as [Hd Hfit].
  unfold dicts_bytes. cbn [map concat]. fold (dicts_bytes dicts). rewrite <-app_assoc.
  apply Forall2_app; [by apply placed_all_records|].
  specialize (IH (before ++ concat (map chunk_bytes d)) Hfit). rewrite len_app in IH.
  by rewrite <-!app_assoc in IH.
Qed.

Section Roundtrip.
Context {R RT : Type} `{Reader R} `{Flatbuffers} `{!FlatbuffersLaws} `{EncoderLibs} `{DecoderLibs RT}.
Context `{Codecs} `{!CodecsLaws} `{Checksum} (pushdown : bool).
Context (keeps : DataType → Prop) `{!VortexLaws keeps} (wasm : WASMWritingContext).
Context (max : Z) `{!BoundedUnits max} (Hmax : max < 2 ^ 32).
Context (string_hash : string → Z) (coeffs : list (Z * Z)).

Abbreviation kept := (Forall (dict_kept keeps wasm)).

(** A chunk of values is one unit. *)
Lemma values_fit dt vals c : holds_values wasm Uncompressed dt vals c → chunk_fits c.
Proof using Hmax BoundedUnits0.
  intros (enc & b & e & Henc & Hb & _ & ->). unfold chunk_fits, chunk_bytes. cbn. rewrite app_nil_r.
  pose proof (unit_bound wasm dt false enc _ b Uncompressed b Henc Hb eq_refl). lia.
Qed.

Lemma kept_same ds ds' : Forall2 same_contents ds ds' → kept ds → kept ds'.
Proof using Type.
  induction 1 as [|d d' ds ds' [Hty _] _ IH]; intros Hk; [constructor|].
  apply Forall_cons in Hk as [Hd Hk]. constructor; [|by apply IH].
  unfold dict_kept, finished_type in *. by rewrite Hty.
Qed.

Lemma pool_read c c1 chunks peers types c2 ck before after :
  pool string_hash c →
  (if ctx_is_multi_col_sharing c then ctx_merge_dicts string_hash coeffs c else Ok c) = Ok c1 →
  ctx_compression_type c = Uncompressed → kept (dictionaries c) →
  ctx_finish_and_flush wasm c1 = Ok (chunks, peers, types, c2) → len (concat chunks) < 2 ^ 32 →
  ∃ positions, dict_positions peers (dict_metas ck (len before) chunks) = Ok positions ∧
    ∀ (r : R) ctx, ReaderOf R r (before ++ dicts_bytes chunks ++ after) → reads_builtin ctx →
      ∃ cache, try_new_read_all pushdown r (SharedDictionaryTable_to_fb
          (concat (dict_metas ck (len before) chunks)) positions types) ctx = Ok cache ∧
        ∀ i d, dictionaries c1 !! i = Some d → get_dict cache (Z.of_nat i) = Some (cached d).
Proof using All.
  intros Hpool Hm Hct Hkept Hf Hsmall.
  destruct (pool_merged string_hash coeffs c c1 Hpool Hm) as (Hok1 & Hmt & Hsame & Hct1).
  destruct (finish_and_flush_flushed string_hash _ _ _ _ _ _ Hok1 Hmt Hf) as (Hlc & Htypes & _ & Hfl).
  rewrite Hct1, Hct in Hfl.
  destruct (pool_reads_back string_hash coeffs wasm c c1 chunks peers types c2
    (dict_metas ck (len before) chunks) Hpool Hm Hf (dict_metas_lens _ _ _) Hsmall)
    as (_ & _ & _ & positions & Hpos & HF). rewrite Hct in HF.
  exists positions. split; [done|]. intros r ctx Hr Hctx. rewrite Htypes.
  apply (dictionaries_read pushdown keeps wasm r (before ++ dicts_bytes chunks ++ after) Hr ck ctx Hctx
    string_hash (dictionaries c1) (concat chunks)); [done|by eapply kept_same| |done].
  apply dict_metas_records. apply Forall_concat, Forall_lookup. intros i own Hi.
  destruct (lookup_lt_is_Some_2 (dictionaries c1) i) as [d Hd]; [apply lookup_lt_Some in Hi; lia|].
  destruct (Hfl i d Hd) as (own' & Hown & HFo & _). assert (own' = own) as -> by congruence.
  eapply Forall2_Forall_r; [exact HFo|]. apply Forall_true. intros c0 vals. apply values_fit.
Qed.

(** C9: the dictionaries of a file are read back.  For a pool the writer built, merged
    if the columns share dictionaries and then flushed without compression, the
    positions of the chunks exist, and a reader of the file that contains these chunks
    fills its cache with every dictionary: the same number has the same values, in the
    same order, as one array, also when the first values are stored in the chunk of the
    dictionary that it was merged with; an empty dictionary is a single null. *)
Theorem written_dictionaries_cached c c1 chunks peers types c2 ck before after :
  pool string_hash c →
  (if ctx_is_multi_col_sharing c then ctx_merge_dicts string_hash coeffs c else Ok c) = Ok c1 →
  ctx_compression_type c = Uncompressed → kept (dictionaries c) →
  ctx_finish_and_flush wasm c1 = Ok (chunks, peers, types, c2) → len (concat chunks) < 2 ^ 32 →
  ∃ positions, dict_positions peers (dict_metas ck (len before) chunks) = Ok positions ∧
    ∀ (r : R) ctx, ReaderOf R r (before ++ dicts_bytes chunks ++ after) → reads_builtin ctx →
      ∃ cache, try_new_read_all pushdown r (SharedDictionaryTable_to_fb
          (concat (dict_metas ck (len before) chunks)) positions types) ctx = Ok cache ∧
        ∀ i d, dictionaries c1 !! i = Some d → get_dict cache (Z.of_nat i) = Some (cached d).
Proof using All. apply pool_read. Qed.
End Roundtrip.

(** ** An example *)

Section Examples.
#[local] Existing Instance byte_encoder.
#[local] Existing Instance byte_decoder.
#[local] Existing Instance stored.
#[local] Existing Instance stored_laws.
#[local] Existing Instance sum_checksum.
#[local] Existing Instance symbol_flatbuffers.
#[local] Existing Instance symbol_flatbuffers_laws.
#[local] Existing Instance byte_units_bounded.

(** The merged dictionaries of [SharedDict.v], behind three other bytes of a file. *)
Lemma written_dictionaries_cached_witness :
  ∃ chunks positions types cache,
    try_new_read_all false ([1; 2; 3] ++ dicts_bytes chunks ++ [4]) (SharedDictionaryTable_to_fb
      (concat (dict_metas true 3 chunks)) positions types) (Some current_context) = Ok cache ∧
    map (get_dict cache) [0; 1; 2]
    = [Some (PrimArray Int32 (map (Some ∘ VInt) [3; 2; 1])); Some (PrimArray Int32 (map (Some ∘ VInt) [3; 2; 4]));
       Some (PrimArray Utf8View [Some (VStr "a")])].
Proof.
  assert (Hrun : match example_flushed with
    | Ok (chunks, _, _, _) => (len (concat chunks) <? 2 ^ 32) && (len (dicts_bytes chunks) <? 2 ^ 32)
    | _ => false end = true) by by vm_compute.
  assert (Hvals : match example_merged with
    | Ok c => Some (map cached (dictionaries c)) | _ => None end
    = Some [PrimArray Int32 (map (Some ∘ VInt) [3; 2; 1]); PrimArray Int32 (map (Some ∘ VInt) [3; 2; 4]);
            PrimArray Utf8View [Some (VStr "a")]]) by by vm_compute.
  assert (Hpool : match SharedDict.example_pool with Ok c => Some (ctx_is_multi_col_sharing c,
    ctx_compression_type c, map finished_type (dictionaries c)) | _ => None end
    = Some (true, Uncompressed, [Int32; Int32; Utf8])) by by vm_compute.
  unfold example_flushed, example_merged in Hrun, Hvals. pose proof example_pool_ok as Hpok.
  destruct SharedDict.example_pool as [c| |]; [|done..]. cbn [obind] in Hrun, Hvals.
  injection Hpool as Hmulti Hct Htypes. specialize (Hpok c eq_refl).
  destruct (ctx_merge_dicts _ _ c) as [c1| |] eqn:Hm; [|done..]. cbn [obind] in Hrun.
  destruct (ctx_finish_and_flush _ c1) as [[[[chunks peers] types] c2]| |] eqn:Hf; [|done..].
  apply andb_prop in Hrun as [Hlen Hbytes]. apply Z.ltb_lt in Hlen, Hbytes. injection Hvals as Hvals.
  assert (Hkept : Forall (dict_kept byte_kept WASMWritingContext_empty) (dictionaries c)).
  { apply Forall_forall. intros d Hd. assert (Hin : finished_type d ∈ [Int32; Int32; Utf8])
      by (rewrite <-Htypes; by apply list_elem_of_fmap_2).
    unfold dict_kept. repeat (apply elem_of_cons in Hin as [->|Hin]; [by split; [eexists|]|]).
    by apply elem_of_nil in Hin. }
  destruct (written_dictionaries_cached (R:=list Z) false byte_kept WASMWritingContext_empty 257 ltac:(lia) length_hash
    constant_coeffs c c1 chunks peers types c2 true [1; 2; 3] [4]) as (positions & _ & Hread).
  - exact Hpok.
  - by rewrite Hmulti.
  - done.
  - exact Hkept.
  - exact Hf.
  - exact Hlen.
  - destruct (Hread ([1; 2; 3] ++ dicts_bytes chunks ++ [4]) (Some current_context)) as (cache & Hcache & Hget).
    + apply slice_reader_of. rewrite !len_app. change (len [1; 2; 3]) with 3. change (len [4]) with 1. lia.
    + apply current_reads_builtin.
    + exists chunks, positions, types, cache. split; [exact Hcache|].
      destruct (dictionaries c1) as [|d0 [|d1 [|d2 [|]]]]; try done. injection Hvals as E0 E1 E2.
      pose proof (Hget 0%nat d0 eq_refl : get_dict cache 0 = _) as G0.
      pose proof (Hget 1%nat d1 eq_refl : get_dict cache 1 = _) as G1.
      pose proof (Hget 2%nat d2 eq_refl : get_dict cache 2 = _) as G2. cbn [map].
      by rewrite G0, G1, G2, E0, E1, E2.
Defined.
End Examples.
