(* ===== verification/EndToEnd.v ===== *)
(** * A table, written and read back

    The whole way: a new writer of flat columns writes batches and finishes; the
    reader opens the file and gives the batches back. *)

From S2P Require Import Prelude Arrow EncUnit Common Footer Options Chunks Encoders.
From S2P Require Import Writer Selection Reader Wire FileRoundtrip WriterSpec Dict SharedDict Buffers.
From S2P Require Import PhysEnc PhysEncFacts LogicalEnc LogicalEncFacts Table.
From S2P Require Import Decoders DictCache LogicalDec OpenFile ReadFile DecoderFacts.

(** ** Reading the columns of a row group *)

Section ReadColumns.
Context {R RT : Type} `{Reader R} `{Flatbuffers} `{DecoderLibs RT} `{Codecs} `{Checksum}.
Context (pushdown : bool) (r : R) (metas : list fb.ColumnMetadata).
Context (ctx : option (WASMReadingContext R RT)) (cache : SharedDictionaryCache)
  (ck : option ChecksumType) (sel : Selection).

(** What is asked of a decoder: everything, or the first of the selected rows. *)
Definition prim_decode_selected (p : PrimitiveColDecoder (R:=R) (RT:=RT)) :=
  match sel with
  | RowIndexes row_indexes => let! row := index row_indexes 0 in prim_decode_row_at pushdown p row 1
  | All => prim_decode_batch pushdown p
  end.

(** The [k]-th column exists and what is selected of its chunks is [arrs]. *)
Definition column_gives (k : nat) (f : Field) (arrs : list Array) : Prop :=
  non_nest_types (data_type f) = true ∧
  ∃ chunks p', metas !! k = Some (fb.mkColumnMetadata (Some chunks)) ∧
    prim_decode_selected (primitive_decoder r ctx cache ck chunks (data_type f)) = Ok (arrs, p').

Lemma decode_flat_column k f arrs :
  Z.of_nat k + 1 < 2 ^ 32 → column_gives k f arrs →
  decode_col pushdown r metas ctx cache ck sel (mkColumnIndex (Z.of_nat k)) f
  = Ok (arrs, mkColumnIndex (Z.of_nat k + 1)).
Proof.
  intros Hk (Hnn & chunks & p' & Hm & Hp). unfold decode_col, create_logical_decoder.
  assert (Hd : create_decoder r metas ctx cache ck (data_type f) (mkColumnIndex (Z.of_nat k))
    = Ok (LPrimitive (primitive_decoder r ctx cache ck chunks (data_type f)),
          mkColumnIndex (Z.of_nat k + 1))).
  { assert (Hc : next_column_chunks metas (mkColumnIndex (Z.of_nat k))
      = Ok (chunks, mkColumnIndex (Z.of_nat k + 1))).
    { unfold next_column_chunks, next_column_index. cbn [current_index].
      rewrite (proj2 (uadd_Ok 32 _ _ _)) by (split; [exact Hk|done]). cbn [obind].
      by rewrite Nat2Z.id, Hm. }
    destruct (data_type f); try done; cbn [create_decoder]; rewrite Hc; done. }
  rewrite Hd. cbn [obind]. unfold prim_decode_selected in Hp.
  destruct sel as [|rows]; [cbn [log_decode_batch]; by rewrite Hp|].
  destruct (index rows 0) as [row| |]; [|done..]. cbn [obind log_decode_row_at] in *. by rewrite Hp.
Qed.

Lemma decode_flat_columns k fs arrss :
  Z.of_nat k + len fs < 2 ^ 32 → length arrss = length fs →
  (∀ j f arrs, fs !! j = Some f → arrss !! j = Some arrs → column_gives (k + j) f arrs) →
  traverse_st (λ idx f, let! f := unwrap f in decode_col pushdown r metas ctx cache ck sel idx f)
    (mkColumnIndex (Z.of_nat k)) (map Some fs)
  = Ok (arrss, mkColumnIndex (Z.of_nat k + len fs)).
Proof.
  revert k arrss. induction fs as [|f fs IH]; intros k arrss Hk Hl Hall.
  - apply nil_length_inv in Hl as ->. cbn. by rewrite Z.add_0_r.
  - destruct arrss as [|arrs arrss]; [done|]. injection Hl as Hl.
    cbn [map traverse_st unwrap obind]. rewrite len_cons in *. pose proof (len_nonneg fs).
    rewrite (decode_flat_column k f arrs); [|lia|].
    + cbn [obind]. specialize (IH (S k) arrss).
      replace (Z.of_nat (S k)) with (Z.of_nat k + 1) in IH by lia. rewrite IH; [|lia|done|].
      * cbn [obind]. do 3 f_equal. lia.
      * intros j g as_ Hg Ha. replace (S k + j)%nat with (k + S j)%nat by lia. by apply Hall.
    + specialize (Hall 0%nat f arrs eq_refl eq_refl). by rewrite Nat.add_0_r in Hall.
Qed.
End ReadColumns.

(** ** What a projection selects *)

Section Projections.
(** The positions of the projected columns, of [n]. *)
Definition selected (p : Projection) (n : nat) : list nat :=
  match p with ProjectAll => seq 0 n | LeafColumnIndexes idx => map Z.to_nat idx end.

(** A projection that selects columns, all of which exist. *)
Definition projects (p : Projection) (n : nat) : Prop :=
  selected p n ≠ [] ∧
  match p with ProjectAll => True | LeafColumnIndexes idx => Forall (λ i, 0 ≤ i < Z.of_nat n) idx end.

Lemma selected_lt p n : projects p n → Forall (λ i, (i < n)%nat) (selected p n).
Proof.
  intros [_ Hp]. destruct p as [|idx]; cbn.
  - apply Forall_forall. intros i [_ Hi]%elem_of_seq. lia.
  - apply Forall_map. eapply Forall_impl; [exact Hp|]. cbn. intros i Hi. lia.
Qed.

Lemma project_selected {A} p (l : list A) :
  projects p (length l) →
  ∃ ms, project p l = Ok ms ∧ Forall2 (λ i m, l !! i = Some m) (selected p (length l)) ms.
Proof.
  intros [_ Hp]. destruct p as [|idx]; cbn.
  - exists l. split; [done|]. clear Hp. apply Forall2_same_length_lookup_2.
    + by rewrite length_seq.
    + intros j i m Hi Hm. apply lookup_seq in Hi as [-> _]. done.
  - induction Hp as [|i idx Hi _ (ms & Hms & HF)]; [by exists []|]. cbn.
    destruct (lookup_lt_is_Some_2 l (Z.to_nat i)) as [m Hm]; [lia|].
    rewrite (proj2 (index_Ok l i m)) by (split; [lia|done]). cbn [obind]. rewrite Hms.
    exists (m :: ms). by split; [|constructor].
Qed.
End Projections.

(** ** One row group *)

(** The batch that is read for a written one: the projected columns, with strings as
    views, under the names and nullability of the first fields of the schema. *)
Definition read_batch (p : Projection) (sch : list Field) (b : Batch) : outcome RecordBatch :=
  let! columns := project p b.1 in
  let this := map to_view columns in
  RecordBatch_try_new
    (map (λ '(c, f), mkField (name f) (arr_data_type c) (nullable f)) (zip this sch)) this.

Lemma traverse_range {A B} (f : Z → outcome B) (g : A → outcome B) l :
  (∀ k a, l !! k = Some a → f (Z.of_nat k) = g a) → traverse f (range (len l)) = traverse g l.
Proof.
  intros Hfg. assert (Hgen : ∀ l k0, (∀ k a, l !! k = Some a → f (Z.of_nat (k0 + k)) = g a) →
    traverse f (seqZ (Z.of_nat k0) (len l)) = traverse g l).
  { clear l Hfg. intros l. induction l as [|a l IH]; intros k0 Hfg; [done|].
    rewrite len_cons, seqZ_cons by (pose proof (len_nonneg l); lia). cbn [traverse].
    rewrite <-(Hfg 0%nat a eq_refl), Nat.add_0_r. destruct (f (Z.of_nat k0)); [|done..]. cbn [obind].
    replace (Z.succ (Z.of_nat k0)) with (Z.of_nat (S k0)) by lia.
    replace (Z.pred (1 + len l)) with (len l) by lia. rewrite IH; [done|].
    intros k b Hb. replace (S k0 + k)%nat with (k0 + S k)%nat by lia. by apply Hfg. }
  by apply (Hgen l 0%nat).
Qed.

Lemma column_lookup n i (bs : list Batch) k b :
  Forall (λ b, length b.1 = n) bs → (i < n)%nat → bs !! k = Some b → column i bs !! k = b.1 !! i.
Proof.
  intros Hbs Hi. revert k. induction Hbs as [|b' bs Hb' _ IH]; intros k Hk; [by rewrite lookup_nil in Hk|].
  destruct (lookup_lt_is_Some_2 b'.1 i) as [a Ha]; [lia|].
  assert (Hc : column i (b' :: bs) = a :: column i bs) by (unfold column; cbn; by rewrite Ha).
  rewrite Hc. destruct k as [|k]; cbn in *; [congruence|by apply IH].
Qed.

Lemma column_length n i (bs : list Batch) :
  Forall (λ b, length b.1 = n) bs → (i < n)%nat → length (column i bs) = length bs.
Proof.
  intros Hbs Hi. induction Hbs as [|b bs Hb _ IH]; [done|].
  destruct (lookup_lt_is_Some_2 b.1 i) as [a Ha]; [lia|].
  assert (Hc : column i (b :: bs) = a :: column i bs) by (unfold column; cbn; by rewrite Ha).
  rewrite Hc. cbn. by rewrite IH.
Qed.

Lemma traverse_rows {A B} (f : Z → outcome B) (Q : A → B → Prop) l :
  (∀ k a, l !! k = Some a → ∃ b, f (Z.of_nat k) = Ok b ∧ Q a b) →
  ∃ bs, traverse f (range (len l)) = Ok bs ∧ Forall2 Q l bs.
Proof.
  intros Hf. assert (Hgen : ∀ l k0, (∀ k a, l !! k = Some a → ∃ b, f (Z.of_nat (k0 + k)) = Ok b ∧ Q a b) →
    ∃ bs, traverse f (seqZ (Z.of_nat k0) (len l)) = Ok bs ∧ Forall2 Q l bs).
  { clear l Hf. intros l. induction l as [|a l IH]; intros k0 Hf; [by exists []|].
    rewrite len_cons, seqZ_cons by (pose proof (len_nonneg l); lia). cbn [traverse].
    destruct (Hf 0%nat a eq_refl) as (b & Hb & Hq). rewrite Nat.add_0_r in Hb. rewrite Hb. cbn [obind].
    replace (Z.succ (Z.of_nat k0)) with (Z.of_nat (S k0)) by lia.
    replace (Z.pred (1 + len l)) with (len l) by lia.
    destruct (IH (S k0)) as (bs & Hbs & HF).
    { intros k c Hk. replace (S k0 + k)%nat with (k0 + S k)%nat by lia. by apply (Hf (S k)). }
    rewrite Hbs. exists (b :: bs). by split; [|constructor]. }
  by apply (Hgen l 0%nat).
Qed.

(** The arrays of one batch, among those of the columns. *)
Lemma nth_arrays (rel : Array → Array → Prop) (bs : list Batch) n arrss' k b :
  Forall (λ b : Batch, length b.1 = n) bs → bs !! k = Some b →
  Forall2 (Forall2 rel) (map (λ i, column i bs) (seq 0 n)) arrss' →
  ∃ this, traverse (λ c, index c (Z.of_nat k)) arrss' = Ok this ∧ Forall2 rel b.1 this.
Proof.
  intros Hbs Hk HF. assert (Hb : length b.1 = n) by apply (Forall_lookup_1 _ _ _ _ Hbs Hk).
  assert (HF' : Forall2 (λ a c', ∃ a', index c' (Z.of_nat k) = Ok a' ∧ rel a a') b.1 arrss').
  { apply Forall2_same_length_lookup_2.
    { apply Forall2_length in HF. rewrite length_map, length_seq in HF. lia. }
    intros i a c' Ha Hc'. destruct (Forall2_lookup_r _ _ _ _ _ HF Hc') as (c & Hc & Hcc).
    apply lookup_lt_Some in Ha as Hi. rewrite list_lookup_fmap, lookup_seq_lt in Hc by lia. cbn in Hc.
    injection Hc as <-. assert (Hca : column i bs !! k = Some a)
      by (rewrite (column_lookup n i bs k b Hbs ltac:(lia) Hk); exact Ha).
    destruct (Forall2_lookup_l _ _ _ _ _ Hcc Hca) as (a' & Ha' & Hr'). exists a'. split; [|done].
    apply index_Ok. split; [lia|]. by rewrite Nat2Z.id. }
  clear - HF'. induction HF' as [|a c' l arrss' (a' & Hi & Ha) _ (this & Ht & HFt)]; [by exists []|].
  exists (a' :: this). cbn [traverse]. rewrite Hi. cbn [obind]. rewrite Ht. by split; [|constructor].
Qed.

Section RowGroup.
Context {R RT : Type} `{Reader R} `{Flatbuffers} `{DecoderLibs RT} `{Codecs} `{Checksum}.
Context (pushdown : bool) (r : R) (ctx : option (WASMReadingContext R RT))
  (cache : SharedDictionaryCache) (ck : option ChecksumType).
Context (p : Projection) (sch : list Field) (sel : Selection).

Lemma fields_selected fs :
  Forall2 (λ i f, sch !! i = Some f) (selected p (length sch)) fs →
  match p with
  | ProjectAll => map Some sch
  | LeafColumnIndexes idx => map (λ v, sch !! Z.to_nat v) idx
  end = map Some fs.
Proof.
  destruct p as [|idx]; cbn; intros HF.
  - f_equal. apply list_eq. intros j. destruct (sch !! j) as [f|] eqn:Hf.
    + destruct (Forall2_lookup_l _ _ _ j j HF) as (g & Hg & Hjg); [|congruence].
      apply lookup_seq. split; [done|]. by eapply lookup_lt_Some.
    + symmetry. apply lookup_ge_None. apply lookup_ge_None in Hf. apply Forall2_length in HF.
      rewrite length_seq in HF. lia.
  - revert fs HF. induction idx as [|i idx IH]; intros fs HF.
    + by apply Forall2_nil_inv_l in HF as ->.
    + apply Forall2_cons_inv_l in HF as (f & fs' & Hf & HF & ->). cbn. by rewrite Hf, (IH fs').
Qed.

(** The arrays of the projected columns, batch by batch. *)
Lemma nth_batch_selected bs k b :
  projects p (length sch) → Forall (λ b : Batch, length b.1 = length sch) bs → bs !! k = Some b →
  nth_batch sch (map (λ i, map to_view (column i bs)) (selected p (length sch))) (Z.of_nat k)
  = read_batch p sch b.
Proof.
  intros Hp Hbs Hk. pose proof (selected_lt _ _ Hp) as Hlt.
  assert (Hb : length b.1 = length sch) by apply (Forall_lookup_1 _ _ _ _ Hbs Hk).
  rewrite <-Hb in Hp. destruct (project_selected p b.1 Hp) as (columns & Hc & HF). rewrite Hb in HF.
  unfold nth_batch, read_batch. rewrite Hc. cbn [obind].
  assert (Ht : traverse (λ c, index c (Z.of_nat k))
      (map (λ i, map to_view (column i bs)) (selected p (length sch))) = Ok (map to_view columns)).
  { apply traverse_Ok. apply Forall2_fmap_2. clear Hp Hc. revert Hlt.
    induction HF as [|i c ixs columns Hic _ IH]; intros Hlt; [constructor|].
    apply Forall_cons in Hlt as [Hi Hlt]. constructor; [|by apply IH].
    apply index_Ok. split; [lia|]. rewrite Nat2Z.id, list_lookup_fmap.
    by rewrite (column_lookup (length sch) i bs k b Hbs Hi Hk), Hic. }
  rewrite Ht. done.
Qed.

Lemma read_row_group_selected bs m :
  len sch < 2 ^ 32 → len (selected p (length sch)) < 2 ^ 32 →
  projects p (length sch) → Forall (λ b : Batch, length b.1 = length sch) bs →
  (∀ j i f, selected p (length sch) !! j = Some i → sch !! i = Some f →
     column_gives pushdown r (column_metadatas m) ctx cache ck sel j f (map to_view (column i bs))) →
  read_row_group pushdown r sch p ctx cache ck (m, sel) = traverse (read_batch p sch) bs.
Proof.
  intros Hn Hsel Hp Hbs Hgives. unfold read_row_group, decode_columns.
  destruct (project_selected p sch Hp) as (fs & Hfs & HF). rewrite (fields_selected fs HF).
  set (arrss := map (λ i, map to_view (column i bs)) (selected p (length sch))).
  assert (Hl : length (selected p (length sch)) = length fs) by (by eapply Forall2_length).
  change ColumnIndexSequence_default with (mkColumnIndex (Z.of_nat 0)).
  rewrite (decode_flat_columns pushdown r (column_metadatas m) ctx cache ck sel 0 fs arrss).
  - cbn [obind]. unfold arrss at 1. destruct Hp as [Hne Hp].
    destruct (selected p (length sch)) as [|i0 ixs] eqn:Heq; [done|].
    assert (Hfirst : index (map (λ i, map to_view (column i bs)) (i0 :: ixs)) 0
      = Ok (map to_view (column i0 bs))) by done.
    rewrite Hfirst. cbn [obind].
    assert (Hi0 : (i0 < length sch)%nat).
    { assert (Hp' : projects p (length sch)) by (split; [by rewrite Heq|done]).
      apply selected_lt in Hp'. rewrite Heq in Hp'. by apply Forall_cons in Hp' as [? _]. }
    assert (Hlen : len (map to_view (column i0 bs)) = len bs)
      by (rewrite len_map; unfold len; by rewrite (column_length (length sch))).
    rewrite Hlen. apply traverse_range. intros k b Hk. unfold arrss. rewrite <-Heq.
    apply nth_batch_selected; [|done|done]. split; [by rewrite Heq|done].
  - change (Z.of_nat 0) with 0. unfold len in *. lia.
  - unfold arrss. by rewrite length_map, Hl.
  - intros j f arrs Hf Ha. unfold arrss in Ha. rewrite list_lookup_fmap in Ha.
    destruct (selected p (length sch) !! j) as [i|] eqn:Hi; [|done]. injection Ha as <-.
    destruct (Forall2_lookup_l _ _ _ _ _ HF Hi) as (g & Hg & Hig). simplify_eq. by apply Hgives.
Qed.

(** A row group of which all columns are decoded gives its batches. *)
Lemma row_group_batches (rel : Array → Array → Prop) (batch_rel : Batch → RecordBatch → Prop) bs m arrss' :
  decode_columns pushdown r (column_metadatas m) ProjectAll sch ctx cache ck sel = Ok arrss' → sch ≠ [] →
  Forall (λ b : Batch, length b.1 = length sch) bs →
  Forall2 (Forall2 rel) (map (λ i, column i bs) (seq 0 (length sch))) arrss' →
  (∀ b this, b ∈ bs → Forall2 rel b.1 this →
     ∃ rb, RecordBatch_try_new (map (λ '(c, f), mkField (name f) (arr_data_type c) (nullable f)) (zip this sch)) this
       = Ok rb ∧ batch_rel b rb) →
  ∃ rbs, read_row_group pushdown r sch ProjectAll ctx cache ck (m, sel) = Ok rbs ∧ Forall2 batch_rel bs rbs.
Proof using Type.
  intros Hdec Hne Hbs HF Hbatch. unfold read_row_group. rewrite Hdec. cbn [obind].
  destruct arrss' as [|first arrss'].
  { apply Forall2_length in HF. rewrite length_map, length_seq in HF. by destruct sch. }
  change (index (first :: arrss') 0) with (Ok first). cbn [obind].
  assert (Hlen : len first = len bs).
  { destruct sch as [|f fs]; [done|]. cbn [length seq map] in HF. apply Forall2_cons in HF as [Hcc _].
    apply Forall2_length in Hcc. unfold len. rewrite <-Hcc. f_equal. apply (column_length (length (f :: fs))); [done|].
    cbn. lia. }
  rewrite Hlen. apply (traverse_rows _ batch_rel). intros k b Hk.
  destruct (nth_arrays rel bs (length sch) (first :: arrss') k b Hbs Hk HF) as (this & Hthis & HFt).
  destruct (Hbatch b this) as (rb & Hrb & Hbr); [by apply list_elem_of_lookup_2 in Hk|done|].
  exists rb. split; [|done]. unfold nth_batch. rewrite Hthis. exact Hrb.
Qed.
End RowGroup.

(** ** Record batches *)

(** A column that fits its field. *)
Definition fits_field (rows : Z) (f : Field) (a : Array) : Prop :=
  arr_len a = rows ∧ nullable f || negb (has_nulls a) = true ∧ data_type f = arr_data_type a.

Lemma record_batch_ok sch columns rb :
  RecordBatch_try_new sch columns = Ok rb →
  rb = mkBatch sch columns ∧ columns ≠ [] ∧ ∃ rows, Forall2 (fits_field rows) sch columns.
Proof.
  unfold RecordBatch_try_new. destruct columns as [|c columns]; [destruct (len sch =? 0); discriminate|].
  case_match eqn:Hl; [done|]. case_match eqn:Hr; [done|].
  case_match eqn:Hn; [done|]. case_match eqn:Ht; [done|].
  intros [= <-]. split; [done|]. split; [done|].
  exists (arr_len c). apply negb_false_iff in Hl, Hr, Hn, Ht. apply Z.eqb_eq in Hl.
  rewrite forallb_forall in Hr, Hn, Ht. apply Forall2_same_length_lookup_2; [unfold len in Hl; lia|].
  intros i f a Hf Ha. assert (Hz : zip sch (c :: columns) !! i = Some (f, a))
    by (apply lookup_zip_with_Some; by exists f, a).
  apply list_elem_of_lookup_2, list_elem_of_In in Hz. apply list_elem_of_lookup_2, list_elem_of_In in Ha.
  split_and!.
  - by apply Z.eqb_eq, Hr.
  - by apply (Hn (f, a)).
  - specialize (Ht (f, a) Hz). by apply bool_decide_eq_true in Ht.
Qed.

Lemma record_batch_new rows sch columns :
  columns ≠ [] → Forall2 (fits_field rows) sch columns →
  RecordBatch_try_new sch columns = Ok (mkBatch sch columns).
Proof.
  intros Hne HF. unfold RecordBatch_try_new. destruct columns as [|c columns]; [done|]. clear Hne.
  assert (Hl : len sch = len (c :: columns)) by (unfold len; by rewrite (Forall2_length _ _ _ HF)).
  rewrite Hl, Z.eqb_refl. cbn [negb].
  assert (Hall : ∀ (P : Field → Array → bool), (∀ f a, fits_field rows f a → P f a = true) →
    forallb (λ '(f, a), P f a) (zip sch (c :: columns)) = true).
  { intros P HP. clear Hl. induction HF as [|f a sch' cs Hfa _ IH]; [done|]. cbn [zip zip_with forallb].
    by rewrite HP, IH. }
  assert (Hrows : arr_len c = rows) by (destruct sch; [done|]; by apply Forall2_cons in HF as [(? & _) _]).
  assert (Hr : forallb (λ a, arr_len a =? arr_len c) (c :: columns) = true).
  { apply forallb_forall. intros a Ha%list_elem_of_In. apply list_elem_of_lookup_1 in Ha as [i Hi].
    destruct (Forall2_lookup_r _ _ _ _ _ HF Hi) as (f & _ & Hfa & _). apply Z.eqb_eq. congruence. }
  rewrite Hr. cbn [negb]. rewrite (Hall (λ f a, nullable f || negb (has_nulls a))) by (by intros f a (_ & ? & _)).
  cbn [negb]. rewrite (Hall (λ f a, bool_decide (data_type f = arr_data_type a)))
    by (intros f a (_ & _ & ?); by apply bool_decide_eq_true). done.
Qed.

(** A column of a flat field. *)
Lemma flat_array f a rows :
  non_nest_types (data_type f) = true → fits_field rows f a → ∃ vals, a = PrimArray (data_type f) vals.
Proof.
  intros Hf (_ & _ & Ht). destruct a as [dt vals|l|]; cbn in Ht; rewrite Ht in *; [by eexists| |done].
  by destruct l.
Qed.

Lemma fits_view f a rows :
  non_nest_types (data_type f) = true → fits_field rows f a →
  fits_field rows (field_to_view f) (to_view a).
Proof.
  intros Hnn Hfit. destruct (flat_array f a rows Hnn Hfit) as [vals ->]. destruct Hfit as (Hl & Hn & _).
  split_and!; [done| |done]. cbn [field_to_view nullable]. rewrite <-Hn. f_equal. f_equal.
  cbn [to_view]. destruct f as [nm dt nl]. cbn [data_type] in *. by destruct dt.
Qed.

(** With all columns projected, a written batch is read as itself, strings as views. *)
Lemma read_batch_all sch b rb :
  Forall (λ f, non_nest_types (data_type f) = true) sch → RecordBatch_try_new sch b.1 = Ok rb →
  read_batch ProjectAll sch b = Ok (mkBatch (map field_to_view sch) (map to_view b.1)).
Proof.
  intros Hflat Hb. apply record_batch_ok in Hb as (_ & Hne & rows & HF). unfold read_batch.
  cbn [project obind].
  assert (Hsch : map (λ '(c, f), mkField (name f) (arr_data_type c) (nullable f))
    (zip (map to_view b.1) sch) = map field_to_view sch).
  { clear Hne. revert Hflat. induction HF as [|f a sch cs Hfa _ IH]; intros Hflat; [done|].
    apply Forall_cons in Hflat as [Hf Hflat]. cbn [map zip zip_with]. rewrite (IH Hflat).
    destruct (fits_view f a rows Hf Hfa) as (_ & _ & Ht). unfold field_to_view in *. cbn in Ht.
    by rewrite <-Ht. }
  rewrite Hsch. apply record_batch_new with (rows := rows); [by destruct b.1|].
  apply Forall2_fmap_2. clear Hsch Hne. revert Hflat.
  induction HF as [|f a sch cs Hfa _ IH]; intros Hflat; [constructor|].
  apply Forall_cons in Hflat as [Hf Hflat]. constructor; [by apply fits_view|by apply IH].
Qed.

(** ** The row groups of a written table *)

Lemma rel_eq_map {A B} (f : A → B) l l' : Forall2 (λ a b, b = f a) l l' ↔ l' = map f l.
Proof.
  split; [induction 1 as [|a b l l' -> _ IH]; cbn; congruence|intros ->].
  induction l; by constructor.
Qed.

Section Groups.
Context {R RT : Type} `{Reader R} `{Flatbuffers} `{EncoderLibs} `{DecoderLibs RT}.
Context `{Codecs} `{!CodecsLaws} `{Checksum} (pushdown : bool).
Context (limit : Z) (wasm : WASMWritingContext) (ed : bool) (ct : CompressionType) (Hlimit : 0 ≤ limit).
Context (sch : list Field) (p : Projection) (r : R) (file : list Z) (Hr : ReaderOf R r file).
Context (ctx : WASMReadingContext R RT) (cache : SharedDictionaryCache) (ckt : option ChecksumType).

Definition valid_batch (b : Batch) : Prop := ∃ rb, RecordBatch_try_new sch b.1 = Ok rb.

Lemma valid_length b : valid_batch b → length b.1 = length sch.
Proof.
  intros [rb Hb]. apply record_batch_ok in Hb as (_ & _ & rows & HF). symmetry.
  by eapply Forall2_length.
Qed.

(** The units of a column of a field are read back, strings as views. *)
Definition array_units_read (f : Field) (a : Array) : Prop :=
  unit_reads pushdown (Some ctx) wasm ct ed (data_type f) (λ a a', a' = to_view a) a.

Definition batch_units_read (b : Batch) : Prop := Forall2 array_units_read sch b.1.

Lemma columns_read bs i f :
  Forall batch_units_read bs → sch !! i = Some f → Forall (array_units_read f) (column i bs).
Proof.
  intros Hbs Hf. induction Hbs as [|b bs HF _ IH]; [constructor|].
  destruct (Forall2_lookup_l _ _ _ _ _ HF Hf) as (a & Ha & Hfa).
  assert (Hc : column i (b :: bs) = a :: column i bs) by (unfold column; cbn; by rewrite Ha).
  rewrite Hc. by constructor.
Qed.

(** The column of a chunk is not in the file. *)
Lemma in_col_records ck i cs metas :
  Forall2 (records ck file) (in_col i cs) metas → Forall2 (records ck file) cs metas.
Proof.
  revert metas. induction cs as [|c cs IH]; intros metas Hrec.
  - by apply Forall2_nil_inv_l in Hrec as ->.
  - apply Forall2_cons_inv_l in Hrec as (m & metas' & Hm & Hrec & ->). constructor; [exact Hm|by apply IH].
Qed.

(** The chunks of a projected column: what an encoder made of its arrays, recorded in
    the file. *)
Lemma group_column ck bs g rg ms m j i :
  group_written (written:=column_written limit wasm ed ct) (length sch) bs g →
  cols_record (len sch) ck file (g_chunks g) (col_metadatas rg) →
  projects p (length sch) → project p (col_metadatas rg) = Ok ms →
  column_metadatas m = map ColumnMetadata_to_fb ms →
  selected p (length sch) !! j = Some i → (i < length sch)%nat →
  ∃ chunks metas, chunked (plain_units wasm ct ed) arr_len limit NoDictionary (column i bs) chunks ∧
    Forall2 (records ck file) chunks metas ∧
    column_metadatas m !! j = Some (fb.mkColumnMetadata (Some (map Chunk_to_fb metas))).
Proof.
  intros [_ Hw] [Hn Hrec] Hp Hms Hm Hj Hi.
  assert (Hcols : length (col_metadatas rg) = length sch) by (unfold len in Hn; lia).
  rewrite <-Hcols in Hp. destruct (project_selected p (col_metadatas rg) Hp) as (ms' & Hms' & HF).
  rewrite Hms in Hms'. injection Hms' as <-. rewrite Hcols in HF.
  destruct (Forall2_lookup_l _ _ _ _ _ HF Hj) as (mi & Hmj & Hmi).
  destruct (Hw i Hi) as (c0 & chunks & e & c & Hrun & Hfil).
  specialize (Hrec i mi Hmi). exists chunks, (column_chunks mi).
  split; [by eapply ed_run_chunked|]. split; [|by rewrite Hm, list_lookup_fmap, Hmj].
  change (filter (λ c, column_index c = Z.of_nat i) (g_chunks g))
    with (filter (column_of i) (g_chunks g)) in Hrec.
  rewrite Hfil in Hrec. by apply in_col_records in Hrec.
Qed.

Lemma group_reads ck bs g rg ms m :
  group_written (written:=column_written limit wasm ed ct) (length sch) bs g →
  cols_record (len sch) ck file (g_chunks g) (col_metadatas rg) →
  flat_schema sch → Forall valid_batch bs → Forall batch_units_read bs →
  len sch < 2 ^ 32 → len (selected p (length sch)) < 2 ^ 32 →
  projects p (length sch) → project p (col_metadatas rg) = Ok ms →
  column_metadatas m = map ColumnMetadata_to_fb ms →
  ckt = None ∨ ck = true →
  read_row_group pushdown r sch p (Some ctx) cache ckt (m, All) = traverse (read_batch p sch) bs.
Proof.
  intros Hw Hrec Hsch Hbs Hreads Hlen Hsel Hp Hms Hm Hck.
  apply read_row_group_selected; [done|done|done| |].
  { eapply Forall_impl; [exact Hbs|]. by apply valid_length. }
  intros j i f Hj Hf. assert (Hi : (i < length sch)%nat) by (by eapply lookup_lt_Some).
  destruct (group_column ck bs g rg ms m j i) as (chunks & metas & Hchunked & Hchunks & Hcol); [done..|].
  pose proof (Forall_lookup_1 _ _ _ _ Hsch Hf) as Hnn. cbn beta in Hnn.
  split; [done|]. exists (map Chunk_to_fb metas).
  destruct (chunked_read pushdown (λ a a', a' = to_view a) limit wasm ct ed (column i bs) chunks ck file
    metas (primitive_decoder r (Some ctx) cache ckt (map Chunk_to_fb metas) (data_type f)))
    as (arrs' & p' & Hp' & _ & HF'); try done.
  - unfold physical_type. cbn. by rewrite Hnn.
  - by apply columns_read.
  - exists p'. rewrite (rel_eq_map to_view) in HF'. by subst arrs'.
Qed.

(** The built-in encoding keeps the column. *)
Section BuiltIn.
Context (keeps : DataType → Prop) `{!VortexLaws keeps}.

Definition readable (f : Field) : Prop :=
  non_nest_types (data_type f) = true ∧ keeps (data_type f) ∧ built_in wasm (data_type f).

Lemma readable_array f a rows :
  reads_builtin (Some ctx) → readable f → fits_field rows f a → array_units_read f a.
Proof.
  intros Hctx (Hnn & Hk & Hb) Hfit. destruct (flat_array f a rows Hnn Hfit) as [vals ->].
  intros u b rest Hu Hrec.
  destruct (plain_unit_decodes keeps pushdown (Some ctx) wasm ct ed (PrimArray (data_type f) vals) u b
    (data_type f) rest) as (dec & Hn & Hd); [done|by exists (data_type f), vals|by left|done..|].
  by eexists _, _.
Qed.

Lemma readable_batch b : reads_builtin (Some ctx) → Forall readable sch → valid_batch b → batch_units_read b.
Proof.
  intros Hctx Hsch [rb Hb]. apply record_batch_ok in Hb as (_ & _ & rows & HF). unfold batch_units_read.
  revert Hsch HF. generalize sch, b.1. intros fs cs Hfs HF.
  induction HF as [|f a fs cs Hfa _ IH]; [constructor|].
  apply Forall_cons in Hfs as [Hf Hfs]. constructor; [by eapply readable_array|by apply IH].
Qed.
End BuiltIn.
End Groups.

(** ** The whole file *)

Lemma traverse_concat {A B C} (f : A → outcome (list C)) (g : B → outcome C) ms bss :
  Forall2 (λ m bs, f m = traverse g bs) ms bss →
  (let! l := traverse f ms in Ok (concat l)) = traverse g (concat bss).
Proof.
  induction 1 as [|m bs ms bss Hm _ IH]; [done|]. cbn [traverse concat].
  rewrite traverse_app, <-IH, Hm. destruct (traverse g bs); [|done..]. cbn [obind].
  by destruct (traverse f ms).
Qed.

Lemma traverse_groups {A B C} (F : A → outcome (list C)) (Q : B → C → Prop) bss ms :
  Forall2 (λ bs m, ∃ rbs, F m = Ok rbs ∧ Forall2 Q bs rbs) bss ms →
  ∃ rbs, (let! l := traverse F ms in Ok (concat l)) = Ok rbs ∧ Forall2 Q (concat bss) rbs.
Proof.
  intros HF. assert (Ht : ∃ l, traverse F ms = Ok l ∧ Forall2 Q (concat bss) (concat l)).
  { induction HF as [|bs m bss ms (rbs & Hm & Hq) _ (l & Hl & Hql)]; [by exists []|].
    exists (rbs :: l). cbn [traverse concat]. rewrite Hm. cbn [obind]. rewrite Hl.
    split; [done|]. by apply Forall2_app. }
  destruct Ht as (l & -> & Hq). by exists (concat l).
Qed.

Lemma grouped_columns mss counts offs szs :
  length counts = length mss → length offs = length mss → length szs = length mss →
  Forall2 (λ m ms, column_metadatas m = map ColumnMetadata_to_fb ms)
    (grouped (map mkRowGroupMetadata mss) counts offs szs) mss.
Proof.
  revert counts offs szs. induction mss as [|ms mss IH]; intros [|c counts] [|o offs] [|z szs] Hc Ho Hz;
    try done. cbn [map grouped]. constructor; [done|]. apply IH; cbn in *; lia.
Qed.

Lemma grouped_counts mss counts offs szs :
  length counts = length mss → length offs = length mss → length szs = length mss →
  map row_count (grouped (map mkRowGroupMetadata mss) counts offs szs) = counts.
Proof.
  revert counts offs szs. induction mss as [|ms mss IH]; intros [|c counts] [|o offs] [|z szs] Hc Ho Hz;
    try done. cbn [map grouped]. f_equal. apply IH; cbn in *; lia.
Qed.

Lemma start_indexes_number b l : length (start_indexes b l) = length l.
Proof. revert b. induction l as [|x l IH]; intros b; cbn; [done|by rewrite IH]. Qed.

(** Without a selection every row group is read whole. *)
Lemma select_all {A} (f : GroupedColumnMetadata * Selection → outcome (list A)) ms :
  (let! groups := process_selection row_count All ms in let! l := traverse f groups in Ok (concat l))
  = (let! l := traverse (λ m, f (m, All)) ms in Ok (concat l)).
Proof. cbn [process_selection obind]. by rewrite traverse_map. Qed.

(** No dictionaries are read from a table of none. *)
Lemma no_dictionaries_read {R RT} `{Reader R} `{Flatbuffers} `{!FlatbuffersLaws} `{DecoderLibs RT}
    `{Codecs} pushdown r ctx :
  try_new_read_all (R:=R) (RT:=RT) pushdown r (SharedDictionaryTable_to_fb [] [] []) ctx
  = Ok (mkCache [] [] [] []).
Proof. unfold try_new_read_all. cbn. by rewrite schema_roundtrip. Qed.

Section Table.
Context {R RT : Type} `{Reader R} `{Flatbuffers} `{!FlatbuffersLaws} `{EncoderLibs} `{DecoderLibs RT}.
Context `{Codecs} `{!CodecsLaws} `{Checksum} `{!ChecksumLaws} `{Sampling}.
Context (keeps : DataType → Prop) `{!VortexLaws keeps}.
Context (string_hash : string → Z) (coeffs : list (Z * Z)).
Context (max : Z) `{!BoundedUnits max} (Hmax : 0 ≤ max).

#[local] Instance table_encoders : LogicalColEncoder LogicalEncoder SharedDictionaryContext :=
  logical_encoder string_hash.
#[local] Instance table_dictionaries : SharedDictionaryOps SharedDictionaryContext :=
  shared_dictionary_ops string_hash coeffs.

(** A reader that reads whole columns without read-ahead; it verifies the checksums
    of chunks only if the file has them. *)
Record plain_builder (o : FileWriterOptions) (sch : list Field)
    (b : FileReaderV2Builder (R:=R) (RT:=RT)) : Prop := {
  pb_ahead : read_ahead b = false;
  pb_selection : b_selection b = All;
  pb_projects : projects (b_projections b) (length sch);
  pb_few : len (selected (b_projections b) (length sch)) < 2 ^ 32;
  pb_checksum : b_verify_io_unit_checksum b = true → opt_enable_io_unit_checksum o = true;
}.

(** What the reader gives for the written batches. *)
Definition table_read (pushdown : bool) (o : FileWriterOptions) (sch : list Field) (file : list Z)
    (batches : list Batch) : Prop :=
  ∀ b, plain_builder o sch b → ReaderOf R (b_reader b) file →
    ∃ reader, open_file pushdown b = Ok reader ∧
      read_file pushdown reader = traverse (read_batch (b_projections b) sch) batches.

(** The context of a file decodes the built-in encoding, and compiles the binaries of the
    file when the reader brings none. *)
Record opened_context (b : FileReaderV2Builder (R:=R) (RT:=RT)) (binaries : list (list Z))
    (ctx : WASMReadingContext R RT) : Prop := {
  oc_builtin : reads_builtin (Some ctx);
  oc_runtimes rts k rt : wasm_rts b = None → len binaries ≤ 2 ^ 32 →
    Forall2 (λ w rt, Runtime_try_new w = Ok rt) binaries rts → rts !! k = Some rt →
    ∃ c, get_runtime Runtime_try_new ctx (Z.of_nat k) = Ok (rt, c);
}.

Lemma file_context_opened (b : FileReaderV2Builder (R:=R) (RT:=RT)) file binaries start size :
  ReaderOf R (b_reader b) file → holds_wasms file binaries start size →
  opened_context b binaries (file_context b start size).
Proof.
  intros Hr Hw. split.
  - eexists _, DEFAULT_ENCODING_VERSIONS, _, _. unfold file_context.
    split; [done|]. split; [by destruct (wasm_rts b)|]. split; [done|]. split; [done|]. by vm_compute.
  - intros rts k rt Hnone Hnum HF Hk. by eapply (file_runtimes Runtime_try_new b).
Qed.

Lemma project_groups n ck file p gs rgs :
  projects p n →
  Forall2 (λ g rg, cols_record (Z.of_nat n) ck file (g_chunks g) (col_metadatas rg)) gs rgs →
  ∃ mss, Forall2 (λ rg ms, project p (col_metadatas rg) = Ok ms) rgs mss.
Proof.
  intros Hp. induction 1 as [|g rg gs rgs [Hn _] _ (mss & IH)]; [by exists []|].
  assert (Hl : length (col_metadatas rg) = n) by (unfold len in Hn; lia). rewrite <-Hl in Hp.
  destruct (project_selected p (col_metadatas rg) Hp) as (ms & Hms & _). exists (ms :: mss).
  by constructor.
Qed.

(** A row group of the file holds the batches, and its metadata the projected columns. *)
Definition group_stored {written : list Array → nat → Group → Prop} (n columns : nat) (ck : bool)
    (file : list Z) (p : Projection) (bs : list Batch) (m : GroupedColumnMetadata) : Prop :=
  ∃ g rg ms, group_written (written:=written) n bs g ∧
    cols_record (Z.of_nat columns) ck file (g_chunks g) (col_metadatas rg) ∧
    project p (col_metadatas rg) = Ok ms ∧ column_metadatas m = map ColumnMetadata_to_fb ms ∧
    row_count m = g_rows g.

(** A reader without read-ahead goes through the row groups that are selected. *)
Definition reads_groups (pushdown : bool) (b : FileReaderV2Builder (R:=R) (RT:=RT)) (sch : list Field)
    (ctx : WASMReadingContext R RT) (cache : SharedDictionaryCache) (ckt : option ChecksumType)
    (ms : list GroupedColumnMetadata) : outcome (list RecordBatch) :=
  let! groups := process_selection row_count (b_selection b) ms in
  let! l := traverse (read_row_group pushdown (b_reader b) sch (b_projections b) (Some ctx) cache ckt) groups in
  Ok (concat l).

Definition file_read {written : list Array → nat → Group → Prop} (pushdown : bool)
    (o : FileWriterOptions) (sch : list Field) (n columns : nat) (binaries : list (list Z)) (file : list Z)
    (batches : list Batch) : Prop :=
  ∀ b : FileReaderV2Builder (R:=R) (RT:=RT),
    read_ahead b = false → projects (b_projections b) columns →
    (b_verify_io_unit_checksum b = true → opt_enable_io_unit_checksum o = true) →
    ReaderOf R (b_reader b) file →
    ∃ reader ms ctx ckt, open_file pushdown b = Ok reader ∧ opened_context b binaries ctx ∧
      (ckt = None ∨ opt_enable_io_unit_checksum o = true) ∧
      Forall2 (group_stored (written:=written) n columns (opt_enable_io_unit_checksum o) file (b_projections b))
        (batch_groups snd (opt_row_group_size o) batches) ms ∧
      read_file pushdown reader = reads_groups pushdown b sch ctx (mkCache [] [] [] []) ckt ms.

(** The dictionaries of a file: flushed from the pool at the end of writing, behind the
    row groups. *)
Inductive dictionaries_stored (wasm : WASMWritingContext) (pool : SharedDictionaryContext) (ck : bool)
    (file : list Z) : fb.SharedDictionaryTable → Prop :=
  | dictionaries_at chunks peers types rest before after positions :
      ctx_finish_and_flush wasm pool = Ok (chunks, peers, types, rest) →
      file = before ++ dicts_bytes chunks ++ after →
      dict_positions peers (dict_metas ck (len before) chunks) = Ok positions →
      dictionaries_stored wasm pool ck file
        (SharedDictionaryTable_to_fb (concat (dict_metas ck (len before) chunks)) positions types).

(** The same for a file with dictionaries: the reader goes through the row groups when
    it can read the dictionaries. *)
Definition dict_file_read {written : list Array → nat → Group → Prop} (pushdown : bool)
    (o : FileWriterOptions) (sch : list Field) (n columns : nat) (wasm : WASMWritingContext)
    (pool : SharedDictionaryContext) (file : list Z) (batches : list Batch) : Prop :=
  ∀ b : FileReaderV2Builder (R:=R) (RT:=RT),
    read_ahead b = false → projects (b_projections b) columns →
    (b_verify_io_unit_checksum b = true → opt_enable_io_unit_checksum o = true) →
    ReaderOf R (b_reader b) file →
    ∃ ms ctx ckt table, opened_context b (get_sorted_wasms wasm) ctx ∧
      (ckt = None ∨ opt_enable_io_unit_checksum o = true) ∧
      Forall2 (group_stored (written:=written) n columns (opt_enable_io_unit_checksum o) file (b_projections b))
        (batch_groups snd (opt_row_group_size o) batches) ms ∧
      dictionaries_stored wasm pool (opt_enable_io_unit_checksum o) file table ∧
      ∀ cache, try_new_read_all pushdown (b_reader b) table (Some ctx) = Ok cache →
        ∃ reader, open_file pushdown b = Ok reader ∧
          read_file pushdown reader = reads_groups pushdown b sch ctx cache ckt ms.

Lemma dict_file_reads {grows} `{!PreOrder grows} {fits only pending finished written}
    (steps : ColumnSteps string_hash grows fits only pending finished written)
    pushdown seed builtin sch o w batches file counters n columns ctx :
  0 ≤ iounit_size o → iounit_size o + 2 * max < 2 ^ 32 →
  new_writer pushdown seed builtin sch o = Ok w →
  table_state grows (pending:=pending) (written:=written) n ctx ([], []) (sp_new w) →
  ctx_is_multi_col_sharing ctx = false →
  custom_encunit_len w = ∅ → row_group_size w = opt_row_group_size o →
  num_physical_columns (state w) = Z.of_nat columns →
  Forall (batch_fits (fits:=fits) n) batches → write_file w batches = Ok (file, counters) →
  ∃ s1 s,
    sp_write_batches ∅ (opt_row_group_size o) (sp_new w) batches = Ok s1 ∧ sp_finish s1 = Ok s ∧
    grows ctx (sp_ctx s) ∧
    (len file - zsum (map group_len (sp_groups s)) < 2 ^ 32 →
     dict_file_read (written:=written (sp_ctx s)) pushdown o sch n columns (wasm_context w) (sp_ctx s)
       file batches).
Proof.
  intros Hs Hfits Hw Hts Hshare Hcu Hrgs Hnum Hbl Hfile.
  destruct (new_writer_ok _ _ _ _ _ _ Hs Hw) as (Hn & Hok & _).
  destruct (written_parts (writable (iounit_size o) (num_physical_columns (state w)))
    _ _ _ _ _ _ _ _ _ (logical_contract string_hash max (iounit_size o) Hs Hmax _ Hfits)
    Hw ltac:(rewrite Hn; apply schema_columns_nonneg) Hok Hfile)
    as (s1 & s & st & dicts & peers & dtypes & ctx' & Hs1 & Hsf & _ & Hst & Hflush & Htail).
  rewrite Hcu, Hrgs in Hs1. exists s1, s. split; [exact Hs1|]. split; [exact Hsf|].
  destruct (table_written string_hash coeffs grows steps n ctx (opt_row_group_size o) batches (sp_new w) s1 s)
    as [Hgroups Hctx]; [done..|].
  split; [done|]. intros Hlen b Hahead Hproj Hck Hr.
  cbn [finish_and_flush table_dictionaries shared_dictionary_ops] in Hflush.
  rewrite Hnum in Hst.
  pose proof (h_out _ _ _ _ _ _ _ Hst) as Hout. cbn in Hout. rewrite app_nil_r in Hout.
  pose proof (h_groups _ _ _ _ _ _ _ Hst) as Hrec.
  set (rgs := row_group_metadata (row_groups_table st)) in *.
  assert (Hrne : rgs ≠ []).
  { intros Hnil. rewrite Hnil in Hrec. apply Forall2_nil_inv_r in Hrec. rewrite Hrec in Hgroups.
    apply Forall2_nil_inv_r in Hgroups. unfold batch_groups in Hgroups.
    destruct (foldl _ _ _) as [closed current]. by destruct closed. }
  destruct (project_groups _ _ _ _ _ _ Hproj Hrec) as (mss & Hmss).
  destruct (open_tail (try_new_read_all pushdown) b sch _ _ _ _ _ st file mss
    (h_sink _ _ _ _ _ _ _ Hst) (h_indirect _ _ _ _ _ _ _ Hst) Hrne Htail)
    as (start & size & positions & Hpos & Hmore & Hwasms & Hbuild); [|done|done|exact Hmss|].
  { by rewrite Hout, len_concat_data. }
  rewrite (h_ck _ _ _ _ _ _ _ Hst) in *.
  eexists _, _, _, _. split; [by eapply file_context_opened|].
  split; [|split; [|split; [destruct Hmore as [more Hmore]; by eapply dictionaries_at|]]]; [| |
  intros cache Hcache; rewrite Hcache in Hbuild; cbn [unwrap_res obind] in Hbuild;
  eexists; split; [exact Hbuild|];
  unfold read_file, reader_footer; cbn [row_group_cnt_n_pointers grouped_column_metadata_buffers
    reader_schema projections selection reader_wasm_context shared_dictionary_cache
    reader_checksum_type reader];
  unfold the_pointers; rewrite projected_footer; reflexivity].
  - destruct (b_verify_io_unit_checksum b); [right; by apply Hck|by left].
  - cbn [row_group_metadatas].
    rewrite (h_counts _ _ _ _ _ _ _ Hst), (h_offsets _ _ _ _ _ _ _ Hst), (h_sizes _ _ _ _ _ _ _ Hst).
    assert (Hmg : Forall2 (λ m ms, column_metadatas m = map ColumnMetadata_to_fb ms)
      (grouped (map mkRowGroupMetadata mss) (map g_rows (sp_groups s))
         (start_indexes 0 (map group_len (sp_groups s))) (map (wrap 32 ∘ group_len) (sp_groups s))) mss).
    { apply Forall2_length in Hrec, Hmss. apply grouped_columns;
        rewrite ?start_indexes_number, length_map; lia. }
    assert (Hcounts : map row_count (grouped (map mkRowGroupMetadata mss) (map g_rows (sp_groups s))
        (start_indexes 0 (map group_len (sp_groups s))) (map (wrap 32 ∘ group_len) (sp_groups s)))
      = map g_rows (sp_groups s)).
    { apply Forall2_length in Hrec, Hmss. apply grouped_counts;
        rewrite ?start_indexes_number, length_map; lia. }
    apply Forall2_same_length_lookup_2.
    { apply Forall2_length in Hmg, Hmss, Hrec, Hgroups. lia. }
    intros k bs m Hbs Hm.
    destruct (Forall2_lookup_l _ _ _ _ _ Hmg Hm) as (ms & Hms & Hcols).
    destruct (Forall2_lookup_r _ _ _ _ _ Hmss Hms) as (rg & Hrg & Hpms).
    destruct (Forall2_lookup_l _ _ _ _ _ Hgroups Hbs) as (g & Hg & Hgw).
    destruct (Forall2_lookup_l _ _ _ _ _ Hrec Hg) as (rg' & Hrg' & Hcr).
    assert (rg' = rg) as -> by congruence. exists g, rg, ms. split; [exact Hgw|].
    split; [destruct Hmore as [more ->]; by apply cols_record_app|]. split; [done|]. split; [done|].
    apply (f_equal (λ l, l !! k)) in Hcounts. rewrite !list_lookup_fmap, Hm, Hg in Hcounts.
    by injection Hcounts.
Qed.

Lemma file_reads {fits only pending finished written}
    (steps : ColumnSteps string_hash eq fits only pending finished written)
    pushdown seed builtin sch o w batches file counters n columns ctx :
  0 ≤ iounit_size o → iounit_size o + 2 * max < 2 ^ 32 →
  new_writer pushdown seed builtin sch o = Ok w →
  table_state eq (pending:=pending) (written:=written) n ctx ([], []) (sp_new w) →
  ctx_is_multi_col_sharing ctx = false → dictionaries ctx = [] →
  custom_encunit_len w = ∅ → row_group_size w = opt_row_group_size o →
  num_physical_columns (state w) = Z.of_nat columns →
  Forall (batch_fits (fits:=fits) n) batches → write_file w batches = Ok (file, counters) →
  ∃ s1 s,
    sp_write_batches ∅ (opt_row_group_size o) (sp_new w) batches = Ok s1 ∧ sp_finish s1 = Ok s ∧
    (len file - zsum (map group_len (sp_groups s)) < 2 ^ 32 →
     file_read (written:=written ctx) pushdown o sch n columns (get_sorted_wasms (wasm_context w)) file batches).
Proof.
  intros Hs Hfits Hw Hts Hshare Hnodict Hcu Hrgs Hnum Hbl Hfile.
  destruct (dict_file_reads steps pushdown seed builtin sch o w batches file counters n columns ctx)
    as (s1 & s & Hs1 & Hsf & Hctx & Hread); [done..|].
  exists s1, s. split; [exact Hs1|]. split; [exact Hsf|]. intros Hlen b Hahead Hproj Hck Hr.
  destruct (Hread Hlen b Hahead Hproj Hck Hr) as (ms & cx & ckt & table & Hcx & Hckt & Hgroups & Hdicts & Hcache).
  rewrite <-Hctx in *. destruct Hdicts as [chunks peers types rest before after positions Hflush _ Hpos].
  unfold ctx_finish_and_flush in Hflush. rewrite Hnodict in Hflush. injection Hflush as <- <- <- _.
  cbn in Hpos. injection Hpos as <-. cbn [concat dict_metas] in Hcache.
  destruct (Hcache _ (no_dictionaries_read pushdown (b_reader b) (Some cx))) as (reader & Hopen & Hrf).
  by exists reader, ms, cx, ckt.
Qed.

(** A table is read by every reader in whose context the units of its batches are. *)
Lemma table_reads pushdown seed builtin sch o w batches file counters :
  0 ≤ iounit_size o → iounit_size o + 2 * max < 2 ^ 32 →
  new_writer pushdown seed builtin sch o = Ok w →
  no_dictionary_column (dictionary_type o) → opt_custom_encunit_len o = ∅ →
  sch ≠ [] → flat_schema sch → Forall (valid_batch sch) batches →
  write_file w batches = Ok (file, counters) →
  ∃ s1 s,
    sp_write_batches ∅ (opt_row_group_size o) (sp_new w) batches = Ok s1 ∧ sp_finish s1 = Ok s ∧
    (len file - zsum (map group_len (sp_groups s)) < 2 ^ 32 →
     ∀ b, plain_builder o sch b → ReaderOf R (b_reader b) file →
       (∀ ctx, opened_context b (get_sorted_wasms (wasm_context w)) ctx →
          Forall (batch_units_read pushdown (wasm_context w) (bool_decide (dictionary_type o = EncoderDictionary))
                    (opt_compression_type o) sch ctx) batches) →
       ∃ reader, open_file pushdown b = Ok reader ∧
         read_file pushdown reader = traverse (read_batch (b_projections b) sch) batches).
Proof.
  intros Hs Hfits Hw Hd Hcustom Hne Hflat Hvalid Hfile.
  destruct (new_table _ _ _ _ _ _ Hflat Hd Hcustom Hw)
    as (ctx & Hts & Hshare & Hnodict & Hcu & Hrgs & Hnum & Hsmall). specialize (Hsmall Hne).
  destruct (file_reads (flat_steps string_hash (iounit_size o) (wasm_context w)
    (bool_decide (dictionary_type o = EncoderDictionary)) (opt_compression_type o) Hs)
    pushdown seed builtin sch o w batches file counters (length sch) (length sch) ctx)
    as (s1 & s & Hs1 & Hsf & Hfr); [done..| |done|].
  { eapply Forall_impl; [exact Hvalid|]. intros b Hb. split; [by apply valid_length|done]. }
  exists s1, s. split; [done|]. split; [done|]. intros Hlen b [Hahead Hsel Hproj Hfew Hck] Hr Hreads.
  destruct (Hfr Hlen b Hahead Hproj Hck Hr) as (reader & ms & cx & ckt & Hopen & Hcx & Hckt & Hgroups & Hrf).
  exists reader. split; [exact Hopen|]. rewrite Hrf. unfold reads_groups. rewrite Hsel, select_all. specialize (Hreads cx Hcx).
  rewrite <-(batch_groups_concat snd (opt_row_group_size o) batches) in Hreads, Hvalid |- *.
  apply traverse_concat.
  apply Forall_concat in Hvalid, Hreads. apply Forall2_flip. clear Hrf.
  induction Hgroups as [|bs m groups ms (g & rg & pms & Hg & Hcr & Hp & Hm & _) _ IH];
    [constructor|]. apply Forall_cons in Hvalid as [Hv Hvg]. apply Forall_cons in Hreads as [Hrd Hrds].
  constructor; [|by apply IH].
  eapply (group_reads pushdown _ _ _ _ Hs); [exact Hr|exact Hg|exact Hcr|exact Hflat|exact Hv|exact Hrd|
    exact Hsmall|exact Hfew|exact Hproj|exact Hp|exact Hm|exact Hckt].
Qed.

Lemma readable_flat wasm sch : Forall (readable wasm keeps) sch → flat_schema sch.
Proof. intros Hr. eapply Forall_impl; [exact Hr|]. by intros f [? _]. Qed.

(** A table of columns that the built-in encoding keeps. *)
Lemma builtin_table_reads pushdown seed builtin sch o w batches file counters :
  0 ≤ iounit_size o → iounit_size o + 2 * max < 2 ^ 32 →
  new_writer pushdown seed builtin sch o = Ok w →
  no_dictionary_column (dictionary_type o) → opt_custom_encunit_len o = ∅ →
  sch ≠ [] → Forall (readable (wasm_context w) keeps) sch → Forall (valid_batch sch) batches →
  write_file w batches = Ok (file, counters) →
  ∃ s1 s,
    sp_write_batches ∅ (opt_row_group_size o) (sp_new w) batches = Ok s1 ∧ sp_finish s1 = Ok s ∧
    (len file - zsum (map group_len (sp_groups s)) < 2 ^ 32 →
     table_read pushdown o sch file batches).
Proof.
  intros Hs Hfits Hw Hd Hcustom Hne Hread Hvalid Hfile.
  destruct (table_reads _ _ _ _ _ _ _ _ _ Hs Hfits Hw Hd Hcustom Hne (readable_flat _ _ Hread) Hvalid Hfile)
    as (s1 & s & Hs1 & Hsf & Ht). exists s1, s. split; [done|]. split; [done|].
  intros Hlen b Hb Hr. apply (Ht Hlen b Hb Hr). intros ctx Hctx.
  eapply Forall_impl; [exact Hvalid|]. intros bt Hbt. by apply (readable_batch pushdown (wasm_context w) _ _ sch ctx keeps); [apply Hctx| |].
Qed.

(** All columns. *)
Lemma whole_builder o sch (b : FileReaderV2Builder (R:=R) (RT:=RT)) :
  sch ≠ [] → len sch < 2 ^ 32 → read_ahead b = false → b_selection b = All → b_projections b = ProjectAll →
  (b_verify_io_unit_checksum b = true → opt_enable_io_unit_checksum o = true) → plain_builder o sch b.
Proof.
  intros Hne Hsmall Hahead Hsel Hproj Hck. split; [done|done| | |done]; rewrite Hproj; cbn.
  - split; [|done]. by destruct sch.
  - unfold len in *. by rewrite length_seq.
Qed.

Lemma read_all_batches sch batches :
  flat_schema sch → Forall (valid_batch sch) batches →
  traverse (read_batch ProjectAll sch) batches
  = Ok (map (λ b, mkBatch (map field_to_view sch) (map to_view b.1)) batches).
Proof.
  intros Hflat Hvalid. rewrite <-traverse_pure. apply traverse_ext. intros b Hb.
  rewrite Forall_forall in Hvalid. destruct (Hvalid b Hb) as [rb Hrb].
  by apply (read_batch_all sch b rb).
Qed.

(** C1: a table that is written is read back.  When a writer of flat columns of types
    that the built-in encoding keeps, without dictionaries of its own, writes valid
    record batches and finishes, then the reader opens the file, whether it verifies
    checksums or not, and gives back exactly the batches that were written, in order:
    the columns with the same values and nulls, strings and binary values as views,
    under the same names and nullability. *)
Theorem written_table_reads_back pushdown seed builtin sch o w batches file counters :
  0 ≤ iounit_size o → iounit_size o + 2 * max < 2 ^ 32 →
  new_writer pushdown seed builtin sch o = Ok w →
  no_dictionary_column (dictionary_type o) → opt_custom_encunit_len o = ∅ →
  sch ≠ [] → Forall (readable (wasm_context w) keeps) sch → Forall (valid_batch sch) batches →
  write_file w batches = Ok (file, counters) →
  ∃ s1 s,
    sp_write_batches ∅ (opt_row_group_size o) (sp_new w) batches = Ok s1 ∧ sp_finish s1 = Ok s ∧
    (len file - zsum (map group_len (sp_groups s)) < 2 ^ 32 →
     ∀ b : FileReaderV2Builder (R:=R) (RT:=RT),
       ReaderOf R (b_reader b) file → read_ahead b = false → b_selection b = All →
       b_projections b = ProjectAll →
       (b_verify_io_unit_checksum b = true → opt_enable_io_unit_checksum o = true) →
       ∃ reader, open_file pushdown b = Ok reader ∧
         read_file pushdown reader
         = Ok (map (λ b, mkBatch (map field_to_view sch) (map to_view b.1)) batches)).
Proof.
  intros Hs Hfits Hw Hd Hcustom Hne Hread Hvalid Hfile.
  destruct (builtin_table_reads _ _ _ _ _ _ _ _ _ Hs Hfits Hw Hd Hcustom Hne Hread Hvalid Hfile)
    as (s1 & s & Hs1 & Hsf & Ht). exists s1, s. split; [done|]. split; [done|].
  intros Hlen b Hr Hahead Hsel Hproj Hck. apply readable_flat in Hread as Hflat.
  destruct (new_table _ _ _ _ _ _ Hflat Hd Hcustom Hw) as (_ & _ & _ & _ & _ & _ & _ & Hsmall).
  destruct (Ht Hlen b) as (reader & Hopen & Hrf); [by apply whole_builder; auto|done|].
  exists reader. split; [done|]. rewrite Hrf, Hproj. by apply read_all_batches.
Qed.

(** C24: reading with a projection.  Of the same file a reader that projects some
    columns, in any order and even twice, gives one batch per batch that was written,
    with the arrays of exactly these columns; it puts them under the names and
    nullability of the first fields of the schema, and fails where these do not allow
    the nulls of the projected columns. *)
Theorem projected_table_reads_back pushdown seed builtin sch o w batches file counters :
  0 ≤ iounit_size o → iounit_size o + 2 * max < 2 ^ 32 →
  new_writer pushdown seed builtin sch o = Ok w →
  no_dictionary_column (dictionary_type o) → opt_custom_encunit_len o = ∅ →
  sch ≠ [] → Forall (readable (wasm_context w) keeps) sch → Forall (valid_batch sch) batches →
  write_file w batches = Ok (file, counters) →
  ∃ s1 s,
    sp_write_batches ∅ (opt_row_group_size o) (sp_new w) batches = Ok s1 ∧ sp_finish s1 = Ok s ∧
    (len file - zsum (map group_len (sp_groups s)) < 2 ^ 32 →
     table_read pushdown o sch file batches).
Proof. apply builtin_table_reads. Qed.
End Table.

Section Written.
Context `{EncoderLibs} `{Codecs} `{Sampling} `{Checksum} `{!ChecksumLaws} `{Flatbuffers}.
Context (string_hash : string → Z) (coeffs : list (Z * Z)).
#[local] Instance written_encoders : LogicalColEncoder LogicalEncoder SharedDictionaryContext :=
  logical_encoder string_hash.
#[local] Instance written_dictionaries : SharedDictionaryOps SharedDictionaryContext :=
  shared_dictionary_ops string_hash coeffs.

(** The positions of the dictionaries of a writer that got to the end of its row groups. *)
Definition flushed_positions (w : FileWriter (E:=LogicalEncoder) (Ctx:=SharedDictionaryContext))
    : outcome (list (list Z)) :=
  let! '(dicts, peers, _, _) := ctx_finish_and_flush (wasm_context w) (shared_dictionary_context w) in
  dict_positions peers (dict_metas (enable_io_unit_checksum (state w)) (len (out (sink (state w)))) dicts).

(** A writer that got to the end of its row groups, and whose dictionaries can be
    flushed, writes the file. *)
Lemma dict_file_written (w : FileWriter (E:=LogicalEncoder) (Ctx:=SharedDictionaryContext)) batches :
  is_ok (let! w1 := write_batches w batches in let! w2 := finish_groups w1 in flushed_positions w2) = true →
  ∃ file counters, write_file w batches = Ok (file, counters).
Proof.
  intros Hrun. unfold write_file. destruct (write_batches w batches) as [w1| |]; [|done..].
  cbn [obind] in *. rewrite finish_file_split.
  destruct (finish_groups w1) as [w2| |]; [|done..]. cbn [obind] in *. unfold flushed_positions in Hrun.
  cbn [finish_and_flush written_dictionaries shared_dictionary_ops].
  destruct (ctx_finish_and_flush _ _) as [[[[dicts peers] dtypes] rest]| |]; [|done..]. cbn [obind] in *.
  destruct (dict_positions _ _) as [positions| |] eqn:Hpos; [|done..].
  destruct (write_tail_runs (schema w2) (logical_tree w2) (writer_schema_checksum w2)
    (get_sorted_wasms (wasm_context w2)) dicts peers dtypes (state w2) positions Hpos) as [file Hf].
  rewrite Hf. by eexists _, _.
Qed.

(** A writer without dictionaries. *)
Lemma file_written (w : FileWriter (E:=LogicalEncoder) (Ctx:=SharedDictionaryContext)) batches :
  match (let! w1 := write_batches w batches in finish_groups w1) with
  | Ok w => Some (len (dictionaries (shared_dictionary_context w)))
  | _ => None
  end = Some 0 → ∃ file counters, write_file w batches = Ok (file, counters).
Proof.
  intros Hrun. apply dict_file_written. destruct (write_batches w batches) as [w1| |]; [|done..].
  cbn [obind] in *. destruct (finish_groups w1) as [w2| |]; [|done..]. injection Hrun as Hd.
  apply len_0 in Hd. cbn [obind]. unfold flushed_positions, ctx_finish_and_flush. by rewrite Hd.
Qed.
End Written.

(** ** An example *)

(** *** Files of small pieces *)

Section Small.
Context `{EncoderLibs} `{Sampling} (string_hash : string → Z) (coeffs : list (Z * Z)).
#[local] Existing Instance stored.
#[local] Existing Instance sum_checksum.
#[local] Existing Instance sum_checksum_laws.
#[local] Existing Instance symbol_flatbuffers.
#[local] Existing Instance symbol_flatbuffers_laws.
#[local] Instance small_encoders : LogicalColEncoder LogicalEncoder SharedDictionaryContext :=
  logical_encoder string_hash.
#[local] Instance small_dictionaries : SharedDictionaryOps SharedDictionaryContext :=
  shared_dictionary_ops string_hash coeffs.

(** Every symbol is one number, so the tail of the file is short. *)
Lemma short_tail sch tree ws dicts peers dtypes st file :
  sink_ok (sink st) → indirect_row_group_metadata (row_groups_table st) = [] →
  write_tail sch tree (create_checksum XxHash) ws dicts peers dtypes st = Ok file →
  len file - len (out (sink st))
  = 34 + len (dicts_bytes dicts) + len (concat ws)
    + len (concat (map col_metadatas (row_group_metadata (row_groups_table st)))).
Proof.
  intros Hok Hind Ht. destruct (write_tail_layout _ _ _ _ _ _ _ _ _ Hok Ht)
    as [data meta ffb positions Hdata Hmeta _ _ _ _ _ _ _ Hfile].
  cbv zeta in Hdata. rewrite Hfile, Hdata, Hmeta, !len_app, postscript_bytes_len.
  assert (Hone : ∀ A `{Countable A} (a : A), len (symbol a) = 1) by done.
  cbn [enc_footer enc_wasm_binaries symbol_flatbuffers]. rewrite !Hone.
  assert (Hm : ∀ rgs, len (concat (concat (map group_bytes rgs))) = len (concat (map col_metadatas rgs))).
  { induction rgs as [|rg rgs IH]; [done|]. cbn [map concat]. rewrite concat_app, !len_app, IH. f_equal.
    unfold group_bytes. induction (col_metadatas rg) as [|m ms IHm]; [done|].
    cbn [map concat]. rewrite len_app, len_cons, IHm. done. }
  rewrite Hm. lia.
Qed.

(** What follows its row groups is short. *)
Lemma dict_file_short max `{!BoundedUnits max} pushdown seed builtin sch o w batches file counters s1 s
    chunks peers dtypes rest :
  0 ≤ max → 0 ≤ iounit_size o → iounit_size o + 2 * max < 2 ^ 32 →
  new_writer pushdown seed builtin sch o = Ok w → write_file w batches = Ok (file, counters) →
  custom_encunit_len w = ∅ → sp_write_batches ∅ (row_group_size w) (sp_new w) batches = Ok s1 → sp_finish s1 = Ok s →
  ctx_finish_and_flush (wasm_context w) (sp_ctx s) = Ok (chunks, peers, dtypes, rest) →
  len file - zsum (map group_len (sp_groups s))
  = 34 + len (dicts_bytes chunks) + len (concat (get_sorted_wasms (wasm_context w)))
    + num_physical_columns (state w) * len (sp_groups s).
Proof.
  intros Hmax Hio Hfits Hw Hf Hcu Hsw Hsf Hd.
  destruct (new_writer_ok _ _ _ _ _ _ Hio Hw) as (Hn & Hok & _).
  destruct (written_parts _ _ _ _ _ _ w batches file counters
    (logical_contract string_hash max (iounit_size o) Hio Hmax _ Hfits)
    Hw ltac:(rewrite Hn; apply schema_columns_nonneg) Hok Hf)
    as (s1' & s' & st & dicts & peers' & dtypes' & ctx & Hs1 & Hsf' & _ & Hst & Hfl & Ht).
  rewrite Hcu in Hs1. pose proof (eq_trans (eq_sym Hsw) Hs1) as [= <-].
  pose proof (eq_trans (eq_sym Hsf) Hsf') as [= <-].
  pose proof (eq_trans (eq_sym Hd) Hfl) as [= <- <- <- _].
  pose proof (h_out _ _ _ _ _ _ _ Hst) as Hout. cbn in Hout. rewrite app_nil_r in Hout.
  apply short_tail in Ht; [|apply (h_sink _ _ _ _ _ _ _ Hst)|apply (h_indirect _ _ _ _ _ _ _ Hst)].
  rewrite Hout, len_concat_data in Ht. rewrite Ht.
  assert (Hcols : ∀ n gs rgs, Forall2 (λ g rg, cols_record n (opt_enable_io_unit_checksum o) (out (sink st))
    (g_chunks g) (col_metadatas rg)) gs rgs → len (concat (map col_metadatas rgs)) = n * len gs).
  { induction 1 as [|g rg gs rgs [Hg _] _ IH]; [change (0 = n * 0); lia|]. cbn [map concat].
    rewrite len_app, IH, len_cons. lia. }
  pose proof (h_groups _ _ _ _ _ _ _ Hst) as Hrec. by rewrite (Hcols _ _ _ Hrec).
Qed.

Lemma file_short max `{!BoundedUnits max} pushdown seed builtin sch o w batches file counters s1 s :
  0 ≤ max → 0 ≤ iounit_size o → iounit_size o + 2 * max < 2 ^ 32 →
  new_writer pushdown seed builtin sch o = Ok w → write_file w batches = Ok (file, counters) →
  custom_encunit_len w = ∅ → sp_write_batches ∅ (row_group_size w) (sp_new w) batches = Ok s1 → sp_finish s1 = Ok s →
  dictionaries (sp_ctx s) = [] →
  len file - zsum (map group_len (sp_groups s))
  = 34 + len (concat (get_sorted_wasms (wasm_context w))) + num_physical_columns (state w) * len (sp_groups s).
Proof.
  intros Hmax Hio Hfits Hw Hf Hcu Hsw Hsf Hd.
  rewrite (dict_file_short max pushdown seed builtin sch o w batches file counters s1 s [] [] []
    (set_dictionaries (sp_ctx s) [])); try done.
  unfold ctx_finish_and_flush. by rewrite Hd.
Qed.
End Small.

Section Examples.
#[local] Existing Instance byte_encoder.
#[local] Existing Instance byte_decoder.
#[local] Existing Instance stored.
#[local] Existing Instance stored_laws.
#[local] Existing Instance no_sampling.
#[local] Existing Instance sum_checksum.
#[local] Existing Instance sum_checksum_laws.
#[local] Existing Instance symbol_flatbuffers.
#[local] Existing Instance symbol_flatbuffers_laws.
#[local] Existing Instance byte_units_bounded.
#[local] Instance example_encoders : LogicalColEncoder LogicalEncoder SharedDictionaryContext :=
  logical_encoder length_hash.
#[local] Instance example_dictionaries : SharedDictionaryOps SharedDictionaryContext :=
  shared_dictionary_ops length_hash constant_coeffs.

Definition table_spec : outcome (Spec LogicalEncoder SharedDictionaryContext) :=
  let! w := table_writer in
  let! s := sp_write_batches ∅ 3 (sp_new w) table_batches in sp_finish s.

(** The file is written. *)
Lemma table_file :
  ∃ w file counters, table_writer = Ok w ∧ write_file w table_batches = Ok (file, counters).
Proof.
  assert (Hrun : match (let! w := table_writer in let! w1 := write_batches w table_batches in
        finish_groups w1) with
      | Ok w => Some (len (dictionaries (shared_dictionary_context w))) | _ => None end = Some 0)
    by by vm_compute.
  destruct table_writer as [w| |]; [|done..]. cbn [obind] in Hrun. exists w.
  destruct (file_written length_hash constant_coeffs w table_batches Hrun) as (file & counters & Hf).
  by exists file, counters.
Qed.

(** What follows its row groups is short. *)
Lemma table_file_short w file counters s :
  table_writer = Ok w → write_file w table_batches = Ok (file, counters) → table_spec = Ok s →
  len file - zsum (map group_len (sp_groups s)) < 2 ^ 32.
Proof.
  intros Hw Hf Hs.
  assert (Hgroups : match table_spec with Ok s => Some (len (sp_groups s), dictionaries (sp_ctx s))
    | _ => None end = Some (3, [])) by by vm_compute.
  rewrite Hs in Hgroups. injection Hgroups as Hn Hd.
  assert (Hwf : match table_writer with
    | Ok w => Some (num_physical_columns (state w), len (get_sorted_wasms (wasm_context w)),
                    map_to_list (custom_encunit_len w), row_group_size w)
    | _ => None end = Some (2, 0, [], 3)) by by vm_compute.
  rewrite Hw in Hwf. injection Hwf as Hnum Hwasm Hc Hr. apply len_0 in Hwasm. apply map_to_list_empty_iff in Hc.
  unfold table_spec in Hs. rewrite Hw in Hs. cbn [obind] in Hs. apply obind_Ok in Hs as (s1 & Hs1 & Hs).
  rewrite (file_short length_hash constant_coeffs 257 false (λ _, tt : @Rng no_sampling) (Ok []) table_schema
    small_groups w table_batches file counters s1 s); try done; [by rewrite Hnum, Hn, Hwasm|by rewrite Hr].
Qed.

Lemma table_spec_of w s1 s :
  table_writer = Ok w → sp_write_batches ∅ 3 (sp_new w) table_batches = Ok s1 → sp_finish s1 = Ok s →
  table_spec = Ok s.
Proof. intros Hw Hs1 Hs. unfold table_spec. rewrite Hw. cbn [obind]. by rewrite Hs1. Qed.

Lemma table_columns_readable w :
  table_writer = Ok w → Forall (readable (wasm_context w) byte_kept) table_schema.
Proof.
  intros Hw. assert (Hwc : match table_writer with
    | Ok w => Some (map (data_type_to_wasm_lib (wasm_context w)) [Int32; Utf8],
                    always_set_custom_wasm_for_built_in (wasm_context w))
    | _ => None end = Some ([None; None], false)) by done.
  rewrite Hw in Hwc. injection Hwc as Hi Hu Hb.
  constructor; [|constructor; [|constructor]]; (split; [done|split; [by eexists|by split]]).
Qed.

Lemma table_batches_valid : Forall (valid_batch table_schema) table_batches.
Proof. repeat (constructor; [by eexists|]). constructor. Qed.

(** A reader of the file that verifies all checksums. *)
Definition checking_builder (file : list Z) : FileReaderV2Builder (R:=FileHandle) (RT:=unit) :=
  with_verify_file_checksum
    (with_verify_io_unit_checksum (FileReaderV2Builder_new (mkFile file)) true) true.

Lemma written_table_reads_back_witness :
  ∃ w file counters reader,
    table_writer = Ok w ∧ write_file w table_batches = Ok (file, counters) ∧
    open_file false (checking_builder file) = Ok reader ∧
    read_file false reader
    = Ok (map (λ b, mkBatch [mkField "a" Int32 true; mkField "s" Utf8View false] (map to_view b.1))
            table_batches).
Proof.
  destruct table_file as (w & file & counters & Hw & Hf).
  destruct (written_table_reads_back (R:=FileHandle) (RT:=unit) byte_kept length_hash constant_coeffs 257
    ltac:(lia) false (λ _, tt : @Rng no_sampling) (Ok []) table_schema small_groups w table_batches file
    counters) as (s1 & s & Hs1 & Hs & Hread).
  - done.
  - done.
  - exact Hw.
  - by right.
  - done.
  - done.
  - by apply table_columns_readable.
  - exact table_batches_valid.
  - exact Hf.
  - destruct (Hread (table_file_short w file counters s Hw Hf (table_spec_of w s1 s Hw Hs1 Hs))
      (checking_builder file) (file_reader_of file)) as (reader & Hopen & Hr); [done..|].
    exists w, file, counters, reader. split_and!; [done|exact Hf|exact Hopen|exact Hr].
Defined.

(** The second column, and the second before the first. *)
Lemma projected_table_reads_back_witness :
  ∃ w file counters reader,
    table_writer = Ok w ∧ write_file w table_batches = Ok (file, counters) ∧
    open_file false (with_projections (checking_builder file) (LeafColumnIndexes [1; 0])) = Ok reader ∧
    read_file false reader
    = Err (External "Column is declared as non-nullable but contains null values").
Proof.
  destruct table_file as (w & file & counters & Hw & Hf).
  destruct (projected_table_reads_back (R:=FileHandle) (RT:=unit) byte_kept length_hash constant_coeffs 257
    ltac:(lia) false (λ _, tt : @Rng no_sampling) (Ok []) table_schema small_groups w table_batches file
    counters) as (s1 & s & Hs1 & Hs & Hread).
  - done.
  - done.
  - exact Hw.
  - by right.
  - done.
  - done.
  - by apply table_columns_readable.
  - exact table_batches_valid.
  - exact Hf.
  - destruct (Hread (table_file_short w file counters s Hw Hf (table_spec_of w s1 s Hw Hs1 Hs))
      (with_projections (checking_builder file) (LeafColumnIndexes [1; 0]))) as (reader & Hopen & Hr).
    + split; [done|done| |done|done]. split; [done|]. repeat constructor; lia.
    + apply file_reader_of.
    + exists w, file, counters, reader. split_and!; [done|exact Hf|exact Hopen|exact Hr].
Defined.
End Examples.
