(* ===== verification/DictTable.v ===== *)
(** * A table with dictionaries, written and read back

    Columns whose encoders put their values into dictionaries of the writer's pool, each
    column into its own: the pool grows while row groups are written, is stored behind
    them, and is read before them when the file is opened. *)

From S2P Require Import Prelude Arrow EncUnit Common Footer Options Chunks Encoders Buffers.
From S2P Require Import Selection Reader Wire Writer FileRoundtrip WriterSpec Dict SharedDict PhysEnc PhysEncFacts.
From S2P Require Import DictColumn LogicalEnc LogicalEncFacts Table.
From S2P Require Import Decoders DictCache LogicalDec OpenFile ReadFile DecoderFacts DictRead EndToEnd.
From stdpp Require Import list.
Open Scope Z_scope.

(** ** The columns while a table is written *)

Section Write.
Context `{EncoderLibs} `{Codecs} `{Sampling} `{!NonEmptyUnits} (string_hash : string → Z).
Context (limit : Z) (wasm : WASMWritingContext) (ct : CompressionType) (Hlimit : 0 ≤ limit).
Context (allowed : DataType → Prop) (Hallowed : ∀ dt, allowed dt → is_Some (method_table dt)).
Context (types : list DataType) (Htypes : Forall allowed types).
#[local] Instance dict_encoders : LogicalColEncoder LogicalEncoder SharedDictionaryContext :=
  logical_encoder string_hash.

Abbreviation S := (Spec LogicalEncoder SharedDictionaryContext).
Abbreviation segments := (segments_in limit wasm ct).
Abbreviation grows := (pool_grows string_hash allowed).

Definition dict_fits (i : nat) (a : Array) : Prop :=
  ∃ dt vals, types !! i = Some dt ∧ a = PrimArray dt vals.

(** What a step of column [i] leaves alone; it may add dictionaries. *)
Definition only_dict (i : nat) (s s' : S) : Prop := only_column i s s' ∧ grows (sp_ctx s) (sp_ctx s').

(** Column [i] has encoded all but the arrays that its encoder has buffered. *)
Definition dict_pending (arrs : list Array) (i : nat) (s : S) : Prop :=
  ∃ dt done cols chunks e, types !! i = Some dt ∧ arrs = map (PrimArray dt) (concat done ++ cols) ∧
    pool string_hash (sp_ctx s) ∧ segments (sp_ctx s) dt done chunks ∧
    filter (column_of i) (g_chunks (sp_current s)) = in_col i chunks ∧ is_Some (sp_counters s !! i) ∧
    sp_encoders s !! i = Some (FlatColEncoder e (Z.of_nat i)) ∧ dict_encoder limit wasm ct dt cols e.

(** The chunks of column [i] in a row group are those of [arrs]. *)
Definition dict_written (c : SharedDictionaryContext) (arrs : list Array) (i : nat) (g : Group) : Prop :=
  ∃ dt done chunks, types !! i = Some dt ∧ arrs = map (PrimArray dt) (concat done) ∧
    segments c dt done chunks ∧ filter (column_of i) (g_chunks g) = in_col i chunks.

Definition dict_finished (arrs : list Array) (i : nat) (s : S) : Prop :=
  dict_written (sp_ctx s) arrs i (sp_current s) ∧ pool string_hash (sp_ctx s) ∧ is_Some (sp_counters s !! i) ∧
  ∃ dt e, types !! i = Some dt ∧ sp_encoders s !! i = Some (FlatColEncoder e (Z.of_nat i)) ∧
    dict_encoder limit wasm ct dt [] e.

Lemma dict_written_grows c c' arrs i g : grows c c' → dict_written c arrs i g → dict_written c' arrs i g.
Proof using Type.
  intros Hg (dt & done & chunks & Hdt & -> & Hs & Hf). exists dt, done, chunks.
  split_and!; [done|done| |done]. by eapply segments_grow.
Qed.

(** A step of column [i] that puts chunks into the row group. *)
Lemma emit_dict i (s : S) e' c' ctx' chunks :
  grows (sp_ctx s) ctx' →
  let s' : S := mkSpec (<[i := e']> (sp_encoders s)) (<[i := c']> (sp_counters s)) ctx' (sp_rows s)
              (sp_groups s) (mkGroup (g_rows (sp_current s)) (g_chunks (sp_current s) ++ in_col i chunks))
  in only_dict i s s' ∧ same_rest grows s s'.
Proof using Type.
  intros Hg. cbv zeta. destruct (emit_only i s e' c' chunks) as [[Ho1 Ho2 Ho3] [_ Hr1 Hr2 Hr3 Hr4]].
  split; [split; [by split|done]|by split].
Qed.

Lemma write_dict rows arrs i (s : S) col s' :
  dict_pending arrs i s → dict_fits i col → sp_write_column ∅ rows s (Z.of_nat i, col) = Ok s' →
  dict_pending (arrs ++ [col]) i s' ∧ only_dict i s s' ∧ same_rest grows s s'.
Proof using All.
  intros (dt & done & cols & chunks & e & Hdt & -> & Hpool & Hseg & Hfi & _ & He & Henc)
    (dt' & vals & Hdt' & ->) Hw. assert (dt' = dt) as -> by congruence.
  unfold sp_write_column in Hw. apply obind_Ok in Hw as (x & _ & Hw). rewrite lookup_empty in Hw.
  apply (run_column _ _ _ _ _ He) in Hw as (c & res & e' & c' & ctx' & Hc & Hrun & ->).
  cbn [encode dict_encoders logical_encoder log_encode_chunks] in Hrun. unfold flat_encode, in_column in Hrun.
  destruct (phys_encode string_hash e (PrimArray dt vals) c (sp_ctx s)) as [[[[more e1] c1] ctx1]| |] eqn:Hp;
    [|done..]. cbn [obind] in Hrun. fold (in_col i more) in Hrun.
  destruct (then_some_chunks (in_col i more) (FlatColEncoder e1 (Z.of_nat i)) c1 ctx1) as (res' & Hres & Hdef).
  rewrite Hres in Hrun. injection Hrun as <- <- <- <-. rewrite Hdef.
  pose proof (Forall_lookup_1 _ _ _ _ Htypes Hdt) as Hmt.
  destruct (dict_encode_step string_hash limit wasm ct Hlimit allowed Hallowed dt cols vals e c (sp_ctx s) more e1 c1 ctx1)
    as (done' & cols' & Hcols & Henc' & Hseg' & Hg); [by try done..|].
  destruct (emit_dict i s (FlatColEncoder e1 (Z.of_nat i)) c1 ctx1 more Hg) as [Ho Hrest].
  split; [|done]. exists dt, (done ++ done'), cols', (chunks ++ more), e1.
  split; [done|]. split; [by rewrite concat_app, <-app_assoc, <-Hcols, (app_assoc (concat done)), (map_app _ (_ ++ _))|].
  split; [by apply Hg|]. cbn. split_and!; [|..|done].
  - by apply segments_app; [eapply segments_grow|].
  - rewrite filter_app, Hfi, in_col_same. unfold in_col. by rewrite map_app.
  - exists c1. apply list_lookup_insert_eq. by eapply lookup_lt_Some.
  - apply list_lookup_insert_eq. by eapply lookup_lt_Some.
Qed.

Lemma finish_dict arrs i (s : S) s' :
  dict_pending arrs i s → sp_run_encoder finish s (Z.of_nat i) = Ok s' →
  dict_finished arrs i s' ∧ only_dict i s s' ∧ same_rest grows s s'.
Proof using All.
  intros (dt & done & cols & chunks & e & Hdt & -> & Hpool & Hseg & Hfi & _ & He & Henc) Hw.
  apply (run_column _ _ _ _ _ He) in Hw as (c & res & e' & c' & ctx' & Hc & Hrun & ->).
  cbn [finish dict_encoders logical_encoder log_finish_chunks] in Hrun. unfold flat_finish, in_column in Hrun.
  destruct (phys_finish string_hash e c (sp_ctx s)) as [[[[more e1] c1] ctx1]| |] eqn:Hp;
    [|done..]. cbn [obind] in Hrun. fold (in_col i more) in Hrun.
  destruct (then_some_chunks (in_col i more) (FlatColEncoder e1 (Z.of_nat i)) c1 ctx1) as (res' & Hres & Hdef).
  rewrite Hres in Hrun. injection Hrun as <- <- <- <-. rewrite Hdef.
  pose proof (Forall_lookup_1 _ _ _ _ Htypes Hdt) as Hmt.
  destruct (dict_finish_step string_hash limit wasm ct Hlimit allowed Hallowed dt cols e c (sp_ctx s) more e1 c1 ctx1)
    as (done' & -> & Henc' & Hseg' & Hg); [by try done..|].
  destruct (emit_dict i s (FlatColEncoder e1 (Z.of_nat i)) c1 ctx1 more Hg) as [Ho Hrest].
  split; [|done]. unfold dict_finished. cbn. split_and!.
  - exists dt, (done ++ done'), (chunks ++ more). split; [done|]. split; [by rewrite concat_app|].
    split; [by apply segments_app; [eapply segments_grow|]|]. cbn. 
    rewrite filter_app, Hfi, in_col_same. unfold in_col. by rewrite map_app.
  - by apply Hg.
  - exists c1. apply list_lookup_insert_eq. by eapply lookup_lt_Some.
  - exists dt, e1. split; [done|]. split; [|done]. apply list_lookup_insert_eq. by eapply lookup_lt_Some.
Qed.

Lemma dict_steps : ColumnSteps string_hash grows dict_fits only_dict dict_pending dict_finished dict_written.
Proof using All.
  split.
  - by intros c c' [-> _ _ _].
  - intros c c' arrs i g. apply dict_written_grows.
  - intros arrs i j s s' Hij [[Ho Hcn Hch] Hg] (dt & done & cols & chunks & e & Hdt & -> & Hpool & Hseg & Hfi & Hc & He & Henc).
    exists dt, done, cols, chunks, e. rewrite Ho, Hcn, Hch by done.
    split_and!; try done; [by apply Hg|by eapply segments_grow].
  - intros arrs i j s s' Hij [[Ho Hcn Hch] Hg] ((dt & done & chunks & Hdt & -> & Hseg & Hfi) & Hpool & Hc & He).
    unfold dict_finished. rewrite Ho, Hcn by done. split; [|split; [by apply Hg|done]].
    exists dt, done, chunks. rewrite Hch by done. split_and!; try done. by eapply segments_grow.
  - intros rows arrs i s col s'. apply write_dict.
  - intros arrs i s s'. apply finish_dict.
  - done.
  - intros arrs i s (_ & Hpool & Hc & dt & e & Hdt & He & Henc). exists dt, [], [], [], e.
    split_and!; try done. apply segments_nil.
  - by intros arrs i s (Hw & _).
Qed.
End Write.

(** ** A new writer *)

(** The values of a column go into dictionaries of its own. *)
Definition dictionary_column (d : DictionaryTypeOptions) : Prop :=
  match d with GlobalDictionary | FixedScopeDictionary _ | GLBest _ => True | _ => False end.

Section New.
Context `{EncoderLibs} `{Codecs} `{Sampling} `{Checksum} `{Flatbuffers} (string_hash : string → Z).
Context (allowed : DataType → Prop) (Hallowed : ∀ dt, allowed dt → is_Some (method_table dt)).

Lemma create_dict_encoder dt size wasm d ct rng p :
  non_nest_types dt = true → dictionary_column d →
  create_physical_encoder dt size wasm d ct rng = Ok p → dict_encoder size wasm ct dt [] p.
Proof using Type.
  intros Hnn Hd Hp. unfold create_physical_encoder in Hp. rewrite Hnn in Hp. injection Hp as <-.
  destruct d; try done; cbn; (split; [|done]); by eexists || by split_and!.
Qed.

(** A new writer starts an empty table. *)
Lemma new_dict_table pushdown seed builtin sch o w :
  flat_schema sch → Forall (λ f, allowed (data_type f)) sch → dictionary_column (dictionary_type o) →
  opt_custom_encunit_len o = ∅ →
  FileWriter_try_new (create_logical_encoder pushdown seed) SharedDictionaryContext_new builtin sch o
    = Ok w →
  ∃ ctx, table_state (pool_grows string_hash allowed)
      (pending:=dict_pending string_hash (iounit_size o) (wasm_context w) (opt_compression_type o) (map data_type sch))
      (written:=dict_written (iounit_size o) (wasm_context w) (opt_compression_type o) (map data_type sch))
      (length sch) ctx ([], []) (sp_new w) ∧
    pool string_hash ctx ∧ dictionaries ctx = [] ∧
    ctx_is_multi_col_sharing ctx = false ∧ ctx_compression_type ctx = opt_compression_type o ∧
    custom_encunit_len w = ∅ ∧ row_group_size w = opt_row_group_size o ∧
    num_physical_columns (state w) = len sch ∧ (sch ≠ [] → len sch < 2 ^ 32).
Proof using Type.
  intros Hflat Hsch Hd Hcustom Hw.
  assert (Hns : not_shared o) by (by intros Heq; rewrite Heq in Hd).
  destruct (new_writer_parts _ _ _ _ _ _ Hns Hcustom Hw)
    as (encs & idx & ctx & Hc & Hsp & Hshare & Hnd & Hcu & Hrg & Hn & Hctx).
  destruct (create_flat_encoders _ _ _ _ _ _ _ Hflat Hc) as (Hl & Hi & Hb & He). rewrite Hi in *.
  assert (Hpool : pool string_hash ctx) by (rewrite Hctx; apply pool_new).
  exists ctx. split; [|split_and!; try done; by rewrite Hctx]. rewrite Hsp.
  split; cbn; [by rewrite length_map, Hl|done|constructor|done|]. intros i Hlt.
  destruct (lookup_lt_is_Some_2 sch i Hlt) as [f Hf]. destruct (He i f Hf) as (p & rng & Hp & Hphys).
  pose proof (Forall_lookup_1 _ _ _ _ Hflat Hf) as Hnn. cbn beta in Hnn.
  exists (data_type f), [], [], [], p. cbn. rewrite list_lookup_fmap, Hf. split_and!; try done.
  - apply segments_nil.
  - exists EncodingCounter_default. apply lookup_replicate. split; [done|]. unfold len. lia.
  - by eapply create_dict_encoder.
Qed.
End New.

(** ** Reading a column *)

(** The type of the values in a dictionary: a timestamp without its time zone. *)
Definition stored_type (dt : DataType) : DataType :=
  match method_table dt with Some (t, _) => default_type t | None => dt end.

(** The type that a column is read as: its own, or that of the dictionary; 32-bit
    integers when the dictionary is empty. *)
Inductive dict_type (dt : DataType) (vals : list (option value)) : DataType → Prop :=
  | type_plain : dict_type dt vals (view_type dt)
  | type_stored : dict_type dt vals (view_type (stored_type dt))
  | type_empty : Forall (λ v, v = None) vals → dict_type dt vals Int32.

(** The array that is read for a written one: the same values and nulls. *)
Definition dict_reads (a a' : Array) : Prop :=
  ∃ dt vals t, a = PrimArray dt vals ∧ dict_type dt vals t ∧ a' = PrimArray t vals.

Lemma stored_type_decodes dt :
  is_Some (method_table dt) → dict_array_type (view_type (stored_type dt)) = Ok (view_type (stored_type dt)).
Proof.
  unfold stored_type. intros [[t s] Ht]. rewrite Ht. unfold method_table in Ht.
  by repeat case_match; simplify_eq.
Qed.

Definition cached_type (d : Dict.Dictionary) : DataType :=
  match dict_values d with [] => Int32 | _ => view_type (stored_type (datatype d)) end.

Lemma cached_looked_up d cols idxs :
  is_Some (method_table (datatype d)) → Forall2 (indexes (dict_values d)) cols idxs →
  Forall2 (looked_up (dict_values d) (cached d) (cached_type d)) cols idxs ∧
  Forall (λ vals, dict_type (datatype d) vals (cached_type d)) cols.
Proof.
  intros Hty HF. unfold cached, cached_values, cached_type. destruct (dict_values d) as [|v vs] eqn:Hd.
  - induction HF as [|vals idx cols idxs Hidx _ [IH1 IH2]]; [done|].
    assert (Hnull : ∃ n, vals = replicate n None ∧ idx = PrimArray UInt8 (replicate n None)).
    { destruct Hidx as (sl & -> & Hsl & <-). exists (length sl). clear - Hsl. unfold lookup_rows.
      change (index_type (len [])) with UInt8.
      induction Hsl as [|o sl Ho _ [IHl IHi]]; [done|].
      assert (o = None) as -> by (destruct o as [i|]; [cbn in Ho; change (len []) with 0 in Ho; lia|done]).
      cbn. injection IHi as IHi. rewrite IHi in *. split; [|done]. f_equal. exact IHl. }
    destruct Hnull as (n & -> & ->). split; constructor; try done.
    + split; [done|]. unfold dict_index_to_data, empty_dictionary. cbn. unfold index_downcast.
      rewrite decide_True by done. clear.
      assert (Ht : ∀ f : option value → outcome (option value), f None = Ok None →
        traverse f (replicate n None) = Ok (replicate n None)).
      { intros f Hf. induction n as [|n IH]; [done|]. cbn. rewrite Hf. cbn. by rewrite IH. }
      by rewrite Ht.
    + apply type_empty. by apply Forall_replicate.
  - split; [|apply Forall_true; intros; apply type_stored].
    apply (indexes_looked_up (view_type (stored_type (datatype d)))); [by apply stored_type_decodes|].
    exact HF.
Qed.

Section Read.
Context {R RT : Type} `{Reader R} `{Flatbuffers} `{EncoderLibs} `{DecoderLibs RT}.
Context `{Codecs} `{!CodecsLaws} `{Checksum} (pushdown : bool).
Context (keeps : DataType → Prop) `{!VortexLaws keeps}.
Context (limit : Z) (wasm : WASMWritingContext) (ct : CompressionType) (Hindexes : plain_indexes keeps wasm).
Context (file : list Z) (ck : bool).

(** The types of columns with dictionaries that the built-in encoding keeps. *)
Definition dict_readable (dt : DataType) : Prop :=
  is_Some (method_table dt) ∧ (keeps dt ∧ built_in wasm dt) ∧
  keeps (stored_type dt) ∧ built_in wasm (stored_type dt).

Lemma dict_readable_flat dt : dict_readable dt → non_nest_types dt = true.
Proof using Type. intros [[[t s] Ht] _]. by apply method_table_flat in Ht as [? _]. Qed.

(** The cache has the dictionaries of the pool. *)
Definition caches (cache : SharedDictionaryCache) (c : SharedDictionaryContext) : Prop :=
  ∀ i d, dictionaries c !! i = Some d → get_dict cache (Z.of_nat i) = Some (cached d).

Lemma segment_read (p : PrimitiveColDecoder (R:=R) (RT:=RT)) c dt cols chunks metas :
  ReaderOf R (pr_r p) file → verifiable ck p → reads_builtin (pr_wasm_context p) →
  pr_primitive_type p = dt → dict_readable dt → caches (pr_shared_dictionary_cache p) c →
  segment_in limit wasm ct c dt cols chunks → Forall2 (records ck file) chunks metas →
  ∃ arrss, Forall2 (chunk_gives pushdown p) (map Chunk_to_fb metas) arrss ∧
    Forall2 dict_reads (map (PrimArray dt) cols) (concat arrss).
Proof using All.
  intros Hr Hv Hctx Hty Hdt Hcache Hseg Hrec. pose proof (dict_readable_flat dt Hdt) as Hnn.
  destruct Hdt as (Hmt & [Hk Hb] & _).
  destruct Hseg as [(id & d & idxs & Hid & Hd & Hdty & Hidx & groups & <- & Hg & _)|(groups & Hgr & Hg & _)].
  - destruct (cached_looked_up d cols (concat groups)) as [Hlook Htypes]; [by rewrite Hdty|done|].
    assert (Hget : get_dict (pr_shared_dictionary_cache p) id = Some (cached d)).
    { rewrite <-(Hcache (Z.to_nat id) d Hd). f_equal. lia. }
    destruct (shared_chunks_give pushdown keeps p ck file wasm ct id (cached d) (cached_type d) (dict_values d)
      cols groups chunks metas) as (colss & <- & Hgives); try done; [by rewrite Hty|].
    eexists. split; [exact Hgives|]. rewrite <-concat_map. apply Forall2_fmap_2.
    apply Forall2_same_length_lookup_2; [done|]. intros i vals vals' Hi Hi'. assert (vals' = vals) as -> by congruence.
    exists dt, vals, (cached_type d). split_and!; [done| |done]. rewrite <-Hdty.
    by apply (Forall_lookup_1 _ _ _ _ Htypes Hi).
  - destruct (chunks_give pushdown (λ a a', a' = to_view a) p ck file wasm Uncompressed true groups chunks metas)
      as (arrss & Hgives & HF); try done.
    + unfold physical_type. by rewrite Hty, Hnn.
    + rewrite Hgr, Hty. apply Forall_map, Forall_true. intros vals u b rest Hu Hb'.
      destruct (plain_unit_decodes keeps pushdown (pr_wasm_context p) wasm Uncompressed true (PrimArray dt vals) u b
        dt rest) as (dec & Hn & Hdec); [done|by exists dt, vals|by left|done..|]. by eexists _, _.
    + exists arrss. split; [done|]. rewrite <-Hgr.
      assert (HFc : Forall2 (λ a a', a' = to_view a) (concat groups) (concat arrss))
        by (clear - HF; induction HF; [constructor|by apply Forall2_app]).
      apply (rel_eq_map to_view) in HFc. rewrite HFc, Hgr, map_map. apply Forall2_fmap_2, Forall_Forall2_diag.
      apply Forall_true. intros vals. exists dt, vals, (view_type dt). split_and!; [done|apply type_plain|done].
Qed.

Lemma segments_read (p : PrimitiveColDecoder (R:=R) (RT:=RT)) c dt segments chunks metas :
  ReaderOf R (pr_r p) file → verifiable ck p → reads_builtin (pr_wasm_context p) →
  pr_primitive_type p = dt → dict_readable dt → caches (pr_shared_dictionary_cache p) c →
  segments_in limit wasm ct c dt segments chunks → Forall2 (records ck file) chunks metas →
  ∃ arrss, Forall2 (chunk_gives pushdown p) (map Chunk_to_fb metas) arrss ∧
    Forall2 dict_reads (map (PrimArray dt) (concat segments)) (concat arrss).
Proof using All.
  intros Hr Hv Hctx Hty Hdt Hcache (chunkss & Hseg & ->). revert metas.
  induction Hseg as [|cols cs segments chunkss Hs _ IH]; intros metas Hrec.
  - apply Forall2_nil_inv_l in Hrec as ->. by exists [].
  - cbn [concat] in Hrec. apply Forall2_app_inv_l in Hrec as (ms & metas' & Hms & Hrec & ->).
    destruct (IH metas' Hrec) as (arrss' & Hgives' & HF').
    destruct (segment_read p c dt cols cs ms) as (arrss & Hgives & HF); [done..|].
    exists (arrss ++ arrss'). rewrite map_app, concat_app. split; [by apply Forall2_app|].
    cbn [concat]. rewrite map_app. by apply Forall2_app.
Qed.
End Read.

Section Groups.
Context {R RT : Type} `{Reader R} `{Flatbuffers} `{EncoderLibs} `{DecoderLibs RT}.
Context `{Codecs} `{!CodecsLaws} `{Checksum} (pushdown : bool).
Context (keeps : DataType → Prop) `{!VortexLaws keeps}.
Context (limit : Z) (wasm : WASMWritingContext) (ct : CompressionType) (Hindexes : plain_indexes keeps wasm).
Context (r : R) (file : list Z) (Hr : ReaderOf R r file) (ck : bool).
Context (ctx : WASMReadingContext R RT) (cache : SharedDictionaryCache) (ckt : option ChecksumType).
Context (Hck : ckt = None ∨ ck = true) (Hctx : reads_builtin (Some ctx)).
Context (sch : list Field) (Hsch : Forall (λ f, dict_readable keeps wasm (data_type f)) sch).

Lemma dict_column_read c dt segments chunks metas :
  dict_readable keeps wasm dt → caches cache c → segments_in limit wasm ct c dt segments chunks →
  Forall2 (records ck file) chunks metas →
  ∃ arrs' p', prim_decode_batch pushdown (primitive_decoder r (Some ctx) cache ckt (map Chunk_to_fb metas) dt)
      = Ok (arrs', p') ∧ Forall2 dict_reads (map (PrimArray dt) (concat segments)) arrs'.
Proof using All.
  intros Hdt Hcache Hseg Hrec. set (p := primitive_decoder _ _ _ _ _ _).
  destruct (segments_read pushdown keeps limit wasm ct Hindexes file ck p c dt segments chunks metas)
    as (arrss & Hgives & HF); [done..|].
  destruct (prim_decode_gives pushdown p arrss Hgives) as (p' & Hp' & _). by exists (concat arrss), p'.
Qed.

(** The batch that is read for a written one: the same names and nullability, and the
    columns as [dict_reads] says. *)
Definition dict_batch_reads (b : Batch) (rb : RecordBatch) : Prop :=
  Forall2 (λ f f', name f' = name f ∧ nullable f' = nullable f) sch (rb_schema rb) ∧
  Forall2 dict_reads b.1 (rb_columns rb).

Lemma dict_record_batch b this :
  valid_batch sch b → Forall2 dict_reads b.1 this →
  ∃ rb, RecordBatch_try_new (map (λ '(c, f), mkField (name f) (arr_data_type c) (nullable f)) (zip this sch)) this
    = Ok rb ∧ dict_batch_reads b rb.
Proof using Hsch.
  intros [rb0 Hrb] HF. apply record_batch_ok in Hrb as (_ & Hne & rows & Hfit).
  eexists (mkBatch _ this). split; [|split; [|exact HF]].
  - apply record_batch_new with (rows := rows).
    { intros ->. apply Forall2_nil_inv_r in HF. done. }
    clear - HF Hfit Hsch. revert this HF.
    induction Hfit as [|f a fs columns (Hl & Hn & Hty) _ IH]; intros this HF.
    + apply Forall2_nil_inv_l in HF as ->. constructor.
    + apply Forall2_cons_inv_l in HF as (a' & this' & (dt & vals & t & -> & _ & ->) & HF & ->).
      apply Forall_cons in Hsch as [[[[ty st] Hmt] _] Hsch]. rewrite Hty in Hmt.
      cbn [zip zip_with map]. constructor; [|by apply IH]. split; [done|]. split; [|done].
      cbn [nullable]. destruct (nullable f); [done|]. cbn [orb] in *. destruct dt; try done; by destruct t.
  - cbn [rb_schema]. clear - HF Hfit. revert this HF.
    induction Hfit as [|f a fs columns _ _ IH]; intros this HF.
    + apply Forall2_nil_inv_l in HF as ->. constructor.
    + apply Forall2_cons_inv_l in HF as (a' & this' & _ & HF & ->). cbn [zip zip_with map].
      constructor; [done|by apply IH].
Qed.

(** A row group gives its batches. *)
Lemma dict_group_reads c bs g rg m :
  group_written (written:=dict_written limit wasm ct (map data_type sch) c) (length sch) bs g →
  cols_record (len sch) ck file (g_chunks g) (col_metadatas rg) →
  column_metadatas m = map ColumnMetadata_to_fb (col_metadatas rg) →
  sch ≠ [] → len sch < 2 ^ 32 → Forall (valid_batch sch) bs → caches cache c →
  ∃ rbs, read_row_group pushdown r sch ProjectAll (Some ctx) cache ckt (m, All) = Ok rbs ∧
    Forall2 dict_batch_reads bs rbs.
Proof using All.
  intros [_ Hw] [Hn Hrec] Hm Hne Hsmall Hbs Hcache.
  assert (Hcols : ∀ i, (i < length sch)%nat → ∃ f arrs', sch !! i = Some f ∧
    column_gives pushdown r (column_metadatas m) (Some ctx) cache ckt All i f arrs' ∧
    Forall2 dict_reads (column i bs) arrs').
  { intros i Hi. destruct (lookup_lt_is_Some_2 sch i Hi) as [f Hf].
    destruct (lookup_lt_is_Some_2 (col_metadatas rg) i) as [mi Hmi]; [unfold len in Hn; lia|].
    destruct (Hw i Hi) as (dt & segments & chunks & Hdt & Harrs & Hseg & Hfil).
    rewrite list_lookup_fmap, Hf in Hdt. injection Hdt as <-. specialize (Hrec i mi Hmi).
    change (filter (λ c, column_index c = Z.of_nat i) (g_chunks g))
      with (filter (column_of i) (g_chunks g)) in Hrec.
    rewrite Hfil in Hrec. apply in_col_records in Hrec.
    pose proof (Forall_lookup_1 _ _ _ _ Hsch Hf) as Hrf. cbn beta in Hrf.
    destruct (dict_column_read c (data_type f) segments chunks (column_chunks mi)) as (arrs' & p' & Hp & HF); try done.
    exists f, arrs'. split; [done|]. split; [|by rewrite Harrs].
    split; [by eapply dict_readable_flat|]. exists (map Chunk_to_fb (column_chunks mi)), p'.
    split; [|exact Hp]. by rewrite Hm, list_lookup_fmap, Hmi. }
  assert (Harrss : ∃ arrss', Forall2 (Forall2 dict_reads) (map (λ i, column i bs) (seq 0 (length sch))) arrss' ∧
    ∀ j f arrs, sch !! j = Some f → arrss' !! j = Some arrs →
      column_gives pushdown r (column_metadatas m) (Some ctx) cache ckt All (0 + j) f arrs).
  { destruct (Forall_choice (λ i arrs', ∃ f, sch !! i = Some f ∧
      column_gives pushdown r (column_metadatas m) (Some ctx) cache ckt All i f arrs' ∧
      Forall2 dict_reads (column i bs) arrs') (seq 0 (length sch))) as (arrss' & HF).
    { apply Forall_forall. intros i Hi%elem_of_seq. destruct (Hcols i) as (f & arrs' & Hx); [lia|]. by exists arrs', f. }
    exists arrss'. split.
    - apply Forall2_fmap_l. eapply Forall2_impl; [exact HF|]. by intros i arrs' (f & _ & _ & ?).
    - intros j f arrs Hf Ha. destruct (Forall2_lookup_r _ _ _ _ _ HF Ha) as (i & Hi & f' & Hf' & Hg & _).
      apply lookup_seq in Hi as [-> _]. cbn in *. by assert (f' = f) as -> by congruence. }
  destruct Harrss as (arrss' & HF & Hgives).
  apply (row_group_batches pushdown r (Some ctx) cache ckt sch All dict_reads dict_batch_reads bs m arrss').
  - unfold decode_columns. change ColumnIndexSequence_default with (mkColumnIndex (Z.of_nat 0)).
    rewrite (decode_flat_columns pushdown r (column_metadatas m) (Some ctx) cache ckt All 0 sch arrss'); [done|done| |done].
    apply Forall2_length in HF. by rewrite length_map, length_seq in HF.
  - done.
  - eapply Forall_impl; [exact Hbs|]. by apply valid_length.
  - done.
  - intros b this Hb. rewrite Forall_forall in Hbs. by apply dict_record_batch, Hbs.
Qed.
End Groups.

(** ** The whole file *)

(** Without merging every dictionary is one chunk. *)
Lemma one_chunk_each `{EncoderLibs} string_hash wasm c chunks peers types c2 :
  pool string_hash c → ctx_finish_and_flush wasm c = Ok (chunks, peers, types, c2) →
  len (concat chunks) = len (dictionaries c).
Proof.
  intros Hpool Hf. apply pool_ok in Hpool as [Hok Hres].
  assert (Hm : matched (dictionaries c) (merge_result c)) by (rewrite Hres; by intros i j n _ ?).
  destruct (finish_and_flush_flushed string_hash _ _ _ _ _ _ Hok Hm Hf) as (Hl & _ & _ & Hfl).
  assert (Hone : Forall (λ own, length own = 1%nat) chunks).
  { apply Forall_lookup. intros i own Hi.
    destruct (lookup_lt_is_Some_2 (dictionaries c) i) as [d Hd]; [apply lookup_lt_Some in Hi; lia|].
    destruct (Hfl i d Hd) as (own' & Hown & HF & _). assert (own' = own) as -> by congruence.
    unfold parts in HF. rewrite Hres in HF. by apply Forall2_length in HF. }
  unfold len. rewrite <-Hl. f_equal. clear - Hone.
  induction Hone as [|own chunks Ho _ IH]; [done|]. cbn. by rewrite length_app, Ho, IH.
Qed.

Section Table.
Context {R RT : Type} `{Reader R} `{Flatbuffers} `{!FlatbuffersLaws} `{EncoderLibs} `{DecoderLibs RT}.
Context `{Codecs} `{!CodecsLaws} `{Checksum} `{!ChecksumLaws} `{Sampling} `{!NonEmptyUnits}.
Context (keeps : DataType → Prop) `{!VortexLaws keeps}.
Context (string_hash : string → Z) (coeffs : list (Z * Z)).
Context (max : Z) `{!BoundedUnits max} (Hmax : 0 ≤ max).

#[local] Instance dict_table_encoders : LogicalColEncoder LogicalEncoder SharedDictionaryContext :=
  logical_encoder string_hash.
#[local] Instance dict_table_dictionaries : SharedDictionaryOps SharedDictionaryContext :=
  shared_dictionary_ops string_hash coeffs.

(** The cache is filled from the dictionaries that were stored. *)
Lemma stored_dictionaries_cached pushdown wasm c ck file table :
  pool string_hash c → ctx_is_multi_col_sharing c = false → ctx_compression_type c = Uncompressed →
  Forall (dict_readable keeps wasm ∘ datatype) (dictionaries c) → max < 2 ^ 32 →
  dictionaries_stored wasm c ck file table →
  ∀ (r : R) ctx, ReaderOf R r file → reads_builtin ctx →
    ∃ cache, try_new_read_all pushdown r table ctx = Ok cache ∧ caches cache c.
Proof using All.
  intros Hpool Hshare Hct Hkept Hsmall Hst r ctx Hr Hctx.
  destruct Hst as [chunks peers types rest before after positions Hflush Hfile Hpos].
  destruct (pool_read pushdown keeps wasm max Hsmall string_hash coeffs c c chunks peers types rest ck before after)
    as (positions' & Hpos' & Hread); try done.
  - by rewrite Hshare.
  - eapply Forall_impl; [exact Hkept|]. by intros d (_ & _ & Hd).
  - rewrite (one_chunk_each string_hash _ _ _ _ _ _ Hpool Hflush). by apply (pool_small string_hash).
  - pose proof (eq_trans (eq_sym Hpos) Hpos') as [= <-]. rewrite <-Hfile in Hread. by apply Hread.
Qed.

Lemma dict_batch_fits sch b :
  flat_schema sch → valid_batch sch b → batch_fits (fits:=dict_fits (map data_type sch)) (length sch) b.
Proof using Type.
  intros Hflat Hb. split; [by apply valid_length|]. intros i a Ha. destruct Hb as [rb Hb].
  apply record_batch_ok in Hb as (_ & _ & rows & HF).
  destruct (Forall2_lookup_r _ _ _ _ _ HF Ha) as (f & Hf & Hfit).
  pose proof (Forall_lookup_1 _ _ _ _ Hflat Hf) as Hnn. cbn beta in Hnn.
  destruct (flat_array f a rows Hnn Hfit) as [vals ->]. exists (data_type f), vals.
  by rewrite list_lookup_fmap, Hf.
Qed.

(** C3: a table with dictionaries is read back.  When a writer whose columns use
    dictionaries of the file, global ones, ones of a scope of rows or ones chosen by
    estimated size, writes valid record batches and finishes without compression, then
    the reader opens the file, reads the dictionaries stored behind the row groups, and
    gives back a batch for every batch that was written, in order: the same names,
    nullability, values and nulls, strings as views.  The type of a column may change
    through a dictionary: a timestamp loses its time zone, and a column of nulls only
    becomes one of 32-bit integers. *)
Theorem dict_table_reads_back pushdown seed builtin sch o w batches file counters :
  0 ≤ iounit_size o → iounit_size o + 2 * max < 2 ^ 32 →
  new_writer pushdown seed builtin sch o = Ok w →
  dictionary_column (dictionary_type o) → opt_compression_type o = Uncompressed →
  opt_custom_encunit_len o = ∅ → sch ≠ [] →
  plain_indexes keeps (wasm_context w) →
  Forall (λ f, dict_readable keeps (wasm_context w) (data_type f)) sch →
  Forall (valid_batch sch) batches → write_file w batches = Ok (file, counters) →
  ∃ s1 s,
    sp_write_batches ∅ (opt_row_group_size o) (sp_new w) batches = Ok s1 ∧ sp_finish s1 = Ok s ∧
    (len file - zsum (map group_len (sp_groups s)) < 2 ^ 32 →
     ∀ b : FileReaderV2Builder (R:=R) (RT:=RT),
       ReaderOf R (b_reader b) file → read_ahead b = false → b_selection b = All →
       b_projections b = ProjectAll →
       (b_verify_io_unit_checksum b = true → opt_enable_io_unit_checksum o = true) →
       ∃ reader rbs, open_file pushdown b = Ok reader ∧ read_file pushdown reader = Ok rbs ∧
         Forall2 (dict_batch_reads sch) batches rbs).
Proof using All.
  intros Hs Hfits Hw Hd Hct Hcustom Hne Hindexes Hsch Hvalid Hfile.
  assert (Hflat : flat_schema sch)
    by (eapply Forall_impl; [exact Hsch|]; intros f; apply dict_readable_flat).
  assert (Hallowed : ∀ dt, dict_readable keeps (wasm_context w) dt → is_Some (method_table dt)) by by intros dt [? _].
  destruct (new_dict_table string_hash (dict_readable keeps (wasm_context w)) _ _ _ _ _ _
    Hflat Hsch Hd Hcustom Hw) as (ctx & Hts & Hpool & Hnd & Hshare & Hcct & Hcu & Hrgs & Hnum & Hsmall).
  specialize (Hsmall Hne).
  assert (Htypes : Forall (dict_readable keeps (wasm_context w)) (map data_type sch)) by by apply Forall_map.
  destruct (dict_file_reads string_hash coeffs max Hmax
    (dict_steps string_hash (iounit_size o) (wasm_context w) (opt_compression_type o) Hs
       (dict_readable keeps (wasm_context w)) Hallowed (map data_type sch) Htypes)
    pushdown seed builtin sch o w batches file counters (length sch) (length sch) ctx)
    as (s1 & s & Hs1 & Hsf & [Hset _ Hp Hal] & Hread); [done..| |done|].
  { eapply Forall_impl; [exact Hvalid|]. intros b. by apply dict_batch_fits. }
  exists s1, s. split; [done|]. split; [done|]. intros Hlen b Hr Hahead Hsel Hproj Hck.
  destruct (Hread Hlen b Hahead) as (ms & cx & ckt & table & Hcx & Hckt & Hgroups & Hstored & Hopen);
    [rewrite Hproj; split; [by destruct sch|done]|done|done|].
  apply oc_builtin in Hcx.
  destruct (stored_dictionaries_cached pushdown (wasm_context w) (sp_ctx s) (opt_enable_io_unit_checksum o) file table)
    with (r := b_reader b) (ctx := Some cx) as (cache & Hcache & Hcaches); try done.
  { by apply Hp. }
  { by rewrite Hset. }
  { rewrite Hset. cbn. by rewrite Hcct. }
  { apply Hal. by rewrite Hnd. }
  { lia. }
  destruct (Hopen cache Hcache) as (reader & Hop & Hrf). exists reader. rewrite Hrf. unfold reads_groups.
  rewrite Hsel, select_all, Hproj in *.
  destruct (traverse_groups (λ m, read_row_group pushdown (b_reader b) sch ProjectAll (Some cx) cache ckt (m, All))
    (dict_batch_reads sch) (batch_groups snd (opt_row_group_size o) batches) ms) as (rbs & Hrbs & HF).
  { assert (Hvg : Forall (Forall (valid_batch sch)) (batch_groups snd (opt_row_group_size o) batches))
      by (by apply Forall_concat; rewrite batch_groups_concat).
    clear Hrf Hopen. induction Hgroups as [|bs m groups ms (g & rg & pms & Hg & Hcr & Hpm & Hm & _) _ IH]; [constructor|].
    apply Forall_cons in Hvg as [Hv Hvg]. constructor; [|by apply IH].
    injection Hpm as <-. by eapply (dict_group_reads pushdown keeps (iounit_size o) (wasm_context w)). }
  exists rbs. rewrite batch_groups_concat in HF. by split; [|split].
Qed.
End Table.

(** ** An example *)

Section Examples.
#[local] Existing Instance byte_encoder.
#[local] Existing Instance byte_decoder.
#[local] Existing Instance stored.
#[local] Existing Instance stored_laws.
#[local] Existing Instance no_sampling.
#[local] Existing Instance sum_checksum.
#[local] Existing Instance sum_checksum_laws.
#[local] Existing Instance symbol_flatbuffers.
#[local] Existing Instance symbol_flatbuffers_laws.
#[local] Existing Instance byte_units_bounded.
#[local] Existing Instance byte_units_nonempty.
#[local] Instance scope_encoders : LogicalColEncoder LogicalEncoder SharedDictionaryContext :=
  logical_encoder length_hash.
#[local] Instance scope_dictionaries : SharedDictionaryOps SharedDictionaryContext :=
  shared_dictionary_ops length_hash constant_coeffs.

(** Dictionaries of four rows, in row groups of three. *)
Definition scope_options : FileWriterOptions :=
  mkOptions DEFAULT_IOUNIT_SIZE DEFAULT_ENCODING_UNIT_LEN XxHash false ∅ 3
    CustomEncodingOptions_default (FixedScopeDictionary 4) true Uncompressed.

Definition scope_batches : list Batch :=
  [table_batch [None; None; None] ["a"; "b"; "a"];
   table_batch [Some 6; Some 7] ["d"; "e"]; table_batch [Some 6; None] ["e"; "d"]].

Definition scope_writer : outcome (FileWriter (E:=LogicalEncoder) (Ctx:=SharedDictionaryContext)) :=
  FileWriter_try_new (create_logical_encoder false (λ _, tt : @Rng no_sampling))
    SharedDictionaryContext_new (Ok []) table_schema scope_options.

Definition scope_spec : outcome (Spec LogicalEncoder SharedDictionaryContext) :=
  let! w := scope_writer in
  let! s := sp_write_batches ∅ 3 (sp_new w) scope_batches in sp_finish s.

Lemma scope_file :
  ∃ w file counters, scope_writer = Ok w ∧ write_file w scope_batches = Ok (file, counters).
Proof.
  assert (Hrun : is_ok (let! w := scope_writer in let! w1 := write_batches w scope_batches in
      let! w2 := finish_groups w1 in flushed_positions w2) = true) by by vm_compute.
  destruct scope_writer as [w| |]; [|done..]. cbn [obind] in Hrun. exists w.
  destruct (dict_file_written length_hash constant_coeffs w scope_batches Hrun) as (file & counters & Hf).
  by exists file, counters.
Qed.

(** What follows its row groups: four dictionaries, and the metadata. *)
Lemma scope_file_short w file counters s1 s :
  scope_writer = Ok w → write_file w scope_batches = Ok (file, counters) →
  sp_write_batches ∅ 3 (sp_new w) scope_batches = Ok s1 → sp_finish s1 = Ok s →
  len file - zsum (map group_len (sp_groups s)) < 2 ^ 32.
Proof.
  intros Hw Hf Hs1 Hs.
  assert (Hrun : match (let! w := scope_writer in let! s := scope_spec in
      let! '(chunks, _, _, _) := ctx_finish_and_flush (wasm_context w) (sp_ctx s) in
      Ok (len (dicts_bytes chunks), len (sp_groups s), num_physical_columns (state w),
          len (get_sorted_wasms (wasm_context w)), map_to_list (custom_encunit_len w), row_group_size w))
    with Ok r => Some r | _ => None end = Some (14, 3, 2, 0, [], 3)) by by vm_compute.
  unfold scope_spec in Hrun. rewrite Hw in Hrun. cbn [obind] in Hrun. rewrite Hs1 in Hrun. cbn [obind] in Hrun.
  rewrite Hs in Hrun. cbn [obind] in Hrun.
  destruct (ctx_finish_and_flush _ _) as [[[[chunks peers] dtypes] rest]| |] eqn:Hfl; [|done..].
  cbn [obind] in Hrun. injection Hrun as Hd Hn Hnum Hwasm Hc Hrg.
  apply len_0 in Hwasm. apply map_to_list_empty_iff in Hc.
  rewrite (dict_file_short length_hash constant_coeffs 257 false (λ _, tt : @Rng no_sampling) (Ok []) table_schema
    scope_options w scope_batches file counters s1 s chunks peers dtypes rest); try done.
  - rewrite Hd, Hnum, Hn, Hwasm. done.
  - by rewrite Hrg.
Qed.

Lemma scope_columns_readable w :
  scope_writer = Ok w → plain_indexes byte_kept (wasm_context w) ∧
  Forall (λ f, dict_readable byte_kept (wasm_context w) (data_type f)) table_schema.
Proof.
  intros Hw. assert (Hwc : match scope_writer with
    | Ok w => Some (map (data_type_to_wasm_lib (wasm_context w)) [Int32; Utf8; UInt8; UInt16; UInt32; UInt64],
                    always_set_custom_wasm_for_built_in (wasm_context w))
    | _ => None end = Some ([None; None; None; None; None; None], false)) by done.
  rewrite Hw in Hwc. injection Hwc as Hi Hu H8 H16 H32 H64 Hb. split.
  - intros n. unfold index_type. repeat case_match; (split; [by eexists|by split]).
  - assert (Hr : ∀ dt, is_Some (method_table dt) → stored_type dt = dt → byte_kept dt →
      data_type_to_wasm_lib (wasm_context w) dt = None → dict_readable byte_kept (wasm_context w) dt).
    { intros dt Hm Hst Hk Hl. unfold dict_readable. rewrite Hst. by split_and!. }
    repeat (constructor; [apply Hr; by (eexists || done)|]). constructor.
Qed.

Lemma dict_table_reads_back_witness :
  ∃ w file counters reader rbs,
    scope_writer = Ok w ∧ write_file w scope_batches = Ok (file, counters) ∧
    open_file false (checking_builder file) = Ok reader ∧ read_file false reader = Ok rbs ∧
    Forall2 (dict_batch_reads table_schema) scope_batches rbs.
Proof.
  destruct scope_file as (w & file & counters & Hw & Hf). destruct (scope_columns_readable w Hw) as [Hidx Hcols].
  destruct (dict_table_reads_back (R:=FileHandle) (RT:=unit) byte_kept length_hash constant_coeffs 257
    ltac:(lia) false (λ _, tt : @Rng no_sampling) (Ok []) table_schema scope_options w scope_batches file
    counters) as (s1 & s & Hs1 & Hs & Hread).
  - done.
  - done.
  - exact Hw.
  - done.
  - done.
  - done.
  - done.
  - exact Hidx.
  - exact Hcols.
  - repeat (constructor; [by eexists|]). constructor.
  - exact Hf.
  - destruct (Hread (scope_file_short w file counters s1 s Hw Hf Hs1 Hs)
      (checking_builder file) (file_reader_of file)) as (reader & rbs & Hopen & Hr & HF); [done..|].
    exists w, file, counters, reader, rbs. split_and!; [done|exact Hf|exact Hopen|exact Hr|exact HF].
Defined.

(** *** Dictionaries that columns share

    At the end of the file the writer submits what is buffered, merges the dictionaries
    and encodes.  Row groups that were closed before have chunks of indices into
    dictionaries that merging then puts in another order. *)

Definition sharing_options : FileWriterOptions :=
  mkOptions DEFAULT_IOUNIT_SIZE DEFAULT_ENCODING_UNIT_LEN XxHash false ∅ 3
    CustomEncodingOptions_default GlobalDictionaryMultiColSharing true Uncompressed.

Definition sharing_spec (batches : list Batch) : outcome (Spec LogicalEncoder SharedDictionaryContext) :=
  let! w := FileWriter_try_new (create_logical_encoder false (λ _, tt : @Rng no_sampling))
    SharedDictionaryContext_new (Ok []) [mkField "a" Int32 true] sharing_options in
  let! s := sp_write_batches ∅ 3 (sp_new w) batches in sp_finish s.

Definition int_batch (l : list Z) : Batch := ([int_array (map Some l)], len l).

(** What the indices of a chunk of one unit give from the dictionary they are of, as it
    is in the end. *)
Definition chunk_values (s : Spec LogicalEncoder SharedDictionaryContext) (c : EncodedColumnChunk)
  : outcome (option Array) :=
  match dict_encoding c, encunits c with
  | SharedDictionary id, [u] =>
      let! d := index (dictionaries (sp_ctx s)) id in
      let! idx := byte_decode (bytes u) in
      dict_index_to_data (cached d) idx
  | _, _ => Panic PUnwrap
  end.

(** The row group of 1, 2, 1, followed by one of 2, 1: its indices now stand for 2, 1, 2. *)
Lemma closed_group_reordered :
  (let! s := sharing_spec [int_batch [1; 2; 1]; int_batch [2; 1]] in
   traverse (λ g, traverse (chunk_values s) (g_chunks g)) (sp_groups s))
  = Ok [[Some (int_array (map Some [2; 1; 2]))]; [Some (int_array (map Some [2; 1]))]].
Proof. by vm_compute. Qed.

(** When the last batch fills its row group nothing is buffered, and there is no array
    whose type the submitted dictionary could have. *)
Lemma full_group_panics : sharing_spec [int_batch [1; 2; 1]] = Panic PUnwrap.
Proof. by vm_compute. Qed.
End Examples.
