(* ===== verification/Guest.v ===== *)
(** * The guest of the WASM decoding runtime

    fff-ude/src/ffi.rs and lib.rs: what a WASM decoder binary exports.  The guest has a
    linear memory and a heap of objects; each object occupies a block of the memory.
    The bytes of raw blocks, buffers and messages are in the memory; the Rust objects
    behind a [Box] (an iterator, a decoder) are not spelled out as bytes, since the host
    only passes their addresses around. *)
From S2P Require Import Prelude Buffers.
From stdpp Require Import pretty.
Open Scope Z_scope.

(** ** Computations that keep their state when they fail *)

Definition Run (S A : Type) : Type := S → outcome A * S.

Definition run_ret {S A} (a : A) : Run S A := λ s, (Ok a, s).
Definition lift {S A} (m : outcome A) : Run S A := λ s, (m, s).
Definition run_bind {S A B} (m : Run S A) (k : A → Run S B) : Run S B := λ s,
  match m s with
  | (Ok a, s) => k a s
  | (Err e, s) => (Err e, s)
  | (Panic p, s) => (Panic p, s)
  end.
(** The result of a computation that may end in an error, as a value. *)
Definition run_try {S A} (m : Run S A) : Run S (A + Error) := λ s,
  match m s with
  | (Ok a, s) => (Ok (inl a), s)
  | (Err e, s) => (Ok (inr e), s)
  | (Panic p, s) => (Panic p, s)
  end.
(** [unwrap()] of a result. *)
Definition run_unwrap {S A} (m : Run S A) : Run S A := λ s,
  match m s with
  | (Err _, s) => (Panic PUnwrap, s)
  | r => r
  end.
Definition gets {S A} (f : S → A) : Run S A := λ s, (Ok (f s), s).
Definition modify {S} (f : S → S) : Run S unit := λ s, (Ok tt, f s).

Declare Scope run_scope.
Open Scope run_scope.
Notation "'let*' x ':=' m 'in' k" := (run_bind m (λ x, k))
  (at level 10, x name, m at level 100, k at level 200,
   format "'[v' 'let*'  x  ':='  m  'in' '/' k ']'") : run_scope.
Notation "'let*' ' p ':=' m 'in' k" := (run_bind m (λ p, k))
  (at level 10, p strict pattern, m at level 100, k at level 200,
   format "'[v' 'let*'  ' p  ':='  m  'in' '/' k ']'") : run_scope.

Fixpoint run_each {S A} (f : A → Run S unit) (l : list A) : Run S unit :=
  match l with
  | [] => run_ret tt
  | a :: l => let* _ := f a in run_each f l
  end.

(** ** Linear memory *)

Definition splice (m : list Z) (p : Z) (b : list Z) : list Z :=
  take (Z.to_nat p) m ++ b ++ drop (Z.to_nat p + length b) m.

Definition fits_in (p n : Z) (m : list Z) : bool := (0 <=? p) && (p + n <=? len m).

(** Memory grows so that it reaches [n] bytes; new memory is zero. *)
Definition grow (m : list Z) (n : Z) : list Z := m ++ replicate (Z.to_nat (n - len m)) 0.

(** ** The plug-in and its allocator

    The decoder of the plug-in is user code: [function(input)] gives the buffers of its
    iterator or an error, and a panic of user code is a trap.  [find_block] is
    [std::alloc::alloc]: where a block of a size and an alignment goes, given the sizes
    of the blocks in use.  [dealloc_accepts n m] says whether the allocator takes back a
    block of size [n] with a layout of size [m]; Rust only promises it for [n = m]. *)
Class Plugin := {
  DecoderState : Type;
  export_names : list string;
  general_functions : string → option (list Z → outcome (list (list Z)));
  init_function : option (list Z → list Z → outcome DecoderState);
  decode_function : option (DecoderState → outcome (option (list (list Z))) * DecoderState);
  initial_memory : list Z;
  buffer_align : Z;
  dangling : Z;
  find_block : gmap Z Z → Z → Z → option Z;
  dealloc_accepts : Z → Z → bool;
}.

(** Blocks in use do not overlap, and addresses fit 32 bits. *)
Class PluginLaws (P : Plugin) := {
  find_block_ok : ∀ blocks n align p, 0 < n → find_block blocks n align = Some p →
    0 < p ∧ p + n < 2 ^ 32 ∧
    ∀ q m, blocks !! q = Some m → p + n ≤ q ∨ q + m ≤ p;
  dealloc_accepts_same : ∀ n, dealloc_accepts n n = true;
  dangling_ok : 0 < dangling ≤ len initial_memory;
  initial_memory_fits : len initial_memory < 2 ^ 32;
}.

Section Guest.
Context `{P : Plugin}.

(** ** The heap *)

Inductive Obj :=
  | ORaw (size align : Z)               (* a block of [alloc] *)
  | OBytes (size : Z)                   (* the bytes of an Arrow buffer *)
  | OText (size : Z)                    (* a forgotten boxed slice of bytes *)
  | OBuffer (ptr size : Z)              (* Box<Buffer> *)
  | OIter (bufs : list (list Z))        (* Box<BufferIter>: what it still yields *)
  | ODecoder (d : DecoderState).        (* Box<WasmDecoder> *)

(** [size_of] on wasm32. *)
Definition obj_size (o : Obj) : Z :=
  match o with
  | ORaw n _ | OBytes n | OText n => n
  | OBuffer _ _ => 12
  | OIter _ | ODecoder _ => 8
  end.

Record Guest := mkGuest { mem : list Z; heap : gmap Z Obj }.

Definition blocks (g : Guest) : gmap Z Z := obj_size <$> heap g.

Definition new_guest : Guest := mkGuest initial_memory ∅.

Definition set_obj (p : Z) (o : Obj) : Run Guest unit :=
  modify (λ g, mkGuest (mem g) (<[p := o]> (heap g))).
Definition free_obj (p : Z) : Run Guest unit :=
  modify (λ g, mkGuest (mem g) (delete p (heap g))).

(** An access out of the memory traps. *)
Definition read_mem (p n : Z) : Run Guest (list Z) := λ g,
  (slice (mem g) p (p + n), g).
Definition write_mem (p : Z) (b : list Z) : Run Guest unit := λ g,
  if fits_in p (len b) (mem g) then (Ok tt, mkGuest (splice (mem g) p b) (heap g))
  else (Panic PIndex, g).

(** ** Allocation *)

Definition place (o : Obj) (align : Z) : Run Guest (option Z) := λ g,
  match find_block (blocks g) (obj_size o) align with
  | Some p => (Ok (Some p), mkGuest (grow (mem g) (p + obj_size o)) (<[p := o]> (heap g)))
  | None => (Ok None, g)
  end.

(** [alloc], null when there is no memory. *)
Definition alloc (size align : Z) : Run Guest Z :=
  let* p := place (ORaw size align) align in
  run_ret (default 0 p).

(** [dealloc]: giving back anything but an allocated block with its layout is undefined
    behaviour, here a panic. *)
Definition dealloc (ptr size align : Z) : Run Guest unit :=
  let* o := gets (λ g, heap g !! ptr) in
  match o with
  | Some (ORaw n a) =>
      if dealloc_accepts n size && (align =? a) then free_obj ptr else lift (Panic PAssert)
  | _ => lift (Panic PAssert)
  end.

(** [Box::new]; the program aborts when there is no memory. *)
Definition box_new (o : Obj) (align : Z) : Run Guest Z :=
  let* p := place o align in
  lift (unwrap p).

(** Some bytes on the heap; no bytes need no block. *)
Definition boxed_bytes (o : Z → Obj) (align : Z) (b : list Z) : Run Guest Z :=
  if len b =? 0 then run_ret dangling
  else
    let* p := box_new (o (len b)) align in
    let* _ := write_mem p b in
    run_ret p.

(** ** Errors *)

(** [Display for Error] (fff-core/src/errors.rs); the location of an I/O error is not
    kept by the model. *)
Definition error_to_string (e : Error) : string :=
  match e with
  | General s => "General error: " +:+ s
  | NYI s => "Not yet implemented: " +:+ s
  | EOF s => "End of file: " +:+ s
  | IndexOutOfBound i n => "Index out of bound: " +:+ pretty i +:+ " >= " +:+ pretty n
  | ParseError s => "Parse error: " +:+ s
  | IO s => "IO error: " +:+ s
  | External s => "External error: " +:+ s
  | CastSliceError s => "Cast slice error: " +:+ s
  | ObjectStore s => "Object store error: " +:+ s
  end.

Definition string_bytes (s : string) : list Z :=
  map (λ a, Z.of_N (Ascii.N_of_ascii a)) (list_ascii_of_string s).

(** [out_slice.write(CSlice { ptr, len })] *)
Definition write_cslice (out ptr size : Z) : Run Guest unit :=
  write_mem out (le_bytes 4 ptr ++ le_bytes 4 size).

(** [err.to_string().into_boxed_str()], forgotten, and -1. *)
Definition report_error (e : Error) (out : Z) : Run Guest Z :=
  let msg := string_bytes (error_to_string e) in
  let* p := boxed_bytes OText 1 msg in
  let* _ := write_cslice out p (len msg) in
  run_ret (-1).

(** What the wrappers do with the result of user code. *)
Definition wrap_result {A} (r : outcome A) (out : Z) (k : A → Run Guest Z) : Run Guest Z :=
  match r with
  | Ok a => k a
  | Err e => report_error e out
  | Panic p => lift (Panic p)
  end.

(** ** The wrappers around user functions *)

Definition scalar_wrapper (function : list Z → outcome (list Z)) (ptr size out : Z)
  : Run Guest Z :=
  let* input := read_mem ptr size in
  wrap_result (function input) out (λ data,
    let* p := boxed_bytes OText 1 data in
    let* _ := write_cslice out p (len data) in
    run_ret 0).

(** [data[0]], [data[1]]: both slices are forgotten, with any others. *)
Definition string_wrapper (function : list Z → outcome (list (list Z)))
    (ptr size out0 out1 : Z) : Run Guest Z :=
  let* input := read_mem ptr size in
  wrap_result (function input) out0 (λ data,
    let* d0 := lift (index data 0) in
    let* p0 := boxed_bytes OText 1 d0 in
    let* _ := write_cslice out0 p0 (len d0) in
    let* d1 := lift (index data 1) in
    let* p1 := boxed_bytes OText 1 d1 in
    let* _ := write_cslice out1 p1 (len d1) in
    run_ret 0).

Definition box_iter (bufs : list (list Z)) (out : Z) : Run Guest Z :=
  let* p := box_new (OIter bufs) 4 in
  let* _ := write_cslice out p 8 in
  run_ret 0.

Definition general_wrapper (function : list Z → outcome (list (list Z))) (ptr size out : Z)
  : Run Guest Z :=
  let* input := read_mem ptr size in
  wrap_result (function input) out (λ bufs, box_iter bufs out).

(** The lengths of the slices are [num_slices] words at [lengths]. *)
Fixpoint read_slices (ptr lengths : Z) (n : nat) : Run Guest (list (list Z)) :=
  match n with
  | O => run_ret []
  | S n =>
      let* word := read_mem lengths 4 in
      let* input := read_mem ptr (le_val word) in
      let* inputs := read_slices (ptr + le_val word) (lengths + 4) n in
      run_ret (input :: inputs)
  end.

Definition general_wrapperv2 (function : list (list Z) → outcome (list (list Z)))
    (ptr lengths num_slices out : Z) : Run Guest Z :=
  let* inputs := read_slices ptr lengths (Z.to_nat num_slices) in
  wrap_result (function inputs) out (λ bufs, box_iter bufs out).

(** ** Iterators and buffers *)

(** [iter.next()]: the next buffer of the iterator, in memory of its own. *)
Definition iter_take (iter : Z) : Run Guest (option (Z * Z)) :=
  let* o := gets (λ g, heap g !! iter) in
  match o with
  | Some (OIter []) => run_ret None
  | Some (OIter (b :: bufs)) =>
      let* p := boxed_bytes OBytes buffer_align b in
      let* _ := set_obj iter (OIter bufs) in
      run_ret (Some (p, len b))
  | _ => lift (Panic PUnwrap)
  end.

Definition buffer_iterator_next (iter out out_buffer_box_ptr : Z) : Run Guest unit :=
  let* b := iter_take iter in
  match b with
  | Some (ptr, size) =>
      let* _ := write_cslice out ptr size in
      let* box := box_new (OBuffer ptr size) 4 in
      write_mem out_buffer_box_ptr (le_bytes 4 box)
  | None => write_cslice out 0 0
  end.

Definition buffer_iterator_drop (iter : Z) : Run Guest unit :=
  let* o := gets (λ g, heap g !! iter) in
  match o with
  | Some (OIter _) => free_obj iter
  | _ => lift (Panic PAssert)
  end.

(** Dropping the box drops the buffer, and with it its bytes. *)
Definition buffer_drop (buffer : Z) : Run Guest unit :=
  let* o := gets (λ g, heap g !! buffer) in
  match o with
  | Some (OBuffer ptr size) =>
      let* _ := free_obj buffer in
      if size =? 0 then run_ret tt else free_obj ptr
  | _ => lift (Panic PAssert)
  end.

(** ** Stateful decoders *)

Definition init_wrapper (function : list Z → list Z → outcome DecoderState)
    (input_ptr input_len kwargs_ptr kwargs_len out : Z) : Run Guest Z :=
  let* input := read_mem input_ptr input_len in
  let* kwargs := read_mem kwargs_ptr kwargs_len in
  wrap_result (function input kwargs) out (λ d,
    let* p := box_new (ODecoder d) 4 in
    let* _ := write_cslice out p 8 in
    run_ret 0).

(** [Box::from_raw]: a dangling address is undefined behaviour. *)
Definition decoder_at (decoder : Z) : Run Guest DecoderState :=
  let* o := gets (λ g, heap g !! decoder) in
  match o with
  | Some (ODecoder d) => run_ret d
  | _ => lift (Panic PUnwrap)
  end.

(** [decode_fff] of wasm-libs/adv-ude-fff, for any decoder: the box is dropped at the end
    of the data and on an error. *)
Definition decode_fff (decode : DecoderState → outcome (option (list (list Z))) * DecoderState)
    (input : Z) : Run Guest (option (list (list Z))) :=
  let* d := decoder_at input in
  let '(res, d) := decode d in
  let* _ := set_obj input (ODecoder d) in
  match res with
  | Ok (Some bufs) => run_ret (Some bufs)
  | Ok None => let* _ := free_obj input in run_ret None
  | Err e => let* _ := free_obj input in lift (Err e)
  | Panic p => lift (Panic p)
  end.

(** At the end of the data nothing is written to the out slice. *)
Definition decode_wrapper (function : Z → Run Guest (option (list (list Z)))) (decoder out : Z)
  : Run Guest Z :=
  let* res := run_try (function decoder) in
  match res with
  | inl (Some bufs) => box_iter bufs out
  | inl None => run_ret 1
  | inr e => report_error e out
  end.
End Guest.

(** ** The buffers of an Arrow array *)

(** [NullBuffer]: its buffer, and the bit of it at which the validity starts; that of a
    slice may start anywhere. *)
Record NullBuffer := mkNulls { nb_buffer : list Z; nb_offset : Z }.

Definition from_bit_0 (buf : list Z) : NullBuffer := mkNulls buf 0.

Lemma nb_from_bit_0 (nulls : option (list Z)) : nb_buffer <$> (from_bit_0 <$> nulls) = nulls.
Proof. by destruct nulls. Qed.

Inductive ArrayData :=
  | mkArrayData (nulls : option NullBuffer) (buffers : list (list Z)) (child_data : list ArrayData).

(** The whole buffer of the nulls goes out, wherever they start in it. *)
Fixpoint arraydata_to_buffers (res : list (list Z)) (array_data : ArrayData) : list (list Z) :=
  let '(mkArrayData nulls buffers child_data) := array_data in
  let res := res ++ [default [] (nb_buffer <$> nulls)] in
  let res := res ++ buffers in
  foldl arraydata_to_buffers res child_data.
