(* ===== verification/GuestFacts.v ===== *)
(** * What the guest of the WASM runtime keeps

    The heap of a guest stays a set of disjoint blocks of its memory, every operation
    leaves the objects and the bytes that it does not own alone, and an operation only
    fails when the allocator cannot serve one of its requests. *)
From S2P Require Import Prelude Guest.
Open Scope Z_scope.

(** ** Linear memory *)

Lemma located_splice (m : list Z) p b n :
  0 ≤ p → n = len b → p + n ≤ len m → located (splice m p b) b p n.
Proof.
  intros Hp -> Hm. exists (take (Z.to_nat p) m), (drop (Z.to_nat p + length b) m).
  split; [done|]. split; [|done]. unfold len in *. rewrite length_take. lia.
Qed.

Lemma splice_len (m : list Z) p b : 0 ≤ p → p + len b ≤ len m → len (splice m p b) = len m.
Proof.
  intros Hp Hm. unfold splice, len in *. rewrite !length_app, length_take, length_drop. lia.
Qed.

(** Where a list is located, by lookups. *)
Lemma located_lookup (m b : list Z) p n :
  located m b p n ↔
    0 ≤ p ∧ n = len b ∧ p + n ≤ len m ∧ ∀ i, (i < length b)%nat → m !! (Z.to_nat p + i)%nat = b !! i.
Proof.
  split.
  - intros (pre & s & -> & -> & ->). pose proof (len_nonneg pre). pose proof (len_nonneg s).
    split; [lia|]. split; [done|]. split; [rewrite !len_app; lia|]. intros i Hi.
    unfold len. rewrite Nat2Z.id, lookup_app_r by lia.
    rewrite lookup_app_l by lia. f_equal. lia.
  - intros (Hp & -> & Hm & Hi).
    exists (take (Z.to_nat p) m), (drop (Z.to_nat p + length b) m). unfold len in *.
    split; [|split; [rewrite length_take; lia|done]].
    rewrite <-(take_drop (Z.to_nat p) m) at 1. f_equal.
    rewrite <-(take_drop (length b) (drop (Z.to_nat p) m)), drop_drop. f_equal.
    apply list_eq. intros i. destruct (decide (i < length b)%nat).
    + rewrite lookup_take_lt by lia. rewrite lookup_drop. by apply Hi.
    + rewrite (lookup_ge_None_2 b) by lia. apply lookup_ge_None_2.
      rewrite length_take. lia.
Qed.

Lemma splice_lookup_out (m : list Z) p b j :
  0 ≤ p → p + len b ≤ len m → (j < Z.to_nat p ∨ Z.to_nat p + length b ≤ j)%nat →
  splice m p b !! j = m !! j.
Proof.
  intros Hp Hm Hj. unfold splice, len in *. destruct (decide (j < Z.to_nat p)%nat).
  - rewrite lookup_app_l by (rewrite length_take; lia). by rewrite lookup_take_lt by lia.
  - rewrite lookup_app_r by (rewrite length_take; lia).
    rewrite lookup_app_r by (rewrite length_take; lia). rewrite lookup_drop, length_take.
    f_equal. lia.
Qed.

Lemma located_splice_other (m b c : list Z) p n q :
  located m b p n → 0 ≤ q → q + len c ≤ len m → p + n ≤ q ∨ q + len c ≤ p →
  located (splice m q c) b p n.
Proof.
  intros (Hp & -> & Hm & Hi)%located_lookup Hq Hc Hd. apply located_lookup.
  rewrite splice_len by done. split; [done|]. split; [done|]. split; [done|].
  intros i Hlt. rewrite splice_lookup_out; [by apply Hi|done|done|unfold len in *; lia].
Qed.

Lemma located_join (m b c : list Z) p n k :
  located m b p n → located m c (p + n) k → located m (b ++ c) p (n + k).
Proof.
  intros (Hp & -> & Hm & Hi)%located_lookup (Hq & -> & Hm' & Hj)%located_lookup.
  apply located_lookup. rewrite len_app. split; [done|]. split; [done|]. split; [lia|].
  intros i Hlt. rewrite length_app in Hlt. destruct (decide (i < length b)%nat).
  - rewrite lookup_app_l by lia. by apply Hi.
  - rewrite lookup_app_r by lia. rewrite <-Hj by lia. f_equal. unfold len. lia.
Qed.

Lemma grow_len (m : list Z) n : len (grow m n) = Z.max (len m) n.
Proof. unfold grow. rewrite len_app, len_replicate. pose proof (len_nonneg m). lia. Qed.

Lemma located_grow (m b : list Z) p n k : located m b p n → located (grow m k) b p n.
Proof. apply located_app. Qed.

(** ** Requests to the allocator *)

(** A block of a size and an alignment, or a block given back. *)
Inductive Req := RAlloc (size align : Z) | RFree (ptr : Z).

(** The blocks in use after some requests. *)
Fixpoint allot `{Plugin} (bs : gmap Z Z) (reqs : list Req) : option (gmap Z Z) :=
  match reqs with
  | [] => Some bs
  | RAlloc n align :: reqs =>
      match find_block bs n align with
      | Some p => allot (<[p := n]> bs) reqs
      | None => None
      end
  | RFree p :: reqs => allot (delete p bs) reqs
  end.

Section Facts.
Context `{P : Plugin} `{!PluginLaws P}.

Lemma allot_app bs r1 r2 : allot bs (r1 ++ r2) = allot bs r1 ≫= λ bs, allot bs r2.
Proof.
  revert bs. induction r1 as [|[n a|p] r1 IH]; intros bs; [done| |apply IH]. cbn.
  destruct (find_block bs n a); [apply IH|done].
Qed.

(** ** The invariant and the frame *)

Record guest_ok (g : Guest) : Prop := {
  ok_inside : ∀ p n, blocks g !! p = Some n → 0 < p ∧ 0 < n ∧ p + n ≤ len (mem g);
  ok_disjoint : ∀ p q n m, p ≠ q → blocks g !! p = Some n → blocks g !! q = Some m →
    p + n ≤ q ∨ q + m ≤ p;
  ok_size : dangling ≤ len (mem g) < 2 ^ 32;
}.

(** [framed W D g g']: of the objects of [g], only those in [D] may change, and the bytes
    of those in [W]. *)
Record framed (W D : list Z) (g g' : Guest) : Prop := {
  frame_heap : ∀ p o, p ∉ D → heap g !! p = Some o → heap g' !! p = Some o;
  frame_mem : ∀ p o b, p ∉ W → p ∉ D → heap g !! p = Some o →
    located (mem g) b p (obj_size o) → located (mem g') b p (obj_size o);
  frame_len : len (mem g) ≤ len (mem g');
}.

Lemma framed_refl W D g : framed W D g g.
Proof. split; [by intros|by intros|lia]. Qed.

Lemma framed_trans W D g1 g2 g3 : framed W D g1 g2 → framed W D g2 g3 → framed W D g1 g3.
Proof.
  intros [H1 M1 L1] [H2 M2 L2]. split; [eauto| |lia].
  intros p o b HW HD Ho Hb. eapply M2; eauto.
Qed.

Lemma framed_weaken W D W' D' g g' :
  W ⊆ W' → D ⊆ D' → framed W D g g' → framed W' D' g g'.
Proof. intros HW HD [H M L]. split; [intros; apply H; set_solver| |done].
  intros. eapply M; set_solver.
Qed.

Lemma framed_one q W D g g' : q ∈ W → framed [q] [] g g' → framed W D g g'.
Proof. intros Hq. apply framed_weaken; set_solver. Qed.

Lemma framed_del q W D g g' : q ∈ D → framed [] [q] g g' → framed W D g g'.
Proof. intros Hq. apply framed_weaken; set_solver. Qed.

Lemma framed_none W D g g' : framed [] [] g g' → framed W D g g'.
Proof. apply framed_weaken; set_solver. Qed.

(** ** Triples

    [ends W D m g reqs Q]: run from [g], [m] keeps the invariant and the frame; it ends
    with a result and a state in [Q] when the allocator serves the requests [reqs], and
    traps when it does not. *)
Definition ends {A} (W D : list Z) (m : Run Guest A) (g : Guest) (reqs : list Req)
    (Q : A → Guest → Prop) : Prop :=
  let '(r, g') := m g in
  guest_ok g' ∧ framed W D g g' ∧
  match r with
  | Ok a => allot (blocks g) reqs = Some (blocks g') ∧ Q a g'
  | Err _ => False
  | Panic _ => allot (blocks g) reqs = None
  end.

Lemma ends_ret {A} W D (a : A) g (Q : A → Guest → Prop) :
  guest_ok g → Q a g → ends W D (run_ret a) g [] Q.
Proof.
  intros Hok HQ. unfold ends, run_ret. split; [done|]. split; [apply framed_refl|done].
Qed.

Lemma ends_bind {A B} W D (m : Run Guest A) (k : A → Run Guest B) g r1 r2 Q :
  ends W D m g r1 (λ a g', ends W D (k a) g' r2 Q) → ends W D (run_bind m k) g (r1 ++ r2) Q.
Proof.
  unfold ends, run_bind. destruct (m g) as [[a| |] g1]; intros (Hok & Hf & Hm).
  - destruct Hm as [Ha Hk]. destruct (k a g1) as [r g2]. destruct Hk as (Hok2 & Hf2 & Hr).
    split; [done|]. split; [by eapply framed_trans|]. rewrite allot_app, Ha. exact Hr.
  - done.
  - split; [done|]. split; [done|]. by rewrite allot_app, Hm.
Qed.

(** The first part asks for nothing, or the second. *)
Lemma ends_then {A B} W D (m : Run Guest A) (k : A → Run Guest B) g reqs Q :
  ends W D m g [] (λ a g', ends W D (k a) g' reqs Q) → ends W D (run_bind m k) g reqs Q.
Proof. apply (ends_bind W D m k g []). Qed.

Lemma ends_last {A B} W D (m : Run Guest A) (k : A → Run Guest B) g reqs Q :
  ends W D m g reqs (λ a g', ends W D (k a) g' [] Q) → ends W D (run_bind m k) g reqs Q.
Proof. intros H. rewrite <-(app_nil_r reqs). by apply ends_bind. Qed.

Lemma ends_weaken {A} W D W' D' (m : Run Guest A) g reqs (Q Q' : A → Guest → Prop) :
  W ⊆ W' → D ⊆ D' → (∀ a g', framed W D g g' → Q a g' → Q' a g') →
  ends W D m g reqs Q → ends W' D' m g reqs Q'.
Proof.
  unfold ends. intros HW HD HQ. destruct (m g) as [r g']. intros (Hok & Hf & Hr).
  split; [done|]. split; [by eapply framed_weaken|]. destruct r; [|done..].
  destruct Hr. eauto.
Qed.

(** ** Primitives *)

Lemma blocks_lookup g p n :
  blocks g !! p = Some n ↔ ∃ o, heap g !! p = Some o ∧ obj_size o = n.
Proof. unfold blocks. rewrite lookup_fmap, fmap_Some. naive_solver. Qed.

Lemma blocks_of g p o : heap g !! p = Some o → blocks g !! p = Some (obj_size o).
Proof. intros H. apply blocks_lookup. eauto. Qed.

Lemma heap_inside g p o :
  guest_ok g → heap g !! p = Some o → 0 < p ∧ 0 < obj_size o ∧ p + obj_size o ≤ len (mem g).
Proof. intros Hok Hp. by eapply ok_inside, blocks_of. Qed.

Lemma heap_disjoint g p q o o' :
  guest_ok g → p ≠ q → heap g !! p = Some o → heap g !! q = Some o' →
  p + obj_size o ≤ q ∨ q + obj_size o' ≤ p.
Proof. intros Hok Hne Hp Hq. eapply ok_disjoint; eauto using blocks_of. Qed.

(** A block placed on the heap is new. *)
Lemma place_ends o align g W D :
  guest_ok g → 0 < obj_size o →
  match place o align g with
  | (Ok (Some p), g') =>
      guest_ok g' ∧ framed W D g g' ∧ allot (blocks g) [RAlloc (obj_size o) align] = Some (blocks g') ∧
      heap g !! p = None ∧ heap g' = <[p := o]> (heap g) ∧ mem g' = grow (mem g) (p + obj_size o)
  | (Ok None, g') => g' = g ∧ allot (blocks g) [RAlloc (obj_size o) align] = None
  | _ => False
  end.
Proof.
  intros Hok Hn. unfold place. cbn [allot].
  destruct (find_block (blocks g) (obj_size o) align) as [p|] eqn:Hp; [|done].
  apply find_block_ok in Hp as (Hp0 & Hp32 & Hnew); [|done].
  assert (Hnone : heap g !! p = None).
  { destruct (heap g !! p) as [o'|] eqn:Ho; [|done].
    pose proof (heap_inside _ _ _ Hok Ho). apply blocks_of in Ho. apply Hnew in Ho. lia. }
  assert (Hbl : blocks (mkGuest (grow (mem g) (p + obj_size o)) (<[p:=o]> (heap g)))
                = <[p := obj_size o]> (blocks g)) by (unfold blocks; cbn; by rewrite fmap_insert).
  pose proof (ok_size _ Hok) as Hs. split; [|split; [split; cbn|rewrite Hbl; done]].
  - split; [| |cbn; rewrite grow_len; lia].
    + intros q n. rewrite Hbl. intros [(<- & <-)|(Hne & Hq)]%lookup_insert_Some.
      * cbn. rewrite grow_len. lia.
      * pose proof (ok_inside _ Hok _ _ Hq). cbn. rewrite grow_len. lia.
    + intros q r n m Hqr. rewrite Hbl.
      intros [(<- & <-)|(Hne & Hq)]%lookup_insert_Some [(<- & <-)|(Hne' & Hr)]%lookup_insert_Some;
        [done| | |by eapply ok_disjoint].
      * by apply Hnew.
      * apply Hnew in Hq. lia.
  - intros q o' _ Hq. rewrite lookup_insert_ne; [done|]. naive_solver.
  - intros q o' b _ _ Hq Hb. by apply located_grow.
  - rewrite grow_len. lia.
Qed.

(** Writing inside one block. *)
Lemma write_ends p q o b g W D (Q : unit → Guest → Prop) :
  guest_ok g → heap g !! q = Some o → q ∈ W → q ≤ p → p + len b ≤ q + obj_size o →
  (∀ g', guest_ok g' → framed [q] [] g g' → heap g' = heap g →
     located (mem g') b p (len b) →
     (∀ c r n, located (mem g) c r n → r + n ≤ p ∨ p + len b ≤ r → located (mem g') c r n) →
     Q tt g') →
  ends W D (write_mem p b) g [] Q.
Proof.
  intros Hok Hq HW Hp Hb HQ. pose proof (heap_inside _ _ _ Hok Hq) as Hin.
  assert (Hlen : len (splice (mem g) p b) = len (mem g)) by (apply splice_len; lia).
  unfold ends, write_mem, fits_in.
  rewrite (proj2 (Z.leb_le 0 p)), (proj2 (Z.leb_le _ (len (mem g)))) by lia. cbn [andb].
  set (g' := mkGuest (splice (mem g) p b) (heap g)).
  assert (Hok' : guest_ok g').
  { destruct Hok as [H1 H2 H3]. split; cbn; rewrite ?Hlen; [exact H1|exact H2|exact H3]. }
  assert (Hf : framed [q] [] g g').
  { split; cbn; [done| |lia]. intros r o' c Hr _ Ho Hc. assert (r ≠ q) by set_solver.
    pose proof (heap_disjoint _ _ _ _ _ Hok H Ho Hq). apply located_splice_other; [done|lia..]. }
  split; [exact Hok'|]. split; [by apply (framed_one q)|]. split; [done|].
  apply HQ; [done..| |].
  - apply located_splice; [lia|done|lia].
  - intros c r n Hc Hr. apply located_splice_other; [done|lia..].
Qed.

(** Replacing an object by one of the same size. *)
Lemma set_ends p o o' g W D (Q : unit → Guest → Prop) :
  guest_ok g → heap g !! p = Some o → obj_size o' = obj_size o → p ∈ D →
  (∀ g', guest_ok g' → framed [] [p] g g' → heap g' = <[p := o']> (heap g) →
     mem g' = mem g → Q tt g') →
  ends W D (set_obj p o') g [] Q.
Proof.
  intros Hok Hp Hs HD HQ. unfold ends, set_obj, modify.
  assert (Hbl : blocks (mkGuest (mem g) (<[p:=o']> (heap g))) = blocks g).
  { unfold blocks. cbn. rewrite fmap_insert, Hs. apply insert_id. by apply blocks_of. }
  set (g' := mkGuest (mem g) (<[p:=o']> (heap g))) in *.
  assert (Hok' : guest_ok g').
  { destruct Hok as [H1 H2 H3]. split; rewrite ?Hbl; [exact H1|exact H2|exact H3]. }
  assert (Hf : framed [] [p] g g').
  { split; cbn; [|done|lia]. intros q oq Hq Ho. rewrite lookup_insert_ne; [done|]. set_solver. }
  split; [exact Hok'|]. split; [by apply (framed_del p)|]. cbn [allot]. rewrite Hbl.
  split; [done|]. by apply HQ.
Qed.

(** Freeing an object. *)
Lemma free_frame p g W D :
  guest_ok g → p ∈ D →
  let g' := mkGuest (mem g) (delete p (heap g)) in
  guest_ok g' ∧ framed W D g g' ∧ blocks g' = delete p (blocks g).
Proof.
  intros Hok HD. cbn.
  assert (Hbl : blocks (mkGuest (mem g) (delete p (heap g))) = delete p (blocks g))
    by (unfold blocks; cbn; by rewrite fmap_delete).
  split; [|split; [split; cbn|done]].
  - destruct Hok as [H1 H2 H3]. split; rewrite ?Hbl.
    + intros q n [_ Hq]%lookup_delete_Some. by apply H1.
    + intros q r n m Hne [_ Hq]%lookup_delete_Some [_ Hr]%lookup_delete_Some. by eapply H2.
    + exact H3.
  - intros q oq Hq Ho. rewrite lookup_delete_ne; [done|]. naive_solver.
  - done.
  - lia.
Qed.

(** Reading inside the memory. *)
Lemma read_located g p n b : located (mem g) b p n → read_mem p n g = (Ok b, g).
Proof. intros H%located_slice. unfold read_mem. by rewrite H. Qed.

(** The bytes of a block, and of a part of one. *)
Lemma block_content g p o :
  guest_ok g → heap g !! p = Some o → ∃ b, len b = obj_size o ∧ located (mem g) b p (obj_size o).
Proof.
  intros Hok Ho. pose proof (heap_inside _ _ _ Hok Ho) as Hin.
  exists (take (Z.to_nat (obj_size o)) (drop (Z.to_nat p) (mem g))).
  assert (Hc : len (take (Z.to_nat (obj_size o)) (drop (Z.to_nat p) (mem g))) = obj_size o).
  { unfold len in *. rewrite length_take, length_drop. lia. }
  split; [done|]. apply located_lookup. rewrite Hc. split; [lia|]. split; [done|]. split; [lia|].
  intros i Hlt. unfold len in Hc. rewrite lookup_take_lt by lia. by rewrite lookup_drop.
Qed.

Lemma frame_mem_sub W D g g' p o b q n :
  guest_ok g → framed W D g g' → p ∉ W → p ∉ D → heap g !! p = Some o →
  p ≤ q → q + n ≤ p + obj_size o → located (mem g) b q n → located (mem g') b q n.
Proof.
  intros Hok Hf HW HD Ho Hq Hn (Hq0 & -> & Hm & Hi)%located_lookup.
  pose proof (heap_inside _ _ _ Hok Ho) as Hin. pose proof (len_nonneg b).
  destruct (block_content _ _ _ Hok Ho) as (c & Hc & Hcl).
  pose proof (frame_mem _ _ _ _ Hf _ _ _ HW HD Ho Hcl) as (_ & _ & _ & Hi')%located_lookup.
  apply located_lookup in Hcl as (_ & _ & _ & Hi0).
  apply located_lookup. pose proof (frame_len _ _ _ _ Hf).
  split; [lia|]. split; [done|]. split; [lia|]. intros i Hlt. rewrite <-Hi by done.
  unfold len in *. specialize (Hi' (Z.to_nat (q - p) + i)%nat). specialize (Hi0 (Z.to_nat (q - p) + i)%nat).
  replace (Z.to_nat q + i)%nat with (Z.to_nat p + (Z.to_nat (q - p) + i))%nat by lia.
  rewrite Hi', Hi0; [done|lia..].
Qed.

(** What was written to a block that was new does not count. *)
Lemma framed_changing p W D D' g g1 g2 :
  framed W D g g1 → framed (p :: W) D' g1 g2 → D' ⊆ D →
  p ∈ W ∨ p ∈ D ∨ heap g !! p = None → framed W D g g2.
Proof.
  intros [H1 M1 L1] [H2 M2 L2] HD' Hp. split; [| |lia].
  - intros q o HD Ho. apply H2; [set_solver|by apply H1].
  - intros q o b HW HD Ho Hb. assert (q ≠ p) by naive_solver.
    apply (M2 q o b); [set_solver|set_solver|by apply H1|by eapply M1].
Qed.

Lemma framed_fresh p W D g g1 g2 :
  framed W D g g1 → framed (p :: W) D g1 g2 → heap g !! p = None → framed W D g g2.
Proof. intros. eapply framed_changing; eauto. Qed.

Lemma ends_bind_fresh {A B} W D (m : Run Guest A) (k : A → Run Guest B) g r1 r2 Q :
  ends W D m g r1 (λ a g', ∃ p, heap g !! p = None ∧ ends (p :: W) D (k a) g' r2 Q) →
  ends W D (run_bind m k) g (r1 ++ r2) Q.
Proof.
  unfold ends, run_bind. destruct (m g) as [[a| |] g1]; intros (Hok & Hf & Hm).
  - destruct Hm as (Ha & p & Hp & Hk). destruct (k a g1) as [r g2].
    destruct Hk as (Hok2 & Hf2 & Hr).
    split; [done|]. split; [by eapply framed_fresh|]. rewrite allot_app, Ha. exact Hr.
  - done.
  - split; [done|]. split; [done|]. by rewrite allot_app, Hm.
Qed.

Lemma box_ends o n align g W D (Q : Z → Guest → Prop) :
  guest_ok g → obj_size o = n → 0 < n →
  (∀ p g', guest_ok g' → framed [] [] g g' → heap g !! p = None →
     heap g' = <[p := o]> (heap g) → Q p g') →
  ends W D (box_new o align) g [RAlloc n align] Q.
Proof.
  intros Hok <- Hn HQ. pose proof (place_ends o align g [] [] Hok Hn) as H.
  unfold ends, box_new, run_bind. destruct (place o align g) as [[[p|]| |] g']; try done.
  - destruct H as (Hok' & Hf & Ha & Hp & Hh & Hm). unfold lift, unwrap.
    split; [done|]. split; [by apply framed_none|]. split; [exact Ha|]. by apply HQ.
  - destruct H as [-> Ha]. split; [done|]. split; [apply framed_refl|exact Ha].
Qed.

(** ** Bytes on the heap *)

(** [b] is at [p], in a block of its own unless it is empty. *)
Definition held (o : Z → Obj) (g : Guest) (b : list Z) (p : Z) : Prop :=
  located (mem g) b p (len b) ∧ 0 < p ∧ (b ≠ [] → heap g !! p = Some (o (len b))).

Definition byte_reqs (align : Z) (b : list Z) : list Req :=
  if len b =? 0 then [] else [RAlloc (len b) align].

Lemma held_framed o W D g g' b p :
  (∀ n, obj_size (o n) = n) → framed W D g g' → (b ≠ [] → (p ∉ W) ∧ (p ∉ D)) →
  held o g b p → held o g' b p.
Proof.
  intros Ho [Hh Hm Hl] Hp (Hb & H0 & Hin). destruct (decide (b = [])) as [->|Hne].
  - split; [|done]. apply located_lookup in Hb as (? & ? & ? & ?).
    apply located_lookup. rewrite (len_nil (A:=Z)) in *. split; [lia|]. split; [done|].
    split; [lia|]. simpl. lia.
  - specialize (Hp Hne) as [HW HD]. specialize (Hin Hne).
    split; [|split; [done|intros _; by apply Hh]].
    rewrite <-(Ho (len b)) in Hb |- * at 1. by apply Hm.
Qed.

Lemma dangling_held o g : guest_ok g → held o g [] dangling.
Proof.
  intros [_ _ Hs]. pose proof dangling_ok. split; [|split; [lia|done]].
  apply located_lookup. rewrite (len_nil (A:=Z)). split; [lia|]. split; [done|].
  split; [lia|]. simpl. lia.
Qed.

Lemma boxed_bytes_ends o align b g W D (Q : Z → Guest → Prop) :
  guest_ok g → (∀ n, obj_size (o n) = n) →
  (∀ p g', guest_ok g' → framed W D g g' → held o g' b p → (b ≠ [] → heap g !! p = None) →
     heap g' = (if (len b =? 0) then heap g else (<[p := o (len b)]> (heap g))) → Q p g') →
  ends W D (boxed_bytes o align b) g (byte_reqs align b) Q.
Proof.
  intros Hok Ho HQ. unfold boxed_bytes, byte_reqs. destruct (Z.eqb_spec (len b) 0) as [H0|H0].
  - apply len_0 in H0 as ->. apply ends_ret; [done|].
    apply HQ; [done|apply framed_refl|by apply dangling_held|done|done].
  - pose proof (len_nonneg b).
    replace [RAlloc (len b) align] with ([RAlloc (len b) align] ++ @nil Req) by done.
    apply ends_bind_fresh. apply box_ends; [done|by rewrite Ho|lia|]. intros p g1 Hok1 Hf1 Hp Hh1.
    exists p. split; [done|]. apply ends_then.
    assert (Hp1 : heap g1 !! p = Some (o (len b))) by (rewrite Hh1; apply lookup_insert_eq).
    eapply write_ends; [done|exact Hp1|left|lia|rewrite Ho; lia|].
    intros g2 Hok2 Hf2 Hh2 Hb _. apply ends_ret; [done|].
    assert (Hp2 : heap g2 !! p = Some (o (len b))) by by rewrite Hh2.
    pose proof (heap_inside _ _ _ Hok2 Hp2) as (Hp0 & _).
    apply HQ; [done| | |done|by rewrite Hh2, Hh1].
    { eapply framed_fresh; [by apply framed_none|apply (framed_one p); [left|done]|done]. }
    by repeat split.
Qed.

(** ** The functions of ffi.rs *)

(** The block that the host gave for results. *)
Definition out_block (g : Guest) (out : Z) : Prop :=
  ∃ n, heap g !! out = Some (ORaw n 4) ∧ 12 ≤ n.

Lemma out_block_framed W D g g' out :
  framed W D g g' → out ∉ D → out_block g out → out_block g' out.
Proof. intros Hf HD (n & Hn & ?). exists n. split; [by eapply frame_heap|done]. Qed.

Lemma cslice_ends out ptr size g W D (Q : unit → Guest → Prop) :
  guest_ok g → out_block g out → out ∈ W →
  (∀ g', guest_ok g' → framed [out] [] g g' → heap g' = heap g →
     located (mem g') (le_bytes 4 ptr ++ le_bytes 4 size) out 8 → Q tt g') →
  ends W D (write_cslice out ptr size) g [] Q.
Proof.
  intros Hok (n & Hn & H12) HW HQ. unfold write_cslice.
  eapply write_ends; [done|exact Hn|done|lia| |].
  - rewrite len_app, !le_bytes_len. cbn. lia.
  - intros g' Hok' Hf Hh Hl _. apply HQ; [done..|].
    rewrite len_app, !le_bytes_len in Hl. exact Hl.
Qed.

(** The block for results is neither freed nor handed out by an allocation. *)
Lemma out_block_apart o g g1 W D out b p :
  out_block g out → out ∉ D → framed W D g g1 → (b ≠ [] → heap g !! p = None) →
  held o g1 b p → (∀ n, obj_size (o n) = n) → ∀ g2, framed [out] [] g1 g2 → held o g2 b p.
Proof.
  intros (n & Hn & _) HD Hf Hp Hheld Ho g2 Hf2. eapply held_framed; [done|exact Hf2| |done].
  intros Hne. specialize (Hp Hne). split; [|set_solver].
  intros ->%list_elem_of_singleton. congruence.
Qed.

(** The iterator of the plug-in is boxed, its address is written to the out slice. *)
Lemma box_iter_ends bufs out g W D (Q : Z → Guest → Prop) :
  guest_ok g → out_block g out → out ∈ W → out ∉ D →
  (∀ p g', guest_ok g' → framed W D g g' → heap g !! p = None →
     heap g' = <[p := OIter bufs]> (heap g) →
     located (mem g') (le_bytes 4 p ++ le_bytes 4 8) out 8 → Q 0 g') →
  ends W D (box_iter bufs out) g [RAlloc 8 4] Q.
Proof.
  intros Hok Hout HW HD HQ. unfold box_iter.
  apply ends_last.
  apply box_ends; [done|done|lia|]. intros p g1 Hok1 Hf1 Hp Hh1.
  apply ends_then.
  apply cslice_ends; [done|eapply out_block_framed; [exact Hf1|set_solver|done]|done|].
  intros g2 Hok2 Hf2 Hh2 Hl. apply ends_ret; [done|].
  apply (HQ p); [done| |done|by rewrite Hh2|done].
  eapply framed_trans; [by apply framed_none|by apply (framed_one out)].
Qed.

(** An error is reported with its message. *)
Lemma report_ends e out g W D (Q : Z → Guest → Prop) :
  let msg := string_bytes (error_to_string e) in
  guest_ok g → out_block g out → out ∈ W → out ∉ D →
  (∀ p g', guest_ok g' → framed W D g g' → held OText g' msg p →
     located (mem g') (le_bytes 4 p ++ le_bytes 4 (len msg)) out 8 → Q (-1) g') →
  ends W D (report_error e out) g (byte_reqs 1 msg) Q.
Proof.
  intros msg Hok Hout HW HD HQ. unfold report_error. fold msg.
  apply ends_last.
  apply boxed_bytes_ends; [done|done|]. intros p g1 Hok1 Hf1 Hheld Hnew Hh1.
  apply ends_then.
  apply cslice_ends; [done|by eapply out_block_framed|done|].
  intros g2 Hok2 Hf2 Hh2 Hl. apply ends_ret; [done|].
  apply (HQ p); [done| |by eapply (out_block_apart OText g g1)|done].
  eapply framed_trans; [done|by apply (framed_one out)].
Qed.

(** [general_wrapper] on an input that user code decodes. *)
Lemma general_ends f input ptr out bufs g W D (Q : Z → Guest → Prop) :
  guest_ok g → out_block g out → out ∈ W → out ∉ D →
  located (mem g) input ptr (len input) → f input = Ok bufs →
  (∀ p g', guest_ok g' → framed W D g g' → heap g !! p = None →
     heap g' = <[p := OIter bufs]> (heap g) →
     located (mem g') (le_bytes 4 p ++ le_bytes 4 8) out 8 → Q 0 g') →
  ends W D (general_wrapper f ptr (len input) out) g [RAlloc 8 4] Q.
Proof.
  intros Hok Hout HW HD Hin Hf HQ. unfold general_wrapper.
  apply ends_then.
  unfold ends at 1. rewrite (read_located _ _ _ _ Hin).
  split; [done|]. split; [apply framed_refl|]. split; [done|].
  rewrite Hf. by apply box_iter_ends.
Qed.

(** ... and on one that it refuses. *)
Lemma general_fails f input ptr out e g W D (Q : Z → Guest → Prop) :
  let msg := string_bytes (error_to_string e) in
  guest_ok g → out_block g out → out ∈ W → out ∉ D →
  located (mem g) input ptr (len input) → f input = Err e →
  (∀ p g', guest_ok g' → framed W D g g' → held OText g' msg p →
     located (mem g') (le_bytes 4 p ++ le_bytes 4 (len msg)) out 8 → Q (-1) g') →
  ends W D (general_wrapper f ptr (len input) out) g (byte_reqs 1 msg) Q.
Proof.
  intros msg Hok Hout HW HD Hin Hf HQ. unfold general_wrapper.
  apply ends_then.
  unfold ends at 1. rewrite (read_located _ _ _ _ Hin).
  split; [done|]. split; [apply framed_refl|]. split; [done|].
  rewrite Hf. by apply report_ends.
Qed.

(** What an iterator asks of the allocator for one buffer. *)
Definition buffer_reqs (b : list Z) : list Req := byte_reqs buffer_align b ++ [RAlloc 12 4].

(** The heap after an iterator handed out [b] at [p], boxed at [box]. *)
Definition handed (h : gmap Z Obj) (iter p box : Z) (b : list Z) (bufs : list (list Z))
  : gmap Z Obj :=
  <[box := OBuffer p (len b)]> (<[iter := OIter bufs]>
    (if (len b =? 0) then h else (<[p := OBytes (len b)]> h))).

Lemma next_ends iter out b bufs g W D (Q : unit → Guest → Prop) :
  guest_ok g → out_block g out → out ∈ W → out ∉ D → iter ∈ D →
  heap g !! iter = Some (OIter (b :: bufs)) →
  (∀ p box g', guest_ok g' → framed W D g g' → held OBytes g' b p →
     (b ≠ [] → heap g !! p = None) → heap g !! box = None → (b ≠ [] → box ≠ p) →
     heap g' = handed (heap g) iter p box b bufs →
     located (mem g') ((le_bytes 4 p ++ le_bytes 4 (len b)) ++ le_bytes 4 box) out 12 → Q tt g') →
  ends W D (buffer_iterator_next iter out (out + 8)) g (buffer_reqs b) Q.
Proof.
  intros Hok Hout HW HD Hiter Hi HQ. unfold buffer_iterator_next, buffer_reqs.
  apply ends_bind. unfold iter_take. apply ends_then.
  unfold ends at 1, gets. split; [done|]. split; [apply framed_refl|]. split; [done|].
  rewrite Hi. apply ends_last.
  apply boxed_bytes_ends; [done|done|]. intros p g1 Hok1 Hf1 Hheld1 Hnew Hh1.
  assert (Hi1 : heap g1 !! iter = Some (OIter (b :: bufs))).
  { rewrite Hh1. destruct (Z.eqb_spec (len b) 0) as [|Hb]; [done|].
    rewrite lookup_insert_ne; [done|]. intros ->. rewrite Hnew in Hi; [done|].
    intros ->. by rewrite (len_nil (A:=Z)) in Hb. }
  apply ends_then.
  eapply set_ends; [done|exact Hi1|done|done|]. intros g2 Hok2 Hf2 Hh2 Hm2. apply ends_ret; [done|].
  assert (Hheld2 : held OBytes g2 b p).
  { eapply held_framed; [done|exact Hf2| |done]. intros Hne. split; [set_solver|].
    intros ->%list_elem_of_singleton. rewrite Hnew in Hi by done. done. }
  assert (Hf02 : framed W D g g2) by (eapply framed_trans; [done|by apply (framed_del iter)]).
  apply ends_then.
  apply cslice_ends; [done|by eapply out_block_framed|done|].
  intros g3 Hok3 Hf3 Hh3 Hl3.
  assert (Hheld3 : held OBytes g3 b p) by (eapply (out_block_apart OBytes g g2); eauto).
  assert (Hf03 : framed W D g g3) by (eapply framed_trans; [done|by apply (framed_one out)]).
  apply ends_last.
  apply box_ends; [done|done|lia|]. intros box g4 Hok4 Hf4 Hbox Hh4.
  assert (Hf04 : framed W D g g4) by (eapply framed_trans; [done|by apply framed_none]).
  destruct (out_block_framed _ _ _ _ _ Hf04 HD Hout) as (n & Hn & H12).
  assert (Hheld4 : held OBytes g4 b p) by (eapply held_framed; [done|exact Hf4|set_solver|done]).
  assert (Hn3 : heap g3 !! out = Some (ORaw n 4)).
  { rewrite Hh4, lookup_insert_ne in Hn; [done|]. intros ->.
    destruct Hout as (m & Hm & _). apply Hf03 in Hm; [|done]. congruence. }
  assert (Hl4 : located (mem g4) (le_bytes 4 p ++ le_bytes 4 (len b)) out 8).
  { assert (out ∉ []) by by apply not_elem_of_nil.
    eapply (frame_mem_sub [] [] g3 g4 out); [done|done|done|done|exact Hn3|lia|cbn; lia|done]. }
  eapply write_ends; [done|exact Hn|done|lia| |].
  { rewrite le_bytes_len. cbn. lia. }
  intros g5 Hok5 Hf5 Hh5 Hl5 Hother.
  assert (Hnone : heap g !! box = None ∧ (b ≠ [] → box ≠ p)).
  { rewrite Hh3, Hh2, Hh1 in Hbox. apply lookup_insert_None in Hbox as [Hbox _].
    destruct (Z.eqb_spec (len b) 0) as [Hb|Hb].
    - apply len_0 in Hb. done.
    - apply lookup_insert_None in Hbox as [Hbox Hne]. done. }
  destruct Hnone. apply (HQ p box); [done| | |done..| |].
  - eapply framed_trans; [done|by apply (framed_one out)].
  - by eapply (out_block_apart OBytes g g4).
  - by rewrite Hh5, Hh4, Hh3, Hh2, Hh1.
  - change 12 with (8 + 4). apply located_join; [|by rewrite le_bytes_len in Hl5].
    apply Hother; [done|lia].
Qed.

(** At the end a null slice is written. *)
Lemma next_end_ends iter out box g W D (Q : unit → Guest → Prop) :
  guest_ok g → out_block g out → out ∈ W → heap g !! iter = Some (OIter []) →
  (∀ g', guest_ok g' → framed [out] [] g g' → heap g' = heap g →
     located (mem g') (le_bytes 4 0 ++ le_bytes 4 0) out 8 → Q tt g') →
  ends W D (buffer_iterator_next iter out box) g [] Q.
Proof.
  intros Hok Hout HW Hi HQ. unfold buffer_iterator_next, iter_take. apply ends_then.
  apply ends_then. unfold ends at 1, gets. split; [done|]. split; [apply framed_refl|].
  split; [done|]. rewrite Hi. apply ends_ret; [done|]. by apply cslice_ends.
Qed.

(** ** Giving memory back *)

Lemma free_ends p g W D (Q : unit → Guest → Prop) :
  guest_ok g → p ∈ D →
  (∀ g', guest_ok g' → framed [] [p] g g' → heap g' = delete p (heap g) → Q tt g') →
  ends W D (free_obj p) g [RFree p] Q.
Proof.
  intros Hok HD HQ. unfold ends, free_obj, modify.
  destruct (free_frame p g [] [p] Hok) as (Hok' & Hf & Hbl); [left|].
  split; [done|]. split; [by apply (framed_del p)|]. cbn [allot]. rewrite Hbl.
  split; [done|]. by apply HQ.
Qed.

Lemma dealloc_ends p n m align g W D (Q : unit → Guest → Prop) :
  guest_ok g → p ∈ D → heap g !! p = Some (ORaw n align) → dealloc_accepts n m = true →
  (∀ g', guest_ok g' → framed [] [p] g g' → heap g' = delete p (heap g) → Q tt g') →
  ends W D (dealloc p m align) g [RFree p] Q.
Proof.
  intros Hok HD Hp Hacc HQ. unfold dealloc. apply ends_then.
  unfold ends at 1, gets. split; [done|]. split; [apply framed_refl|]. split; [done|].
  rewrite Hp, Hacc, Z.eqb_refl. cbn [andb]. by apply free_ends.
Qed.

Lemma iterator_drop_ends iter bufs g W D (Q : unit → Guest → Prop) :
  guest_ok g → iter ∈ D → heap g !! iter = Some (OIter bufs) →
  (∀ g', guest_ok g' → framed [] [iter] g g' → heap g' = delete iter (heap g) → Q tt g') →
  ends W D (buffer_iterator_drop iter) g [RFree iter] Q.
Proof.
  intros Hok HD Hp HQ. unfold buffer_iterator_drop. apply ends_then.
  unfold ends at 1, gets. split; [done|]. split; [apply framed_refl|]. split; [done|].
  rewrite Hp. by apply free_ends.
Qed.

(** Dropping a buffer gives back its box and its bytes. *)
Definition buffer_addrs (box p size : Z) : list Z := if size =? 0 then [box] else [box; p].

Lemma buffer_drop_ends box p size g W D (Q : unit → Guest → Prop) :
  guest_ok g → buffer_addrs box p size ⊆ D → heap g !! box = Some (OBuffer p size) →
  (∀ g', guest_ok g' → framed [] (buffer_addrs box p size) g g' → Q tt g') →
  ends W D (buffer_drop box) g (map RFree (buffer_addrs box p size)) Q.
Proof.
  intros Hok HD Hp HQ. unfold buffer_drop. apply ends_then.
  unfold ends at 1, gets. split; [done|]. split; [apply framed_refl|]. split; [done|].
  rewrite Hp. unfold buffer_addrs in *. destruct (size =? 0); cbn [map].
  - apply ends_last, free_ends; [done|set_solver|]. intros g1 Hok1 Hf1 _.
    apply ends_ret; [done|]. by apply HQ.
  - change [RFree box; RFree p] with ([RFree box] ++ [RFree p]). apply ends_bind.
    apply free_ends; [done|set_solver|]. intros g1 Hok1 Hf1 _.
    apply free_ends; [done|set_solver|]. intros g2 Hok2 Hf2 _. apply HQ; [done|].
    eapply framed_trans; (eapply framed_weaken; [| |done]); set_solver.
Qed.
End Facts.

(** ** Stateful decoders *)

Section Stateful.
Context `{P : Plugin}.

(** The box of a decoder, while there is data and after it. *)
Lemma decode_fff_eq decode input (g : Guest) d :
  heap g !! input = Some (ODecoder d) →
  decode_fff decode input g =
  (let kept d := mkGuest (mem g) (<[input := ODecoder d]> (heap g)) in
   let dropped := mkGuest (mem g) (delete input (heap g)) in
   match decode d with
   | (Ok (Some bufs), d) => (Ok (Some bufs), kept d)
   | (Ok None, _) => (Ok None, dropped)
   | (Err e, _) => (Err e, dropped)
   | (Panic p, d) => (Panic p, kept d)
   end).
Proof.
  intros Hd. unfold decode_fff, decoder_at, run_bind, gets, run_ret, lift. rewrite Hd. cbn iota beta.
  destruct (decode d) as [[[bufs|]|err|pk] d']; cbn; unfold free_obj, modify; cbn;
    by rewrite ?delete_insert_eq.
Qed.

Lemma decode_fff_dangling decode input (g : Guest) :
  heap g !! input = None → decode_fff decode input g = (Panic PUnwrap, g).
Proof. intros Hd. unfold decode_fff, decoder_at, run_bind, gets, lift. by rewrite Hd. Qed.
End Stateful.
