(* ===== verification/Wasm.v ===== *)
(** * The host of the WASM decoding runtime

    fff-ude-wasm/src/lib.rs, ram_file.rs and wasm_buffer.rs: a [Runtime] keeps a pool of
    instances of one WASM binary, an [Instance] keeps one block of guest memory for the
    inputs and results of calls, and a [BufferIter] or a [WasmBuffer] keeps its instance
    alive.  An [Arc<Mutex<Instance>>] is a number that stands for the shared instance,
    with the number of its owners.  A [WasmBuffer] keeps a host pointer; where the engine
    puts the memory of an instance, and whether it moves a memory that grows, is a
    parameter. *)
From Stdlib Require Import Ascii.
From S2P Require Import Prelude Buffers Guest.
Open Scope Z_scope.

Definition INPUT_ALIGNMENT : Z := 4.

(** ** RamFile *)

Record RamFile := mkRamFile { rf_data : list Z; rf_size_limit : Z }.

Definition RamFile_with_size_limit (size_limit : Z) : RamFile := mkRamFile [] size_limit.

Definition RamFile_take (f : RamFile) : list Z * RamFile :=
  (rf_data f, mkRamFile [] (rf_size_limit f)).

(** All the buffers are written or none. *)
Definition write_vectored (f : RamFile) (bufs : list (list Z)) : outcome (Z * RamFile) :=
  let written := zsum (map len bufs) in
  let! n := uadd 64 (len (rf_data f)) written in
  if rf_size_limit f <? n then Err (External "overflow")
  else Ok (written, mkRamFile (rf_data f ++ concat bufs) (rf_size_limit f)).

(** ** ABI version *)

Fixpoint strip_prefix (prefix s : list Ascii.ascii) : option (list Ascii.ascii) :=
  match prefix, s with
  | [], s => Some s
  | a :: prefix, b :: s => if decide (a = b) then strip_prefix prefix s else None
  | _ :: _, [] => None
  end.

Fixpoint split_once (c : Ascii.ascii) (s : list Ascii.ascii)
  : option (list Ascii.ascii * list Ascii.ascii) :=
  match s with
  | [] => None
  | a :: s =>
      if decide (a = c) then Some ([], s)
      else match split_once c s with Some (l, r) => Some (a :: l, r) | None => None end
  end.

Definition digit (a : Ascii.ascii) : option Z :=
  let n := Z.of_N (Ascii.N_of_ascii a) in
  if (48 <=? n) && (n <=? 57) then Some (n - 48) else None.

(** [parse::<u8>()]: digits after an optional plus sign, at most 255. *)
Definition parse_u8 (s : list Ascii.ascii) : outcome Z :=
  let digits := match s with
                | a :: (_ :: _) as rest => if decide (a = "+"%char) then tail s else s
                | _ => s
                end in
  match digits with
  | [] => Err (ParseError "cannot parse integer from empty string")
  | _ =>
      fold_m (λ n a,
          let! d := ok_or (digit a) (ParseError "invalid digit found in string") in
          if 255 <? n * 10 + d then Err (ParseError "number too large to fit in target type")
          else Ok (n * 10 + d)) 0 digits
  end.

Definition check_abi_version (exports : list string) : outcome (Z * Z) :=
  let! version :=
    ok_or (head (omap (λ e, strip_prefix (list_ascii_of_string "FFFUDE_VERSION_")
                              (list_ascii_of_string e)) exports))
      (General "version not found") in
  let! '(major, minor) := ok_or (split_once "_"%char version) (General "invalid version") in
  let! major := parse_u8 major in
  let! minor := parse_u8 minor in
  if major <=? 3 then Ok (major, minor) else Err (General "unsupported abi version").

(** [memory_base id n]: the host address of the memory of instance [id] while it is [n]
    bytes long.  wasmtime may move a memory that grows. *)
Class Engine := { memory_base : Z → Z → Z }.

Section Wasm.
Context `{P : Plugin} `{En : Engine}.

(** ** Instance *)

Record Instance := mkInstance {
  guest : Guest;
  cached_alloc_ptr : option Z;
  cached_alloc_len : option Z;
  stdout : RamFile;
  stderr : RamFile;
}.

Definition set_guest (g : Guest) (i : Instance) : Instance :=
  mkInstance g (cached_alloc_ptr i) (cached_alloc_len i) (stdout i) (stderr i).
Definition set_cached_ptr (p : Z) : Run Instance unit :=
  modify (λ i, mkInstance (guest i) (Some p) (cached_alloc_len i) (stdout i) (stderr i)).
Definition set_cached_len (n : Z) : Run Instance unit :=
  modify (λ i, mkInstance (guest i) (cached_alloc_ptr i) (Some n) (stdout i) (stderr i)).

(** A call into the guest; a trap is an error of the host. *)
Definition call_guest {A} (m : Run Guest A) : Run Instance A := λ i,
  let '(r, g) := m (guest i) in
  (match r with Panic _ => Err (External "wasm trap") | _ => r end, set_guest g i).

(** The exports that [Instance::new] asks for; [get_typed_func] finds a function of the
    type of a decoder under a name that ends in ffi. *)
Definition required_exports : list string :=
  ["alloc"; "dealloc"; "buffer_iterator_next"; "buffer_iterator_drop"; "buffer_drop"; "memory"].

Definition ends_with (suffix s : string) : bool :=
  bool_decide (is_Some (strip_prefix (reverse (list_ascii_of_string suffix))
                          (reverse (list_ascii_of_string s)))).

Definition instance_function (name : string) : option (Z → Z → Z → Run Guest Z) :=
  if bool_decide (name ∈ export_names) && ends_with "ffi" name
  then general_wrapper <$> general_functions name else None.

Definition Instance_new (file_size_limit : option Z) : outcome Instance :=
  let limit := default 1024 file_size_limit in
  if forallb (λ e, bool_decide (e ∈ export_names)) required_exports
  then Ok (mkInstance new_guest None None (RamFile_with_size_limit limit)
             (RamFile_with_size_limit limit))
  else Err (General "failed to find function export").

(** The output of the guest goes into the error. *)
Definition append_stdio {A} (m : Run Instance A) : Run Instance A := λ i,
  match m i with
  | (Err e, i) =>
      let '(out, f) := RamFile_take (stdout i) in
      let '(err, f') := RamFile_take (stderr i) in
      (Err (General ("--- stdout " +:+ string_of_bytes out +:+ " --- stderr "
                     +:+ string_of_bytes err +:+ " " +:+ error_to_string e)),
       mkInstance (guest i) (cached_alloc_ptr i) (cached_alloc_len i) f f')
  | r => r
  end.

(** [self.memory.data(..)[ptr..ptr + 4]] panics out of range. *)
Definition read_u32 (ptr : Z) : Run Instance Z :=
  let* stop := lift (uadd 32 ptr 4) in
  let* data := gets (λ i, mem (guest i)) in
  let* b := lift (slice data ptr stop) in
  run_ret (le_val b).

(** [data(..).get(ptr..ptr + len).context(..)?] *)
Definition get_output (ptr size : Z) : Run Instance (list Z) :=
  let* stop := lift (uadd 32 ptr size) in
  let* data := gets (λ i, mem (guest i)) in
  match slice data ptr stop with
  | Ok b => run_ret b
  | _ => lift (Err (General "output slice out of bounds"))
  end.

(** [self.memory.write(..)?] *)
Definition memory_write (ptr : Z) (b : list Z) : Run Instance unit := λ i,
  match write_mem ptr b (guest i) with
  | (Ok _, g) => (Ok tt, set_guest g i)
  | (_, g) => (Err (External "out of bounds memory access"), set_guest g i)
  end.

(** The block of the instance, at least [size] bytes long.  A block that is too short is
    replaced, and [cached_alloc_len] stays as it was. *)
Definition reserve (size : Z) : Run Instance Z :=
  let* cached := gets cached_alloc_len in
  let* alloc_len :=
    match cached with
    | Some cached_len =>
        if cached_len <? size then
          let* old := gets cached_alloc_ptr in
          let* old := lift (unwrap old) in
          let* _ := call_guest (dealloc old cached_len INPUT_ALIGNMENT) in
          let* ptr := call_guest (alloc size INPUT_ALIGNMENT) in
          let* _ := set_cached_ptr ptr in
          run_ret size
        else run_ret cached_len
    | None => let* _ := set_cached_len size in run_ret size
    end in
  let* cached := gets cached_alloc_ptr in
  let* alloc_ptr :=
    match cached with
    | Some ptr => run_ret ptr
    | None =>
        let* ptr := call_guest (alloc alloc_len INPUT_ALIGNMENT) in
        let* _ := set_cached_ptr ptr in
        run_ret ptr
    end in
  if alloc_ptr =? 0 then lift (Err (General "failed to allocate for input"))
  else run_ret alloc_ptr.

(** [u32::try_from(n).context("input too large")?] *)
Definition input_len (n : Z) : Run Instance Z :=
  if n <? 2 ^ 32 then run_ret n else lift (Err (General "input too large")).

(** The out struct after a call: an address and a length that lie in the memory. *)
Definition read_out (alloc_ptr : Z) : Run Instance (Z * Z * list Z) :=
  let* out_ptr := read_u32 alloc_ptr in
  let* second := lift (uadd 32 alloc_ptr 4) in
  let* out_len := read_u32 second in
  let* b := get_output out_ptr out_len in
  run_ret (out_ptr, out_len, b).

Definition error_number {A} (errno : Z) (out_bytes : list Z) : Run Instance A :=
  lift (Err (General ("error number: " +:+ pretty.pretty errno +:+ ", out bytes: "
                      +:+ string_of_bytes out_bytes))).

Definition call_scalar_function (name : string) (input : list Z)
  : Run Instance (list Z * Z) :=
  let* f := lift (ok_or (instance_function name) (General "function not found")) in
  let* size := input_len (len input + 4 * 2) in
  let* alloc_ptr := reserve size in
  let* in_ptr := lift (uadd 32 alloc_ptr (4 * 2)) in
  let* _ := memory_write in_ptr input in
  let* errno := append_stdio (call_guest (f in_ptr (len input) alloc_ptr)) in
  let* '(out_ptr, _, out_bytes) := read_out alloc_ptr in
  if errno =? 0 then run_ret (out_bytes, out_ptr) else error_number errno out_bytes.

(** The iterator of the guest and the block its results go to. *)
Definition call_generic_function (name : string) (input : list Z) : Run Instance (Z * Z) :=
  let* size := input_len (len input + 4 * 3) in
  let* alloc_ptr := reserve size in
  let* in_ptr := lift (uadd 32 alloc_ptr (4 * 3)) in
  let* _ := memory_write in_ptr input in
  let* f := lift (ok_or (instance_function name) (General "function not found")) in
  let* errno := append_stdio (call_guest (f in_ptr (len input) alloc_ptr)) in
  let* '(out_ptr, _, out_bytes) := read_out alloc_ptr in
  if errno =? 0 then run_ret (out_ptr, alloc_ptr) else error_number errno out_bytes.

(** [WasmSlice]: the address and the size of the decoder. *)
Definition call_init (input kwargs : list Z) : Run Instance (Z * Z) :=
  let* size := input_len (len input + len kwargs + 4 * 3) in
  let* alloc_ptr := reserve size in
  let* in_ptr := lift (uadd 32 alloc_ptr (4 * 3)) in
  let* _ := memory_write in_ptr input in
  let* kwargs_ptr := lift (uadd 32 in_ptr (len input)) in
  let* _ := memory_write kwargs_ptr kwargs in
  let* init := lift (unwrap init_function) in
  let* errno := append_stdio (call_guest
    (init_wrapper init in_ptr (len input) kwargs_ptr (len kwargs) alloc_ptr)) in
  let* '(out_ptr, out_len, out_bytes) := read_out alloc_ptr in
  if errno =? 0 then run_ret (out_ptr, out_len) else error_number errno out_bytes.

(** 1 stands for the end of the data. *)
Definition call_decode (decoder : Z) : Run Instance (option (Z * Z)) :=
  let* alloc_ptr := reserve (4 * 3) in
  let* decode := lift (unwrap decode_function) in
  let* errno := append_stdio (call_guest (decode_wrapper (decode_fff decode) decoder alloc_ptr)) in
  let* '(out_ptr, _, out_bytes) := read_out alloc_ptr in
  if errno =? 0 then run_ret (Some (out_ptr, alloc_ptr))
  else if errno =? 1 then run_ret None
  else error_number errno out_bytes.

(** [Drop for Instance] *)
Definition Instance_drop : Run Instance unit :=
  let* ptr := gets cached_alloc_ptr in
  match ptr with
  | Some ptr =>
      let* n := gets cached_alloc_len in
      let* n := lift (unwrap n) in
      run_unwrap (call_guest (dealloc ptr n INPUT_ALIGNMENT))
  | None => run_ret tt
  end.

(** [BufferIter::next] on its instance: address, length and box of the next buffer. *)
Definition instance_next (ptr alloc_ptr : Z) : Run Instance (option (Z * Z * Z)) :=
  let* third := lift (uadd 32 alloc_ptr 8) in
  let* _ := call_guest (buffer_iterator_next ptr alloc_ptr third) in
  let* out_ptr := read_u32 alloc_ptr in
  let* second := lift (uadd 32 alloc_ptr 4) in
  let* out_len := read_u32 second in
  let* arrow_buffer_address := read_u32 third in
  if out_ptr =? 0 then run_ret None
  else
    let* _ := get_output out_ptr out_len in
    run_ret (Some (out_ptr, out_len, arrow_buffer_address)).

(** ** Runtime *)

Record BufferIter := mkBufferIter { bi_ptr : Z; bi_alloc_ptr : Z; bi_instance : Z }.

Record WasmBuffer := mkWasmBuffer {
  host_ptr : Z;
  guest_ptr : Z;
  wb_len : Z;
  arrow_buffer_address : Z;
  wb_instance : Z;
}.

(** [arcs] are the instances with their owners, [instances] is the pool. *)
Record Runtime := mkRuntime {
  functions : list string;
  file_size_limit : option Z;
  instances : list Z;
  arcs : gmap Z (Instance * Z);
  next_arc : Z;
}.

Definition init_from_module (limit : option Z) : outcome Runtime :=
  let! _ := check_abi_version export_names in
  Ok (mkRuntime export_names limit [] ∅ 0).

Definition set_arc (id : Z) (i : Instance) (owners : Z) : Run Runtime unit :=
  modify (λ rt, mkRuntime (functions rt) (file_size_limit rt) (instances rt)
    (<[id := (i, owners)]> (arcs rt)) (next_arc rt)).

(** [Arc::new(Mutex::new(..))] *)
Definition arc_new (i : Instance) : Run Runtime Z := λ rt,
  (Ok (next_arc rt),
   mkRuntime (functions rt) (file_size_limit rt) (instances rt)
     (<[next_arc rt := (i, 1)]> (arcs rt)) (next_arc rt + 1)).

Definition get_arc (id : Z) : Run Runtime (Instance * Z) := λ rt,
  (unwrap (arcs rt !! id), rt).

Definition arc_clone (id : Z) : Run Runtime unit :=
  let* '(i, owners) := get_arc id in
  set_arc id i (owners + 1).

(** [instance.lock().unwrap()] around a computation on the instance. *)
Definition with_instance {A} (id : Z) (m : Run Instance A) : Run Runtime A := λ rt,
  match arcs rt !! id with
  | Some (i, owners) =>
      let '(r, i) := m i in
      (r, mkRuntime (functions rt) (file_size_limit rt) (instances rt)
            (<[id := (i, owners)]> (arcs rt)) (next_arc rt))
  | None => (Panic PUnwrap, rt)
  end.

(** The last owner drops the instance. *)
Definition arc_drop (id : Z) : Run Runtime unit :=
  let* '(i, owners) := get_arc id in
  if 1 <? owners then set_arc id i (owners - 1)
  else
    let* _ := with_instance id Instance_drop in
    modify (λ rt, mkRuntime (functions rt) (file_size_limit rt) (instances rt)
      (delete id (arcs rt)) (next_arc rt)).

Definition pop_front : Run Runtime (option Z) := λ rt,
  match instances rt with
  | id :: ids =>
      (Ok (Some id), mkRuntime (functions rt) (file_size_limit rt) ids (arcs rt) (next_arc rt))
  | [] => (Ok None, rt)
  end.

Definition push_back (id : Z) : Run Runtime unit :=
  modify (λ rt, mkRuntime (functions rt) (file_size_limit rt) (instances rt ++ [id])
    (arcs rt) (next_arc rt)).

Definition new_instance : Run Runtime Z :=
  let* limit := gets file_size_limit in
  let* i := lift (Instance_new limit) in
  arc_new i.

(** [guard.call_generic_function(name, input, instance.clone())]: the clone lives in the
    iterator, or is dropped with the arguments when the call fails. *)
Definition generic_on (id : Z) (name : string) (input : list Z) : Run Runtime BufferIter :=
  let* _ := arc_clone id in
  let* r := run_try (with_instance id (call_generic_function name input)) in
  match r with
  | inl (ptr, alloc_ptr) => run_ret (mkBufferIter ptr alloc_ptr id)
  | inr e => let* _ := arc_drop id in lift (Err e)
  end.

(** The pool gets a clone, and the local owner goes. *)
Definition give_back (id : Z) : Run Runtime unit :=
  let* _ := arc_clone id in
  let* _ := push_back id in
  arc_drop id.

(** An instance from the pool, or a new one. *)
Definition acquire : Run Runtime Z :=
  let* popped := pop_front in
  match popped with Some id => run_ret id | None => new_instance end.

(** A call and, when it works, the return of the instance to the pool. *)
Definition call_and_return (id : Z) (name : string) (input : list Z)
    (otherwise : Run Runtime BufferIter) : Run Runtime BufferIter :=
  let* output := run_try (generic_on id name input) in
  match output with
  | inl it => let* _ := give_back id in run_ret it
  | inr _ => otherwise
  end.

(** An instance on which the call failed is dropped, and a new one has to do. *)
Definition call_multi_buf (name : string) (input : list Z) : Run Runtime BufferIter :=
  let* names := gets functions in
  if bool_decide (name ∈ names) then
    let* id := acquire in
    call_and_return id name input
      (let* _ := arc_drop id in
       let* id := new_instance in
       call_and_return id name input (lift (Panic PAssert)))
  else lift (Err (General "function not found")).

(** [memory.data(..).as_ptr()], now. *)
Definition host_base (id : Z) : Run Runtime Z := λ rt,
  match arcs rt !! id with
  | Some (i, _) => (Ok (memory_base id (len (mem (guest i)))), rt)
  | None => (Panic PUnwrap, rt)
  end.

(** [Iterator for BufferIter]; the buffer is one more owner of the instance. *)
Definition BufferIter_next (it : BufferIter) : Run Runtime (option WasmBuffer) :=
  let id := bi_instance it in
  let* r := run_unwrap (with_instance id
              (append_stdio (instance_next (bi_ptr it) (bi_alloc_ptr it)))) in
  match r with
  | Some (ptr, size, box) =>
      let* base := host_base id in
      let* _ := arc_clone id in
      run_ret (Some (mkWasmBuffer (base + ptr) ptr size box id))
  | None => run_ret None
  end.

Definition BufferIter_drop (it : BufferIter) : Run Runtime unit :=
  let* _ := run_unwrap (with_instance (bi_instance it)
              (call_guest (buffer_iterator_drop (bi_ptr it)))) in
  arc_drop (bi_instance it).

Definition WasmBuffer_drop (b : WasmBuffer) : Run Runtime unit :=
  let* _ := run_unwrap (with_instance (wb_instance b)
              (call_guest (buffer_drop (arrow_buffer_address b)))) in
  arc_drop (wb_instance b).

(** [as_ref]: the bytes at the host address of the buffer, now.  To read outside of the
    memory, where it is now, is undefined behaviour, here a panic. *)
Definition WasmBuffer_as_ref (rt : Runtime) (b : WasmBuffer) : outcome (list Z) :=
  let! '(i, _) := unwrap (arcs rt !! wb_instance b) in
  let p := host_ptr b - memory_base (wb_instance b) (len (mem (guest i))) in
  slice (mem (guest i)) p (p + wb_len b).

(** [for buffer in it]: all the buffers of an iterator, which is then dropped. *)
Fixpoint collect_buffers (fuel : nat) (it : BufferIter) : Run Runtime (list WasmBuffer) :=
  match fuel with
  | O => run_ret []
  | S fuel =>
      let* b := BufferIter_next it in
      match b with
      | Some b => let* bs := collect_buffers fuel it in run_ret (b :: bs)
      | None => let* _ := BufferIter_drop it in run_ret []
      end
  end.
End Wasm.
