(* ===== verification/WasmFacts.v ===== *)
(** * What the host of the WASM runtime guarantees

    The block of an instance is always at least as long as the instance believes, so
    that inputs and results stay inside it, and a call hands the input to the function
    of the plug-in and its answer to the caller. *)
From S2P Require Import Prelude Buffers Guest GuestFacts Wasm.
Open Scope Z_scope.

Section Facts.
Context `{P : Plugin} `{!PluginLaws P}.

(** [runs W D E m i reqs Q]: as [ends], for a computation of the host on an instance.
    It fails when the allocator cannot serve [reqs], or because of [E]. *)
Definition runs {A} (W D : list Z) (E : Prop) (m : Run Instance A) (i : Instance)
    (reqs : list Req) (Q : A → Instance → Prop) : Prop :=
  let '(r, i') := m i in
  guest_ok (guest i') ∧ framed W D (guest i) (guest i') ∧
  match r with
  | Ok a => allot (blocks (guest i)) reqs = Some (blocks (guest i')) ∧ Q a i'
  | Err _ => allot (blocks (guest i)) reqs = None ∨ E
  | Panic _ => False
  end.

Lemma runs_ret {A} W D E (a : A) i (Q : A → Instance → Prop) :
  guest_ok (guest i) → Q a i → runs W D E (run_ret a) i [] Q.
Proof. intros Hok HQ. split; [done|]. split; [apply framed_refl|done]. Qed.

Lemma runs_bind {A B} W D E (m : Run Instance A) (k : A → Run Instance B) i r1 r2 Q :
  runs W D E m i r1 (λ a i', runs W D E (k a) i' r2 Q) →
  runs W D E (run_bind m k) i (r1 ++ r2) Q.
Proof.
  unfold runs, run_bind. destruct (m i) as [[a| |] i1]; intros (Hok & Hf & Hm).
  - destruct Hm as [Ha Hk]. destruct (k a i1) as [r i2]. destruct Hk as (Hok2 & Hf2 & Hr).
    split; [done|]. split; [by eapply framed_trans|]. rewrite allot_app, Ha. exact Hr.
  - split; [done|]. split; [done|]. rewrite allot_app. destruct Hm as [-> | ?]; eauto.
  - done.
Qed.

Lemma runs_then {A B} W D E (m : Run Instance A) (k : A → Run Instance B) i reqs Q :
  runs W D E m i [] (λ a i', runs W D E (k a) i' reqs Q) →
  runs W D E (run_bind m k) i reqs Q.
Proof. apply (runs_bind W D E m k i []). Qed.

Lemma runs_last {A B} W D E (m : Run Instance A) (k : A → Run Instance B) i reqs Q :
  runs W D E m i reqs (λ a i', runs W D E (k a) i' [] Q) →
  runs W D E (run_bind m k) i reqs Q.
Proof. intros H. rewrite <-(app_nil_r reqs). by apply runs_bind. Qed.

(** A step that cannot fail and does not touch the guest. *)
Lemma runs_step {A B} W D E (m : Run Instance A) (k : A → Run Instance B) i i' a reqs Q :
  m i = (Ok a, i') → guest i' = guest i →
  runs W D E (k a) i' reqs Q → runs W D E (run_bind m k) i reqs Q.
Proof. unfold runs, run_bind. intros -> <-. done. Qed.

Lemma runs_weaken {A} W D E W' D' E' (m : Run Instance A) i reqs (Q Q' : A → Instance → Prop) :
  W ⊆ W' → D ⊆ D' → (E → E') → (∀ a i', Q a i' → Q' a i') →
  runs W D E m i reqs Q → runs W' D' E' m i reqs Q'.
Proof.
  unfold runs. intros HW HD HE HQ. destruct (m i) as [r i']. intros (Hok & Hf & Hr).
  split; [done|]. split; [by eapply framed_weaken|]. destruct r; naive_solver.
Qed.

(** A call into the guest. *)
Lemma runs_call {A} W D E (m : Run Guest A) i reqs (Q : A → Instance → Prop) :
  ends W D m (guest i) reqs (λ a g, Q a (set_guest g i)) →
  runs W D E (call_guest m) i reqs Q.
Proof.
  unfold runs, ends, call_guest. destruct (m (guest i)) as [r g]. cbn.
  destruct r; [done| |]; naive_solver.
Qed.

Lemma runs_stdio {A} W D E (m : Run Instance A) i reqs (Q : A → Instance → Prop) :
  runs W D E m i reqs Q → runs W D E (append_stdio m) i reqs Q.
Proof. unfold runs, append_stdio. destruct (m i) as [[a| |] i']; done. Qed.

(** ** The block of an instance *)

(** The block is as long as the instance believes, or longer. *)
Definition block_ok (i : Instance) : Prop :=
  match cached_alloc_ptr i, cached_alloc_len i with
  | Some p, Some n => ∃ m, heap (guest i) !! p = Some (ORaw m 4) ∧ 12 ≤ n ≤ m
  | None, None => True
  | _, _ => False
  end.

(** The block is too short for [size] bytes. *)
Definition grows (i : Instance) (size : Z) : bool :=
  match cached_alloc_len i with Some n => n <? size | None => false end.

Definition cached_block (i : Instance) : list Z := option_list (cached_alloc_ptr i).

(** The block that a call frees. *)
Definition old_block (i : Instance) (size : Z) : list Z :=
  if grows i size then cached_block i else [].

Definition reserve_reqs (i : Instance) (size : Z) : list Req :=
  match cached_alloc_len i with
  | Some n => if n <? size then map RFree (cached_block i) ++ [RAlloc size 4] else []
  | None => [RAlloc size 4]
  end.

(** The allocator does not take the block back with the length that the instance has
    for it. *)
Definition refused (i : Instance) (size : Z) : Prop :=
  grows i size = true ∧
  ∃ p n m, cached_alloc_ptr i = Some p ∧ cached_alloc_len i = Some n ∧
    heap (guest i) !! p = Some (ORaw m 4) ∧ dealloc_accepts m n = false.

(** After [alloc], a null pointer means that there was no memory. *)
Lemma alloc_cases n g :
  guest_ok g → 0 < n →
  let '(r, g') := alloc n 4 g in
  ∃ p, r = Ok p ∧ guest_ok g' ∧ framed [] [] g g' ∧
    ((p = 0 ∧ allot (blocks g) [RAlloc n 4] = None) ∨
     (p ≠ 0 ∧ heap g !! p = None ∧ heap g' = <[p := ORaw n 4]> (heap g) ∧
      allot (blocks g) [RAlloc n 4] = Some (blocks g'))).
Proof.
  intros Hok Hn. pose proof (place_ends (ORaw n 4) 4 g [] [] Hok Hn) as H.
  unfold alloc, run_bind, run_ret. destruct (place (ORaw n 4) 4 g) as [[[p|]| |] g']; try done.
  - destruct H as (Hok' & Hf & Ha & Hp & Hh & _). exists p. split; [done|].
    split; [done|]. split; [done|]. right. split; [|done].
    assert (Hg : heap g' !! p = Some (ORaw n 4)) by (rewrite Hh; apply lookup_insert_eq).
    pose proof (heap_inside _ _ _ Hok' Hg). cbn. lia.
  - destruct H as [-> Ha]. exists 0. split; [done|]. split; [done|].
    split; [apply framed_refl|]. by left.
Qed.

(** [alloc] from the host: no memory shows as a null pointer. *)
Lemma call_alloc n i :
  guest_ok (guest i) → 0 < n →
  ∃ p g', call_guest (alloc n INPUT_ALIGNMENT) i = (Ok p, set_guest g' i) ∧
    guest_ok g' ∧ framed [] [] (guest i) g' ∧
    ((p = 0 ∧ allot (blocks (guest i)) [RAlloc n 4] = None) ∨
     (p ≠ 0 ∧ heap (guest i) !! p = None ∧ heap g' = <[p := ORaw n 4]> (heap (guest i)) ∧
      allot (blocks (guest i)) [RAlloc n 4] = Some (blocks g'))).
Proof.
  intros Hok Hn. pose proof (alloc_cases n (guest i) Hok Hn) as H. unfold call_guest.
  change INPUT_ALIGNMENT with 4. destruct (alloc n 4 (guest i)) as [r g'].
  destruct H as (p & -> & H). by exists p, g'.
Qed.

(** What [reserve] leaves: a block of the instance of at least [size] bytes, the old one
    or one that was not in use. *)
Definition reserved (i i' : Instance) (size a : Z) : Prop :=
  block_ok i' ∧ cached_alloc_ptr i' = Some a ∧
  (∃ m, heap (guest i') !! a = Some (ORaw m 4) ∧ size ≤ m) ∧
  (a ∈ cached_block i ∨ heap (guest i) !! a = None).

(** Long enough: the block stays. *)
Lemma reserve_keep i size p n :
  cached_alloc_ptr i = Some p → cached_alloc_len i = Some n → size ≤ n → p ≠ 0 →
  reserve size i = (Ok p, i).
Proof.
  intros Hp Hn Hle Hp0. unfold reserve, run_bind, gets. rewrite Hn.
  rewrite (proj2 (Z.ltb_ge n size)) by lia. unfold run_ret. rewrite Hp.
  by rewrite (proj2 (Z.eqb_neq p 0)).
Qed.

(** The first block. *)
Lemma reserve_first i size :
  guest_ok (guest i) → cached_alloc_ptr i = None → cached_alloc_len i = None → 0 < size →
  ∃ p g', guest_ok g' ∧ framed [] [] (guest i) g' ∧
    ((p = 0 ∧ allot (blocks (guest i)) [RAlloc size 4] = None) ∨
     (p ≠ 0 ∧ heap (guest i) !! p = None ∧ heap g' = <[p := ORaw size 4]> (heap (guest i)) ∧
      allot (blocks (guest i)) [RAlloc size 4] = Some (blocks g'))) ∧
    reserve size i = (if p =? 0 then Err (General "failed to allocate for input") else Ok p,
                      mkInstance g' (Some p) (Some size) (stdout i) (stderr i)).
Proof.
  intros Hok Hp Hn Hs.
  destruct (call_alloc size (mkInstance (guest i) None (Some size) (stdout i) (stderr i)))
    as (p & g' & Hcall & Hok' & Hf & Hcase); [done|done|].
  exists p, g'. split; [done|]. split; [done|]. split; [done|].
  unfold reserve, run_bind, gets, set_cached_len, set_cached_ptr, modify, run_ret, lift.
  rewrite Hn. cbn [cached_alloc_ptr cached_alloc_len]. rewrite Hp, Hcall. cbn.
  by destruct (p =? 0).
Qed.

(** The block is too short: it is given back and a longer one is taken. *)
Lemma reserve_grow i size p n m :
  guest_ok (guest i) → cached_alloc_ptr i = Some p → cached_alloc_len i = Some n →
  heap (guest i) !! p = Some (ORaw m 4) → n < size → 0 < size → dealloc_accepts m n = true →
  ∃ q g', guest_ok g' ∧ framed [] [p] (guest i) g' ∧
    ((q = 0 ∧ allot (blocks (guest i)) [RFree p; RAlloc size 4] = None) ∨
     (q ≠ 0 ∧ (q ∈ [p] ∨ heap (guest i) !! q = None) ∧ heap g' !! q = Some (ORaw size 4) ∧
      allot (blocks (guest i)) [RFree p; RAlloc size 4] = Some (blocks g'))) ∧
    reserve size i = (if q =? 0 then Err (General "failed to allocate for input") else Ok q,
                      mkInstance g' (Some q) (Some n) (stdout i) (stderr i)).
Proof.
  intros Hok Hp Hn Hm Hlt Hs Hacc.
  pose proof (dealloc_ends p m n 4 (guest i) [] [p] (λ _ g', heap g' = delete p (heap (guest i)))
                Hok ltac:(left) Hm Hacc ltac:(done)) as Hd.
  unfold ends in Hd. destruct (dealloc p n 4 (guest i)) as [[u| |] g1] eqn:Hdeal;
    [|by destruct Hd as (_ & _ & [])|by destruct Hd as (_ & _ & Hd)].
  destruct Hd as (Hok1 & Hf1 & Hfree & Hh1). cbn [allot] in Hfree. injection Hfree as Hbl1.
  destruct (call_alloc size (set_guest g1 i)) as (q & g' & Hcall & Hok' & Hf & Hcase); [done|done|].
  cbn [guest set_guest] in Hcase, Hf. exists q, g'. split; [done|].
  split; [eapply framed_trans; [done|by eapply framed_none]|]. split.
  - cbn [allot] in *. rewrite Hbl1. destruct Hcase as [Hcase|(Hq & Hnone & Hh & Ha)]; [by left|].
    right. split; [done|]. rewrite Hh1 in Hnone. split; [|by rewrite Hh, lookup_insert_eq].
    destruct (decide (q = p)) as [->|Hne]; [left; left|right]. by rewrite lookup_delete_ne in Hnone.
  - change INPUT_ALIGNMENT with 4 in *. unfold reserve, run_bind, gets. rewrite Hn.
    rewrite (proj2 (Z.ltb_lt n size)) by done. unfold lift, unwrap. rewrite Hp.
    unfold call_guest at 1. change INPUT_ALIGNMENT with 4. rewrite Hdeal, Hcall. cbn.
    rewrite Hn. by destruct (q =? 0).
Qed.

Lemma reserve_refused i size p n m :
  cached_alloc_ptr i = Some p → cached_alloc_len i = Some n →
  heap (guest i) !! p = Some (ORaw m 4) → n < size → dealloc_accepts m n = false →
  reserve size i = (Err (External "wasm trap"), i).
Proof.
  intros Hp Hn Hm Hlt Hacc. unfold reserve, run_bind, gets. rewrite Hn.
  rewrite (proj2 (Z.ltb_lt n size)) by done. unfold lift, unwrap. rewrite Hp.
  unfold call_guest, dealloc, run_bind, gets. rewrite Hm, Hacc. cbn. by destruct i.
Qed.

Lemma reserve_runs W E i size (Q : Z → Instance → Prop) :
  guest_ok (guest i) → block_ok i → 12 ≤ size → (refused i size → E) →
  (∀ a i', guest_ok (guest i') → framed [] (old_block i size) (guest i) (guest i') →
     reserved i i' size a → Q a i') →
  runs W (old_block i size) E (reserve size) i (reserve_reqs i size) Q.
Proof.
  intros Hok Hb Hs HE HQ. unfold block_ok in Hb. unfold runs, old_block, grows, reserve_reqs, cached_block in *.
  destruct (cached_alloc_ptr i) as [p|] eqn:Hp, (cached_alloc_len i) as [n|] eqn:Hn; try done.
  - destruct Hb as (m & Hm & Hnm). pose proof (heap_inside _ _ _ Hok Hm).
    destruct (Z.ltb_spec n size) as [Hlt|Hle]; cbn [option_list map app] in *.
    + destruct (dealloc_accepts m n) eqn:Hacc.
      * destruct (reserve_grow i size p n m) as (q & g' & Hok' & Hf & Hcase & ->); [done..|lia|done|].
        split; [done|]. split; [eapply framed_weaken; [| |exact Hf]; set_solver|].
        destruct Hcase as [[-> Hnone]|(Hq & Hnew & Hq' & Ha)]; [left; exact Hnone|].
        rewrite (proj2 (Z.eqb_neq q 0)) by done. split; [done|]. apply HQ; [done|done|].
        unfold reserved, block_ok, cached_block. cbn. rewrite Hp. cbn.
        split; [exists size; split; [done|lia]|]. split; [done|]. split; [exists size; split; [done|lia]|done].
      * erewrite reserve_refused by done. split; [done|]. split; [apply framed_refl|].
        right. apply HE. split; [unfold grows; rewrite Hn; by apply Z.ltb_lt|].
        by exists p, n, m.
    + erewrite reserve_keep by (done || lia). split; [done|]. split; [apply framed_refl|].
      split; [done|]. apply HQ; [done|apply framed_refl|].
      unfold reserved, block_ok, cached_block. rewrite Hp, Hn. cbn.
      split; [by exists m|]. split; [done|]. split; [exists m; split; [done|lia]|]. left. left.
  - destruct (reserve_first i size) as (p & g' & Hok' & Hf & Hcase & ->); [done..|lia|].
    split; [done|]. split; [by apply framed_none|].
    destruct Hcase as [[-> Hnone]|(Hq & Hnew & Hh & Ha)]; [left; exact Hnone|].
    rewrite (proj2 (Z.eqb_neq p 0)) by done. split; [done|]. apply HQ; [done|by apply framed_none|].
    assert (heap g' !! p = Some (ORaw size 4)) by (rewrite Hh; apply lookup_insert_eq).
    unfold reserved, block_ok, cached_block. cbn.
    split; [exists size; split; [done|lia]|]. split; [done|]. split; [exists size; split; [done|lia]|].
    by right.
Qed.

(** ** Inputs and results *)

Lemma memory_write_runs W D E p q o b i (Q : unit → Instance → Prop) :
  guest_ok (guest i) → heap (guest i) !! q = Some o → q ∈ W → q ≤ p → p + len b ≤ q + obj_size o →
  (∀ g', guest_ok g' → framed [q] [] (guest i) g' → heap g' = heap (guest i) →
     located (mem g') b p (len b) → Q tt (set_guest g' i)) →
  runs W D E (memory_write p b) i [] Q.
Proof.
  intros Hok Ho HW Hq Hb HQ.
  assert (Hw : ends W D (write_mem p b) (guest i) [] (λ u g', Q u (set_guest g' i))).
  { eapply write_ends; [done..|]. intros g' Hok' Hf Hh Hl _. by apply HQ. }
  unfold ends, runs, memory_write in *. destruct (write_mem p b (guest i)) as [[[]| |] g'] eqn:Hr.
  - by destruct Hw as (? & ? & ? & ?).
  - by destruct Hw as (? & ? & []).
  - by destruct Hw as (? & ? & Hw).
Qed.

Lemma read_u32_located i p x :
  guest_ok (guest i) → in_u 32 x → located (mem (guest i)) (le_bytes 4 x) p 4 →
  read_u32 p i = (Ok x, i).
Proof.
  intros Hok Hx Hl. pose proof (located_bounds _ _ _ _ Hl) as (? & _ & ?). destruct (ok_size _ Hok).
  unfold read_u32, run_bind, lift, gets, uadd. rewrite (proj2 (Z.ltb_lt _ _)) by lia.
  rewrite (located_slice _ _ _ _ Hl). unfold run_ret. by rewrite le_val_le_bytes.
Qed.

Lemma get_output_inside i p b :
  guest_ok (guest i) → located (mem (guest i)) b p (len b) → get_output p (len b) i = (Ok b, i).
Proof.
  intros Hok Hl. pose proof (located_bounds _ _ _ _ Hl) as (? & _ & ?). destruct (ok_size _ Hok).
  unfold get_output, run_bind, lift, gets, uadd. rewrite (proj2 (Z.ltb_lt _ _)) by lia.
  by rewrite (located_slice _ _ _ _ Hl).
Qed.

(** The two words of an out slice. *)
Lemma slice_words m p size out :
  located m (le_bytes 4 p ++ le_bytes 4 size) out 8 →
  located m (le_bytes 4 p) out 4 ∧ located m (le_bytes 4 size) (out + 4) 4.
Proof.
  intros H. split.
  - pose proof (located_sub m [] (le_bytes 4 p) (le_bytes 4 size) out 8 H) as Hs.
    rewrite le_bytes_len, (len_nil (A:=Z)), Z.add_0_r in Hs. exact Hs.
  - rewrite <-(app_nil_r (le_bytes 4 size)) in H. apply located_sub in H.
    by rewrite !le_bytes_len in H.
Qed.

Lemma read_out_slice i p b out :
  guest_ok (guest i) → located (mem (guest i)) (le_bytes 4 p ++ le_bytes 4 (len b)) out 8 →
  located (mem (guest i)) b p (len b) → read_out out i = (Ok (p, len b, b), i).
Proof.
  intros Hok Hl Hb. pose proof (slice_words _ _ _ _ Hl) as [H1 H2].
  pose proof (located_bounds _ _ _ _ Hl) as (? & _ & ?).
  pose proof (located_bounds _ _ _ _ Hb) as (? & ? & ?). destruct (ok_size _ Hok).
  unfold read_out, run_bind. rewrite (read_u32_located _ _ p) by (done || unfold in_u; lia).
  unfold lift, uadd. rewrite (proj2 (Z.ltb_lt (out + 4) _)) by lia.
  rewrite (read_u32_located _ _ (len b)) by (done || unfold in_u; lia).
  by rewrite get_output_inside.
Qed.

(** ** Calling a decoder *)

(** The function of that name decodes [input] to [bufs]. *)
Definition decodes (name : string) (input : list Z) (bufs : list (list Z)) : Prop :=
  ∃ f, name ∈ export_names ∧ ends_with "ffi" name = true ∧
    general_functions name = Some f ∧ f input = Ok bufs.

Definition undecodable (name : string) (input : list Z) : Prop := ∀ bufs, ¬ decodes name input bufs.

Lemma runs_refuse {A} W D (E : Prop) (m : Run Instance A) i reqs Q :
  E → (let '(r, i') := m i in guest_ok (guest i') ∧ framed W D (guest i) (guest i') ∧
         match r with Err _ => True | _ => False end) →
  runs W D E m i reqs Q.
Proof.
  unfold runs. intros HE. destruct (m i) as [[?| |] i']; intros (? & ? & ?); naive_solver.
Qed.

(** What follows [reserve] and the copy of the input. *)
Definition call_and_read (name : string) (input : list Z) (alloc_ptr in_ptr : Z)
  : Run Instance (Z * Z) :=
  let* f := lift (ok_or (instance_function name) (General "function not found")) in
  let* errno := append_stdio (call_guest (f in_ptr (len input) alloc_ptr)) in
  let* '(out_ptr, _, out_bytes) := read_out alloc_ptr in
  if errno =? 0 then run_ret (out_ptr, alloc_ptr) else error_number errno out_bytes.

Lemma call_decodes name input bufs a p i W (E : Prop) (Q : Z * Z → Instance → Prop) :
  guest_ok (guest i) → out_block (guest i) a → a ∈ W → decodes name input bufs →
  located (mem (guest i)) input p (len input) →
  (∀ ptr g', guest_ok g' → framed W [] (guest i) g' → heap (guest i) !! ptr = None →
     heap g' = <[ptr := OIter bufs]> (heap (guest i)) → Q (ptr, a) (set_guest g' i)) →
  runs W [] E (call_and_read name input a p) i [RAlloc 8 4] Q.
Proof.
  intros Hok Ha HW (f & Hname & Hffi & Hf & Hbufs) Hin HQ. unfold call_and_read.
  unfold instance_function. rewrite bool_decide_eq_true_2, Hffi, Hf by done. cbn [andb fmap option_fmap option_map].
  eapply runs_step; [done|done|].
  eapply runs_last, runs_stdio, runs_call.
  eapply general_ends; [done..|by apply not_elem_of_nil|done|done|].
  intros ptr g' Hok' Hf' Hnone Hh Hout.
  assert (Hptr : heap g' !! ptr = Some (OIter bufs)) by (rewrite Hh; apply lookup_insert_eq).
  destruct (block_content _ _ _ Hok' Hptr) as (b & Hb & Hbl). cbn in Hb, Hbl.
  eapply runs_step; [apply (read_out_slice _ ptr b); cbn; rewrite ?Hb; done|done|].
  apply runs_ret; [done|]. by apply HQ.
Qed.

(** A call that does not decode its input is an error, whatever happens. *)
Lemma call_undecodable name input a p i W (E : Prop) reqs (Q : Z * Z → Instance → Prop) :
  guest_ok (guest i) → out_block (guest i) a → a ∈ W → undecodable name input → E →
  located (mem (guest i)) input p (len input) →
  runs W [] E (call_and_read name input a p) i reqs Q.
Proof.
  intros Hok Ha HW Hno HE Hin. apply runs_refuse; [done|]. unfold call_and_read, run_bind, lift.
  assert (Hrefl : framed W [] (guest i) (guest i)) by apply framed_refl.
  destruct (instance_function name) as [w|] eqn:Hw; [|done]. cbn [ok_or].
  unfold instance_function in Hw. case_bool_decide as Hname; [|done].
  destruct (ends_with "ffi" name) eqn:Hffi; [|done]. cbn [andb] in Hw.
  apply fmap_Some in Hw as (f & Hf & ->). unfold append_stdio, call_guest.
  destruct (f input) as [bufs|e|pk] eqn:Hr.
  - destruct (Hno bufs). by exists f.
  - pose proof (general_fails f input p a e (guest i) W []
      (λ r g', r = -1 ∧ ∃ q, held OText g' (string_bytes (error_to_string e)) q ∧
         located (mem g') (le_bytes 4 q ++ le_bytes 4 (len (string_bytes (error_to_string e)))) a 8)
      Hok Ha HW ltac:(by apply not_elem_of_nil) Hin Hr) as H.
    unfold ends in H. destruct (general_wrapper f p (len input) a (guest i)) as [r g'].
    destruct H as (Hok' & Hf' & H). { intros q g2 _ _ ??. split; [done|]. by exists q. }
    destruct r as [r| |]; [|done|done]. destruct H as (_ & -> & q & (Hb & _) & Hl).
    cbn [set_guest]. rewrite (read_out_slice _ q (string_bytes (error_to_string e))) by done.
    done.
  - unfold general_wrapper, run_bind. rewrite (read_located _ _ _ _ Hin), Hr. done.
Qed.

(** The rest of a computation may change a block that was not in use before. *)
Lemma runs_changing {A B} W D D' E (m : Run Instance A) (k : A → Run Instance B) i r1 r2 Q :
  runs W D E m i r1 (λ a i', ∃ p,
    (p ∈ W ∨ p ∈ D ∨ heap (guest i) !! p = None) ∧ D' ⊆ D ∧ runs (p :: W) D' E (k a) i' r2 Q) →
  runs W D E (run_bind m k) i (r1 ++ r2) Q.
Proof.
  unfold runs, run_bind. destruct (m i) as [[a| |] i1]; intros (Hok & Hf & Hm).
  - destruct Hm as (Ha & p & Hp & HD & Hk). destruct (k a i1) as [r i2].
    destruct Hk as (Hok2 & Hf2 & Hr).
    split; [done|]. split; [by eapply framed_changing|]. rewrite allot_app, Ha. exact Hr.
  - split; [done|]. split; [done|]. rewrite allot_app. destruct Hm as [-> | ?]; eauto.
  - done.
Qed.

Definition call_size (input : list Z) : Z := len input + 4 * 3.

Definition call_reqs (i : Instance) (input : list Z) : list Req :=
  reserve_reqs i (call_size input) ++ [RAlloc 8 4].

(** Why a call may fail although there is memory. *)
Definition call_hopeless (name : string) (input : list Z) (i : Instance) : Prop :=
  2 ^ 32 ≤ call_size input ∨ refused i (call_size input) ∨ undecodable name input.

(** A new iterator over the buffers that the function of the plug-in gives. *)
Definition called (name : string) (input : list Z) (i : Instance) (r : Z * Z) (i' : Instance)
  : Prop :=
  let '(ptr, a) := r in
  ∃ bufs, decodes name input bufs ∧ block_ok i' ∧ cached_alloc_ptr i' = Some a ∧
    out_block (guest i') a ∧ heap (guest i') !! ptr = Some (OIter bufs) ∧
    (heap (guest i) !! ptr = None ∨ ptr ∈ old_block i (call_size input)).

Lemma call_generic_eq name input :
  call_generic_function name input =
    let* size := input_len (call_size input) in
    let* alloc_ptr := reserve size in
    let* in_ptr := lift (uadd 32 alloc_ptr (4 * 3)) in
    let* _ := memory_write in_ptr input in
    call_and_read name input alloc_ptr in_ptr.
Proof. done. Qed.

Lemma decodes_dec name input : (∃ bufs, decodes name input bufs) ∨ undecodable name input.
Proof.
  unfold undecodable, decodes.
  destruct (decide (name ∈ export_names)) as [Hn|Hn]; [|right; naive_solver].
  destruct (ends_with "ffi" name); [|right; naive_solver].
  destruct (general_functions name) as [f|]; [|right; naive_solver].
  destruct (f input) as [bufs| |] eqn:Hf; [left; by exists bufs, f|right..];
    intros bufs (f' & _ & _ & [= <-] & Hf'); congruence.
Qed.

Lemma generic_runs name input i :
  guest_ok (guest i) → block_ok i →
  runs (cached_block i) (old_block i (call_size input)) (call_hopeless name input i)
    (call_generic_function name input) i (call_reqs i input) (called name input i).
Proof.
  intros Hok Hb. rewrite call_generic_eq. set (size := call_size input).
  assert (Hs : 12 ≤ size) by (unfold size, call_size; pose proof (len_nonneg input); lia).
  apply runs_then. unfold input_len. destruct (Z.ltb_spec size (2 ^ 32)) as [Hlt|Hge].
  2:{ apply runs_refuse; [by left|]. cbn. split; [done|]. split; [apply framed_refl|done]. }
  apply runs_ret; [done|]. unfold call_reqs. fold size. apply (runs_changing _ _ []).
  apply reserve_runs; [done..|by right; left|].
  intros a i1 Hok1 Hf1 (Hb1 & Hp1 & (m & Hm & Hsm) & Ha). exists a.
  split; [destruct Ha; auto|]. split; [set_solver|].
  pose proof (heap_inside _ _ _ Hok1 Hm) as Hin. cbn in Hin. destruct (ok_size _ Hok1) as [_ H32].
  pose proof (len_nonneg input). unfold call_size in size.
  eapply runs_step; [unfold lift, uadd; rewrite (proj2 (Z.ltb_lt _ _)) by (unfold size in *; lia); done|done|].
  apply runs_then. eapply (memory_write_runs _ _ _ _ a);
    [done|exact Hm|left|lia|cbn; unfold size in *; lia|].
  intros g2 Hok2 Hf2 Hh2 Hl2.
  assert (Hout : out_block (guest (set_guest g2 i1)) a).
  { exists m. cbn. rewrite Hh2. split; [done|lia]. }
  destruct (decodes_dec name input) as [[bufs Hbufs]|Hno].
  - eapply call_decodes; [done|done|left|done|exact Hl2|].
    intros ptr g3 Hok3 Hf3 Hnone Hh3. exists bufs. cbn in *.
    assert (Hkeep : ∀ q o, heap g2 !! q = Some o → heap g3 !! q = Some o).
    { intros q o. apply (frame_heap _ _ _ _ Hf3), not_elem_of_nil. }
    split; [done|]. split.
    + unfold block_ok in *. cbn. rewrite Hp1 in *. destruct (cached_alloc_len i1); [|done].
      destruct Hb1 as (m' & Hm' & ?). exists m'. split; [|done]. apply Hkeep. by rewrite Hh2.
    + split; [done|]. split; [by eapply out_block_framed; [exact Hf3|apply not_elem_of_nil|]|].
      split; [rewrite Hh3; apply lookup_insert_eq|].
      destruct (decide (ptr ∈ old_block i size)) as [|Hnot]; [by right|left].
      destruct (heap (guest i) !! ptr) as [o|] eqn:Ho; [|done].
      apply (frame_heap _ _ _ _ Hf1) in Ho; [|done]. rewrite Hh2 in Hnone. congruence.
  - apply call_undecodable; [done|done|left|done|by right; right|exact Hl2].
Qed.

(** ** The next buffer *)

Lemma read_u32_inside i p o q :
  guest_ok (guest i) → heap (guest i) !! q = Some o → q ≤ p → p + 4 ≤ q + obj_size o →
  ∃ x, read_u32 p i = (Ok x, i).
Proof.
  intros Hok Ho Hq Hp. pose proof (heap_inside _ _ _ Hok Ho). destruct (ok_size _ Hok).
  unfold read_u32, run_bind, lift, gets, uadd. rewrite (proj2 (Z.ltb_lt _ _)) by lia.
  unfold slice. rewrite (proj2 (Z.leb_le 0 p)), (proj2 (Z.leb_le p (p + 4))),
    (proj2 (Z.leb_le (p + 4) (len (mem (guest i))))) by lia. cbn [andb]. unfold run_ret. eauto.
Qed.

Lemma out_block_inside g a : guest_ok g → out_block g a → 0 < a ∧ a + 12 < 2 ^ 32.
Proof.
  intros Hok (n & Hn & ?). pose proof (heap_inside _ _ _ Hok Hn). destruct (ok_size _ Hok).
  cbn in *. lia.
Qed.

Lemma next_runs ptr a b bufs i :
  guest_ok (guest i) → out_block (guest i) a → heap (guest i) !! ptr = Some (OIter (b :: bufs)) →
  runs [a] [ptr] False (instance_next ptr a) i (buffer_reqs b) (λ r i', ∃ p box g',
    i' = set_guest g' i ∧ r = Some (p, len b, box) ∧ held OBytes g' b p ∧
    heap (guest i) !! box = None ∧ (b ≠ [] → heap (guest i) !! p = None ∧ box ≠ p) ∧
    heap g' = handed (heap (guest i)) ptr p box b bufs).
Proof.
  intros Hok Ha Hptr. destruct (out_block_inside _ _ Hok Ha) as [Ha0 Ha32]. unfold instance_next.
  eapply runs_step; [unfold lift, uadd; rewrite (proj2 (Z.ltb_lt _ _)) by lia; done|done|].
  apply runs_last, runs_call.
  assert (Hne : a ≠ ptr). { intros ->. destruct Ha as (n & Hn & _). congruence. }
  eapply next_ends; [done|done|left|set_solver|left|done|].
  intros p box g' Hok' Hf Hheld Hp Hbox Hpb Hh Hl. set (i' := set_guest g' i).
  pose proof Hheld as (Hb & Hp0 & _).
  pose proof (located_bounds _ _ _ _ Hb) as (_ & _ & Hend). destruct (ok_size _ Hok') as [_ H32].
  pose proof (located_sub _ [] _ _ _ _ Hl) as Hl8.
  rewrite len_app, !le_bytes_len, (len_nil (A:=Z)), Z.add_0_r in Hl8.
  rewrite <-(app_nil_r (le_bytes 4 box)) in Hl. apply located_sub in Hl as Hl3.
  rewrite len_app, !le_bytes_len in Hl3. change (Z.of_nat 4 + Z.of_nat 4) with 8 in *.
  destruct (slice_words _ _ _ _ Hl8) as [Hl1 Hl2].
  assert (Hbx : heap g' !! box = Some (OBuffer p (len b))) by (rewrite Hh; apply lookup_insert_eq).
  pose proof (heap_inside _ _ _ Hok' Hbx) as Hin. cbn in Hin.
  pose proof (len_nonneg b).
  eapply runs_step; [apply (read_u32_located i' a p); [done|unfold in_u; lia|exact Hl1]|done|].
  eapply runs_step; [unfold lift, uadd; rewrite (proj2 (Z.ltb_lt _ _)) by lia; done|done|].
  eapply runs_step; [apply (read_u32_located i' (a + 4) (len b)); [done|unfold in_u; lia|exact Hl2]|done|].
  eapply runs_step; [apply (read_u32_located i' (a + 8) box); [done|unfold in_u; lia|exact Hl3]|done|].
  rewrite (proj2 (Z.eqb_neq p 0)) by lia.
  eapply runs_step; [by apply get_output_inside|done|].
  apply runs_ret; [done|]. exists p, box, g'.
  split; [done|]. split; [done|]. split; [done|]. split; [done|]. split; [|done]. auto.
Qed.

Lemma next_end_runs ptr a i :
  guest_ok (guest i) → out_block (guest i) a → heap (guest i) !! ptr = Some (OIter []) →
  runs [a] [] False (instance_next ptr a) i [] (λ r i', ∃ g',
    i' = set_guest g' i ∧ r = None ∧ heap g' = heap (guest i)).
Proof.
  intros Hok Ha Hptr. destruct (out_block_inside _ _ Hok Ha) as [Ha0 Ha32]. unfold instance_next.
  eapply runs_step; [unfold lift, uadd; rewrite (proj2 (Z.ltb_lt _ _)) by lia; done|done|].
  apply runs_last, runs_call. apply next_end_ends; [done|done|left|done|].
  intros g' Hok' Hf Hh Hl. set (i' := set_guest g' i).
  destruct (slice_words _ _ _ _ Hl) as [Hl1 Hl2]. destruct Ha as (n & Hn & Hn12).
  destruct (read_u32_inside i' (a + 8) (ORaw n 4) a) as [x Hx];
    [done|by cbn; rewrite Hh|lia|cbn; lia|].
  eapply runs_step; [apply (read_u32_located i' a 0); [done|unfold in_u; lia|exact Hl1]|done|].
  eapply runs_step; [unfold lift, uadd; rewrite (proj2 (Z.ltb_lt _ _)) by lia; done|done|].
  eapply runs_step; [apply (read_u32_located i' (a + 4) 0); [done|unfold in_u; lia|exact Hl2]|done|].
  eapply runs_step; [exact Hx|done|]. apply runs_ret; [done|]. by exists g'.
Qed.
End Facts.
