(* ===== verification/RuntimeFacts.v ===== *)
(** * The pool of instances, its iterators and its buffers

    The runtime seen as a whole: which owners each instance has, what each live
    iterator still yields and which bytes each live buffer has, under any interleaving
    of calls, iteration and drops. *)
From Stdlib Require Import List Permutation.
From S2P Require Import Prelude Buffers Guest GuestFacts Wasm WasmFacts.
From stdpp Require Import list.
Open Scope Z_scope.

Definition count (id : Z) (l : list Z) : Z := Z.of_nat (count_occ Z.eq_dec l id).

Lemma count_app id l k : count id (l ++ k) = count id l + count id k.
Proof. unfold count. rewrite count_occ_app. lia. Qed.
Lemma count_cons id x l : count id (x :: l) = (if (decide (x = id)) then 1 else 0) + count id l.
Proof.
  unfold count. destruct (decide (x = id)) as [->|Hne].
  - rewrite count_occ_cons_eq by done. lia.
  - rewrite count_occ_cons_neq by done. lia.
Qed.
Lemma count_nonneg id l : 0 ≤ count id l.
Proof. unfold count. lia. Qed.
Lemma count_in id l : id ∈ l → 0 < count id l.
Proof. intros H%list_elem_of_In%(count_occ_In Z.eq_dec). unfold count. lia. Qed.
Lemma count_perm id l k : l ≡ₚ k → count id l = count id k.
Proof. intros H. unfold count. by rewrite (proj1 (Permutation_count_occ Z.eq_dec l k) H). Qed.

Section Facts.
Context `{P : Plugin} `{!PluginLaws P} `{En : Engine}.

(** An iterator with what it still yields, a buffer with its bytes. *)
Abbreviation LiveIter := (BufferIter * list (list Z))%type.
Abbreviation LiveBuf := (WasmBuffer * list Z)%type.

Definition iter_ok (i : Instance) (l : LiveIter) : Prop :=
  heap (guest i) !! bi_ptr l.1 = Some (OIter l.2) ∧ out_block (guest i) (bi_alloc_ptr l.1).

Definition buf_ok (i : Instance) (l : LiveBuf) : Prop :=
  heap (guest i) !! arrow_buffer_address l.1 = Some (OBuffer (guest_ptr l.1) (wb_len l.1)) ∧
  wb_len l.1 = len l.2 ∧ held OBytes (guest i) l.2 (guest_ptr l.1) ∧
  ∃ n, host_ptr l.1 = memory_base (wb_instance l.1) n + guest_ptr l.1.

Definition iter_addr (l : LiveIter) : Z * Z := (bi_instance l.1, bi_ptr l.1).
Definition buf_addrs (l : LiveBuf) : list (Z * Z) :=
  map (pair (wb_instance l.1))
    (buffer_addrs (arrow_buffer_address l.1) (guest_ptr l.1) (wb_len l.1)).

(** The objects that live iterators and buffers will free. *)
Definition owned (its : list LiveIter) (bs : list LiveBuf) : list (Z * Z) :=
  map iter_addr its ++ concat (map buf_addrs bs).

(** The owners of the instances: [ls] are those of a call in progress. *)
Definition holders (ls : list Z) (rt : Runtime) (its : list LiveIter) (bs : list LiveBuf)
  : list Z :=
  ls ++ instances rt ++ map (λ l, bi_instance l.1) its ++ map (λ l, wb_instance l.1) bs.

(** What holds of one instance. *)
Record instance_ok (ls : list Z) (rt : Runtime) (its : list LiveIter) (bs : list LiveBuf)
    (id : Z) (i : Instance) (owners : Z) : Prop := {
  io_guest : guest_ok (guest i);
  io_owners : owners = count id (holders ls rt its bs) ∧ 0 < owners;
  io_next : id < next_arc rt;
  io_pool : id ∈ instances rt → block_ok i;
  io_iters : ∀ l, l ∈ its → bi_instance l.1 = id → iter_ok i l;
  io_bufs : ∀ l, l ∈ bs → wb_instance l.1 = id → buf_ok i l;
}.

Record runtime_ok (ls : list Z) (rt : Runtime) (its : list LiveIter) (bs : list LiveBuf)
  : Prop := {
  ro_arcs : ∀ id i owners, arcs rt !! id = Some (i, owners) → instance_ok ls rt its bs id i owners;
  ro_gone : ∀ id, arcs rt !! id = None → count id (holders ls rt its bs) = 0;
  ro_pool : NoDup (instances rt);
  ro_owned : NoDup (owned its bs);
}.

(** ** Reading the invariant *)

Lemma holder_arc ls rt its bs id :
  runtime_ok ls rt its bs → id ∈ holders ls rt its bs → ∃ i owners, arcs rt !! id = Some (i, owners).
Proof.
  intros Hok Hin%count_in. destruct (arcs rt !! id) as [[i c]|] eqn:Ha; [eauto|].
  pose proof (ro_gone _ _ _ _ Hok _ Ha). lia.
Qed.

Lemma runtime_perm ls ls' rt its its' bs bs' :
  ls ≡ₚ ls' → its ≡ₚ its' → bs ≡ₚ bs' → runtime_ok ls rt its bs → runtime_ok ls' rt its' bs'.
Proof.
  intros Hl Hi Hb [Ha Hg Hp Ho].
  assert (Hh : ∀ id, count id (holders ls' rt its' bs') = count id (holders ls rt its bs)).
  { intros id. apply count_perm. unfold holders. by rewrite Hl, Hi, Hb. }
  split; [| |done|].
  - intros id i c Hid. destruct (Ha _ _ _ Hid). split; try done.
    + by rewrite Hh.
    + intros l Hin. rewrite <-Hi in Hin. auto.
    + intros l Hin. rewrite <-Hb in Hin. auto.
  - intros id Hid. rewrite Hh. auto.
  - unfold owned in *. by rewrite <-Hi, <-Hb.
Qed.

(** A live iterator is an owner that knows its object. *)
Lemma runtime_iter ls rt it bufs its bs :
  runtime_ok ls rt ((it, bufs) :: its) bs ↔
    runtime_ok (bi_instance it :: ls) rt its bs ∧
    (∃ i c, arcs rt !! bi_instance it = Some (i, c) ∧ iter_ok i (it, bufs)) ∧
    iter_addr (it, bufs) ∉ owned its bs.
Proof.
  assert (Hh : ∀ id, count id (holders ls rt ((it, bufs) :: its) bs)
                     = count id (holders (bi_instance it :: ls) rt its bs)).
  { intros id. unfold holders. cbn [map fst]. rewrite !count_app, !count_cons. lia. }
  split.
  - intros Hok. destruct (holder_arc _ _ _ _ (bi_instance it) Hok) as (i & c & Hi).
    { unfold holders. rewrite !elem_of_app. right. right. left. left. }
    pose proof (ro_owned _ _ _ _ Hok) as [Hnot Hnd]%NoDup_cons.
    split; [|split; [|done]].
    + split; [| |apply Hok|done].
      * intros id j d Hid. destruct (ro_arcs _ _ _ _ Hok _ _ _ Hid). split; try done.
        -- by rewrite <-Hh.
        -- intros l Hl. apply io_iters0. by right.
      * intros id Hid. rewrite <-Hh. by apply Hok.
    + exists i, c. split; [done|]. eapply (io_iters _ _ _ _ _ _ _ (ro_arcs _ _ _ _ Hok _ _ _ Hi)); [left|done].
  - intros (Hok & (i & c & Hi & Hit) & Hnot). split; [| |apply Hok|].
    + intros id j d Hid. destruct (ro_arcs _ _ _ _ Hok _ _ _ Hid). split; try done.
      * by rewrite Hh.
      * intros l [->|Hl]%elem_of_cons Hl'; [|auto]. cbn in Hl'. subst. congruence.
    + intros id Hid. rewrite Hh. by apply Hok.
    + apply NoDup_cons. split; [done|apply Hok].
Qed.

(** So is a live buffer. *)
Lemma runtime_buf ls rt its w b bs :
  runtime_ok ls rt its ((w, b) :: bs) ↔
    runtime_ok (wb_instance w :: ls) rt its bs ∧
    (∃ i c, arcs rt !! wb_instance w = Some (i, c) ∧ buf_ok i (w, b)) ∧
    NoDup (buf_addrs (w, b)) ∧ (∀ a, a ∈ buf_addrs (w, b) → a ∉ owned its bs).
Proof.
  assert (Hh : ∀ id, count id (holders ls rt its ((w, b) :: bs))
                     = count id (holders (wb_instance w :: ls) rt its bs)).
  { intros id. unfold holders. cbn [map fst]. rewrite !count_app, !count_cons. lia. }
  assert (Howned : owned its ((w, b) :: bs) ≡ₚ buf_addrs (w, b) ++ owned its bs).
  { unfold owned. cbn [map concat]. rewrite !(app_assoc _ _ _). apply Permutation_app_tail.
    apply Permutation_app_comm. }
  split.
  - intros Hok. destruct (holder_arc _ _ _ _ (wb_instance w) Hok) as (i & c & Hi).
    { unfold holders. rewrite !elem_of_app. right. right. right. left. }
    pose proof (ro_owned _ _ _ _ Hok) as Hnd. rewrite Howned in Hnd.
    apply NoDup_app in Hnd as (Hnd & Hnot & Hrest).
    split; [|split; [|done]].
    + split; [| |apply Hok|done].
      * intros id j d Hid. destruct (ro_arcs _ _ _ _ Hok _ _ _ Hid). split; try done.
        -- by rewrite <-Hh.
        -- intros l Hl. apply io_bufs0. by right.
      * intros id Hid. rewrite <-Hh. by apply Hok.
    + exists i, c. split; [done|]. eapply (io_bufs _ _ _ _ _ _ _ (ro_arcs _ _ _ _ Hok _ _ _ Hi)); [left|done].
  - intros (Hok & (i & c & Hi & Hit) & Hnd & Hnot). split; [| |apply Hok|].
    + intros id j d Hid. destruct (ro_arcs _ _ _ _ Hok _ _ _ Hid). split; try done.
      * by rewrite Hh.
      * intros l [->|Hl]%elem_of_cons Hl'; [|auto]. cbn in Hl'. subst. congruence.
    + intros id Hid. rewrite Hh. by apply Hok.
    + rewrite Howned. apply NoDup_app. split; [done|]. split; [done|apply Hok].
Qed.

(** ** Steps on one instance *)

Definition set_arcs (rt : Runtime) (m : gmap Z (Instance * Z)) : Runtime :=
  mkRuntime (functions rt) (file_size_limit rt) (instances rt) m (next_arc rt).
Definition set_pool (rt : Runtime) (ids : list Z) : Runtime :=
  mkRuntime (functions rt) (file_size_limit rt) ids (arcs rt) (next_arc rt).

(** The objects [D] of an instance belong to no live iterator or buffer. *)
Definition apart (id : Z) (D : list Z) (its : list LiveIter) (bs : list LiveBuf) : Prop :=
  (∀ p, p ∈ D → (id, p) ∉ owned its bs) ∧
  ∀ l, l ∈ its → bi_instance l.1 = id → bi_alloc_ptr l.1 ∉ D.

Lemma iter_ok_framed i i' W D l :
  framed W D (guest i) (guest i') → bi_ptr l.1 ∉ D → bi_alloc_ptr l.1 ∉ D →
  iter_ok i l → iter_ok i' l.
Proof.
  intros Hf HD HD' [Hp Ha]. split; [by eapply frame_heap|by eapply out_block_framed].
Qed.

Lemma buf_ok_framed i i' W D l :
  framed W D (guest i) (guest i') →
  (∀ p, p ∈ W → heap (guest i) !! p = None ∨ ∃ n a, heap (guest i) !! p = Some (ORaw n a)) →
  (∀ p, p ∈ buffer_addrs (arrow_buffer_address l.1) (guest_ptr l.1) (wb_len l.1) → p ∉ D) →
  buf_ok i l → buf_ok i' l.
Proof.
  intros Hf HW HD (Hb & Hlen & Hheld & Hhost).
  assert (Hbox : arrow_buffer_address l.1 ∉ D).
  { apply HD. unfold buffer_addrs. case_match; left. }
  split; [by eapply frame_heap|]. split; [done|]. split; [|exact Hhost].
  eapply held_framed; [done|exact Hf| |done]. intros Hne. split.
  - intros Hin%HW. destruct Hheld as (_ & _ & Hd). specialize (Hd Hne).
    destruct Hin as [|(n & a & ?)]; congruence.
  - apply HD. unfold buffer_addrs. destruct (Z.eqb_spec (wb_len l.1) 0) as [H0|]; [|right; left].
    rewrite Hlen in H0. by apply len_0 in H0.
Qed.

Lemma addr_owned_iter (l : LiveIter) its bs : l ∈ its → (bi_instance l.1, bi_ptr l.1) ∈ owned its bs.
Proof. intros Hl. apply elem_of_app. left. apply list_elem_of_fmap. by exists l. Qed.

Lemma addr_owned_buf (l : LiveBuf) its bs p :
  l ∈ bs → p ∈ buffer_addrs (arrow_buffer_address l.1) (guest_ptr l.1) (wb_len l.1) →
  (wb_instance l.1, p) ∈ owned its bs.
Proof.
  intros Hl Hp. apply elem_of_app. right. apply list_elem_of_In, in_concat.
  exists (buf_addrs l). split; [apply in_map, list_elem_of_In, Hl|].
  apply list_elem_of_In, list_elem_of_fmap. by exists p.
Qed.

Lemma instance_ok_framed ls rt its bs id i i' c W D :
  instance_ok ls rt its bs id i c → guest_ok (guest i') → framed W D (guest i) (guest i') →
  (∀ p, p ∈ W → heap (guest i) !! p = None ∨ ∃ n a, heap (guest i) !! p = Some (ORaw n a)) →
  apart id D its bs → (id ∈ instances rt → block_ok i') → instance_ok ls rt its bs id i' c.
Proof.
  intros [Hg Ho Hn Hp Hi Hb] Hg' Hf HW [HD HD'] Hpool. split; try done.
  - intros l Hl Hid. eapply iter_ok_framed; [done| | |by apply Hi].
    + intros Hin%HD. apply Hin. rewrite <-Hid. by apply addr_owned_iter.
    + by apply HD'.
  - intros l Hl Hid. eapply buf_ok_framed; [done|done| |by apply Hb].
    intros p Hp' Hin%HD. apply Hin. rewrite <-Hid. by apply addr_owned_buf.
Qed.

Lemma runtime_framed ls rt its bs id i i' c W D :
  runtime_ok ls rt its bs → arcs rt !! id = Some (i, c) →
  guest_ok (guest i') → framed W D (guest i) (guest i') →
  (∀ p, p ∈ W → heap (guest i) !! p = None ∨ ∃ n a, heap (guest i) !! p = Some (ORaw n a)) →
  apart id D its bs → (id ∈ instances rt → block_ok i') →
  runtime_ok ls (set_arcs rt (<[id := (i', c)]> (arcs rt))) its bs.
Proof.
  intros [Ha Hg Hp Ho] Hi Hok' Hf HW HD Hpool. split; try done.
  - cbn [arcs set_arcs]. intros id' j d [(<- & [= <- <-])|(Hne & Hj)]%lookup_insert_Some.
    + destruct (instance_ok_framed _ _ _ _ _ _ _ _ _ _ (Ha _ _ _ Hi) Hok' Hf HW HD Hpool).
      by split.
    + destruct (Ha _ _ _ Hj). by split.
  - cbn [arcs set_arcs]. intros id' [Hid _]%lookup_insert_None. by apply Hg.
Qed.

(** ** Owners *)

(** The number of owners of one instance changes, with the list of those at work. *)
Lemma runtime_recount ls ls' rt its bs id i c c' :
  runtime_ok ls rt its bs → arcs rt !! id = Some (i, c) →
  (∀ id', id' ≠ id → count id' ls' = count id' ls) → c' - c = count id ls' - count id ls → 0 < c' →
  runtime_ok ls' (set_arcs rt (<[id := (i, c')]> (arcs rt))) its bs.
Proof.
  intros [Ha Hg Hp Ho] Hi Hne Hc Hpos.
  assert (Hh : ∀ id', count id' (holders ls' rt its bs)
                      = count id' (holders ls rt its bs) + (count id' ls' - count id' ls)).
  { intros id'. unfold holders. rewrite !count_app. lia. }
  split; try done.
  - cbn [arcs set_arcs]. intros id' j d [(<- & [= <- <-])|(Hne' & Hj)]%lookup_insert_Some.
    + destruct (Ha _ _ _ Hi) as [? [Ho1 ?] ?]. split; try done. split; [|done].
      change (holders ls' (set_arcs rt (<[id:=(i, c')]> (arcs rt))) its bs) with (holders ls' rt its bs).
      rewrite Hh, <-Ho1. lia.
    + destruct (Ha _ _ _ Hj) as [? [Ho1 ?] ?]. split; try done. split; [|done].
      change (holders ls' (set_arcs rt (<[id:=(i, c')]> (arcs rt))) its bs) with (holders ls' rt its bs).
      rewrite Hh, Hne by done. lia.
  - cbn [arcs set_arcs]. intros id' [Hid Hne']%lookup_insert_None.
    change (holders ls' (set_arcs rt (<[id:=(i, c')]> (arcs rt))) its bs) with (holders ls' rt its bs).
    rewrite Hh, Hg, Hne by done. lia.
Qed.

Lemma clone_ok ls rt its bs id i c :
  runtime_ok ls rt its bs → arcs rt !! id = Some (i, c) →
  arc_clone id rt = (Ok tt, set_arcs rt (<[id := (i, c + 1)]> (arcs rt))) ∧
  runtime_ok (id :: ls) (set_arcs rt (<[id := (i, c + 1)]> (arcs rt))) its bs.
Proof.
  intros Hok Hi. split.
  - unfold arc_clone, run_bind, get_arc. by rewrite Hi.
  - pose proof (io_owners _ _ _ _ _ _ _ (ro_arcs _ _ _ _ Hok _ _ _ Hi)) as [_ Hc].
    eapply runtime_recount; [done|done| | |lia].
    + intros id' Hne. rewrite count_cons, decide_False by done. lia.
    + rewrite count_cons, decide_True by done. lia.
Qed.

(** An owner that is not the last one goes. *)
Lemma drop_shared ls rt its bs id i c :
  runtime_ok (id :: ls) rt its bs → arcs rt !! id = Some (i, c) →
  id ∈ holders ls rt its bs →
  arc_drop id rt = (Ok tt, set_arcs rt (<[id := (i, c - 1)]> (arcs rt))) ∧
  runtime_ok ls (set_arcs rt (<[id := (i, c - 1)]> (arcs rt))) its bs.
Proof.
  intros Hok Hi Hin%count_in.
  pose proof (io_owners _ _ _ _ _ _ _ (ro_arcs _ _ _ _ Hok _ _ _ Hi)) as [Hc _].
  assert (Hc' : c = 1 + count id (holders ls rt its bs)).
  { rewrite Hc. unfold holders. cbn [app]. rewrite count_cons, decide_True by done. done. }
  split.
  - unfold arc_drop, run_bind, get_arc. rewrite Hi. cbn [unwrap].
    by rewrite (proj2 (Z.ltb_lt 1 c)) by lia.
  - eapply (runtime_recount (id :: ls)); [done|done| | |lia].
    + intros id' Hne. rewrite count_cons, decide_False by done. lia.
    + rewrite count_cons, decide_True by done. lia.
Qed.

(** ** Calls *)

(** What belongs to live iterators and buffers is on the heap, and is no raw block. *)
Lemma owned_object ls rt its bs id i c p :
  runtime_ok ls rt its bs → arcs rt !! id = Some (i, c) → (id, p) ∈ owned its bs →
  ∃ o, heap (guest i) !! p = Some o ∧ ∀ n a, o ≠ ORaw n a.
Proof.
  intros Hok Hi [Hin|Hin]%elem_of_app; pose proof (ro_arcs _ _ _ _ Hok _ _ _ Hi) as [_ _ _ _ Hits Hbs].
  - apply list_elem_of_fmap in Hin as (l & [= -> ->] & Hl).
    destruct (Hits l Hl eq_refl) as [Hp _]. eauto.
  - apply list_elem_of_In, in_concat in Hin as (as_ & Has & Hin).
    apply in_map_iff in Has as (l & <- & Hl%list_elem_of_In). apply list_elem_of_In in Hin.
    apply list_elem_of_fmap in Hin as (p' & [= -> ->] & Hp).
    destruct (Hbs l Hl eq_refl) as (Hbox & Hlen & (_ & _ & Hd) & _).
    unfold buffer_addrs in Hp. destruct (Z.eqb_spec (wb_len l.1) 0) as [|Hne].
    + apply list_elem_of_singleton in Hp as ->. eauto.
    + apply elem_of_cons in Hp as [->|Hp]; [eauto|]. apply list_elem_of_singleton in Hp as ->.
      rewrite Hd; [eauto|]. intros Hb. rewrite Hlen, Hb, (len_nil (A:=Z)) in Hne. done.
Qed.

(** A call whose input does not fit replaces the block of the instance.  Iterators write
    their results to the block they were made with, so none may be live; and the
    allocator has to take the old block back. *)
Definition call_allowed (id : Z) (i : Instance) (its : list BufferIter) (input : list Z) : Prop :=
  grows i (call_size input) = true →
  (∀ it, it ∈ its → bi_instance it ≠ id) ∧ ¬ refused i (call_size input).

Lemma old_block_raw i size p :
  block_ok i → p ∈ old_block i size → ∃ n, heap (guest i) !! p = Some (ORaw n 4).
Proof.
  unfold old_block, cached_block, block_ok. destruct (grows i size); [|set_solver].
  destruct (cached_alloc_ptr i), (cached_alloc_len i); try done; cbn.
  - intros (m & Hm & _) ->%list_elem_of_singleton. eauto.
  - set_solver.
Qed.

Lemma cached_block_raw i p :
  block_ok i → p ∈ cached_block i → ∃ n, heap (guest i) !! p = Some (ORaw n 4).
Proof.
  unfold cached_block, block_ok. destruct (cached_alloc_ptr i), (cached_alloc_len i); try done; cbn.
  - intros (m & Hm & _) ->%list_elem_of_singleton. eauto.
  - set_solver.
Qed.

Lemma old_block_apart ls rt its bs id i c input :
  runtime_ok ls rt its bs → arcs rt !! id = Some (i, c) → block_ok i →
  call_allowed id i (map fst its) input → apart id (old_block i (call_size input)) its bs.
Proof.
  intros Hok Hi Hb Hall. split.
  - intros p Hp Hin. destruct (old_block_raw _ _ _ Hb Hp) as [n Hn].
    destruct (owned_object _ _ _ _ _ _ _ _ Hok Hi Hin) as (o & Ho & Hraw). naive_solver.
  - intros l Hl Hid Hp. unfold old_block in Hp.
    destruct (grows i (call_size input)) eqn:Hg; [|set_solver].
    destruct (Hall Hg) as [Hno _]. destruct (Hno l.1); [|done]. apply list_elem_of_fmap. by exists l.
Qed.

Lemma with_instance_eq {A} id (m : Run Instance A) rt i c :
  arcs rt !! id = Some (i, c) →
  with_instance id m rt = ((m i).1, set_arcs rt (<[id := ((m i).2, c)]> (arcs rt))).
Proof. intros Hi. unfold with_instance. rewrite Hi. by destruct (m i). Qed.

(** A call on an instance that is not in the pool: the new iterator, or an error for
    which there is a reason. *)
Lemma generic_on_ok ls rt its bs id i c name input :
  runtime_ok (id :: ls) rt its bs → arcs rt !! id = Some (i, c) → block_ok i →
  id ∉ instances rt → call_allowed id i (map fst its) input →
  let '(r, rt') := generic_on id name input rt in
  instances rt' = instances rt ∧ functions rt' = functions rt ∧ file_size_limit rt' = file_size_limit rt ∧
  match r with
  | Ok it => ∃ bufs i' c', decodes name input bufs ∧ bi_instance it = id ∧
      runtime_ok (id :: ls) rt' ((it, bufs) :: its) bs ∧
      arcs rt' !! id = Some (i', c') ∧ block_ok i' ∧
      allot (blocks (guest i)) (call_reqs i input) = Some (blocks (guest i'))
  | Err _ => runtime_ok (id :: ls) rt' its bs ∧
      (allot (blocks (guest i)) (call_reqs i input) = None ∨ call_hopeless name input i)
  | Panic _ => False
  end.
Proof.
  intros Hok Hi Hb Hpool Hall. unfold generic_on, run_bind.
  destruct (clone_ok _ _ _ _ _ _ _ Hok Hi) as [-> Hok1].
  set (rt1 := set_arcs rt (<[id := (i, c + 1)]> (arcs rt))) in *.
  assert (Hi1 : arcs rt1 !! id = Some (i, c + 1)) by apply lookup_insert_eq.
  pose proof (ro_arcs _ _ _ _ Hok1 _ _ _ Hi1) as Hio.
  pose proof (generic_runs name input i (io_guest _ _ _ _ _ _ _ Hio) Hb) as Hrun.
  unfold run_try. rewrite (with_instance_eq _ _ _ _ _ Hi1). unfold runs in Hrun.
  destruct (call_generic_function name input i) as [r i'] eqn:Hcall. cbn [fst snd].
  destruct Hrun as (Hg' & Hf & Hr).
  assert (Hok2 : runtime_ok (id :: id :: ls) (set_arcs rt1 (<[id := (i', c + 1)]> (arcs rt1))) its bs).
  { eapply runtime_framed; [done|done|done|exact Hf| | |done].
    - intros p Hp. right. destruct (cached_block_raw _ _ Hb Hp) as [n ?]. eauto.
    - by eapply old_block_apart. }
  set (rt2 := set_arcs rt1 (<[id := (i', c + 1)]> (arcs rt1))) in *.
  assert (Hi2 : arcs rt2 !! id = Some (i', c + 1)) by apply lookup_insert_eq.
  destruct r as [[ptr a]|e|pk]; [| |done].
  - destruct Hr as (Hallot & bufs & Hdec & Hb' & Hcp & Hout & Hptr & Hnew).
    unfold run_ret. split; [done|]. split; [done|]. split; [done|].
    exists bufs, i', (c + 1). split; [done|]. split; [done|]. split; [|done].
    apply runtime_iter. cbn [bi_instance]. split; [done|]. split; [by exists i', (c + 1)|].
    intros Hin. destruct (owned_object _ _ _ _ _ _ _ _ Hok Hi Hin) as (o & Ho & Hraw).
    destruct Hnew as [Hnone|Hold]; [cbn in Ho; congruence|].
    destruct (old_block_raw _ _ _ Hb Hold) as [n Hn]. cbn in Ho. naive_solver.
  - destruct (drop_shared _ _ _ _ _ _ _ Hok2 Hi2) as [-> Hok3].
    { unfold holders. left. }
    by split.
Qed.

(** The instance goes back to the pool. *)
Lemma give_back_ok ls rt its bs id i c :
  runtime_ok (id :: ls) rt its bs → arcs rt !! id = Some (i, c) → block_ok i →
  id ∉ instances rt →
  ∃ rt', give_back id rt = (Ok tt, rt') ∧ runtime_ok ls rt' its bs ∧
    arcs rt' !! id = Some (i, c) ∧ instances rt' = instances rt ++ [id] ∧ functions rt' = functions rt.
Proof.
  intros Hok Hi Hb Hpool. unfold give_back, run_bind.
  destruct (clone_ok _ _ _ _ _ _ _ Hok Hi) as [-> Hok1]. unfold push_back, modify.
  set (rt1 := set_arcs rt (<[id := (i, c + 1)]> (arcs rt))) in *.
  assert (Hi1 : arcs rt1 !! id = Some (i, c + 1)) by apply lookup_insert_eq.
  set (rt2 := mkRuntime (functions rt1) (file_size_limit rt1) (instances rt1 ++ [id]) (arcs rt1) (next_arc rt1)).
  assert (Hh : ∀ id', count id' (holders (id :: ls) rt2 its bs) = count id' (holders (id :: id :: ls) rt1 its bs)).
  { intros id'. unfold holders, rt2. cbn [instances app]. rewrite !count_cons, !count_app, !count_cons.
    change (count id' []) with 0. lia. }
  assert (Hok2 : runtime_ok (id :: ls) rt2 its bs).
  { destruct Hok1 as [Ha Hg Hp Ho]. split; [| | |done].
    - intros id' j d Hj. destruct (Ha _ _ _ Hj). split; try done.
      + by rewrite Hh.
      + cbn. intros [Hin|Hin]%elem_of_app; [by apply io_pool0|].
        apply list_elem_of_singleton in Hin as ->.
        change (arcs rt1 !! id = Some (j, d)) in Hj. rewrite Hi1 in Hj. by injection Hj as <- <-.
    - intros id' Hid. rewrite Hh. by apply Hg.
    - cbn. apply NoDup_app. split; [done|]. split; [|apply NoDup_singleton].
      intros x Hx Hx'. apply list_elem_of_singleton in Hx' as ->. done. }
  destruct (drop_shared _ _ _ _ _ _ _ Hok2 Hi1) as [Hd Hok3].
  { unfold holders, rt2. cbn. rewrite !elem_of_app. right. left. right. left. }
  rewrite Hd. eexists. split; [reflexivity|]. split; [exact Hok3|]. cbn.
  split; [rewrite lookup_insert_eq; do 3 f_equal; lia|done].
Qed.

(** The last owner drops the instance; giving back its block may panic. *)
Lemma arc_drop_ok ls rt its bs id i c :
  runtime_ok (id :: ls) rt its bs → arcs rt !! id = Some (i, c) →
  let '(r, rt') := arc_drop id rt in
  instances rt' = instances rt ∧ functions rt' = functions rt ∧ file_size_limit rt' = file_size_limit rt ∧
  match r with
  | Ok _ => runtime_ok ls rt' its bs
  | Err _ => False
  | Panic _ => True
  end.
Proof.
  intros Hok Hi. destruct (decide (id ∈ holders ls rt its bs)) as [Hin|Hnot].
  { destruct (drop_shared _ _ _ _ _ _ _ Hok Hi Hin) as [-> Hok']. done. }
  assert (H0 : count id (holders ls rt its bs) = 0).
  { unfold count. rewrite (proj1 (count_occ_not_In Z.eq_dec _ id)); [done|].
    intros Hin. by apply Hnot, list_elem_of_In. }
  pose proof (io_owners _ _ _ _ _ _ _ (ro_arcs _ _ _ _ Hok _ _ _ Hi)) as [Hc _].
  assert (Hh : ∀ id', count id' (holders (id :: ls) rt its bs)
                      = (if (decide (id = id')) then 1 else 0) + count id' (holders ls rt its bs)).
  { intros id'. unfold holders. cbn [app]. by rewrite count_cons. }
  assert (Hc1 : c = 1) by (rewrite Hc, Hh, decide_True; lia).
  unfold arc_drop, run_bind, get_arc. rewrite Hi. cbn [unwrap]. rewrite Hc1. cbn [Z.ltb Z.compare Pos.compare Pos.compare_cont].
  rewrite (with_instance_eq _ _ _ _ _ Hi).
  assert (Hdrop : match (Instance_drop i).1 with Err _ => False | _ => True end).
  { unfold Instance_drop, run_bind, gets, lift, run_unwrap.
    destruct (cached_alloc_ptr i); [|done]. destruct (cached_alloc_len i); [|done]. cbn [unwrap].
    by destruct (call_guest _ i) as [[]]. }
  destruct (Instance_drop i) as [[[]|e|pk] i']; [|done|done]. unfold modify. cbn [fst snd].
  split; [done|]. split; [done|]. split; [done|].
  destruct Hok as [Ha Hg Hp Ho]. split; [| |done|done]; cbn [arcs set_arcs].
  - rewrite delete_insert_eq. intros id' j d [Hne Hj]%lookup_delete_Some.
    destruct (Ha _ _ _ Hj) as [? Hown ?]. split; try done.
    change (holders ls _ its bs) with (holders ls rt its bs).
    rewrite Hh, decide_False in Hown by done. done.
  - rewrite delete_insert_eq. intros id' Hid. change (holders ls _ its bs) with (holders ls rt its bs).
    destruct (decide (id' = id)) as [->|Hne]; [done|].
    rewrite lookup_delete_ne in Hid by done. apply Hg in Hid.
    rewrite Hh, decide_False in Hid by done. lia.
Qed.

(** ** A new instance *)

Lemma new_guest_ok : guest_ok new_guest.
Proof.
  pose proof dangling_ok. pose proof initial_memory_fits. unfold new_guest.
  split; cbn; [| |lia].
  - intros p n Hp. unfold blocks in Hp. cbn in Hp. rewrite fmap_empty in Hp. done.
  - intros p q n m _ Hp. unfold blocks in Hp. cbn in Hp. rewrite fmap_empty in Hp. done.
Qed.

(** The exports that an instance needs are there. *)
Definition complete_exports : bool :=
  forallb (λ e, bool_decide (e ∈ export_names)) required_exports.

Lemma new_instance_ok ls rt its bs :
  runtime_ok ls rt its bs →
  let '(r, rt') := new_instance rt in
  instances rt' = instances rt ∧ functions rt' = functions rt ∧ file_size_limit rt' = file_size_limit rt ∧
  match r with
  | Ok id => runtime_ok (id :: ls) rt' its bs ∧ (id ∉ instances rt) ∧
      (∀ l, l ∈ its → bi_instance l.1 ≠ id) ∧
      ∃ i, arcs rt' !! id = Some (i, 1) ∧ Instance_new (file_size_limit rt) = Ok i
  | Err _ => rt' = rt ∧ complete_exports = false
  | Panic _ => False
  end.
Proof.
  intros Hok. unfold new_instance, run_bind, gets, lift, complete_exports.
  destruct (Instance_new (file_size_limit rt)) as [i|e|] eqn:Hnew; unfold Instance_new in Hnew;
    destruct (forallb _ required_exports); try done.
  unfold arc_new. set (id := next_arc rt). split; [done|]. split; [done|]. split; [done|].
  assert (Hnone : arcs rt !! id = None).
  { destruct (arcs rt !! id) as [[j d]|] eqn:Hj; [|done].
    pose proof (io_next _ _ _ _ _ _ _ (ro_arcs _ _ _ _ Hok _ _ _ Hj)). unfold id in *. lia. }
  pose proof (ro_gone _ _ _ _ Hok _ Hnone) as H0.
  assert (Hnot : id ∉ holders ls rt its bs) by (intros Hin%count_in; lia).
  unfold holders in Hnot. rewrite !not_elem_of_app in Hnot. destruct Hnot as (_ & Hpool & Hits & Hbs).
  split; [|split; [done|split]].
  - set (rt' := mkRuntime _ _ _ _ _).
    assert (Hh : ∀ id', count id' (holders (id :: ls) rt' its bs)
                      = (if (decide (id = id')) then 1 else 0) + count id' (holders ls rt its bs)).
    { intros id'. unfold holders. cbn [app]. by rewrite count_cons. }
    split; [| |apply Hok|apply Hok].
    + unfold rt' at 1. cbn [arcs]. intros id' j d [(<- & [= <- <-])|(Hne & Hj)]%lookup_insert_Some.
      * injection Hnew as <-. split; cbn.
        -- apply new_guest_ok.
        -- rewrite Hh, decide_True by done. lia.
        -- unfold id. lia.
        -- done.
        -- intros l Hl Hid. destruct Hits. apply list_elem_of_fmap. by exists l.
        -- intros l Hl Hid. destruct Hbs. apply list_elem_of_fmap. by exists l.
      * destruct (ro_arcs _ _ _ _ Hok _ _ _ Hj). split; try done.
        -- rewrite Hh, decide_False by done. done.
        -- cbn. lia.
    + unfold rt' at 1. cbn [arcs]. intros id' [Hid Hne]%lookup_insert_None.
      rewrite Hh, decide_False by done. by apply Hok.
  - intros l Hl Hid. apply Hits, list_elem_of_fmap. by exists l.
  - exists i. cbn. split; [|done]. apply lookup_insert_eq.
Qed.

(** ** call_multi_buf *)

(** The instance that the next call uses. *)
Definition caller (rt : Runtime) : option Instance :=
  match instances rt with
  | id :: _ => fst <$> arcs rt !! id
  | [] => match Instance_new (file_size_limit rt) with Ok i => Some i | _ => None end
  end.

Definition next_call_allowed (rt : Runtime) (its : list BufferIter) (input : list Z) : Prop :=
  match instances rt with
  | id :: _ => ∀ i c, arcs rt !! id = Some (i, c) → call_allowed id i its input
  | [] => True
  end.

Lemma new_instance_fresh limit i :
  Instance_new limit = Ok i →
  guest i = new_guest ∧ cached_alloc_ptr i = None ∧ cached_alloc_len i = None.
Proof. unfold Instance_new. case_match; [|done]. by intros [= <-]. Qed.

Lemma fresh_block_ok i : cached_alloc_ptr i = None → cached_alloc_len i = None → block_ok i.
Proof. unfold block_ok. by intros -> ->. Qed.

Lemma fresh_call_allowed id i its input :
  cached_alloc_len i = None → call_allowed id i its input.
Proof. unfold call_allowed, grows. by intros ->. Qed.

(** An instance ready for a call. *)
Definition ready (ls : list Z) (rt : Runtime) its bs (input : list Z) (id : Z) (i : Instance)
  : Prop :=
  runtime_ok (id :: ls) rt its bs ∧ (∃ c, arcs rt !! id = Some (i, c)) ∧ block_ok i ∧
  (id ∉ instances rt) ∧ call_allowed id i (map fst its) input.

Lemma new_instance_ready ls rt its bs input :
  runtime_ok ls rt its bs →
  let '(r, rt') := new_instance rt in
  functions rt' = functions rt ∧
  match r with
  | Ok id => ∃ i, ready ls rt' its bs input id i ∧ Instance_new (file_size_limit rt) = Ok i
  | Err _ => rt' = rt ∧ complete_exports = false
  | Panic _ => False
  end.
Proof.
  intros Hok. pose proof (new_instance_ok _ _ _ _ Hok) as H.
  destruct (new_instance rt) as [[id| |] rt']; destruct H as (Hpool & Hfun & _ & H); [|done|done].
  destruct H as (Hok' & Hnot & _ & i & Hi & Hnew). split; [done|]. exists i. split; [|done].
  destruct (new_instance_fresh _ _ Hnew) as (_ & Hp & Hl).
  split; [done|]. split; [eauto|]. split; [by apply fresh_block_ok|].
  split; [by rewrite Hpool|by apply fresh_call_allowed].
Qed.

Lemma acquire_ok rt its bs input :
  runtime_ok [] rt its bs → next_call_allowed rt (map fst its) input →
  let '(r, rt') := acquire rt in
  functions rt' = functions rt ∧
  match r with
  | Ok id => ∃ i, ready [] rt' its bs input id i ∧ caller rt = Some i
  | Err _ => rt' = rt ∧ caller rt = None ∧ complete_exports = false
  | Panic _ => False
  end.
Proof.
  intros Hok Hall. unfold acquire, run_bind, pop_front, caller, next_call_allowed in *.
  destruct (instances rt) as [|id ids] eqn:Hpool.
  - pose proof (new_instance_ready _ _ _ _ input Hok) as H.
    destruct (new_instance rt) as [[id|e|] rt'] eqn:Hnew; destruct H as [Hfun H]; [|destruct H|done].
    + destruct H as (i & Hr & ->). eauto.
    + split; [done|]. split; [done|]. split; [|done]. unfold new_instance, run_bind, gets, lift in Hnew.
      by destruct (Instance_new (file_size_limit rt)).
  - unfold run_ret. split; [done|]. set (rt' := mkRuntime _ _ _ _ _).
    destruct (holder_arc _ _ _ _ id Hok) as (i & c & Hi).
    { unfold holders. rewrite Hpool. left. }
    exists i. rewrite Hi. split; [|done].
    pose proof (ro_pool _ _ _ _ Hok) as Hnd. rewrite Hpool in Hnd. apply NoDup_cons in Hnd as [Hnot Hnd].
    assert (Hh : ∀ id', count id' (holders [id] rt' its bs) = count id' (holders [] rt its bs)).
    { intros id'. unfold holders. by rewrite Hpool. }
    split; [|split; [eauto|]]; [|split; [|split; [done|by apply (Hall i c)]]].
    + split; [| |done|apply Hok].
      * intros id' j d Hj. destruct (ro_arcs _ _ _ _ Hok _ _ _ Hj). split; try done.
        -- by rewrite Hh.
        -- intros Hin. apply io_pool0. rewrite Hpool. by right.
      * intros id' Hid. rewrite Hh. by apply Hok.
    + eapply (io_pool _ _ _ _ _ _ _ (ro_arcs _ _ _ _ Hok _ _ _ Hi)). rewrite Hpool. left.
Qed.

(** The two ways a call ends: the instance decoded the input and is back in the pool, or
    it refused for a reason and the call goes on without it. *)
Lemma call_and_return_ok ls rt its bs id i name input (otherwise : Run Runtime BufferIter) :
  ready ls rt its bs input id i →
  (∃ it bufs rt' i' c', call_and_return id name input otherwise rt = (Ok it, rt') ∧
     decodes name input bufs ∧ runtime_ok ls rt' ((it, bufs) :: its) bs ∧
     functions rt' = functions rt ∧ arcs rt' !! bi_instance it = Some (i', c') ∧
     bi_instance it ∈ instances rt' ∧
     allot (blocks (guest i)) (call_reqs i input) = Some (blocks (guest i'))) ∨
  (∃ rt', call_and_return id name input otherwise rt = otherwise rt' ∧
     functions rt' = functions rt ∧ runtime_ok (id :: ls) rt' its bs ∧
     (allot (blocks (guest i)) (call_reqs i input) = None ∨ call_hopeless name input i)).
Proof.
  intros (Hok & (c & Hi) & Hb & Hpool & Hall).
  pose proof (generic_on_ok _ _ _ _ _ _ _ name input Hok Hi Hb Hpool Hall) as H.
  unfold call_and_return, run_bind, run_try.
  destruct (generic_on id name input rt) as [[it|e|pk] rt1]; destruct H as (Hp1 & Hf1 & _ & H); [left| |done].
  - destruct H as (bufs & i' & c' & Hdec & Hid & Hok1 & Hi1 & Hb1 & Ha).
    destruct (give_back_ok _ _ _ _ _ _ _ Hok1 Hi1 Hb1) as (rt2 & -> & Hok2 & Hi2 & Hp2 & Hf2).
    { by rewrite Hp1. }
    exists it, bufs, rt2, i', c'. rewrite Hid. split; [done|]. split; [done|]. split; [done|].
    split; [congruence|]. split; [done|]. split; [|done]. rewrite Hp2. apply elem_of_app. right. left.
  - right. destruct H as [Hok1 Hwhy]. by exists rt1.
Qed.

(** A call gives an iterator over what its function decodes, in any state of the pool. *)
Lemma call_multi_buf_ok rt its bs name input :
  runtime_ok [] rt its bs → next_call_allowed rt (map fst its) input →
  let '(r, rt') := call_multi_buf name input rt in
  functions rt' = functions rt ∧
  match r with
  | Ok it => ∃ bufs, decodes name input bufs ∧ runtime_ok [] rt' ((it, bufs) :: its) bs
  | Err _ => runtime_ok [] rt' its bs ∧ (name ∉ functions rt ∨ complete_exports = false)
  | Panic _ => True
  end.
Proof.
  intros Hok Hall. unfold call_multi_buf, run_bind at 1, gets at 1. case_bool_decide; [|by split; [|split; [|left]]].
  unfold run_bind at 1. pose proof (acquire_ok _ _ _ _ Hok Hall) as H1.
  destruct (acquire rt) as [[id|e|pk] rt1]; destruct H1 as [Hf1 H1]; [|by destruct H1 as (-> & _ & ?); split; [|split; [|right]]|done].
  destruct H1 as (i & Hready & _).
  destruct (call_and_return_ok _ _ _ _ _ _ name input
    (let* _ := arc_drop id in let* id := new_instance in
     call_and_return id name input (lift (Panic PAssert))) Hready)
    as [(it & bufs & rt2 & ? & ? & -> & Hdec & Hok2 & Hf2 & _)|(rt2 & -> & Hf2 & Hok2 & _)].
  { split; [congruence|eauto]. }
  destruct (holder_arc _ _ _ _ id Hok2) as (j & c & Hj); [left|].
  unfold run_bind at 1. pose proof (arc_drop_ok _ _ _ _ _ _ _ Hok2 Hj) as H3.
  destruct (arc_drop id rt2) as [[[]|e|pk] rt3]; destruct H3 as (_ & Hf3 & _ & Hok3); [|done|split; [congruence|done]].
  unfold run_bind at 1. pose proof (new_instance_ready _ _ _ _ input Hok3) as H4.
  destruct (new_instance rt3) as [[id'|e|pk] rt4]; destruct H4 as [Hf4 H4]; [|destruct H4 as [-> ?]; split; [congruence|]; split; [done|by right]|done].
  destruct H4 as (i' & Hready' & _).
  destruct (call_and_return_ok _ _ _ _ _ _ name input (lift (Panic PAssert)) Hready')
    as [(it & bufs & rt5 & ? & ? & -> & Hdec & Hok5 & Hf5 & _)|(rt5 & -> & Hf5 & _)].
  - split; [congruence|eauto].
  - unfold lift. split; [congruence|done].
Qed.

(** With memory for it, the call succeeds on the first instance. *)
Lemma call_multi_buf_room rt its bs name input bufs i after :
  runtime_ok [] rt its bs → next_call_allowed rt (map fst its) input → name ∈ functions rt →
  decodes name input bufs → call_size input < 2 ^ 32 → caller rt = Some i →
  allot (blocks (guest i)) (call_reqs i input) = Some after →
  ∃ it rt' i' c', call_multi_buf name input rt = (Ok it, rt') ∧
    runtime_ok [] rt' ((it, bufs) :: its) bs ∧
    arcs rt' !! bi_instance it = Some (i', c') ∧ bi_instance it ∈ instances rt' ∧
    after = blocks (guest i').
Proof.
  intros Hok Hall Hname Hdec Hsize Hcaller Hafter.
  unfold call_multi_buf, run_bind at 1, gets at 1. rewrite bool_decide_eq_true_2 by done.
  unfold run_bind at 1. pose proof (acquire_ok _ _ _ _ Hok Hall) as H1.
  destruct (acquire rt) as [[id|e|pk] rt1]; destruct H1 as [Hf1 H1];
    [|destruct H1 as (_ & ? & _); congruence|done].
  destruct H1 as (i1 & Hready & Hi1). rewrite Hcaller in Hi1. injection Hi1 as <-.
  destruct (call_and_return_ok _ _ _ _ _ _ name input
    (let* _ := arc_drop id in let* id := new_instance in
     call_and_return id name input (lift (Panic PAssert))) Hready)
    as [(it & bufs' & rt2 & i' & c' & Hcall & Hdec' & Hok2 & _ & Hi' & Hin & Ha)|(_ & _ & _ & _ & Hwhy)].
  - assert (bufs' = bufs) as ->.
    { destruct Hdec as (f & _ & _ & Hf & Hb), Hdec' as (f' & _ & _ & Hf' & Hb'). congruence. }
    exists it, rt2, i', c'. split; [exact Hcall|]. split; [done|]. split; [done|]. split; [done|]. congruence.
  - destruct Hwhy as [|[?|[Hr|Hno]]]; [congruence|lia| |by destruct (Hno bufs)].
    destruct Hready as (_ & _ & _ & _ & Hall'). destruct Hr as [Hg Hr].
    destruct (Hall' Hg) as [_ Hnot]. by destruct Hnot.
Qed.

(** ** Iterators and buffers *)

Lemma block_ok_framed i g' W D :
  block_ok i → framed W D (guest i) g' →
  (∀ p, p ∈ D → ∃ o, heap (guest i) !! p = Some o ∧ ∀ n a, o ≠ ORaw n a) →
  block_ok (set_guest g' i).
Proof.
  unfold block_ok. cbn. intros Hb Hf HD. destruct (cached_alloc_ptr i), (cached_alloc_len i); try done.
  destruct Hb as (m & Hm & ?). exists m. split; [|done]. eapply frame_heap; [exact Hf| |done].
  intros Hin%HD. naive_solver.
Qed.

Lemma raw_not_owned ls rt its bs id i c l :
  runtime_ok ls rt its bs → arcs rt !! id = Some (i, c) → l ∈ its → bi_instance l.1 = id →
  ∃ n, heap (guest i) !! bi_alloc_ptr l.1 = Some (ORaw n 4).
Proof.
  intros Hok Hi Hl Hid.
  destruct (io_iters _ _ _ _ _ _ _ (ro_arcs _ _ _ _ Hok _ _ _ Hi) l Hl Hid) as [_ (n & Hn & _)].
  eauto.
Qed.

(** Objects that are no raw blocks and belong to nobody else. *)
Lemma apart_objects ls rt its bs id i c D :
  runtime_ok ls rt its bs → arcs rt !! id = Some (i, c) →
  (∀ p, p ∈ D → (id, p) ∉ owned its bs) →
  (∀ p, p ∈ D → ∃ o, heap (guest i) !! p = Some o ∧ ∀ n a, o ≠ ORaw n a) →
  apart id D its bs.
Proof.
  intros Hok Hi Hno Hobj. split; [done|]. intros l Hl Hid Hin.
  destruct (raw_not_owned _ _ _ _ _ _ _ _ Hok Hi Hl Hid) as [n Hn].
  destruct (Hobj _ Hin) as (o & Ho & Hraw). naive_solver.
Qed.

Lemma next_ok ls rt it bufs its bs :
  runtime_ok ls rt ((it, bufs) :: its) bs →
  let '(r, rt') := BufferIter_next it rt in
  functions rt' = functions rt ∧ instances rt' = instances rt ∧
  match r with
  | Ok (Some w) => ∃ b bufs' i c i' c', bufs = b :: bufs' ∧
      runtime_ok ls rt' ((it, bufs') :: its) ((w, b) :: bs) ∧
      arcs rt !! bi_instance it = Some (i, c) ∧ arcs rt' !! bi_instance it = Some (i', c') ∧
      allot (blocks (guest i)) (buffer_reqs b) = Some (blocks (guest i'))
  | Ok None => bufs = [] ∧ runtime_ok ls rt' ((it, []) :: its) bs
  | Err _ => False
  | Panic _ => ∃ b bufs' i c, bufs = b :: bufs' ∧ arcs rt !! bi_instance it = Some (i, c) ∧
      allot (blocks (guest i)) (buffer_reqs b) = None
  end.
Proof.
  intros (Hok & (i & c & Hi & Hptr & Hout) & Hnot)%runtime_iter. cbn in Hptr, Hout.
  unfold iter_addr in Hnot. cbn in Hnot. set (id := bi_instance it) in *.
  pose proof (ro_arcs _ _ _ _ Hok _ _ _ Hi) as Hio. pose proof (io_guest _ _ _ _ _ _ _ Hio) as Hg.
  pose proof Hout as (n & Hn & _).
  assert (HW : ∀ p, p ∈ [bi_alloc_ptr it] →
            heap (guest i) !! p = None ∨ ∃ n a, heap (guest i) !! p = Some (ORaw n a)).
  { intros p ->%list_elem_of_singleton. eauto. }
  unfold BufferIter_next, run_bind, run_unwrap. fold id. rewrite (with_instance_eq _ _ _ _ _ Hi).
  destruct bufs as [|b bufs].
  - pose proof (runs_stdio _ _ _ _ _ _ _ (next_end_runs _ _ _ Hg Hout Hptr)) as Hrun.
    unfold runs in Hrun. destruct (append_stdio _ i) as [r i'] eqn:Hr. cbn [fst snd].
    destruct Hrun as (Hg' & Hf & Hres). destruct r as [r|e|]; [|by destruct Hres|done].
    destruct Hres as (_ & g' & -> & -> & Hh). unfold run_ret.
    split; [done|]. split; [done|]. split; [done|]. apply runtime_iter. split; [|split; [|done]].
    + eapply runtime_framed; [done|done|done|exact Hf|done| |].
      * split; [intros p Hp; by apply not_elem_of_nil in Hp|intros; apply not_elem_of_nil].
      * intros Hpool. eapply block_ok_framed; [by eapply io_pool|exact Hf|].
        intros p Hp. by apply not_elem_of_nil in Hp.
    + exists (set_guest g' i), c. split; [apply lookup_insert_eq|].
      unfold iter_ok, out_block in *. cbn. by rewrite Hh.
  - pose proof (runs_stdio _ _ _ _ _ _ _ (next_runs _ _ _ _ _ Hg Hout Hptr)) as Hrun.
    unfold runs in Hrun. destruct (append_stdio _ i) as [r i'] eqn:Hr. cbn [fst snd].
    destruct Hrun as (Hg' & Hf & Hres). destruct r as [r|e|]; [| |done].
    2:{ destruct Hres as [Hres|[]]. split; [done|]. split; [done|]. by exists b, bufs, i, c. }
    destruct Hres as (Ha & p & box & g' & -> & -> & Hheld & Hbox & Hp & Hh). cbn [guest set_guest] in *.
    assert (HD : ∀ q, q ∈ [bi_ptr it] → ∃ o, heap (guest i) !! q = Some o ∧ ∀ n a, o ≠ ORaw n a).
    { intros q ->%list_elem_of_singleton. eauto. }
    assert (Hok1 : runtime_ok (id :: ls) (set_arcs rt (<[id := (set_guest g' i, c)]> (arcs rt))) its bs).
    { eapply runtime_framed; [done|done|done|exact Hf|done| |].
      - eapply apart_objects; [done|done| |done]. by intros q ->%list_elem_of_singleton.
      - intros Hpool. eapply block_ok_framed; [by eapply io_pool|exact Hf|done]. }
    set (rt1 := set_arcs rt _) in *.
    assert (Hi1 : arcs rt1 !! id = Some (set_guest g' i, c)) by apply lookup_insert_eq.
    unfold host_base. rewrite Hi1. destruct (clone_ok _ _ _ _ _ _ _ Hok1 Hi1) as [-> Hok2]. unfold run_ret.
    set (rt2 := set_arcs rt1 _) in *.
    assert (Hi2 : arcs rt2 !! id = Some (set_guest g' i, c + 1)) by apply lookup_insert_eq.
    split; [done|]. split; [done|].
    exists b, bufs, i, c, (set_guest g' i), (c + 1). split; [done|]. split; [|done].
    apply runtime_buf. cbn [wb_instance]. split; [|split; [|split]].
    + apply runtime_iter. split; [done|]. split; [|done].
      exists (set_guest g' i), (c + 1). split; [done|]. split; cbn.
      * rewrite Hh. unfold handed. rewrite lookup_insert_ne by congruence. apply lookup_insert_eq.
      * eapply out_block_framed; [exact Hf| |done].
        intros Heq%list_elem_of_singleton. rewrite Heq in Hn. congruence.
    + exists (set_guest g' i), (c + 1). split; [done|]. split; [|split; [done|split; [done|by eexists]]].
      cbn. rewrite Hh. apply lookup_insert_eq.
    + unfold buf_addrs, buffer_addrs. cbn. destruct (Z.eqb_spec (len b) 0) as [|Hb]; cbn.
      * apply NoDup_singleton.
      * apply NoDup_cons. split; [|apply NoDup_singleton]. intros [= ->]%list_elem_of_singleton.
        destruct Hp as [_ Hne]; [|done]. intros ->. by rewrite (len_nil (A:=Z)) in Hb.
    + unfold buf_addrs, buffer_addrs. cbn. intros a Ha' Hin.
      assert (Hfresh : ∃ q, a = (id, q) ∧ heap (guest i) !! q = None).
      { destruct (Z.eqb_spec (len b) 0) as [|Hb]; cbn in Ha'.
        - apply list_elem_of_singleton in Ha' as ->. eauto.
        - apply elem_of_cons in Ha' as [->|Ha']; [eauto|]. apply list_elem_of_singleton in Ha' as ->.
          destruct Hp as [Hp _]; [|eauto]. intros ->. by rewrite (len_nil (A:=Z)) in Hb. }
      destruct Hfresh as (q & -> & Hq). unfold owned in Hin. cbn in Hin.
      apply elem_of_cons in Hin as [[= ->]|Hin]; [congruence|].
      destruct (owned_object _ _ _ _ _ _ _ _ Hok Hi Hin) as (o & Ho & _). congruence.
Qed.

Lemma allot_frees bs ps : ∃ bs', allot bs (map RFree ps) = Some bs'.
Proof. revert bs. induction ps as [|p ps IH]; intros bs; cbn; eauto. Qed.

(** Dropping an object of an instance and then an owner of the instance. *)
Lemma drop_object ls rt its bs id i c (m : Run Guest unit) D reqs :
  runtime_ok (id :: ls) rt its bs → arcs rt !! id = Some (i, c) →
  (∀ p, p ∈ D → (id, p) ∉ owned its bs) →
  (∀ p, p ∈ D → ∃ o, heap (guest i) !! p = Some o ∧ ∀ n a, o ≠ ORaw n a) →
  ends [] D m (guest i) (map RFree reqs) (λ _ _, True) →
  let '(r, rt') := (let* _ := run_unwrap (with_instance id (call_guest m)) in arc_drop id) rt in
  functions rt' = functions rt ∧ instances rt' = instances rt ∧
  match r with
  | Ok _ => runtime_ok ls rt' its bs
  | Err _ => False
  | Panic _ => id ∉ holders ls rt its bs
  end.
Proof.
  intros Hok Hi HD Hobj Hm. unfold run_bind, run_unwrap. rewrite (with_instance_eq _ _ _ _ _ Hi).
  unfold ends, call_guest in *. destruct (m (guest i)) as [r g']. cbn [fst snd].
  destruct (allot_frees (blocks (guest i)) reqs) as [after Hfrees].
  destruct Hm as (Hg' & Hf & Hr). destruct r as [[]|e|pk]; [|done|congruence].
  assert (Hok1 : runtime_ok (id :: ls) (set_arcs rt (<[id := (set_guest g' i, c)]> (arcs rt))) its bs).
  { eapply runtime_framed; [done|done|done|exact Hf| |by eapply apart_objects|].
    - intros p Hp. by apply not_elem_of_nil in Hp.
    - intros Hpool. eapply block_ok_framed; [|exact Hf|done].
      by apply (io_pool _ _ _ _ _ _ _ (ro_arcs _ _ _ _ Hok _ _ _ Hi)). }
  set (rt1 := set_arcs rt _) in *.
  assert (Hi1 : arcs rt1 !! id = Some (set_guest g' i, c)) by apply lookup_insert_eq.
  pose proof (arc_drop_ok _ _ _ _ _ _ _ Hok1 Hi1) as Hdrop.
  destruct (decide (id ∈ holders ls rt its bs)) as [Hin|Hnot].
  - destruct (drop_shared _ _ _ _ _ _ _ Hok1 Hi1 Hin) as [Heq Hok2]. rewrite Heq. done.
  - destruct (arc_drop id rt1) as [[[]|e|pk] rt2]; destruct Hdrop as (Hp & Hfun & _ & Hdrop); done.
Qed.

Lemma iter_drop_ok ls rt it bufs its bs :
  runtime_ok ls rt ((it, bufs) :: its) bs →
  let '(r, rt') := BufferIter_drop it rt in
  functions rt' = functions rt ∧ instances rt' = instances rt ∧
  match r with
  | Ok _ => runtime_ok ls rt' its bs
  | Err _ => False
  | Panic _ => bi_instance it ∉ holders ls rt its bs
  end.
Proof.
  intros (Hok & (i & c & Hi & Hptr & Hout) & Hnot)%runtime_iter. cbn in Hptr, Hout.
  pose proof (io_guest _ _ _ _ _ _ _ (ro_arcs _ _ _ _ Hok _ _ _ Hi)) as Hg.
  apply (drop_object _ _ _ _ _ _ _ _ [bi_ptr it] [bi_ptr it] Hok Hi).
  - by intros p ->%list_elem_of_singleton.
  - intros p ->%list_elem_of_singleton. eauto.
  - by eapply iterator_drop_ends; [done|left|done|].
Qed.

Lemma buf_drop_ok ls rt its w b bs :
  runtime_ok ls rt its ((w, b) :: bs) →
  let '(r, rt') := WasmBuffer_drop w rt in
  functions rt' = functions rt ∧ instances rt' = instances rt ∧
  match r with
  | Ok _ => runtime_ok ls rt' its bs
  | Err _ => False
  | Panic _ => wb_instance w ∉ holders ls rt its bs
  end.
Proof.
  intros (Hok & (i & c & Hi & Hbox & Hlen & (Hb & Hp0 & Hd) & _) & Hnd & Hnot)%runtime_buf.
  cbn in Hbox, Hlen, Hb, Hd.
  pose proof (io_guest _ _ _ _ _ _ _ (ro_arcs _ _ _ _ Hok _ _ _ Hi)) as Hg.
  set (D := buffer_addrs (arrow_buffer_address w) (guest_ptr w) (wb_len w)).
  apply (drop_object _ _ _ _ _ _ _ _ D D Hok Hi).
  - intros p Hp. apply Hnot. unfold buf_addrs. cbn. apply list_elem_of_fmap. by exists p.
  - intros p Hp. unfold D, buffer_addrs in Hp. destruct (Z.eqb_spec (wb_len w) 0) as [|Hne].
    + apply list_elem_of_singleton in Hp as ->. eauto.
    + apply elem_of_cons in Hp as [->|Hp]; [eauto|]. apply list_elem_of_singleton in Hp as ->.
      rewrite Hd; [eauto|]. intros ->. by rewrite Hlen, (len_nil (A:=Z)) in Hne.
  - by eapply buffer_drop_ends; [done| |done|].
Qed.

(** ** Reading live buffers *)

(** The bytes of a buffer in the memory of the guest. *)
Definition guest_bytes (rt : Runtime) (w : WasmBuffer) : outcome (list Z) :=
  let! '(i, _) := unwrap (arcs rt !! wb_instance w) in
  slice (mem (guest i)) (guest_ptr w) (guest_ptr w + wb_len w).

(** The memory of the instance is where it was when the host got the buffer. *)
Definition in_place (rt : Runtime) (w : WasmBuffer) : Prop :=
  ∃ i c, arcs rt !! wb_instance w = Some (i, c) ∧
    host_ptr w = memory_base (wb_instance w) (len (mem (guest i))) + guest_ptr w.

(** The engine does not move the memory of the instance, as when it reserves the whole
    address space of a memory at once. *)
Definition fixed_base (id : Z) : Prop := ∀ n m, memory_base id n = memory_base id m.

(** The guest keeps the bytes of the buffer; the host reads them as long as the memory is
    in place, always if the engine does not move it. *)
Definition reads_as (rt : Runtime) (w : WasmBuffer) (b : list Z) : Prop :=
  guest_bytes rt w = Ok b ∧ (in_place rt w → WasmBuffer_as_ref rt w = Ok b) ∧
  (fixed_base (wb_instance w) → in_place rt w).

Lemma in_place_reads rt w : in_place rt w → WasmBuffer_as_ref rt w = guest_bytes rt w.
Proof.
  intros (i & c & Hi & Hp). unfold WasmBuffer_as_ref, guest_bytes. rewrite Hi, Hp. cbn.
  by rewrite Z.add_simpl_l.
Qed.

Lemma live_buffer_reads ls rt its bs w b :
  runtime_ok ls rt its bs → (w, b) ∈ bs → reads_as rt w b.
Proof.
  intros Hok Hin. destruct (holder_arc _ _ _ _ (wb_instance w) Hok) as (i & c & Hi).
  { unfold holders. rewrite !elem_of_app. right. right. right. apply list_elem_of_fmap. by exists (w, b). }
  destruct (io_bufs _ _ _ _ _ _ _ (ro_arcs _ _ _ _ Hok _ _ _ Hi) _ Hin eq_refl)
    as (_ & Hlen & (Hb & _) & n & Hn). cbn in *.
  assert (Hg : guest_bytes rt w = Ok b).
  { unfold guest_bytes. rewrite Hi. cbn. rewrite Hlen. by apply located_slice. }
  split; [done|]. split.
  - intros Hp. by rewrite in_place_reads.
  - intros Hfixed. exists i, c. split; [done|]. by rewrite Hn, (Hfixed n (len (mem (guest i)))).
Qed.

(** ** A whole iterator *)

Lemma collect_S n it :
  collect_buffers (S n) it =
    let* b := BufferIter_next it in
    match b with
    | Some b => let* bs := collect_buffers n it in run_ret (b :: bs)
    | None => let* _ := BufferIter_drop it in run_ret []
    end.
Proof. done. Qed.

Lemma collect_ok ls rt it bufs its bs i c :
  runtime_ok ls rt ((it, bufs) :: its) bs → bi_instance it ∈ instances rt →
  arcs rt !! bi_instance it = Some (i, c) →
  is_Some (allot (blocks (guest i)) (concat (map buffer_reqs bufs))) →
  ∃ ws rt', collect_buffers (S (length bufs)) it rt = (Ok ws, rt') ∧
    length ws = length bufs ∧ runtime_ok ls rt' its (zip ws bufs ++ bs).
Proof.
  revert rt bs i c. induction bufs as [|b bufs IH]; intros rt bs i c Hok Hpool Hi Hroom;
    cbn [length]; rewrite collect_S.
  - unfold run_bind at 1. pose proof (next_ok _ _ _ _ _ _ Hok) as H.
    destruct (BufferIter_next it rt) as [[[w|]|e|pk] rt1]; destruct H as (_ & Hp1 & H); try naive_solver.
    destruct H as [_ Hok1]. unfold run_bind. pose proof (iter_drop_ok _ _ _ _ _ _ Hok1) as Hd.
    destruct (BufferIter_drop it rt1) as [[[]|e|pk] rt2]; destruct Hd as (_ & _ & Hd); [|done|].
    + exists [], rt2. split; [done|]. split; [done|]. exact Hd.
    + destruct Hd. unfold holders. rewrite !elem_of_app, Hp1. by right; left.
  - cbn [map concat] in Hroom. rewrite allot_app in Hroom. destruct Hroom as [after Hroom].
    destruct (allot (blocks (guest i)) (buffer_reqs b)) as [mid|] eqn:Hmid; [|done]. cbn in Hroom.
    unfold run_bind at 1. pose proof (next_ok _ _ _ _ _ _ Hok) as H.
    destruct (BufferIter_next it rt) as [[[w|]|e|pk] rt1]; destruct H as (_ & Hp1 & H);
      [|by destruct H|done|by destruct H as (? & ? & ? & ? & [= <- <-] & ? & ?); congruence].
    destruct H as (b' & bufs' & j & d & i' & c' & [= <- <-] & Hok1 & Hj & Hi' & Ha).
    rewrite Hi in Hj. injection Hj as <- <-.
    destruct (IH rt1 ((w, b) :: bs) i' c' Hok1) as (ws & rt2 & Hcoll & Hlen & Hok2);
      [by rewrite Hp1|done|rewrite Hmid in Ha; injection Ha as <-; eauto|].
    unfold run_bind. rewrite Hcoll. exists (w :: ws), rt2.
    split; [done|]. split; [cbn; by rewrite Hlen|].
    eapply runtime_perm; [done|done| |exact Hok2]. cbn. by rewrite Permutation_middle.
Qed.
End Facts.
