(* ===== verification/WasmDecoding.v ===== *)
(** * Decoding through the WASM runtime

    What the reader of a file gets from the runtime: the buffers that the decoder of the
    plug-in gives for the bytes of an encoding unit.  The guest keeps their bytes as long
    as they live; the host reads them as long as the engine leaves the memory in place.
    The orders of calls that break this, and the buffers that dangle when a memory moves,
    are shown at the end. *)
From S2P Require Import Prelude Buffers Guest GuestFacts Wasm WasmFacts RuntimeFacts.
Open Scope Z_scope.

Section Decoding.
Context `{P : Plugin} `{!PluginLaws P} `{En : Engine}.

(** A runtime that was just made. *)
Lemma init_runtime_ok limit rt : init_from_module limit = Ok rt → runtime_ok [] rt [] [].
Proof.
  unfold init_from_module. intros H. apply obind_Ok in H as (v & _ & [= <-]).
  split; [done|done|apply NoDup_nil_2|apply NoDup_nil_2].
Qed.

(** [self.rt.call_multi_buf(..)] and all the buffers of its iterator. *)
Definition decode_unit (name : string) (input : list Z) (n : nat) : Run Runtime (list WasmBuffer) :=
  let* it := call_multi_buf name input in
  collect_buffers (S n) it.

(** What a call and the iteration over [bufs] ask of the allocator. *)
Definition unit_reqs (i : Instance) (input : list Z) (bufs : list (list Z)) : list Req :=
  call_reqs i input ++ concat (map buffer_reqs bufs).

Lemma decode_unit_ok rt its bs name input bufs i :
  runtime_ok [] rt its bs → next_call_allowed rt (map fst its) input → name ∈ functions rt →
  decodes name input bufs → call_size input < 2 ^ 32 → caller rt = Some i →
  is_Some (allot (blocks (guest i)) (unit_reqs i input bufs)) →
  ∃ ws rt', decode_unit name input (length bufs) rt = (Ok ws, rt') ∧
    length ws = length bufs ∧ runtime_ok [] rt' its (zip ws bufs ++ bs).
Proof.
  intros Hok Hall Hname Hdec Hsize Hcaller [after Hroom].
  unfold unit_reqs in Hroom. rewrite allot_app in Hroom.
  destruct (allot (blocks (guest i)) (call_reqs i input)) as [mid|] eqn:Hmid; [|done].
  destruct (call_multi_buf_room _ _ _ _ _ _ _ _ Hok Hall Hname Hdec Hsize Hcaller Hmid)
    as (it & rt1 & i' & c' & Hcall & Hok1 & Hi' & Hin & ->).
  destruct (collect_ok _ _ _ _ _ _ _ _ Hok1 Hin Hi') as (ws & rt2 & Hcoll & Hlen & Hok2).
  { cbn in Hroom. eauto. }
  exists ws, rt2. split; [unfold decode_unit, run_bind; by rewrite Hcall|by split].
Qed.

(** C10: decoding an encoding unit through the sandbox is the same as calling the decoder.
    Other iterators and buffers may be live.  If the instance that takes the call has
    memory for it, and the call does not replace an input block that a live iterator of
    the instance uses or that the allocator refuses to take back ([next_call_allowed]),
    then the call and the iteration over its result give one buffer for each buffer of
    the decoder, and the iterator is gone.  Every buffer, these and those that were live
    before, has its bytes in the memory of the guest; through its host pointer it is read
    with them while the memory has not moved since the pointer was made, which is always
    so if the engine does not move memories ([reads_as]). *)
Theorem wasm_decode_transparent rt its bs name input bufs i :
  runtime_ok [] rt its bs → next_call_allowed rt (map fst its) input → name ∈ functions rt →
  decodes name input bufs → call_size input < 2 ^ 32 → caller rt = Some i →
  is_Some (allot (blocks (guest i)) (unit_reqs i input bufs)) →
  ∃ ws rt', decode_unit name input (length bufs) rt = (Ok ws, rt') ∧
    length ws = length bufs ∧ runtime_ok [] rt' its (zip ws bufs ++ bs) ∧
    ∀ w b, (w, b) ∈ zip ws bufs ++ bs → reads_as rt' w b.
Proof.
  intros Hok Hall Hname Hdec Hsize Hcaller Hroom.
  destruct (decode_unit_ok _ _ _ _ _ _ _ Hok Hall Hname Hdec Hsize Hcaller Hroom)
    as (ws & rt' & Hrun & Hlen & Hok').
  exists ws, rt'. split_and!; [done..|]. intros w b Hw. by eapply live_buffer_reads.
Qed.

(** C33: the runtime does not report that an input cannot be decoded: the call is tried
    again on a new instance and then panics. *)
Theorem wasm_undecodable_panics rt its bs name input :
  runtime_ok [] rt its bs → next_call_allowed rt (map fst its) input → name ∈ functions rt →
  complete_exports = true → undecodable name input →
  ∃ p rt', call_multi_buf name input rt = (Panic p, rt').
Proof.
  intros Hok Hall Hname Hexp Hno. pose proof (call_multi_buf_ok _ _ _ name _ Hok Hall) as H.
  destruct (call_multi_buf name input rt) as [[it|e|p] rt']; destruct H as [_ H]; [| |eauto].
  - destruct H as (bufs & Hdec & _). by destruct (Hno bufs).
  - destruct H as [_ [|]]; [done|congruence].
Qed.

(** ** Interleaved use *)

(** Iterators and buffers with the call they come from; for an iterator the number of
    buffers taken, for a buffer its number. *)
Abbreviation Call := (string * list Z)%type.

Record Sys := mkSys {
  sys_rt : Runtime;
  sys_iters : list (BufferIter * (Call * nat));
  sys_bufs : list (WasmBuffer * (Call * nat));
}.

(** A call is a step only when it is allowed. *)
Inductive sys_step : Sys → Sys → Prop :=
  | step_call rt its bs name input it rt' :
      next_call_allowed rt (map fst its) input →
      call_multi_buf name input rt = (Ok it, rt') →
      sys_step (mkSys rt its bs) (mkSys rt' ((it, ((name, input), O)) :: its) bs)
  | step_call_error rt its bs name input e rt' :
      next_call_allowed rt (map fst its) input →
      call_multi_buf name input rt = (Err e, rt') →
      sys_step (mkSys rt its bs) (mkSys rt' its bs)
  | step_next rt its1 it call k its2 bs w rt' :
      BufferIter_next it rt = (Ok (Some w), rt') →
      sys_step (mkSys rt (its1 ++ (it, (call, k)) :: its2) bs)
        (mkSys rt' (its1 ++ (it, (call, S k)) :: its2) ((w, (call, k)) :: bs))
  | step_end rt its1 it call k its2 bs rt' :
      BufferIter_next it rt = (Ok None, rt') →
      sys_step (mkSys rt (its1 ++ (it, (call, k)) :: its2) bs)
        (mkSys rt' (its1 ++ (it, (call, k)) :: its2) bs)
  | step_drop_iter rt its1 it c its2 bs rt' :
      BufferIter_drop it rt = (Ok tt, rt') →
      sys_step (mkSys rt (its1 ++ (it, c) :: its2) bs) (mkSys rt' (its1 ++ its2) bs)
  | step_drop_buffer rt its bs1 w c bs2 rt' :
      WasmBuffer_drop w rt = (Ok tt, rt') →
      sys_step (mkSys rt its (bs1 ++ (w, c) :: bs2)) (mkSys rt' its (bs1 ++ bs2)).

Definition reachable (s : Sys) : Prop :=
  ∃ limit rt, init_from_module limit = Ok rt ∧ rtc sys_step (mkSys rt [] []) s.

(** What an iterator still yields, and which bytes a buffer has. *)
Definition iter_means (l : BufferIter * (Call * nat)) (m : BufferIter * list (list Z)) : Prop :=
  l.1 = m.1 ∧ ∃ bufs, decodes l.2.1.1 l.2.1.2 bufs ∧ m.2 = drop l.2.2 bufs ∧ (l.2.2 ≤ length bufs)%nat.
Definition buf_means (l : WasmBuffer * (Call * nat)) (m : WasmBuffer * list Z) : Prop :=
  l.1 = m.1 ∧ ∃ bufs, decodes l.2.1.1 l.2.1.2 bufs ∧ bufs !! l.2.2 = Some m.2.

Definition sys_ok (s : Sys) : Prop :=
  ∃ its bs, runtime_ok [] (sys_rt s) its bs ∧ Forall2 iter_means (sys_iters s) its ∧
    Forall2 buf_means (sys_bufs s) bs.

Lemma iters_named l m : Forall2 iter_means l m → map fst l = map fst m.
Proof. induction 1 as [|a b l m [Hab _] _ IH]; cbn; [done|]. by rewrite Hab, IH. Qed.

Lemma sys_step_ok s s' : sys_step s s' → sys_ok s → sys_ok s'.
Proof.
  intros Hstep (its' & bs' & Hok & Hits & Hbs).
  destruct Hstep as [rt its bs name input it rt' Hall Hr|rt its bs name input e rt' Hall Hr
    |rt its1 it call k its2 bs w rt' Hr|rt its1 it call k its2 bs rt' Hr
    |rt its1 it c its2 bs rt' Hr|rt its bs1 w c bs2 rt' Hr];
    cbn [sys_rt sys_iters sys_bufs] in *.
  - rewrite (iters_named _ _ Hits) in Hall. pose proof (call_multi_buf_ok _ _ _ name _ Hok Hall) as H.
    rewrite Hr in H. destruct H as (_ & bufs & Hdec & Hok').
    exists ((it, bufs) :: its'), bs'. split; [done|]. split; [|done].
    constructor; [|done]. split; [done|]. exists bufs. split; [done|]. split; [done|cbn; lia].
  - rewrite (iters_named _ _ Hits) in Hall. pose proof (call_multi_buf_ok _ _ _ name _ Hok Hall) as H.
    rewrite Hr in H. destruct H as (_ & Hok' & _). by exists its', bs'.
  - apply Forall2_app_inv_l in Hits as (m1 & m2 & Hm1 & Hm2 & ->).
    apply Forall2_cons_inv_l in Hm2 as ([it' bufs] & m2' & [Heq Hit] & Hm2 & ->).
    cbn in Heq. subst it'. destruct Hit as (all & Hdec & Hrest & Hk). cbn in *.
    eapply runtime_perm in Hok; [|done|symmetry; apply Permutation_middle|done].
    pose proof (next_ok _ _ _ _ _ _ Hok) as H. rewrite Hr in H.
    destruct H as (_ & _ & b & bufs' & _ & _ & _ & _ & Hb & Hok' & _).
    exists (m1 ++ (it, bufs') :: m2'), ((w, b) :: bs'). split.
    { eapply runtime_perm; [done|apply Permutation_middle|done|exact Hok']. }
    rewrite Hrest in Hb. assert (Hlk : all !! k = Some b).
    { rewrite <-(Nat.add_0_r k), <-lookup_drop, Hb. done. }
    split.
    + apply Forall2_app; [done|]. constructor; [|done]. split; [done|]. exists all.
      split; [done|]. split; [|by apply lookup_lt_Some in Hlk].
      cbn. rewrite (drop_S _ _ _ Hlk) in Hb. by injection Hb.
    + constructor; [|done]. split; [done|]. by exists all.
  - apply Forall2_app_inv_l in Hits as (m1 & m2 & Hm1 & Hm2 & ->).
    apply Forall2_cons_inv_l in Hm2 as ([it' bufs] & m2' & [Heq Hit] & Hm2 & ->).
    cbn in Heq. subst it'.
    eapply runtime_perm in Hok; [|done|symmetry; apply Permutation_middle|done].
    pose proof (next_ok _ _ _ _ _ _ Hok) as H. rewrite Hr in H. destruct H as (_ & _ & -> & Hok').
    exists (m1 ++ (it, []) :: m2'), bs'. split; [|split; [|done]].
    { eapply runtime_perm; [done|apply Permutation_middle|done|exact Hok']. }
    apply Forall2_app; [done|]. by constructor.
  - apply Forall2_app_inv_l in Hits as (m1 & m2 & Hm1 & Hm2 & ->).
    apply Forall2_cons_inv_l in Hm2 as ([it' bufs] & m2' & [Heq _] & Hm2 & ->). cbn in Heq. subst it'.
    eapply runtime_perm in Hok; [|done|symmetry; apply Permutation_middle|done].
    pose proof (iter_drop_ok _ _ _ _ _ _ Hok) as H. rewrite Hr in H. destruct H as (_ & _ & Hok').
    exists (m1 ++ m2'), bs'. split; [done|]. split; [|done]. by apply Forall2_app.
  - apply Forall2_app_inv_l in Hbs as (m1 & m2 & Hm1 & Hm2 & ->).
    apply Forall2_cons_inv_l in Hm2 as ([w' b] & m2' & [Heq _] & Hm2 & ->). cbn in Heq. subst w'.
    eapply runtime_perm in Hok; [|done|done|symmetry; apply Permutation_middle].
    pose proof (buf_drop_ok _ _ _ _ _ _ Hok) as H. rewrite Hr in H. destruct H as (_ & _ & Hok').
    exists its', (m1 ++ m2'). split; [done|]. split; [done|]. by apply Forall2_app.
Qed.

Lemma reachable_ok s : reachable s → sys_ok s.
Proof.
  intros (limit & rt & Hinit & Hsteps).
  assert (H0 : sys_ok (mkSys rt [] [])).
  { exists [], []. split; [by eapply init_runtime_ok|]. by split. }
  induction Hsteps as [|s1 s2 s3 Hstep _ IH]; [done|]. by eapply IH, sys_step_ok.
Qed.

(** C13: calls, iteration and drops may be interleaved on the shared instances of a runtime,
    in every order in which each call is allowed: it does not replace the input block of
    an instance that still has a live iterator, nor one that the allocator refuses to take
    back.  ([stale_iterator_overwrites] and [grown_block_length_stale] show what the other
    orders do.)  The buffer with number [k] of a call keeps, at any later time, the bytes
    of the buffer with number [k] that the decoder gives for the input of that call, and
    is read with them while the memory has not moved since it was made, always if the
    engine does not move memories; and an iterator ends after the last one. *)
Theorem wasm_interleaving_safe s :
  reachable s →
  (∀ w call k, (w, (call, k)) ∈ sys_bufs s → ∃ bufs b, decodes call.1 call.2 bufs ∧
     bufs !! k = Some b ∧ reads_as (sys_rt s) w b) ∧
  (∀ it call k rt', (it, (call, k)) ∈ sys_iters s →
     BufferIter_next it (sys_rt s) = (Ok None, rt') →
     ∃ bufs, decodes call.1 call.2 bufs ∧ k = length bufs).
Proof.
  intros (its & bs & Hok & Hits & Hbs)%reachable_ok. split.
  - intros w call k Hin. apply list_elem_of_lookup in Hin as [n Hn].
    destruct (Forall2_lookup_l _ _ _ _ _ Hbs Hn) as ([w' b] & Hm & [Heq (bufs & Hdec & Hk)]).
    cbn in *. subst w'. exists bufs, b. split; [done|]. split; [done|].
    eapply live_buffer_reads; [done|]. apply list_elem_of_lookup. eauto.
  - intros it call k rt' Hin Hend. apply list_elem_of_lookup in Hin as [n Hn].
    destruct (Forall2_lookup_l _ _ _ _ _ Hits Hn) as ([it' rest] & Hm & [Heq (bufs & Hdec & Hk & Hle)]).
    cbn in *. subst it'. exists bufs. split; [done|].
    rewrite <-(take_drop n its) in Hok. rewrite (drop_S _ _ _ Hm) in Hok.
    eapply runtime_perm in Hok; [|done|symmetry; apply Permutation_middle|done].
    pose proof (next_ok _ _ _ _ _ _ Hok) as H. rewrite Hend in H. destruct H as (_ & _ & Hr & _).
    rewrite Hr in Hk. symmetry in Hk. apply (f_equal length) in Hk. rewrite length_drop in Hk.
    cbn in Hk. lia.
Qed.
End Decoding.

(** ** Running a sequence of operations *)

Section Exec.
Context `{P : Plugin} `{En : Engine}.

Inductive Op :=
  | OCall (name : string) (input : list Z)
  | ONext (n : nat)
  | ODropIter (n : nat)
  | ODropBuffer (n : nat).

Definition accepted (i : Instance) : bool :=
  match cached_alloc_ptr i, cached_alloc_len i with
  | Some p, Some n =>
      match heap (guest i) !! p with Some (ORaw m _) => dealloc_accepts m n | _ => true end
  | _, _ => true
  end.

Definition may_call (rt : Runtime) (its : list BufferIter) (input : list Z) : bool :=
  match instances rt with
  | id :: _ =>
      match arcs rt !! id with
      | Some (i, _) =>
          negb (grows i (call_size input)) ||
          (forallb (λ it, negb (bi_instance it =? id)) its && accepted i)
      | None => true
      end
  | [] => true
  end.

Lemma may_call_ok rt its input : may_call rt its input = true → next_call_allowed rt its input.
Proof.
  unfold may_call, next_call_allowed. destruct (instances rt) as [|id ids]; [done|].
  intros H i c Hi Hg. rewrite Hi, Hg in H. cbn in H. apply andb_true_iff in H as [Hits Hacc]. split.
  - intros it Hit. rewrite forallb_forall in Hits. apply list_elem_of_In, Hits in Hit.
    by apply negb_true_iff, Z.eqb_neq in Hit.
  - intros (_ & p & n & m & Hp & Hn & Hm & Hno). unfold accepted in Hacc.
    rewrite Hp, Hn, Hm in Hacc. congruence.
Qed.

Definition exec (op : Op) (s : Sys) : option Sys :=
  let '(mkSys rt its bs) := s in
  match op with
  | OCall name input =>
      if may_call rt (map fst its) input then
        match call_multi_buf name input rt with
        | (Ok it, rt') => Some (mkSys rt' ((it, ((name, input), O)) :: its) bs)
        | _ => None
        end
      else None
  | ONext n =>
      match its !! n with
      | Some (it, (call, k)) =>
          match BufferIter_next it rt with
          | (Ok (Some w), rt') =>
              Some (mkSys rt' (take n its ++ (it, (call, S k)) :: drop (S n) its) ((w, (call, k)) :: bs))
          | _ => None
          end
      | None => None
      end
  | ODropIter n =>
      match its !! n with
      | Some (it, _) =>
          match BufferIter_drop it rt with
          | (Ok _, rt') => Some (mkSys rt' (take n its ++ drop (S n) its) bs)
          | _ => None
          end
      | None => None
      end
  | ODropBuffer n =>
      match bs !! n with
      | Some (w, _) =>
          match WasmBuffer_drop w rt with
          | (Ok _, rt') => Some (mkSys rt' its (take n bs ++ drop (S n) bs))
          | _ => None
          end
      | None => None
      end
  end.

Lemma exec_step op s s' : exec op s = Some s' → sys_step s s'.
Proof.
  destruct s as [rt its bs]. destruct op as [name input|n|n|n]; cbn [exec].
  - destruct (may_call rt (map fst its) input) eqn:Hm; [|done].
    destruct (call_multi_buf name input rt) as [[it| |] rt'] eqn:Hc; [|done..].
    intros [= <-]. by apply step_call; [apply may_call_ok|].
  - destruct (its !! n) as [[it [call k]]|] eqn:Hn; [|done].
    destruct (BufferIter_next it rt) as [[[w|]| |] rt'] eqn:Hc; [|done..]. intros [= <-].
    rewrite <-(take_drop_middle _ _ _ Hn) at 1. by apply step_next.
  - destruct (its !! n) as [[it c]|] eqn:Hn; [|done].
    destruct (BufferIter_drop it rt) as [[[]| |] rt'] eqn:Hc; [|done..]. intros [= <-].
    rewrite <-(take_drop_middle _ _ _ Hn) at 1. by apply step_drop_iter.
  - destruct (bs !! n) as [[w c]|] eqn:Hn; [|done].
    destruct (WasmBuffer_drop w rt) as [[[]| |] rt'] eqn:Hc; [|done..]. intros [= <-].
    rewrite <-(take_drop_middle _ _ _ Hn) at 1. by apply step_drop_buffer.
Qed.

Fixpoint exec_all (ops : list Op) (s : Sys) : option Sys :=
  match ops with
  | [] => Some s
  | op :: ops => match exec op s with Some s => exec_all ops s | None => None end
  end.

Lemma exec_reachable limit rt ops s :
  init_from_module limit = Ok rt → exec_all ops (mkSys rt [] []) = Some s → reachable s.
Proof.
  intros Hinit Hrun. exists limit, rt. split; [done|]. revert Hrun. generalize (mkSys rt [] []).
  induction ops as [|op ops IH]; intros s0; cbn; [by intros [= ->]|].
  destruct (exec op s0) as [s1|] eqn:Hs1; [|done]. intros Hs.
  eapply rtc_l; [by eapply exec_step|by apply IH].
Qed.
End Exec.

(** ** A plug-in *)

(** A first-fit allocator: the lowest place after the start of the heap or after a block. *)
Definition first_fit (bs : gmap Z Z) (n align : Z) : option Z :=
  let l := map_to_list bs in
  let fits p := (0 <? p) && (p + n <? 2 ^ 32) &&
                forallb (λ '(q, m), (p + n <=? q) || (q + m <=? p)) l in
  head (merge_sort Z.le (filter (λ p, fits p = true)
    (map (λ p, next_multiple_of p align) (64 :: map (λ '(q, m), q + m) l)))).

(** It gives the first three bytes and the rest; 255 is not a valid start. *)
Definition split_decoder (input : list Z) : outcome (list (list Z)) :=
  if bool_decide (head input = Some 255) then Err (General "corrupted")
  else Ok [take 3 input; drop 3 input].

#[local] Instance split_plugin : Plugin := {
  DecoderState := unit;
  export_names := ["FFFUDE_VERSION_1_0"; "alloc"; "dealloc"; "buffer_iterator_next";
                   "buffer_iterator_drop"; "buffer_drop"; "memory"; "decode_general_ffi"];
  general_functions := λ _, Some split_decoder;
  init_function := None;
  decode_function := None;
  initial_memory := replicate 64 7;
  buffer_align := 4;
  dangling := 4;
  find_block := first_fit;
  dealloc_accepts := Z.eqb;
}.

#[local] Instance split_plugin_laws : PluginLaws split_plugin.
Proof.
  split; cbn.
  - intros blocks n align p Hn Hp. unfold first_fit in Hp.
    assert (Hin : p ∈ filter (λ p, (0 <? p) && (p + n <? 2 ^ 32) &&
        forallb (λ '(q, m), (p + n <=? q) || (q + m <=? p)) (map_to_list blocks) = true)
      (map (λ p, next_multiple_of p align) (64 :: map (λ '(q, m), q + m) (map_to_list blocks)))).
    { rewrite <-(merge_sort_Permutation Z.le). by apply head_Some_elem_of. }
    apply list_elem_of_filter in Hin as [Hin _]. rewrite !andb_true_iff in Hin.
    destruct Hin as [[H0 H32] Hall]. rewrite forallb_forall in Hall.
    split; [lia|]. split; [lia|]. intros q m Hq%elem_of_map_to_list%list_elem_of_In%Hall. lia.
  - apply Z.eqb_refl.
  - by vm_compute.
  - by vm_compute.
Qed.

(** An engine that reserves the address space of a memory when it is made. *)
#[local] Instance reserving_engine : Engine := { memory_base _ _ := 2 ^ 20 }.

Lemma reserved id : fixed_base id.
Proof. done. Qed.

Definition split_runtime : Runtime := mkRuntime export_names None [] ∅ 0.

Lemma split_runtime_init : init_from_module None = Ok split_runtime.
Proof. reflexivity. Qed.

Lemma split_decodes input :
  head input ≠ Some 255 → decodes "decode_general_ffi" input [take 3 input; drop 3 input].
Proof.
  intros Hh. exists split_decoder. split; [by apply (bool_decide_unpack _)|]. split; [done|].
  split; [done|]. unfold split_decoder. by rewrite bool_decide_eq_false_2.
Qed.

Lemma wasm_decode_transparent_witness :
  ∃ ws rt', decode_unit "decode_general_ffi" [1; 2; 3; 4; 5] 2 split_runtime = (Ok ws, rt') ∧
    ∀ w b, (w, b) ∈ zip ws [[1; 2; 3]; [4; 5]] → WasmBuffer_as_ref rt' w = Ok b.
Proof.
  destruct (wasm_decode_transparent split_runtime [] [] "decode_general_ffi" [1; 2; 3; 4; 5]
              [[1; 2; 3]; [4; 5]]
              (mkInstance new_guest None None (mkRamFile [] 1024) (mkRamFile [] 1024)))
    as (ws & rt' & Hrun & _ & _ & Hws).
  - exact (init_runtime_ok None _ split_runtime_init).
  - exact I.
  - by apply (bool_decide_unpack _).
  - by apply (split_decodes [1; 2; 3; 4; 5]).
  - reflexivity.
  - reflexivity.
  - eexists. vm_compute. reflexivity.
  - exists ws, rt'. split; [exact Hrun|]. intros w b Hw. rewrite app_nil_r in Hws.
    destruct (Hws w b Hw) as (_ & Hread & Hplace). exact (Hread (Hplace (reserved _))).
Defined.

Lemma wasm_undecodable_panics_witness :
  ∃ p rt', call_multi_buf "decode_general_ffi" [255; 1] split_runtime = (Panic p, rt').
Proof.
  apply (wasm_undecodable_panics split_runtime [] [] "decode_general_ffi" [255; 1]).
  - exact (init_runtime_ok None _ split_runtime_init).
  - exact I.
  - by apply (bool_decide_unpack _).
  - reflexivity.
  - intros bufs (f & _ & _ & [= <-] & Hf). discriminate Hf.
Defined.

(** Two calls whose iterators share an instance, a buffer dropped in between. *)
Definition interleaved : list Op :=
  [OCall "decode_general_ffi" [1; 2; 3; 4; 5]; ONext 0;
   OCall "decode_general_ffi" [6; 7; 8; 9]; ONext 1; ODropBuffer 1; ONext 0; ODropIter 1].

Definition interleaved_sys : Sys :=
  default (mkSys split_runtime [] []) (exec_all interleaved (mkSys split_runtime [] [])).

Lemma interleaved_runs :
  exec_all interleaved (mkSys split_runtime [] []) = Some interleaved_sys.
Proof.
  unfold interleaved_sys.
  assert (H : bool_decide (is_Some (exec_all interleaved (mkSys split_runtime [] []))) = true)
    by (vm_compute; reflexivity).
  apply bool_decide_eq_true_1 in H as [s ->]. done.
Qed.

Lemma wasm_interleaving_safe_witness :
  map snd (sys_bufs interleaved_sys) =
    [("decode_general_ffi", [6; 7; 8; 9], O); ("decode_general_ffi", [1; 2; 3; 4; 5], 1%nat)] ∧
  ∀ w call k, (w, (call, k)) ∈ sys_bufs interleaved_sys → ∃ bufs b,
    decodes call.1 call.2 bufs ∧ bufs !! k = Some b ∧
    WasmBuffer_as_ref (sys_rt interleaved_sys) w = Ok b.
Proof.
  split; [vm_compute; reflexivity|]. intros w call k Hw.
  destruct (proj1 (wasm_interleaving_safe interleaved_sys
    (exec_reachable None _ interleaved _ split_runtime_init interleaved_runs)) w call k Hw)
    as (bufs & b & Hdec & Hk & _ & Hread & Hplace).
  exists bufs, b. split; [exact Hdec|]. split; [exact Hk|]. exact (Hread (Hplace (reserved _))).
Defined.

(** ** Two defects of the block of an instance *)

Definition long_input : list Z := replicate 30 9.

(** What the shared instance 0 of a runtime believes of its block, and the real length of
    the block. *)
Definition block_lengths `{Plugin} (rt : Runtime) : option (option Z * option Z) :=
  match arcs rt !! 0 with
  | Some (i, _) =>
      Some (cached_alloc_len i,
            match cached_alloc_ptr i with Some p => blocks (guest i) !! p | None => None end)
  | None => None
  end.

(** After a call that grows the block, the instance still has the length of the first
    block: the next call that grows it gives it back with that length, which the contract
    of the allocator forbids, and fails. *)
Lemma grown_block_length_stale :
  let rt := ((let* _ := call_multi_buf "decode_general_ffi" [1; 2] in
              call_multi_buf "decode_general_ffi" long_input) split_runtime).2 in
  block_lengths rt = Some (Some 14, Some 42) ∧
  (with_instance 0 (call_generic_function "decode_general_ffi" (9 :: long_input)) rt).1
  = Err (External "wasm trap").
Proof. vm_compute. split; reflexivity. Qed.

(** An iterator that was made before the block was replaced writes its results to the old
    place: a buffer that was put there meanwhile is overwritten. *)
Lemma stale_iterator_overwrites :
  ((let* it1 := call_multi_buf "decode_general_ffi" [1; 2] in
    let* it2 := call_multi_buf "decode_general_ffi" long_input in
    let* w := BufferIter_next it2 in
    let* w := lift (unwrap w) in
    let* before := gets (λ rt, WasmBuffer_as_ref rt w) in
    let* _ := BufferIter_next it1 in
    let* after := gets (λ rt, WasmBuffer_as_ref rt w) in
    run_ret (before, after)) split_runtime).1 = Ok (Ok [9; 9; 9], Ok [144; 0; 0]).
Proof. vm_compute. reflexivity. Qed.

(** ** A memory that moves *)

(** An engine that puts a memory somewhere else whenever it grows. *)
Definition moving_engine : Engine := {| memory_base _ n := 2 ^ 20 * n |}.

(** The host pointer of a live buffer is not updated when the memory grows: after a call
    that needs more memory it points to where the memory was, although the guest still
    has the bytes. *)
Lemma moved_memory_dangles :
  ((let* it := call_multi_buf "decode_general_ffi" [1; 2; 3; 4; 5] in
    let* w := BufferIter_next (En:=moving_engine) it in
    let* w := lift (unwrap w) in
    let* _ := BufferIter_drop it in
    let* before := gets (λ rt, WasmBuffer_as_ref (En:=moving_engine) rt w) in
    let* _ := call_multi_buf "decode_general_ffi" long_input in
    let* after := gets (λ rt, WasmBuffer_as_ref (En:=moving_engine) rt w) in
    let* kept := gets (λ rt, guest_bytes rt w) in
    run_ret (before, after, kept)) split_runtime).1 = Ok (Ok [1; 2; 3], Panic PIndex, Ok [1; 2; 3]).
Proof. vm_compute. reflexivity. Qed.
