(* ===== verification/Layout.v ===== *)
(** * Arrow arrays as buffers, and back

    The memory layout of the Arrow arrays that decoders hand over: validity bits, then
    values, bits or string views.  The plug-ins flatten an array into its buffers
    ([arraydata_to_buffers] of fff-ude/src/lib.rs) and the host builds an array from them
    again (buffer_to_array.rs); the two are inverse. *)

From S2P Require Import Prelude Arrow Buffers Guest LogicalDec.
From stdpp Require Import list.
Open Scope Z_scope.

(** ** Bits *)

(** Up to eight bits as a byte, the least significant first. *)
Fixpoint byte_of (bits : list bool) : Z :=
  match bits with
  | [] => 0
  | b :: bits => 2 * byte_of bits + Z.b2z b
  end.

Definition pack_bits (bits : list bool) : list Z :=
  map (λ k, byte_of (take 8 (drop (8 * k) bits))) (seq 0 ((length bits + 7) / 8)).

Lemma testbit_byte_of bits i : Z.testbit (byte_of bits) (Z.of_nat i) = default false (bits !! i).
Proof.
  revert i. induction bits as [|b bits IH]; intros [|i]; cbn [byte_of].
  - by rewrite Z.testbit_0_l.
  - by rewrite Z.testbit_0_l.
  - apply Z.testbit_0_r.
  - rewrite Nat2Z.inj_succ, Z.testbit_succ_r by lia. apply IH.
Qed.

Lemma pack_bits_len bits : len bits ≤ 8 * len (pack_bits bits) ≤ len bits + 7.
Proof.
  unfold pack_bits, len. rewrite length_map, length_seq.
  pose proof (Nat.div_mod (length bits + 7) 8 ltac:(lia)).
  pose proof (Nat.mod_upper_bound (length bits + 7) 8 ltac:(lia)). lia.
Qed.

Lemma packed_bit bits i b : bits !! i = Some b → buffer_bit (pack_bits bits) (Z.of_nat i) = b.
Proof.
  intros Hb. apply lookup_lt_Some in Hb as Hi. unfold buffer_bit.
  replace (Z.of_nat i / 8) with (Z.of_nat (i / 8)) by by rewrite Nat2Z.inj_div.
  replace (Z.of_nat i mod 8) with (Z.of_nat (i mod 8)) by by rewrite Nat2Z.inj_mod.
  rewrite Nat2Z.id.
  pose proof (Nat.div_mod i 8 ltac:(lia)) as Hdm.
  pose proof (Nat.mod_upper_bound i 8 ltac:(lia)) as Hm.
  assert (Hn : pack_bits bits !! (i / 8)%nat = Some (byte_of (take 8 (drop (8 * (i / 8)) bits)))).
  { unfold pack_bits. rewrite list_lookup_fmap, lookup_seq_lt; [done|].
    pose proof (Nat.div_mod (length bits + 7) 8 ltac:(lia)).
    pose proof (Nat.mod_upper_bound (length bits + 7) 8 ltac:(lia)). lia. }
  rewrite (nth_lookup_Some _ _ _ _ Hn), testbit_byte_of.
  rewrite lookup_take_lt by done. rewrite lookup_drop, <-Hdm. by rewrite Hb.
Qed.

(** Reading packed bits gives them back. *)
Lemma boolean_buffer_packed bits : boolean_buffer (pack_bits bits) (len bits) = Ok bits.
Proof.
  unfold boolean_buffer. pose proof (pack_bits_len bits).
  rewrite (proj2 (Z.leb_le _ _)) by lia. cbn [assert obind]. f_equal. apply list_eq. intros i.
  rewrite list_lookup_fmap. unfold range. destruct (bits !! i) as [b|] eqn:Hb.
  - apply lookup_lt_Some in Hb as Hi. rewrite lookup_seqZ_lt by (unfold len; lia).
    change (Some (buffer_bit (pack_bits bits) (0 + Z.of_nat i)) = Some b).
    by rewrite Z.add_0_l, (packed_bit bits i b).
  - apply lookup_ge_None in Hb. rewrite lookup_seqZ_ge by (unfold len; lia). done.
Qed.

(** ** Elements of a fixed width *)

Lemma scalar_elements_concat w (bs : list (list Z)) rest :
  Forall (λ b, length b = w) bs → scalar_elements w (length bs) (concat bs ++ rest) = bs.
Proof.
  induction 1 as [|b bs Hb _ IH]; [done|]. cbn [length scalar_elements concat].
  rewrite <-app_assoc, take_app_length', drop_app_length' by done. by rewrite IH.
Qed.

Lemma len_concat_width w (bs : list (list Z)) :
  Forall (λ b, length b = w) bs → len (concat bs) = len bs * Z.of_nat w.
Proof.
  induction 1 as [|b bs Hb _ IH]; [done|]. cbn [concat]. rewrite len_app, len_cons, IH.
  unfold len. lia.
Qed.

Lemma scalar_buffer_concat w (bs : list (list Z)) :
  Forall (λ b, length b = w) bs → len bs * Z.of_nat w < 2 ^ 64 →
  scalar_buffer w (concat bs) (len bs) = Ok bs.
Proof.
  intros Hbs Hlen. unfold scalar_buffer. rewrite (proj2 (umul_Ok 64 _ _ _)) by (split; [exact Hlen|done]).
  cbn [obind]. rewrite (len_concat_width w) by done. rewrite Z.leb_refl. cbn [assert obind].
  unfold len. rewrite Nat2Z.id. f_equal.
  rewrite <-(app_nil_r (concat bs)). by apply scalar_elements_concat.
Qed.

(** ** Values *)

(** The bytes of a value of [w] bytes; a null has some bytes too. *)
Definition value_bytes (w : nat) (v : option value) : list Z :=
  match v with
  | Some (VInt x | VFloat x) => le_bytes w x
  | _ => le_bytes w 0
  end.

(** A value that a primitive type has. *)
Definition native_value (dt : DataType) (w : nat) (v : value) : Prop :=
  match dt, v with
  | (Float16 | Float32 | Float64), VFloat x => in_u (8 * Z.of_nat w) x
  | (Float16 | Float32 | Float64), _ => False
  | (UInt8 | UInt16 | UInt32 | UInt64 | Interval DayTime | Interval MonthDayNano), VInt x =>
      in_u (8 * Z.of_nat w) x
  | _, VInt x => - 2 ^ (8 * Z.of_nat w - 1) ≤ x < 2 ^ (8 * Z.of_nat w - 1)
  | _, _ => False
  end.

Lemma as_signed_mod w x : 0 < w → - 2 ^ (w - 1) ≤ x < 2 ^ (w - 1) → as_signed w (x mod 2 ^ w) = x.
Proof.
  intros Hw Hx. assert (Hp : 2 ^ w = 2 * 2 ^ (w - 1)) by (rewrite <-Z.pow_succ_r by lia; f_equal; lia).
  unfold as_signed, wrap. rewrite Z.mod_mod by lia. destruct (decide (0 ≤ x)).
  - rewrite Z.mod_small by lia. destruct (Z.ltb_spec x (2 ^ (w - 1))); lia.
  - replace (x mod 2 ^ w) with (x + 2 ^ w);
      [destruct (Z.ltb_spec (x + 2 ^ w) (2 ^ (w - 1))); lia|].
    rewrite <-(Z.mod_add x 1) by lia. rewrite Z.mul_1_l, Z.mod_small; lia.
Qed.

Lemma signed_value_bytes w x :
  (0 < w)%nat → - 2 ^ (8 * Z.of_nat w - 1) ≤ x < 2 ^ (8 * Z.of_nat w - 1) →
  signed_value w (le_bytes w x) = VInt x.
Proof. intros Hw Hx. unfold signed_value. by rewrite le_val_le_bytes_mod, as_signed_mod by lia. Qed.

(** Reading the bytes of a value gives it back. *)
Lemma native_reads dt w read v :
  native_type dt = Some (w, read) → native_value dt w v → read (value_bytes w (Some v)) = v.
Proof.
  intros Hn Hv.
  destruct dt; cbn in Hn; try done;
    repeat match goal with u : TimeUnit |- _ => destruct u | u : IntervalUnit |- _ => destruct u end; try done;
    injection Hn as <- <-; destruct v; try done; cbn [value_bytes];
    first [apply signed_value_bytes; [lia|exact Hv]
          |unfold unsigned_value; by rewrite le_val_le_bytes
          |unfold float_value; by rewrite le_val_le_bytes].
Qed.

Lemma value_bytes_length w v : length (value_bytes w v) = w.
Proof. unfold value_bytes. repeat case_match; apply le_bytes_length. Qed.

(** ** Validity *)

Definition valid_bits (vals : list (option value)) : list bool := map (λ v, bool_decide (is_Some v)) vals.

(** An array without nulls may have a validity buffer or not. *)
Definition lays_validity (nulls : option (list Z)) (vals : list (option value)) : Prop :=
  nulls = Some (pack_bits (valid_bits vals)) ∨ nulls = None ∧ Forall is_Some vals.

Lemma pack_bits_nil bits : pack_bits bits = [] → bits = [].
Proof. intros Hp. pose proof (pack_bits_len bits) as [Hl _]. rewrite Hp in Hl.
  rewrite (len_nil (A:=Z)) in Hl. apply len_0. pose proof (len_nonneg bits). lia. Qed.

(** The validity that is read. *)
Lemma validity_read nulls vals :
  lays_validity nulls vals →
  ∃ bits, arrow_buffer_to_validity (default [] nulls) (len vals) = Ok bits ∧
    (bits = Some (valid_bits vals) ∨ bits = None ∧ Forall is_Some vals).
Proof.
  intros [-> | [-> Hs]]; [|by exists None; split; [|right]]. cbn [default].
  assert (Hlen : len (valid_bits vals) = len vals) by apply len_map.
  unfold arrow_buffer_to_validity. destruct (pack_bits (valid_bits vals)) as [|b bs] eqn:Hp.
  - apply pack_bits_nil in Hp. assert (vals = []) as -> by by destruct vals.
    exists None. split; [done|]. right. by split.
  - assert (Hb : boolean_buffer (b :: bs) (len vals) = Ok (valid_bits vals))
      by (rewrite <-Hp, <-Hlen; apply boolean_buffer_packed).
    unfold default, id. rewrite Hb. cbn [obind]. exists (Some (valid_bits vals)). by split; [|left].
Qed.

(** The values that are read: what is in the place of a null does not matter. *)
Lemma values_read bits vals (read : list value) :
  (bits = Some (valid_bits vals) ∨ bits = None ∧ Forall is_Some vals) →
  Forall2 (λ v r, ∀ x, v = Some x → r = x) vals read → with_validity bits read = vals.
Proof.
  intros Hb Hf. destruct Hb as [-> | [-> Hs]]; cbn [with_validity].
  - induction Hf as [|v r vals read Hv _ IH]; [done|]. cbn [valid_bits map zip_with]. fold (valid_bits vals).
    rewrite IH. destruct v as [x|]; cbn; [by rewrite (Hv x)|done].
  - induction Hf as [|v r vals read Hv _ IH]; [done|]. apply Forall_cons in Hs as [[x ->] Hs].
    cbn. by rewrite (Hv x), IH.
Qed.

(** The place of a value. *)
Definition slot (dt : DataType) (w : nat) (v : option value) (b : list Z) : Prop :=
  length b = w ∧ ∀ x, v = Some x → native_value dt w x ∧ b = value_bytes w v.

Lemma native_array_read dt w read nulls vals slots rest :
  native_type dt = Some (w, read) → lays_validity nulls vals → len vals * Z.of_nat w < 2 ^ 64 →
  Forall2 (slot dt w) vals slots →
  new_primitive_array_from_arrow_buffer_iter w read (default [] nulls :: concat slots :: rest) (len vals) dt
  = Ok (PrimArray dt vals).
Proof.
  intros Hn Hl Hlen Hv. unfold new_primitive_array_from_arrow_buffer_iter. cbn [next_buffer obind].
  destruct (validity_read _ _ Hl) as (bits & Hbits & Hcase). rewrite Hbits. cbn [obind].
  assert (Hnum : len vals = len slots) by (unfold len; by rewrite (Forall2_length _ _ _ Hv)).
  rewrite Hnum in *. rewrite scalar_buffer_concat; [|by eapply Forall2_Forall_r; [exact Hv|]; apply Forall_forall; intros ?? ? []|done].
  cbn [obind]. rewrite (values_read bits vals (map read slots) Hcase); [done|].
  apply Forall2_fmap_r. eapply Forall2_impl; [exact Hv|]. intros v b [_ Hb] x ->.
  destruct (Hb x eq_refl) as [Hx ->]. by eapply native_reads.
Qed.

Lemma boolean_array_read nulls vals bools rest :
  lays_validity nulls vals → Forall2 (λ v b, ∀ x, v = Some x → x = VBool b) vals bools →
  boolean_array_from_buffers (default [] nulls :: pack_bits bools :: rest) (len vals)
  = Ok (PrimArray Boolean vals).
Proof.
  intros Hl Hv. unfold boolean_array_from_buffers. cbn [next_buffer obind].
  destruct (validity_read _ _ Hl) as (bits & Hbits & Hcase). rewrite Hbits. cbn [obind].
  assert (Hnum : len vals = len bools) by (unfold len; by rewrite (Forall2_length _ _ _ Hv)).
  rewrite Hnum, boolean_buffer_packed. cbn [obind].
  rewrite (values_read bits vals (map VBool bools) Hcase); [done|].
  apply Forall2_fmap_r. eapply Forall2_impl; [exact Hv|]. intros v b Hb x Hx. by rewrite (Hb x Hx).
Qed.

(** ** String views *)

Lemma string_of_string_bytes s : string_of_bytes (string_bytes s) = s.
Proof.
  unfold string_bytes. induction s as [|c s IH]; [done|]. cbn. rewrite IH. f_equal.
  by rewrite N2Z.id, Ascii.ascii_N_embedding.
Qed.

(** The view of some bytes: a short string is in the view, a long one in a data buffer. *)
Definition view_of (bufs : list (list Z)) (view b : list Z) : Prop :=
  (len b ≤ 12 ∧ view = le_bytes 4 (len b) ++ b ++ replicate (12 - length b) 0) ∨
  (12 < len b < 2 ^ 32 ∧ ∃ i buf off, bufs !! i = Some buf ∧ Z.of_nat i < 2 ^ 32 ∧
     located buf b off (len b) ∧ off < 2 ^ 32 ∧
     view = le_bytes 4 (len b) ++ take 4 b ++ le_bytes 4 (Z.of_nat i) ++ le_bytes 4 off).

Lemma view_of_length bufs view b : view_of bufs view b → length view = 16%nat.
Proof.
  intros [[Hb ->] | [Hb (i & buf & off & _ & _ & _ & _ & ->)]].
  - rewrite !length_app, le_bytes_length, length_replicate. unfold len in *. lia.
  - rewrite !length_app, !le_bytes_length, length_take. unfold len in *. lia.
Qed.

(** A view finds its bytes. *)
Lemma view_bytes_found bufs view b : view_of bufs view b → view_bytes bufs view = Ok b.
Proof.
  pose proof (len_nonneg b). unfold view_bytes.
  intros [[Hb ->] | [Hb (i & buf & off & Hbuf & Hi & Hloc & Hoff & ->)]].
  - rewrite take_app_length' by (by rewrite le_bytes_length).
    rewrite le_val_le_bytes by (unfold in_u; lia). rewrite (proj2 (Z.leb_le _ _)) by done.
    rewrite drop_app_length' by (by rewrite le_bytes_length). f_equal.
    apply take_app_length'. unfold len. lia.
  - rewrite take_app_length' by (by rewrite le_bytes_length).
    rewrite le_val_le_bytes by (unfold in_u; lia). rewrite (proj2 (Z.leb_gt _ _)) by lia.
    assert (H4 : length (take 4 b) = 4%nat) by (rewrite length_take; unfold len in *; lia).
    assert (Hat8 : drop 8 (le_bytes 4 (len b) ++ take 4 b ++ le_bytes 4 (Z.of_nat i) ++ le_bytes 4 off)
      = le_bytes 4 (Z.of_nat i) ++ le_bytes 4 off).
    { rewrite (drop_app_ge _ _ 8) by (rewrite le_bytes_length; lia). rewrite le_bytes_length.
      by rewrite drop_app_length' by lia. }
    rewrite Hat8, take_app_length' by (by rewrite le_bytes_length).
    rewrite le_val_le_bytes by (unfold in_u; lia).
    rewrite (proj2 (index_Ok bufs (Z.of_nat i) buf)) by (split; [lia|by rewrite Nat2Z.id]). cbn [obind].
    change 12%nat with (8 + 4)%nat. rewrite <-drop_drop, Hat8, drop_app_length' by (by rewrite le_bytes_length).
    rewrite take_ge by (rewrite le_bytes_length; lia). apply located_slice in Hloc as Hs.
    destruct Hloc as (pre & post & _ & -> & _). pose proof (len_nonneg pre).
    rewrite le_val_le_bytes by (unfold in_u; lia). exact Hs.
Qed.

(** The place of a string or a null. *)
Definition view_slot (bufs : list (list Z)) (v : option value) (view : list Z) : Prop :=
  length view = 16%nat ∧ ∀ x, v = Some x → ∃ s, x = VStr s ∧ view_of bufs view (string_bytes s).

(** What is read: null where the validity says so. *)
Lemma views_read bufs nulls vals views :
  lays_validity nulls vals → len vals * 16 < 2 ^ 64 → Forall2 (view_slot bufs) vals views →
  ∀ dt, new_generic_byte_view_array_from_arrow_buffer_iter dt (default [] nulls :: concat views :: bufs) (len vals)
  = Ok (PrimArray dt vals).
Proof.
  intros Hl Hlen Hv dt. unfold new_generic_byte_view_array_from_arrow_buffer_iter. cbn [next_buffer obind].
  destruct (validity_read _ _ Hl) as (bits & Hbits & Hcase). rewrite Hbits. cbn [obind].
  assert (Hnum : len vals = len views) by (unfold len; by rewrite (Forall2_length _ _ _ Hv)).
  rewrite Hnum in *. rewrite scalar_buffer_concat;
    [|by eapply Forall2_Forall_r; [exact Hv|]; apply Forall_forall; intros ?? ? []|done]. cbn [obind].
  assert (Hone : ∀ v view, view_slot bufs v view → view_value bufs (bool_decide (is_Some v), view) = Ok v).
  { intros [x|] view [_ Hview]; [|done]. destruct (Hview x eq_refl) as (s & -> & Hs).
    cbn. rewrite (view_bytes_found _ _ _ Hs). cbn [obind]. by rewrite string_of_string_bytes. }
  assert (Ht : traverse (view_value bufs) (zip (default (replicate (length views) true) bits) views) = Ok vals).
  { apply traverse_Ok. destruct Hcase as [-> | [-> Hs]].
    - clear Hnum Hlen Hl Hbits. induction Hv as [|v view vals views Hvv _ IH]; [constructor|].
      constructor; [by apply Hone|exact IH].
    - clear Hnum Hlen Hl Hbits. induction Hv as [|v view vals views Hvv _ IH]; [constructor|].
      apply Forall_cons in Hs as [[x ->] Hs]. constructor; [by apply (Hone (Some x))|by apply IH]. }
  rewrite Ht. done.
Qed.

(** ** Arrays *)

(** The layouts of an array: validity from bit 0 of its buffer on, or none when there are
    no nulls, any bytes in the place of a null, and strings in any data buffers. *)
Inductive lays_out : DataType → list (option value) → ArrayData → Prop :=
  | lays_boolean nulls vals bools :
      lays_validity nulls vals → Forall2 (λ v b, ∀ x, v = Some x → x = VBool b) vals bools →
      lays_out Boolean vals (mkArrayData (from_bit_0 <$> nulls) [pack_bits bools] [])
  | lays_native dt w read nulls vals slots :
      native_type dt = Some (w, read) → lays_validity nulls vals → Forall2 (slot dt w) vals slots →
      lays_out dt vals (mkArrayData (from_bit_0 <$> nulls) [concat slots] [])
  | lays_views dt nulls vals views bufs :
      dt = Utf8View ∨ dt = BinaryView → lays_validity nulls vals → Forall2 (view_slot bufs) vals views →
      lays_out dt vals (mkArrayData (from_bit_0 <$> nulls) (concat views :: bufs) []).

Lemma native_width dt w read : native_type dt = Some (w, read) → (w ≤ 32)%nat.
Proof.
  intros Hn. destruct dt; cbn in Hn; try done;
    repeat match goal with u : TimeUnit |- _ => destruct u | u : IntervalUnit |- _ => destruct u end; try done;
    injection Hn as <- _; lia.
Qed.

(** The builder of a primitive type. *)
Lemma native_dispatch dt w read bufs n :
  native_type dt = Some (w, read) →
  primitive_array_from_arrow_buffers_iter dt bufs n
  = new_primitive_array_from_arrow_buffer_iter w read bufs n dt.
Proof.
  intros Hn. destruct dt; cbn in Hn; try done;
    repeat match goal with u : TimeUnit |- _ => destruct u | u : IntervalUnit |- _ => destruct u end; try done;
    by injection Hn as <- <-.
Qed.

Lemma laid_out_reads dt vals d :
  non_nest_types dt = true → lays_out (view_type dt) vals d → len vals < 2 ^ 32 →
  primitive_array_from_arrow_buffers_iter dt (arraydata_to_buffers [] d) (len vals)
  = Ok (PrimArray (view_type dt) vals).
Proof.
  intros Hnn Hl Hlen. remember (view_type dt) as vt eqn:Hvt.
  destruct Hl as [nulls vals bools Hval Hv|vt w read nulls vals slots Hn Hval Hv|vt nulls vals views bufs Ht Hval Hv];
    cbn [arraydata_to_buffers app foldl]; rewrite nb_from_bit_0.
  - assert (dt = Boolean) as -> by by destruct dt. by apply boolean_array_read.
  - assert (dt = vt) as -> by (subst vt; by destruct dt).
    rewrite (native_dispatch _ _ _ _ _ Hn). apply (native_array_read vt w read nulls vals slots []); try done.
    pose proof (native_width _ _ _ Hn). pose proof (len_nonneg vals). nia.
  - assert (Hd : ∀ bs n, primitive_array_from_arrow_buffers_iter dt bs n
      = new_generic_byte_view_array_from_arrow_buffer_iter vt bs n).
    { intros bs n. subst vt. destruct dt; cbn in *; by destruct Ht. }
    rewrite Hd. apply views_read; [done|lia|done].
Qed.
