(* ===== verification/ByteBuffers.v ===== *)
(** * Arrow arrays from byte buffers

    The other half of fff-core/src/util/buffer_to_array.rs: the functions over
    [BytesMut], for callers that hold the bytes of a call rather than Arrow buffers,
    and the byte arrays with offsets.  They agree with the functions of Buffers.v
    except for strings, which come as offsets and bytes instead of views, and for
    types of a fixed size, which only they build.  The address of a buffer, hence its
    alignment, is not part of the model. *)

From S2P Require Import Prelude Arrow Buffers Guest LogicalDec Layout.
From stdpp Require Import list.
Open Scope Z_scope.

(** ** UTF-8 *)

Definition between (lo hi b : Z) : bool := (lo <=? b) && (b <=? hi).

(** A byte that does not start a character. *)
Definition utf8_continues (b : Z) : bool := between 128 191 b.

(** The first two bytes of a character of three and of four bytes: no overlong forms,
    no surrogates, nothing above U+10FFFF. *)
Definition utf8_three (a b : Z) : bool :=
  (a =? 224) && between 160 191 b || between 225 236 a && utf8_continues b ||
  (a =? 237) && between 128 159 b || between 238 239 a && utf8_continues b.
Definition utf8_four (a b : Z) : bool :=
  (a =? 240) && between 144 191 b || between 241 243 a && utf8_continues b ||
  (a =? 244) && between 128 143 b.

(** [std::str::from_utf8] accepts the bytes. *)
Fixpoint from_utf8 (l : list Z) : bool :=
  match l with
  | [] => true
  | a :: l1 =>
      if between 0 127 a then from_utf8 l1 else
      match l1 with
      | [] => false
      | b :: l2 =>
          if between 194 223 a then utf8_continues b && from_utf8 l2 else
          match l2 with
          | [] => false
          | c :: l3 =>
              if between 224 239 a then utf8_three a b && utf8_continues c && from_utf8 l3 else
              match l3 with
              | [] => false
              | d :: l4 =>
                  utf8_four a b && utf8_continues c && utf8_continues d && from_utf8 l4
              end
          end
      end
  end.

(** [str::is_char_boundary] *)
Definition is_char_boundary (l : list Z) (o : Z) : bool :=
  if o =? 0 then true
  else match l !! Z.to_nat o with
       | Some b => negb (utf8_continues b)
       | None => o =? len l
       end.

(** ** Arrow's checked constructors *)

(** What [T::validate] of a byte array type checks of offsets that never decrease. *)
Definition byte_array_valid (dt : DataType) (offsets bytes : list Z) : bool :=
  match dt with
  | Utf8 | LargeUtf8 => from_utf8 bytes && forallb (is_char_boundary bytes) offsets
  | _ => default 0 (last offsets) <=? len bytes
  end.

(** The bytes between each offset and the next. *)
Fixpoint pieces (bytes offsets : list Z) : list (list Z) :=
  match offsets with
  | a :: ((b :: _) as l) => take (Z.to_nat (b - a)) (drop (Z.to_nat a) bytes) :: pieces bytes l
  | _ => []
  end.

Definition bytes_value (b : list Z) : value := VStr (string_of_bytes b).

(** [GenericByteArray::<T>::new] *)
Definition generic_byte_array_new (dt : DataType) (offsets bytes : list Z)
    (nulls : option (list bool)) : outcome Array :=
  let! _ := assert (byte_array_valid dt offsets bytes) in
  let! _ := assert (nulls_fit nulls (len offsets - 1)) in
  Ok (PrimArray dt (with_validity nulls (map bytes_value (pieces bytes offsets)))).

(** [FixedSizeBinaryArray::new]: the number of rows is that of the bytes. *)
Definition fixed_size_binary_new (size : Z) (values : list Z) (nulls : option (list bool))
  : outcome Array :=
  let! _ := assert (0 <=? size) in
  let! rows := udiv (len values) size in
  let! _ := assert (nulls_fit nulls rows) in
  Ok (PrimArray (FixedSizeBinary size)
        (with_validity nulls
           (map bytes_value (scalar_elements (Z.to_nat size) (Z.to_nat rows) values)))).

(** What these functions build: an array, or lists of a fixed size over one. *)
Inductive BytesArray :=
  | Plain (a : Array)
  | FixedSizeListArray (field : Field) (size : Z) (values : BytesArray)
      (nulls : option (list bool)) (rows : Z).

Definition bytes_array_type (a : BytesArray) : DataType :=
  match a with
  | Plain a => arr_data_type a
  | FixedSizeListArray field size _ _ _ => FixedSizeList field size
  end.
Definition bytes_array_len (a : BytesArray) : Z :=
  match a with Plain a => arr_len a | FixedSizeListArray _ _ _ _ rows => rows end.
Definition bytes_array_validity (a : BytesArray) : list bool :=
  match a with
  | Plain a => arr_validity a
  | FixedSizeListArray _ _ _ nulls rows => default (replicate (Z.to_nat rows) true) nulls
  end.

(** [NullBuffer::expand]: the validity of the items of the lists. *)
Definition expand (bits : list bool) (size : Z) : list bool :=
  concat (map (replicate (Z.to_nat size)) bits).

(** A null item of a field that has none must be hidden by a null list. *)
Definition items_masked (field : Field) (size : Z) (nulls : option (list bool))
    (items : list bool) : bool :=
  nullable field ||
  match nulls with
  | Some bits => forallb (λ '(outer, inner), negb outer || inner) (zip (expand bits size) items)
  | None => forallb (λ b, b) items
  end.

(** [FixedSizeListArray::new]: lists of no items are as many as there are bits of
    validity. *)
Definition fixed_size_list_new (field : Field) (size : Z) (values : BytesArray)
    (nulls : option (list bool)) : outcome BytesArray :=
  let! _ := assert (0 <=? size) in
  let rows := if size =? 0 then match nulls with Some b => len b | None => 0 end
              else bytes_array_len values / size in
  let! _ := assert (nulls_fit nulls rows) in
  let! _ := assert (bool_decide (data_type field = bytes_array_type values)) in
  let! _ := assert (items_masked field size nulls (bytes_array_validity values)) in
  Ok (FixedSizeListArray field size values nulls rows).

(** ** The functions over [BytesMut]

    [freeze] and [Buffer::from_bytes] keep the bytes. *)

Definition bytes_to_validity (bytes : list Z) (num_rows : Z) : outcome (option (list bool)) :=
  match bytes with
  | [] => Ok None
  | _ => let! bits := boolean_buffer bytes num_rows in Ok (Some bits)
  end.

Definition new_primitive_array (w : nat) (read : list Z → value) (buffers : list (list Z))
    (num_rows : Z) (dt : DataType) : outcome Array :=
  let! '(null_buffer, buffer_iter) := next_buffer buffers in
  let! null_buffer := bytes_to_validity null_buffer num_rows in
  let! '(data_buffer, _) := next_buffer buffer_iter in
  let! data_buffer := scalar_buffer w data_buffer num_rows in
  Ok (PrimArray dt (with_validity null_buffer (map read data_buffer))).

Definition new_boolean_array (buffers : list (list Z)) (num_rows : Z) : outcome Array :=
  let! '(null_buffer, buffer_iter) := next_buffer buffers in
  let! null_buffer := bytes_to_validity null_buffer num_rows in
  let! '(data_buffer, _) := next_buffer buffer_iter in
  let! data_buffer := boolean_buffer data_buffer num_rows in
  Ok (PrimArray Boolean (with_validity null_buffer (map VBool data_buffer))).

(** The width of the offsets of a byte array type. *)
Definition byte_offset_width (dt : DataType) : nat :=
  match dt with LargeUtf8 | LargeBinary => 8%nat | _ => 4%nat end.

(** [ScalarBuffer::<T::Offset>::new(buffer, 0, num_rows + 1)] *)
Definition offset_elements (w : nat) (buf : list Z) (num_rows : Z) : outcome (list Z) :=
  let! n := uadd 64 num_rows 1 in
  let! data := scalar_buffer w buf n in
  Ok (map (λ b, as_signed (8 * Z.of_nat w) (le_val b)) data).

(** Validity, offsets, a buffer that is not looked at, and the bytes. *)
Definition new_generic_byte_array (dt : DataType) (buffers : list (list Z)) (num_rows : Z)
  : outcome Array :=
  let! '(null_buffer, buffer_iter) := next_buffer buffers in
  let! null_buffer := bytes_to_validity null_buffer num_rows in
  let! '(indices_bytes, buffer_iter) := next_buffer buffer_iter in
  let! indices_buffer := offset_elements (byte_offset_width dt) indices_bytes num_rows in
  let! offsets := offset_buffer indices_buffer in
  let! '(_, buffer_iter) := next_buffer buffer_iter in
  let! '(bytes_buffer, _) := next_buffer buffer_iter in
  generic_byte_array_new dt offsets bytes_buffer null_buffer.

(** The same over Arrow buffers: no buffer is skipped. *)
Definition new_generic_byte_array_from_arrow_buffer_iter (dt : DataType)
    (buffers : list (list Z)) (num_rows : Z) : outcome Array :=
  let! '(null_buffer, buffer_iter) := next_buffer buffers in
  let! null_buffer := arrow_buffer_to_validity null_buffer num_rows in
  let! '(indices_buffer, buffer_iter) := next_buffer buffer_iter in
  let! indices_buffer := offset_elements (byte_offset_width dt) indices_buffer num_rows in
  let! offsets := offset_buffer indices_buffer in
  let! '(bytes_buffer, _) := next_buffer buffer_iter in
  generic_byte_array_new dt offsets bytes_buffer null_buffer.

Definition new_generic_byte_array_from_arrow_buffers :=
  new_generic_byte_array_from_arrow_buffer_iter.

Definition new_primitive_array_from_arrow_buffer := new_primitive_array_from_arrow_buffer_iter.

(** The child is not looked at: the values are dummy nulls. *)
Definition new_list_offsets_validity (large : bool) (buffers : list (list Z)) (num_rows : Z)
    (_child : Field) : outcome Array :=
  let! '(null_buffer, buffer_iter) := next_buffer buffers in
  let! null_buffer := bytes_to_validity null_buffer num_rows in
  let! '(data_buffer, _) := next_buffer buffer_iter in
  let! data_buffer := offset_elements (offset_width large) data_buffer num_rows in
  let! max_offset := index data_buffer num_rows in
  let! _ := if max_offset <? 0 then Panic PTodo else Ok tt in
  let! offsets := offset_buffer data_buffer in
  list_array_new large DUMMY_NULL_FIELD offsets (null_array max_offset) null_buffer.

Definition plain (m : outcome Array) : outcome BytesArray := omap_ok Plain m.

Fixpoint primitive_array_from_buffers (dt : DataType) (buffers : list (list Z)) (num_rows : Z)
  : outcome BytesArray :=
  match dt with
  | Boolean => plain (new_boolean_array buffers num_rows)
  | Null => Ok (Plain (null_array num_rows))
  | Time32 ((Microsecond | Nanosecond) as u) =>
      Err (IO ("invalid time unit " ++ time_unit_name u ++ " for 32-bit time type"))
  | Time64 ((Second | Millisecond) as u) =>
      Err (IO ("invalid time unit " ++ time_unit_name u ++ " for 64-bit time type"))
  | FixedSizeBinary dimension =>
      let! '(fsb_validity, buffers_iter) := next_buffer buffers in
      let! fsb_nulls := bytes_to_validity fsb_validity num_rows in
      let! '(fsb_values, _) := next_buffer buffers_iter in
      plain (fixed_size_binary_new dimension fsb_values fsb_nulls)
  | FixedSizeList (mkField _ items_type _ as items) dimension =>
      let! '(fsl_validity, remaining_buffers) := next_buffer buffers in
      let! fsl_nulls := bytes_to_validity fsl_validity num_rows in
      let! items_rows := umul 64 num_rows (wrap 64 dimension) in
      let! items_array := primitive_array_from_buffers items_type remaining_buffers items_rows in
      fixed_size_list_new items dimension items_array fsl_nulls
  | Utf8 | LargeUtf8 | Binary | LargeBinary => plain (new_generic_byte_array dt buffers num_rows)
  | List child => plain (new_list_offsets_validity false buffers num_rows child)
  | LargeList child => plain (new_list_offsets_validity true buffers num_rows child)
  | dt =>
      match native_type dt with
      | Some (w, read) => plain (new_primitive_array w read buffers num_rows dt)
      | None => Err (IO "The data type cannot be decoded from a primitive encoding")
      end
  end.

(** ** UTF-8 is made of characters *)

Ltac split_checks :=
  repeat match goal with
  | Hb : _ && _ = true |- _ => apply andb_prop in Hb as [? Hb]
  | Hb : _ || _ = true |- _ => apply orb_prop in Hb as [Hb|Hb]
  | Hb : (_ <=? _) = true |- _ => apply Z.leb_le in Hb
  | Hb : (_ =? _) = true |- _ => apply Z.eqb_eq in Hb
  end.

(** A byte in none of the ranges of continuation bytes. *)
Lemma not_continues b : b < 128 ∨ 191 < b → utf8_continues b = false.
Proof.
  intros Hb. unfold utf8_continues, between.
  destruct (Z.leb_spec 128 b), (Z.leb_spec b 191); cbn; lia.
Qed.

(** The first character of a text: what follows it is checked on its own. *)
Lemma from_utf8_first a l :
  from_utf8 (a :: l) = true →
  utf8_continues a = false ∧
  ∃ c l', a :: l = c ++ l' ∧ (0 < length c)%nat ∧ from_utf8 l' = true ∧
    ∀ r, from_utf8 (c ++ r) = from_utf8 r.
Proof.
  cbn [from_utf8]. intros Hl. destruct (between 0 127 a) eqn:H1.
  { split; [apply not_continues; unfold between in H1; split_checks; lia|].
    exists [a], l. split_and!; [done|cbn; lia|done|]. intros r. cbn. by rewrite H1. }
  destruct l as [|b l]; [done|]. destruct (between 194 223 a) eqn:H2.
  { apply andb_prop in Hl as [Hb Hl].
    split; [apply not_continues; unfold between in H2; split_checks; lia|].
    exists [a; b], l. split_and!; [done|cbn; lia|done|]. intros r. cbn. by rewrite H1, H2, Hb. }
  destruct l as [|c l]; [done|]. destruct (between 224 239 a) eqn:H3.
  { apply andb_prop in Hl as [Hl Hr]. apply andb_prop in Hl as [Hb Hc].
    split; [apply not_continues; unfold between in H3; split_checks; lia|].
    exists [a; b; c], l. split_and!; [done|cbn; lia|done|].
    intros r. cbn. by rewrite H1, H2, H3, Hb, Hc. }
  destruct l as [|d l]; [done|]. apply andb_prop in Hl as [Hl Hr].
  apply andb_prop in Hl as [Hl Hd]. apply andb_prop in Hl as [Hb Hc].
  split; [apply not_continues; unfold utf8_four, between in Hb; split_checks; lia|].
  exists [a; b; c; d], l. split_and!; [done|cbn; lia|done|].
  intros r. cbn. by rewrite H1, H2, H3, Hb, Hc, Hd.
Qed.

(** A text and what follows it are checked one after the other. *)
Lemma from_utf8_app l r : from_utf8 l = true → from_utf8 (l ++ r) = from_utf8 r.
Proof.
  remember (length l) as n eqn:Hn. revert l Hn.
  induction n as [n IH] using lt_wf_ind. intros [|a l] -> Hl; [done|].
  destruct (from_utf8_first _ _ Hl) as (_ & c & l' & Heq & Hc & Hl' & Hr).
  rewrite Heq, <-app_assoc, Hr. apply (IH (length l')); [|done|done].
  rewrite Heq, length_app. lia.
Qed.

Lemma from_utf8_concat bs : Forall (λ b, from_utf8 b = true) bs → from_utf8 (concat bs) = true.
Proof. induction 1 as [|b bs Hb _ IH]; [done|]. cbn [concat]. by rewrite from_utf8_app. Qed.

(** Between two texts there is a character boundary. *)
Lemma boundary_between l r :
  from_utf8 l = true → from_utf8 r = true → is_char_boundary (l ++ r) (len l) = true.
Proof.
  intros Hl Hr. unfold is_char_boundary. destruct (Z.eqb_spec (len l) 0); [done|].
  unfold len at 1. rewrite Nat2Z.id, lookup_app_r, Nat.sub_diag by lia.
  destruct r as [|a r]; cbn [lookup list_lookup].
  - rewrite app_nil_r. apply Z.eqb_refl.
  - by rewrite (proj1 (from_utf8_first _ _ Hr)).
Qed.

(** ** Offsets *)

(** The offsets of strings that follow each other. *)
Fixpoint piece_offsets (start : Z) (bs : list (list Z)) : list Z :=
  start :: match bs with [] => [] | b :: bs => piece_offsets (start + len b) bs end.

Lemma piece_offsets_length start bs : length (piece_offsets start bs) = S (length bs).
Proof. revert start. induction bs; intros; cbn; [done|]. by f_equal. Qed.

Lemma piece_offsets_last start bs :
  last (piece_offsets start bs) = Some (start + len (concat bs)).
Proof.
  revert start. induction bs as [|b bs IH]; intros start.
  - cbn. by rewrite (len_nil (A:=Z)), Z.add_0_r.
  - cbn [piece_offsets concat]. rewrite last_cons, IH, len_app. f_equal. lia.
Qed.

Lemma piece_offsets_range start bs :
  Forall (λ o, start ≤ o ≤ start + len (concat bs)) (piece_offsets start bs).
Proof.
  revert start. induction bs as [|b bs IH]; intros start; cbn [piece_offsets].
  - pose proof (len_nonneg (concat (@nil (list Z)))). repeat constructor; lia.
  - cbn [concat]. rewrite len_app. pose proof (len_nonneg b). pose proof (len_nonneg (concat bs)).
    constructor; [lia|]. eapply Forall_impl; [apply IH|]. cbn. lia.
Qed.

Lemma piece_offsets_sorted start bs : nondecreasing (piece_offsets start bs) = true.
Proof.
  revert start. induction bs as [|b bs IH]; intros start; [done|].
  cbn [piece_offsets]. pose proof (len_nonneg b). specialize (IH (start + len b)).
  destruct bs; cbn [piece_offsets nondecreasing] in *;
    rewrite (proj2 (Z.leb_le _ _)) by lia; exact IH.
Qed.

Lemma piece_offsets_accepted start bs :
  0 ≤ start → offset_buffer (piece_offsets start bs) = Ok (piece_offsets start bs).
Proof.
  intros Hs. unfold offset_buffer. rewrite piece_offsets_sorted.
  destruct bs; cbn [piece_offsets]; by rewrite (proj2 (Z.leb_le _ _) Hs).
Qed.

(** Cutting the bytes at the offsets gives the strings. *)
Lemma pieces_concat pre bs :
  pieces (pre ++ concat bs) (piece_offsets (len pre) bs) = bs.
Proof.
  revert pre. induction bs as [|b bs IH]; intros pre; [done|].
  specialize (IH (pre ++ b)). rewrite <-app_assoc, len_app in IH.
  assert (Hcut : take (Z.to_nat (len pre + len b - len pre))
    (drop (Z.to_nat (len pre)) (pre ++ b ++ concat bs)) = b).
  { rewrite drop_app_length' by (unfold len; lia). apply take_app_length'. unfold len; lia. }
  cbn [piece_offsets concat].
  destruct bs; cbn [piece_offsets pieces] in *; rewrite Hcut; by f_equal.
Qed.

Lemma boundaries pre bs :
  from_utf8 pre = true → Forall (λ b, from_utf8 b = true) bs →
  forallb (is_char_boundary (pre ++ concat bs)) (piece_offsets (len pre) bs) = true.
Proof.
  intros Hpre Hbs. revert pre Hpre. induction Hbs as [|b bs Hb Hbs IH]; intros pre Hpre.
  - cbn. by rewrite (boundary_between pre []).
  - cbn [piece_offsets forallb concat].
    rewrite boundary_between by (done || by rewrite from_utf8_app; [apply from_utf8_concat|]).
    specialize (IH (pre ++ b)). rewrite <-app_assoc, len_app in IH. apply IH.
    by rewrite from_utf8_app.
Qed.

(** ** The layouts *)

(** The validity of lists: no buffer, or a bit for each of them. *)
Definition lays_bits (nulls : option (list bool)) (buf : list Z) : Prop :=
  buf = default [] (pack_bits <$> nulls) ∧ nulls ≠ Some [].

(** The slot of a string: its bytes; any text in the place of a null. *)
Definition text_slot (dt : DataType) (v : option value) (b : list Z) : Prop :=
  (dt = Utf8 ∨ dt = LargeUtf8 → from_utf8 b = true) ∧
  ∀ x, v = Some x → ∃ s, x = VStr s ∧ b = string_bytes s.

Definition fixed_slot (size : Z) (v : option value) (b : list Z) : Prop :=
  length b = Z.to_nat size ∧ ∀ x, v = Some x → ∃ s, x = VStr s ∧ b = string_bytes s.

(** Offsets as a list array has them. *)
Definition list_offsets_ok (w : nat) (offsets : list Z) : Prop :=
  offset_buffer offsets = Ok offsets ∧ len offsets * Z.of_nat w < 2 ^ 64 ∧
  Forall (λ o, o < 2 ^ (8 * Z.of_nat w - 1)) offsets.

Definition offset_bytes (w : nat) (offsets : list Z) : list Z := concat (map (le_bytes w) offsets).

(** [bytes_lay_out dt a n bufs]: the buffers of an array of [n] rows; what follows them
    is not read. *)
Inductive bytes_lay_out : DataType → BytesArray → Z → list (list Z) → Prop :=
  | bytes_null n rest : bytes_lay_out Null (Plain (null_array n)) n rest
  | bytes_boolean nulls vals bools rest :
      lays_validity nulls vals → Forall2 (λ v b, ∀ x, v = Some x → x = VBool b) vals bools →
      bytes_lay_out Boolean (Plain (PrimArray Boolean vals)) (len vals)
        (default [] nulls :: pack_bits bools :: rest)
  | bytes_native dt w read nulls vals slots rest :
      native_type dt = Some (w, read) → lays_validity nulls vals → len vals * Z.of_nat w < 2 ^ 64 →
      Forall2 (slot dt w) vals slots →
      bytes_lay_out dt (Plain (PrimArray dt vals)) (len vals)
        (default [] nulls :: concat slots :: rest)
  | bytes_strings dt nulls vals strs unread rest :
      dt = Utf8 ∨ dt = LargeUtf8 ∨ dt = Binary ∨ dt = LargeBinary →
      lays_validity nulls vals → Forall2 (text_slot dt) vals strs →
      (len vals + 1) * Z.of_nat (byte_offset_width dt) < 2 ^ 64 →
      len (concat strs) < 2 ^ (8 * Z.of_nat (byte_offset_width dt) - 1) →
      bytes_lay_out dt (Plain (PrimArray dt vals)) (len vals)
        (default [] nulls :: offset_bytes (byte_offset_width dt) (piece_offsets 0 strs)
         :: unread :: concat strs :: rest)
  | bytes_list large child nulls offsets vbuf rest :
      lays_bits nulls vbuf → list_offsets_ok (offset_width large) offsets →
      nulls_fit nulls (len offsets - 1) = true →
      bytes_lay_out (if large then LargeList child else List child)
        (Plain (ListArray large DUMMY_NULL_FIELD offsets (null_array (default 0 (last offsets))) nulls))
        (len offsets - 1) (vbuf :: offset_bytes (offset_width large) offsets :: rest)
  | bytes_fixed size nulls vals slots rest :
      0 < size → lays_validity nulls vals → Forall2 (fixed_slot size) vals slots →
      bytes_lay_out (FixedSizeBinary size) (Plain (PrimArray (FixedSizeBinary size) vals)) (len vals)
        (default [] nulls :: concat slots :: rest)
  | bytes_fixed_list items size values nulls rows vbuf rest :
      0 < size < 2 ^ 31 → 0 ≤ rows → rows * size < 2 ^ 64 →
      lays_bits nulls vbuf → nulls_fit nulls rows = true →
      items_masked items size nulls (bytes_array_validity values) = true →
      bytes_array_type values = data_type items → bytes_array_len values = rows * size →
      bytes_lay_out (data_type items) values (rows * size) rest →
      bytes_lay_out (FixedSizeList items size) (FixedSizeListArray items size values nulls rows) rows
        (vbuf :: rest).

(** ** They are read *)

Lemma bytes_validity_same buf n : bytes_to_validity buf n = arrow_buffer_to_validity buf n.
Proof. done. Qed.

Lemma bits_read nulls buf n :
  lays_bits nulls buf → nulls_fit nulls n = true → bytes_to_validity buf n = Ok nulls.
Proof.
  intros [-> Hne] Hn. destruct nulls as [bits|]; [|done]. cbn in *. apply Z.eqb_eq in Hn as <-.
  change (bytes_to_validity (pack_bits bits) (len bits) = Ok (Some bits)).
  pose proof (boolean_buffer_packed bits) as Hread. unfold bytes_to_validity.
  destruct (pack_bits bits) as [|b bs] eqn:Hp.
  - by apply pack_bits_nil in Hp as ->.
  - by rewrite Hread.
Qed.

Lemma nondecreasing_bound o l : nondecreasing (o :: l) = true → Forall (λ p, o ≤ p) (o :: l).
Proof.
  revert o. induction l as [|p l IH]; intros o Ho; [repeat constructor; lia|].
  cbn [nondecreasing] in Ho. apply andb_prop in Ho as [Hop Ho]. apply Z.leb_le in Hop.
  constructor; [lia|]. eapply Forall_impl; [by apply IH|]. cbn. lia.
Qed.

Lemma offsets_nonneg offsets :
  offset_buffer offsets = Ok offsets → Forall (λ o, 0 ≤ o) offsets.
Proof.
  destruct offsets as [|o l]; [done|]. unfold offset_buffer. intros Hoff. simplify_outcome.
  match goal with Ho : (0 <=? o) = true |- _ => apply Z.leb_le in Ho end.
  eapply Forall_impl; [by apply nondecreasing_bound|]. cbn. lia.
Qed.

Lemma offsets_read w offsets n :
  (0 < w)%nat → list_offsets_ok w offsets → n = len offsets - 1 →
  offset_elements w (offset_bytes w offsets) n = Ok offsets.
Proof.
  intros Hw (Hoff & Hsmall & Hmax) ->. unfold offset_elements, uadd.
  replace (len offsets - 1 + 1) with (len offsets) by lia.
  rewrite (proj2 (Z.ltb_lt _ _)) by (pose proof (len_nonneg offsets); nia). cbn [obind].
  unfold offset_bytes. rewrite <-(len_map (le_bytes w) offsets).
  rewrite scalar_buffer_concat;
    [|apply Forall_map, Forall_true; intros; apply le_bytes_length|by rewrite len_map].
  cbn [obind]. f_equal. rewrite map_map. transitivity (map id offsets); [|apply map_id].
  apply offsets_nonneg in Hoff as H0.
  clear Hoff Hsmall. induction offsets as [|o l IH]; [done|].
  apply Forall_cons in Hmax as [Ho Hmax]. apply Forall_cons in H0 as [Ho0 H0]. cbn [map].
  rewrite IH by done. f_equal. rewrite le_val_le_bytes_mod, as_signed_mod by lia. done.
Qed.

(** The values of strings with their nulls. *)
Lemma strings_read bits vals strs :
  (bits = Some (valid_bits vals) ∨ bits = None ∧ Forall is_Some vals) →
  Forall2 (λ v b, ∀ x, v = Some x → ∃ s, x = VStr s ∧ b = string_bytes s) vals strs →
  with_validity bits (map bytes_value strs) = vals.
Proof.
  intros Hb Hs. apply values_read; [done|]. apply Forall2_fmap_r.
  eapply Forall2_impl; [exact Hs|]. intros v b Hv x Hx.
  destruct (Hv x Hx) as (s & -> & ->). unfold bytes_value. by rewrite string_of_string_bytes.
Qed.

(** Arrow accepts the offsets and bytes of texts. *)
Lemma texts_accepted dt vals strs :
  dt = Utf8 ∨ dt = LargeUtf8 ∨ dt = Binary ∨ dt = LargeBinary → Forall2 (text_slot dt) vals strs →
  byte_array_valid dt (piece_offsets 0 strs) (concat strs) = true.
Proof.
  intros Hdt Hs.
  assert (Hend : (default 0 (last (piece_offsets 0 strs)) <=? len (concat strs)) = true)
    by (rewrite piece_offsets_last; cbn; apply Z.leb_refl).
  assert (Htext : dt = Utf8 ∨ dt = LargeUtf8 → Forall (λ b, from_utf8 b = true) strs).
  { intros Ht. eapply Forall2_Forall_r; [exact Hs|]. apply Forall_true. intros v b [Hu _]. auto. }
  destruct Hdt as [-> | [-> | [-> | ->]]]; try exact Hend; cbn [byte_array_valid];
    rewrite from_utf8_concat by auto; apply (boundaries [] strs); auto.
Qed.

Lemma string_array_read dt nulls vals strs unread rest :
  dt = Utf8 ∨ dt = LargeUtf8 ∨ dt = Binary ∨ dt = LargeBinary →
  lays_validity nulls vals → Forall2 (text_slot dt) vals strs →
  (len vals + 1) * Z.of_nat (byte_offset_width dt) < 2 ^ 64 →
  len (concat strs) < 2 ^ (8 * Z.of_nat (byte_offset_width dt) - 1) →
  new_generic_byte_array dt
    (default [] nulls :: offset_bytes (byte_offset_width dt) (piece_offsets 0 strs)
     :: unread :: concat strs :: rest) (len vals)
  = Ok (PrimArray dt vals).
Proof.
  intros Hdt Hl Hs Hn Hmax. unfold new_generic_byte_array. cbn [next_buffer obind].
  destruct (validity_read _ _ Hl) as (bits & Hbits & Hcase).
  rewrite bytes_validity_same, Hbits. cbn [obind].
  assert (Hnum : len (piece_offsets 0 strs) = len vals + 1).
  { unfold len. rewrite piece_offsets_length, (Forall2_length _ _ _ Hs). lia. }
  pose proof (piece_offsets_accepted 0 strs ltac:(lia)) as Hoff.
  rewrite offsets_read; [|by destruct dt; cbn; lia| |lia].
  2: { split_and!; [done|by rewrite Hnum|]. eapply Forall_impl; [apply piece_offsets_range|].
       cbn. lia. }
  cbn [obind]. rewrite Hoff. cbn [obind]. unfold generic_byte_array_new.
  rewrite (texts_accepted dt vals) by done. cbn [assert obind].
  assert (Hfit : nulls_fit bits (len (piece_offsets 0 strs) - 1) = true).
  { destruct Hcase as [-> | [-> _]]; [|done]. cbn. apply Z.eqb_eq.
    unfold valid_bits. rewrite len_map. lia. }
  rewrite Hfit. cbn [assert obind]. pose proof (pieces_concat [] strs) as Hp.
  cbn [app] in Hp. change (len (@nil Z)) with 0 in Hp. rewrite Hp. do 2 f_equal.
  apply strings_read; [done|]. eapply Forall2_impl; [exact Hs|]. intros v b [_ Hv]. exact Hv.
Qed.

Lemma list_array_read large child nulls offsets vbuf rest :
  lays_bits nulls vbuf → list_offsets_ok (offset_width large) offsets →
  nulls_fit nulls (len offsets - 1) = true →
  new_list_offsets_validity large (vbuf :: offset_bytes (offset_width large) offsets :: rest)
    (len offsets - 1) child
  = Ok (ListArray large DUMMY_NULL_FIELD offsets (null_array (default 0 (last offsets))) nulls).
Proof.
  intros Hb Hoff Hfit. unfold new_list_offsets_validity. cbn [next_buffer obind].
  rewrite (bits_read nulls) by done. cbn [obind].
  rewrite offsets_read; [|by destruct large; cbn; lia|done|done]. cbn [obind].
  destruct Hoff as (Hoff & _). pose proof (offsets_nonneg _ Hoff) as Hpos.
  destruct (last offsets) as [m|] eqn:Hm; [|by apply last_None in Hm as ->].
  assert (Hm0 : 0 ≤ m).
  { rewrite last_lookup in Hm. by eapply Forall_lookup in Hm; [|exact Hpos]. }
  assert (Hi : index offsets (len offsets - 1) = Ok m).
  { rewrite last_lookup in Hm. apply lookup_lt_Some in Hm as Hlt. apply index_Ok.
    unfold len. split; [lia|]. rewrite <-Hm. f_equal. lia. }
  rewrite Hi. cbn [obind]. rewrite (proj2 (Z.ltb_ge _ _)) by done. cbn [obind].
  rewrite Hoff. cbn [obind default]. unfold list_array_new. rewrite Hm. cbn [default].
  assert (Hc : arr_len (null_array m) = m) by (cbn; rewrite len_replicate; lia).
  rewrite Hc, Z.leb_refl. cbn [assert obind]. by rewrite Hfit.
Qed.

Lemma fixed_array_read size nulls vals slots rest :
  0 < size → lays_validity nulls vals → Forall2 (fixed_slot size) vals slots →
  primitive_array_from_buffers (FixedSizeBinary size) (default [] nulls :: concat slots :: rest)
    (len vals)
  = Ok (Plain (PrimArray (FixedSizeBinary size) vals)).
Proof.
  intros Hsize Hl Hs. cbn [primitive_array_from_buffers next_buffer obind].
  destruct (validity_read _ _ Hl) as (bits & Hbits & Hcase).
  rewrite bytes_validity_same, Hbits. cbn [obind]. unfold fixed_size_binary_new.
  rewrite (proj2 (Z.leb_le _ _)) by lia. cbn [assert obind].
  assert (Hw : Forall (λ b, length b = Z.to_nat size) slots).
  { eapply Forall2_Forall_r; [exact Hs|]. apply Forall_true. by intros v b []. }
  assert (Hn : len slots = len vals) by (unfold len; by rewrite (Forall2_length _ _ _ Hs)).
  unfold udiv. destruct (Z.eqb_spec size 0); [lia|]. cbn [obind].
  rewrite (len_concat_width (Z.to_nat size)), Z2Nat.id, Z.div_mul, Hn by (done || lia).
  assert (Hfit : nulls_fit bits (len vals) = true).
  { destruct Hcase as [-> | [-> _]]; [|done]. cbn. apply Z.eqb_eq. unfold valid_bits.
    by rewrite len_map. }
  rewrite Hfit. cbn [assert obind]. unfold plain, omap_ok. rewrite <-Hn. unfold len at 1.
  rewrite Nat2Z.id, <-(app_nil_r (concat slots)), scalar_elements_concat by done. cbn [obind].
  do 3 f_equal. apply strings_read; [done|].
  eapply Forall2_impl; [exact Hs|]. intros v b [_ Hv]. exact Hv.
Qed.

(** The builder of a primitive type. *)
Lemma native_bytes_dispatch dt w read bufs n :
  native_type dt = Some (w, read) →
  primitive_array_from_buffers dt bufs n = plain (new_primitive_array w read bufs n dt).
Proof.
  intros Hn. destruct dt; cbn in Hn; try done;
    repeat match goal with u : TimeUnit |- _ => destruct u | u : IntervalUnit |- _ => destruct u end;
    try done; by injection Hn as <- <-.
Qed.

Lemma fixed_list_accepted items size values nulls rows :
  0 < size → nulls_fit nulls rows = true →
  items_masked items size nulls (bytes_array_validity values) = true →
  bytes_array_type values = data_type items → bytes_array_len values = rows * size →
  fixed_size_list_new items size values nulls
  = Ok (FixedSizeListArray items size values nulls rows).
Proof.
  intros Hs Hfit Hmask Ht Hl. unfold fixed_size_list_new.
  rewrite (proj2 (Z.leb_le _ _)) by lia. cbn [assert obind].
  destruct (Z.eqb_spec size 0); [lia|]. rewrite Hl, Z.div_mul by lia. rewrite Hfit. cbn [assert obind].
  rewrite bool_decide_eq_true_2 by done. cbn [assert obind]. by rewrite Hmask.
Qed.

Lemma laid_out_bytes_read dt a n bufs :
  bytes_lay_out dt a n bufs → primitive_array_from_buffers dt bufs n = Ok a.
Proof.
  induction 1 as [|nulls vals bools rest Hl Hv|dt w read nulls vals slots rest Hn Hl Hlen Hv
    |dt nulls vals strs unread rest Hdt Hl Hs Hn Hmax|large child nulls offsets vbuf rest Hb Hoff Hfit
    |size nulls vals slots rest Hsize Hl Hs
    |items size values nulls rows vbuf rest Hsize Hrows Hmul Hb Hfit Hmask Ht Hlen _ IH].
  - done.
  - pose proof (boolean_array_read _ _ _ rest Hl Hv) as Hr.
    cbn [primitive_array_from_buffers]. change new_boolean_array with boolean_array_from_buffers.
    by rewrite Hr.
  - rewrite (native_bytes_dispatch _ _ _ _ _ Hn).
    change new_primitive_array with new_primitive_array_from_arrow_buffer_iter.
    by rewrite (native_array_read dt).
  - pose proof (string_array_read dt nulls vals strs unread rest Hdt Hl Hs Hn Hmax) as Hr.
    destruct Hdt as [-> | [-> | [-> | ->]]]; cbn [primitive_array_from_buffers]; by rewrite Hr.
  - destruct large; cbn [primitive_array_from_buffers];
      by rewrite (list_array_read _ child nulls offsets vbuf rest).
  - by apply fixed_array_read.
  - destruct items as [nm dt nl]. cbn [primitive_array_from_buffers next_buffer obind data_type] in *.
    rewrite (bits_read nulls) by done. cbn [obind]. rewrite wrap_small by (unfold in_u; lia).
    unfold umul. rewrite (proj2 (Z.ltb_lt _ _)) by done. cbn [obind]. rewrite IH. cbn [obind].
    apply fixed_list_accepted; (done || lia).
Qed.

Lemma lay_out_more dt a n bufs more :
  bytes_lay_out dt a n bufs → bytes_lay_out dt a n (bufs ++ more).
Proof.
  induction 1; rewrite <-?app_comm_cons;
    first [apply bytes_null|apply bytes_boolean; done|apply bytes_strings; done
          |apply bytes_list; done|apply bytes_fixed; done|apply bytes_fixed_list; done
          |eapply bytes_native; done].
Qed.

(** C39: an array laid out in byte buffers is read back by [primitive_array_from_buffers]:
    values, nulls and offsets, for primitive types, strings as offsets and bytes, and
    lists of a fixed size nested to any depth; what follows the buffers is not read.
    The buffers are taken to lie where the alignment of their elements asks for: where
    Arrow would refuse a misaligned buffer is not part of the model. *)
Theorem byte_buffers_read_back dt a n bufs more :
  bytes_lay_out dt a n bufs → primitive_array_from_buffers dt (bufs ++ more) n = Ok a.
Proof.
  intros Hl. by apply laid_out_bytes_read, lay_out_more.
Qed.

(** Where the two conversions agree: all types but strings and those of a fixed size. *)
Definition common_layout (dt : DataType) : bool :=
  match dt with
  | Utf8 | LargeUtf8 | Binary | LargeBinary | FixedSizeBinary _ | FixedSizeList _ _ => false
  | _ => true
  end.

(** On the types of [common_layout] the conversion of byte buffers is that of Arrow
    buffers, errors and panics included. *)
Theorem byte_buffers_agree dt bufs n :
  common_layout dt = true →
  primitive_array_from_buffers dt bufs n = plain (primitive_array_from_arrow_buffers dt bufs n).
Proof.
  intros Hdt. destruct dt; try done;
    repeat match goal with u : TimeUnit |- _ => destruct u | u : IntervalUnit |- _ => destruct u end;
    try done.
  all: cbn [primitive_array_from_buffers]; f_equal;
    unfold new_list_offsets_validity, primitive_array_from_arrow_buffers,
      primitive_array_from_arrow_buffers_iter, new_list_offsets_validity_from_buffer_iter,
      offset_elements;
    destruct bufs as [|v [|o rest]]; try done; cbn [next_buffer obind];
    rewrite bytes_validity_same; destruct (arrow_buffer_to_validity v n); try done; cbn [obind];
    destruct (uadd 64 n 1) as [m|?|?]; try done; cbn [obind];
    by destruct (scalar_buffer _ o m).
Qed.

(** A byte array over Arrow buffers is the one over bytes without the buffer that is
    skipped. *)
Theorem byte_array_skips_a_buffer dt nulls offsets skipped rest n :
  new_generic_byte_array dt (nulls :: offsets :: skipped :: rest) n
  = new_generic_byte_array_from_arrow_buffer_iter dt (nulls :: offsets :: rest) n.
Proof. done. Qed.

(** ** An example

    Two lists of two texts; the second list is null, and so is a text of the first. *)

Definition e_acute : string := string_of_bytes [195; 169].
Definition example_texts : list (option value) :=
  [Some (VStr e_acute); None; Some (VStr ""); Some (VStr "ab")].
Definition example_slots : list (list Z) := [[195; 169]; []; []; [97; 98]].
Definition example_items : Field := mkField "item" Utf8 true.

Definition example_lists : BytesArray :=
  FixedSizeListArray example_items 2 (Plain (PrimArray Utf8 example_texts)) (Some [true; false]) 2.

(** Bit [1] of the validity of the items is unset: 13 = 0b1101. *)
Definition example_buffers : list (list Z) :=
  [[1]; [13]; offset_bytes 4 [0; 2; 2; 2; 4]; []; [195; 169; 97; 98]].

Lemma example_lays_out : bytes_lay_out (FixedSizeList example_items 2) example_lists 2 example_buffers.
Proof.
  apply bytes_fixed_list; try (done || lia).
  change (bytes_lay_out Utf8 (Plain (PrimArray Utf8 example_texts)) (len example_texts)
    (default [] (Some [13]) :: offset_bytes 4 (piece_offsets 0 example_slots) :: [] :: concat example_slots :: [])).
  apply (bytes_strings Utf8 (Some [13]) example_texts example_slots [] []); try done; [by left|by left|].
  unfold example_texts, example_slots.
  repeat (apply Forall2_cons; split); try apply Forall2_nil_2;
    (split; [done|]); intros x Hx; try discriminate Hx; injection Hx as <-; by eexists.
Qed.

(** A character that is cut, an overlong form and a surrogate are refused. *)
Example refused_texts :
  map from_utf8 [[195]; [192; 128]; [237; 160; 128]; [169]; [195; 169]; [240; 159; 166; 128]]
  = [false; false; false; false; true; true].
Proof. vm_compute. reflexivity. Qed.

Lemma byte_buffers_read_back_witness :
  bytes_lay_out (FixedSizeList example_items 2) example_lists 2 example_buffers ∧
  primitive_array_from_buffers (FixedSizeList example_items 2) (example_buffers ++ [[7]]) 2
  = Ok example_lists.
Proof.
  split; [exact example_lays_out|].
  apply (byte_buffers_read_back (FixedSizeList example_items 2) example_lists 2 example_buffers [[7]]).
  exact example_lays_out.
Defined.

(** An offset inside a character makes the construction panic. *)
Example split_character_panics :
  primitive_array_from_buffers Utf8 [[]; offset_bytes 4 [0; 1; 2]; []; [195; 169]] 2 = Panic PAssert.
Proof. vm_compute. reflexivity. Qed.
