(* ===== verification/Vortex.v ===== *)
(** * fff-encoding/src/schemes/vortex.rs: the built-in codec

    Arrays are compressed by vortex, a third-party library, and written as two of its
    IPC messages, the type and the data.  The file models how the repository frames
    the messages, reads them back, and adds lists and lists of structs, which vortex
    does not know. *)

From S2P Require Import Prelude Arrow EncUnit Buffers.

(** ** What is taken from vortex and Arrow *)

(** An Arrow array with its memory: the logical content, the buffer of nulls, the
    buffers of values, and the bit at which the values of a Boolean array start. *)
Record ArrayRef := mkRef {
  ref_array : Array;
  ref_nulls : option (list Z);
  ref_buffers : list (list Z);
  ref_bit_offset : Z;
}.

(** [ArrayData], its type, scalars and comparisons; the compressor, which may exclude
    dictionaries; the writer of messages, and their readers.  A reader is a state
    machine: each [read] takes the bytes asked for before and says how many it needs
    next, if any; [dtype_reads] and [array_reads] bound how often it will ask. *)
Class VortexLib := {
  VArray : Type;
  VDType : Type;
  Scalar : Type;
  Operator : Type;
  Encodings : Type;
  ALL_ENCODINGS_CONTEXT : Encodings;
  from_arrow : Array → bool → outcome VArray;
  compress : bool → VArray → outcome VArray;
  v_dtype : VArray → VDType;
  v_len : VArray → Z;
  write_dtype : VDType → outcome (list Z);
  write_array : VArray → outcome (list Z);
  DTypeReader : Type;
  dtype_reader_new : DTypeReader;
  dtype_read : DTypeReader → list Z → outcome (option Z * DTypeReader);
  dtype_reads : DTypeReader → nat;
  into_dtype : DTypeReader → outcome VDType;
  ArrayReader : Type;
  array_reader_new : ArrayReader;
  array_read : ArrayReader → list Z → outcome (option Z * ArrayReader);
  array_reads : ArrayReader → nat;
  into_array : ArrayReader → Encodings → VDType → outcome VArray;
  into_canonical : VArray → outcome VArray;
  into_arrow : VArray → outcome ArrayRef;
  v_slice : VArray → Z → Z → outcome VArray;
  filter_range : VArray → Z → Z → outcome VArray;
  ConstantArray : Scalar → Z → VArray;
  compare_arrays : VArray → VArray → Operator → outcome VArray;
  is_run_end : VArray → bool;
  is_dict : VArray → bool;
  v_children : VArray → list VArray;
}.

Definition VORTEX_ALIGNMENT : Z := 64.

(** ** Encoding *)

Section Encoder.
Context `{VortexLib}.

Definition vortex_array_to_arrow (v : VArray) : outcome ArrayRef :=
  let! c := unwrap_res (into_canonical v) in unwrap_res (into_arrow c).

Record VortexEncoder := mkVortexEncoder { enable_dict : bool }.
Definition VortexEncoder_default : VortexEncoder := mkVortexEncoder true.

(** The size of the type, the type, padding, and the array. *)
Definition encode_arr (e : VortexEncoder) (arr : Array) : outcome (list (list Z)) :=
  let! v := from_arrow arr (arr_is_nullable arr) in
  let! compressed_array := compress (enable_dict e) v in
  let! dtype_buf := write_dtype (v_dtype compressed_array) in
  let dtype_size := le_bytes 4 (wrap 32 (len dtype_buf)) in
  let written_len := len dtype_buf + len dtype_size in
  let! w := write_array compressed_array in
  let! padding := slice ZEROS 0 (padding_size written_len VORTEX_ALIGNMENT) in
  Ok [dtype_size; dtype_buf; padding; w].

Definition regular_encode (e : VortexEncoder) (arr : Array) : outcome EncUnit :=
  let! _ := assert (non_nest_types (arr_data_type arr)) in
  let! bufs := encode_arr e arr in
  Ok (mkEncUnit bufs Vortex []).

Definition is_list_type (dt : DataType) : bool :=
  match dt with List _ | LargeList _ => true | _ => false end.

(** [BooleanArray::new(bits, None)] and [PrimitiveArray::new(offsets, None)] *)
Definition boolean_array (bits : list bool) : Array :=
  PrimArray Boolean (map (λ b, Some (VBool b)) bits).
Definition offsets_array (large : bool) (offsets : list Z) : Array :=
  PrimArray (if large then Int64 else Int32) (map (λ o, Some (VInt o)) offsets).

(** The validity of the lists, all true without nulls, and their offsets. *)
Definition list_parts (arr : Array) : outcome (Array * Array) :=
  match arr with
  | ListArray large _ offsets _ nulls =>
      Ok (boolean_array (default (replicate (Z.to_nat (arr_len arr)) true) nulls),
          offsets_array large offsets)
  | _ => Panic PTodo
  end.

Definition list_encode (e : VortexEncoder) (arr : Array) : outcome EncUnit :=
  let! _ := assert (is_list_type (arr_data_type arr)) in
  let! '(validity, offsets) := list_parts arr in
  let! res := encode_arr e validity in
  let! more := encode_arr e offsets in
  Ok (mkEncUnit (res ++ more) Vortex []).

Definition list_struct_encode (e : VortexEncoder) (list_arr field : Array) : outcome EncUnit :=
  let! _ := assert (is_list_type (arr_data_type list_arr)) in
  let! '(validity, offsets) := list_parts list_arr in
  let! res := encode_arr e validity in
  let! more := encode_arr e offsets in
  let! last := encode_arr e field in
  Ok (mkEncUnit (res ++ more ++ last) Vortex []).

Definition encode (e : VortexEncoder) (arr : Array) : outcome EncUnit :=
  let dt := arr_data_type arr in
  if non_nest_types dt then regular_encode e arr
  else if is_list_type dt then list_encode e arr
  else Panic PTodo.
End Encoder.

(** ** Reading a block *)

(** [while let Some(u) = reader.read(read_buf)? { read_buf = bytes.split_to(u) }] *)
Section ReadLoop.
Context {S : Type} (read : S → list Z → outcome (option Z * S)).

Fixpoint read_loop (fuel : nat) (r : S) (read_buf bytes : list Z) : outcome (S * list Z) :=
  match fuel with
  | O => Panic PTodo
  | Datatypes.S fuel =>
      let! '(u, r) := read r read_buf in
      match u with
      | Some u => let! '(read_buf, bytes) := split_to bytes u in read_loop fuel r read_buf bytes
      | None => Ok (r, bytes)
      end
  end.
End ReadLoop.

Section Decoder.
Context `{VortexLib}.

Definition read_dtype (r : DTypeReader) (read_buf bytes : list Z) : outcome (DTypeReader * list Z) :=
  read_loop dtype_read (S (dtype_reads r)) r read_buf bytes.
Definition read_array (r : ArrayReader) (read_buf bytes : list Z) : outcome (ArrayReader * list Z) :=
  read_loop array_read (S (array_reads r)) r read_buf bytes.

(** The array at the front of the bytes, and the bytes after it. *)
Definition vortex_deser (encblock : list Z) (context : Encodings) : outcome (VArray * list Z) :=
  let! '(b, encblock) := split_to encblock 4 in
  let metadata_size := le_val b in
  let! '(dtype_bytes, encblock) := split_to encblock metadata_size in
  let! '(dtype_reader, _) := read_dtype dtype_reader_new [] dtype_bytes in
  let! dtype := into_dtype dtype_reader in
  let! '(_, encblock) := split_to encblock (padding_size (metadata_size + 4) VORTEX_ALIGNMENT) in
  let! '(array_reader, encblock) := read_array array_reader_new [] encblock in
  let! arr := into_array array_reader context dtype in
  Ok (arr, encblock).

(** ** The decoder of flat arrays *)

Record VtxPPD := mkPPD { right : Scalar; op : Operator }.

Record VortexDecoderBuilder := mkBuilder {
  b_encunit : list Z;
  b_context : Encodings;
  b_partial_decode : bool;
  b_ppd : option VtxPPD;
}.

Definition VortexDecoderBuilder_new (encunit : list Z) (context : Encodings) : VortexDecoderBuilder :=
  mkBuilder encunit context false None.

Definition with_partial_decode (b : VortexDecoderBuilder) (partial_decode : bool)
  : outcome VortexDecoderBuilder :=
  let! _ := assert (bool_decide (b_ppd b = None)) in
  Ok (mkBuilder (b_encunit b) (b_context b) partial_decode (b_ppd b)).

Definition with_ppd (b : VortexDecoderBuilder) (ppd : VtxPPD) : outcome VortexDecoderBuilder :=
  let! _ := assert (negb (b_partial_decode b)) in
  Ok (mkBuilder (b_encunit b) (b_context b) (b_partial_decode b) (Some ppd)).

Record VortexDecoder := mkVortexDecoder {
  vortex_array : option VArray;
  partial_decode : bool;
}.

Definition try_build (b : VortexDecoderBuilder) : outcome VortexDecoder :=
  match b_partial_decode b, b_ppd b with
  | false, Some ppd =>
      let! '(array, _) := vortex_deser (b_encunit b) (b_context b) in
      let! res := match compare_arrays array (ConstantArray (right ppd) (v_len array)) (op ppd) with
                  | Err _ => Err (External "compare")
                  | res => res
                  end in
      Ok (mkVortexDecoder (Some res) false)
  | partial, None =>
      let! '(array, _) := vortex_deser (b_encunit b) (b_context b) in
      Ok (mkVortexDecoder (Some array) partial)
  | true, Some _ => Panic PTodo
  end.

Definition VortexDecoder_try_new (encunit : list Z) (context : Encodings) : outcome VortexDecoder :=
  try_build (VortexDecoderBuilder_new encunit context).

(** [self.vortex_array.take().unwrap()] *)
Definition take_array (d : VortexDecoder) : outcome (VArray * VortexDecoder) :=
  let! arr := unwrap (vortex_array d) in Ok (arr, mkVortexDecoder None (partial_decode d)).

(** The buffer of nulls, if any, and those of the values. *)
Definition all_buffers (a : ArrayRef) : list (list Z) := option_list (ref_nulls a) ++ ref_buffers a.

Definition decode_all (d : VortexDecoder) : outcome (list (list Z) * VortexDecoder) :=
  match vortex_array d with
  | None => Ok ([], d)
  | Some arr =>
      let! a := vortex_array_to_arrow arr in
      Ok (all_buffers a, mkVortexDecoder None (partial_decode d))
  end.

Definition decoder_slice (d : VortexDecoder) (start stop : Z) : outcome (Array * VortexDecoder) :=
  let! '(arr, d) := take_array d in
  let! arr := filter_range arr start stop in
  let! arr := into_canonical arr in
  let! a := unwrap_res (into_arrow arr) in
  Ok (ref_array a, d).

(** A decoded array, or the dictionary array of a partial decode. *)
Inductive Decoded :=
  | Plain (a : ArrayRef)
  | DictionaryArray (keys values : ArrayRef).

Definition is_integer (dt : DataType) : bool :=
  match dt with
  | Int8 | Int16 | Int32 | Int64 | UInt8 | UInt16 | UInt32 | UInt64 => true
  | _ => false
  end.

(** [DictionaryArray::try_new]: every key is a row of the values. *)
Definition dictionary_try_new (keys values : ArrayRef) : outcome Decoded :=
  let! ks := unwrap (arr_vals (ref_array keys)) in
  if forallb (λ k, match k with
                   | Some (VInt x) => (0 <=? x) && (x <? arr_len (ref_array values))
                   | Some _ => false
                   | None => true
                   end) ks
  then Ok (DictionaryArray keys values)
  else Err (External "dictionary key out of bounds").

Definition decode_all_as_array (d : VortexDecoder) : outcome (Decoded * VortexDecoder) :=
  let! '(arr, d) := take_array d in
  if partial_decode d then
    if is_run_end arr then Panic PTodo
    else if is_dict arr then
      match v_children arr with
      | [codes; values] =>
          let! codes := vortex_array_to_arrow codes in
          let! values := vortex_array_to_arrow values in
          if is_integer (arr_data_type (ref_array codes)) then
            let! out := dictionary_try_new codes values in Ok (out, d)
          else Panic PTodo
      | _ => Panic PAssert
      end
    else Panic PTodo
  else
    let! a := vortex_array_to_arrow arr in Ok (Plain a, d).

(** The first 1024 rows; the decoder keeps its array. *)
Definition decode_a_vector (d : VortexDecoder) : outcome (option (list (list Z))) :=
  match vortex_array d with
  | None => Ok None
  | Some arr =>
      let! arr := unwrap_res (v_slice arr 0 1024) in
      let! a := vortex_array_to_arrow arr in
      Ok (Some (all_buffers a))
  end.

(** ** Lists *)

(** [downcast_ref::<BooleanArray>().unwrap().values().inner()]: the whole buffer,
    whatever the bit it starts at. *)
Definition boolean_inner (a : ArrayRef) : outcome (list Z) :=
  match ref_array a with
  | PrimArray Boolean _ => index (ref_buffers a) 0
  | _ => Panic PUnwrap
  end.

Record VortexListDecoder := mkListDecoder {
  vortex_validity_array : option VArray;
  vortex_offsets_array : option VArray;
  out_type : DataType;
}.

Definition VortexListDecoder_try_new (encblock : list Z) (out_type : DataType) (context : Encodings)
  : outcome VortexListDecoder :=
  let! '(validity, encblock) := vortex_deser encblock context in
  let! '(offsets, _) := vortex_deser encblock context in
  Ok (mkListDecoder (Some validity) (Some offsets) out_type).

(** The list array of a validity and offsets, and its values if there are any. *)
Definition new_list (out_type : DataType) (validity offsets : list Z) (rows : Z)
    (child : option Array) : outcome Array :=
  match out_type with
  | List _ => new_list_offsets_validity_from_buffers false [validity; offsets] rows child
  | LargeList _ => new_list_offsets_validity_from_buffers true [validity; offsets] rows child
  | _ => Panic PTodo
  end.

Definition list_decode_all_as_array (d : VortexListDecoder) : outcome (Array * VortexListDecoder) :=
  let! v := unwrap (vortex_validity_array d) in
  let! validity_array := vortex_array_to_arrow v in
  let! validity := boolean_inner validity_array in
  let! o := unwrap (vortex_offsets_array d) in
  let! offsets_array := vortex_array_to_arrow o in
  let! offsets := index (ref_buffers offsets_array) 0 in
  let! a := new_list (out_type d) validity offsets (arr_len (ref_array validity_array)) None in
  Ok (a, mkListDecoder None None (out_type d)).

(** ** Lists of structs *)

Record VortexListStructDecoder := mkListStructDecoder {
  ls_validity_array : option VArray;
  ls_offsets_array : option VArray;
  ls_struct_array : option VArray;
  ls_out_type : DataType;
}.

Definition VortexListStructDecoder_try_new (encblock : list Z) (out_type : DataType)
    (context : Encodings) : outcome VortexListStructDecoder :=
  let! '(validity, encblock) := vortex_deser encblock context in
  let! '(offsets, encblock) := vortex_deser encblock context in
  let! '(field, _) := vortex_deser encblock context in
  Ok (mkListStructDecoder (Some validity) (Some offsets) (Some field) out_type).

Definition emptied (d : VortexListStructDecoder) : VortexListStructDecoder :=
  mkListStructDecoder None None None (ls_out_type d).

Definition list_struct_decode_all_as_array (d : VortexListStructDecoder)
  : outcome (Array * VortexListStructDecoder) :=
  let! v := unwrap (ls_validity_array d) in
  let! validity_array := vortex_array_to_arrow v in
  let! validity := boolean_inner validity_array in
  let! o := unwrap (ls_offsets_array d) in
  let! offsets_array := vortex_array_to_arrow o in
  let! s := unwrap (ls_struct_array d) in
  let! struct_array := vortex_array_to_arrow s in
  let! offsets := index (ref_buffers offsets_array) 0 in
  let! a := new_list (ls_out_type d) validity offsets (arr_len (ref_array validity_array))
              (Some (ref_array struct_array)) in
  Ok (a, emptied d).

(** [as_primitive::<Int32Type>()], and [value(i)] of it: validity is not looked at. *)
Definition int32_value (a : Array) (i : Z) : outcome Z :=
  match a with
  | PrimArray Int32 vals =>
      let! v := index vals i in
      match v with Some (VInt x) => Ok x | _ => Ok 0 end
  | _ => Panic PUnwrap
  end.

(** [a - b] of 32-bit integers. *)
Definition isub32 (a b : Z) : outcome Z :=
  if (- 2 ^ 31 <=? a - b) && (a - b <? 2 ^ 31) then Ok (a - b) else Panic POverflow.

(** One row. *)
Definition list_struct_slice (d : VortexListStructDecoder) (start stop : Z)
  : outcome (Array * VortexListStructDecoder) :=
  let! v := unwrap (ls_validity_array d) in
  let! v := v_slice v start stop in
  let! validity_array := vortex_array_to_arrow v in
  let! validity := boolean_inner validity_array in
  let! o := unwrap (ls_offsets_array d) in
  let! stop1 := uadd 64 stop 1 in
  let! o := v_slice o start stop1 in
  let! offsets_array := vortex_array_to_arrow o in
  let! n := usub stop start in
  let! _ := assert (n =? 1) in
  let! first := int32_value (ref_array offsets_array) 0 in
  let! last := int32_value (ref_array offsets_array) 1 in
  let! s := unwrap (ls_struct_array d) in
  let! s := v_slice s (wrap 64 first) (wrap 64 last) in
  let! struct_array := vortex_array_to_arrow s in
  let! n := isub32 last first in
  let offsets := le_bytes 4 0 ++ le_bytes 4 (wrap 32 n) in
  match ls_out_type d with
  | List _ =>
      let! a := new_list (ls_out_type d) validity offsets (arr_len (ref_array validity_array))
                  (Some (ref_array struct_array)) in
      Ok (a, emptied d)
  | _ => Panic PTodo
  end.

(** ** What the unit decoders call

    The arms of [VortexEncUnitDecoder] in fff-poc/src/decoder/encunit.rs. *)

Definition unit_vortex_decode (data : list Z) : outcome Array :=
  let! d := VortexDecoder_try_new data ALL_ENCODINGS_CONTEXT in
  let! '(a, _) := decode_all_as_array d in
  match a with Plain a => Ok (ref_array a) | DictionaryArray _ _ => Panic PTodo end.

Definition unit_vortex_slice (data : list Z) (start stop : Z) : outcome Array :=
  let! d := VortexDecoder_try_new data ALL_ENCODINGS_CONTEXT in
  omap_ok fst (decoder_slice d start stop).

Definition unit_list_decode (output_type : DataType) (data : list Z) : outcome Array :=
  let! d := VortexListDecoder_try_new data output_type ALL_ENCODINGS_CONTEXT in
  omap_ok fst (list_decode_all_as_array d).

Definition unit_list_struct_decode (output_type : DataType) (data : list Z) : outcome Array :=
  let! d := VortexListStructDecoder_try_new data output_type ALL_ENCODINGS_CONTEXT in
  omap_ok fst (list_struct_decode_all_as_array d).

Definition unit_list_struct_slice (output_type : DataType) (data : list Z) (start stop : Z)
  : outcome Array :=
  let! d := VortexListStructDecoder_try_new data output_type ALL_ENCODINGS_CONTEXT in
  omap_ok fst (list_struct_slice d start stop).
End Decoder.
