(* ===== verification/VortexFacts.v ===== *)
(** * The built-in codec gives back what it was given

    The framing of [vortex.rs] over any vortex library that keeps its own promises:
    reading messages terminates, flat arrays and lists decode to themselves, and a
    slice is the rows it names.  The interface the column decoders rely on,
    [VortexLaws], is discharged here. *)

From S2P Require Import Prelude Arrow EncUnit Common Buffers Options Chunks Encoders.
From S2P Require Import Decoders LogicalDec DecoderFacts Vortex.
From stdpp Require Import list.
Open Scope Z_scope.

(** ** What is relied on of the library *)

(** The memory of an array that owns no child: bits of a Boolean array from its first
    bit on, elements of native width otherwise.  Nothing is said about the slot of a
    null. *)
Definition laid_out (a : ArrayRef) : Prop :=
  match ref_array a with
  | PrimArray Boolean vals =>
      ∃ buf, ref_buffers a = [buf] ∧ ref_bit_offset a + len vals ≤ 8 * len buf ∧
        ∀ i b, vals !! i = Some (Some (VBool b)) →
               buffer_bit buf (ref_bit_offset a + Z.of_nat i) = b
  | PrimArray dt vals =>
      ∀ w read, native_type dt = Some (w, read) →
        ∃ buf, ref_buffers a = [buf] ∧ Z.of_nat w * len vals ≤ len buf ∧
          ∀ i x, vals !! i = Some (Some x) → read (take w (drop (w * i) buf)) = x
  | _ => True
  end.

(** [denote v] is the Arrow array that [v] stands for, and [bit_start v] the bit its
    first value has in the buffer of its canonical form. *)
Class VortexLibLaws `{VortexLib} (keeps : DataType → Prop) := {
  denote : VArray → Array;
  bit_start : VArray → Z;
  dtype_reads_decrease r buf u r' :
    dtype_read r buf = Ok (Some u, r') → (dtype_reads r' < dtype_reads r)%nat;
  array_reads_decrease r buf u r' :
    array_read r buf = Ok (Some u, r') → (array_reads r' < array_reads r)%nat;
  dtype_written v b :
    write_dtype (v_dtype v) = Ok b → len b < 2 ^ 32 ∧ ∃ r rest,
      read_dtype dtype_reader_new [] b = Ok (r, rest) ∧ into_dtype r = Ok (v_dtype v);
  array_written v b rest :
    write_array v = Ok b → ∃ r, read_array array_reader_new [] (b ++ rest) = Ok (r, rest) ∧
      into_array r ALL_ENCODINGS_CONTEXT (v_dtype v) = Ok v;
  from_arrow_denotes dt vals n v :
    non_nest_types dt = true → keeps dt → from_arrow (PrimArray dt vals) n = Ok v →
    denote v = PrimArray (view_type dt) vals;
  compress_lossless d v c : compress d v = Ok c → denote c = denote v;
  canonical_total v : ∃ c, into_canonical v = Ok c ∧ denote c = denote v ∧
    (bit_start v = 0 → bit_start c = 0);
  arrow_total v : ∃ a, into_arrow v = Ok a ∧ ref_array a = denote v ∧
    ref_bit_offset a = bit_start v ∧ laid_out a;
  slice_denotes v a b :
    0 ≤ a → a ≤ b → b ≤ arr_len (denote v) →
    ∃ s, v_slice v a b = Ok s ∧ denote s = slice_array (denote v) a (b - a) ∧
      (bit_start s = 0 ∨ bit_start s = (bit_start v + a) mod 8);
  filter_denotes v a b :
    0 ≤ a → a ≤ b → b ≤ arr_len (denote v) →
    ∃ s, filter_range v a b = Ok s ∧ denote s = slice_array (denote v) a (b - a);
}.

(** ** Reading a message *)

Section ReadLoop.
Context {S : Type} (read : S → list Z → outcome (option Z * S)) (left : S → nat).
Context (Hleft : ∀ r buf u r', read r buf = Ok (Some u, r') → (left r' < left r)%nat).

Lemma read_loop_more m n r buf bytes :
  (left r < n)%nat → (n ≤ m)%nat → read_loop read m r buf bytes = read_loop read n r buf bytes.
Proof using Hleft.
  revert n r buf bytes. induction m as [|m IH]; intros n r buf bytes Hn Hm; [lia|].
  destruct n as [|n]; [lia|]. cbn [read_loop].
  destruct (read r buf) as [[u r']| |] eqn:Hr; [|done..]. cbn [obind].
  destruct u as [u|]; [|done]. apply Hleft in Hr.
  destruct (split_to bytes u) as [[b bs]| |]; [|done..]. cbn [obind]. by rewrite (IH n) by lia.
Qed.

Lemma read_loop_eq r buf bytes :
  read_loop read (Datatypes.S (left r)) r buf bytes =
    let! '(u, r) := read r buf in
    match u with
    | Some u =>
        let! '(buf, bytes) := split_to bytes u in
        read_loop read (Datatypes.S (left r)) r buf bytes
    | None => Ok (r, bytes)
    end.
Proof using Hleft.
  cbn [read_loop]. destruct (read r buf) as [[u r']| |] eqn:Hr; [|done..]. cbn [obind].
  destruct u as [u|]; [|done]. apply Hleft in Hr.
  destruct (split_to bytes u) as [[b bs]| |]; [|done..]. cbn [obind].
  by rewrite (read_loop_more (left r) (Datatypes.S (left r'))) by lia.
Qed.
End ReadLoop.

Section Facts.
Context `{VortexLib} (keeps : DataType → Prop) `{!VortexLibLaws keeps}.

(** Reading a message terminates: both loops of [vortex_deser] satisfy the
    equations of the [while let] loops they model, in which nothing bounds the
    iterations. *)
Lemma message_loops_end :
  (∀ r buf bytes, read_dtype r buf bytes =
     let! '(u, r) := dtype_read r buf in
     match u with
     | Some u => let! '(buf, bytes) := split_to bytes u in read_dtype r buf bytes
     | None => Ok (r, bytes)
     end) ∧
  (∀ r buf bytes, read_array r buf bytes =
     let! '(u, r) := array_read r buf in
     match u with
     | Some u => let! '(buf, bytes) := split_to bytes u in read_array r buf bytes
     | None => Ok (r, bytes)
     end).
Proof using All.
  split; intros; apply read_loop_eq; [apply dtype_reads_decrease|apply array_reads_decrease].
Qed.

(** ** A block *)

(** What [encode_arr] writes is read back, whatever follows it. *)
Lemma deser_encode e arr bufs rest :
  encode_arr e arr = Ok bufs →
  ∃ v c, from_arrow arr (arr_is_nullable arr) = Ok v ∧ compress (enable_dict e) v = Ok c ∧
    vortex_deser (concat bufs ++ rest) ALL_ENCODINGS_CONTEXT = Ok (c, rest).
Proof using All.
  unfold encode_arr. intros He. apply obind_Ok in He as (v & Hv & He).
  apply obind_Ok in He as (c & Hc & He). apply obind_Ok in He as (d & Hd & He).
  apply obind_Ok in He as (w & Hw & He). apply obind_Ok in He as (pad & Hpad & He).
  apply (inj Ok) in He as <-. exists v, c. split; [done|]. split; [done|].
  destruct (dtype_written c d Hd) as (Hlen & r & left & Hr & Hdt). pose proof (len_nonneg d) as Hd0.
  rewrite wrap_small in * by (unfold in_u; lia).
  apply slice_len in Hpad. rewrite le_bytes_len, Z.sub_0_r in Hpad.
  assert (Hsize : le_val (le_bytes 4 (len d)) = len d) by (apply le_val_le_bytes; unfold in_u; cbn; lia).
  pose proof (le_bytes_len 4 (len d)) as Hsl. set (size := le_bytes 4 (len d)) in *. clearbody size.
  cbn [concat]. rewrite app_nil_r, <-!app_assoc. unfold vortex_deser.
  rewrite split_to_app by done. cbn [obind]. rewrite Hsize, split_to_app by done. cbn [obind].
  rewrite Hr. cbn [obind]. rewrite Hdt. cbn [obind]. rewrite split_to_app by done. cbn [obind].
  destruct (array_written c w rest Hw) as (r' & -> & Ha). cbn [obind]. by rewrite Ha.
Qed.

(** ... and starts with the type and padding, so that the array message is aligned. *)
Lemma encode_arr_aligned e arr bufs :
  encode_arr e arr = Ok bufs → ∃ head w, bufs = head ++ [w] ∧ len (concat head) mod VORTEX_ALIGNMENT = 0.
Proof using Type.
  unfold encode_arr. intros He. apply obind_Ok in He as (v & _ & He).
  apply obind_Ok in He as (c & _ & He). apply obind_Ok in He as (d & _ & He).
  apply obind_Ok in He as (w & _ & He). apply obind_Ok in He as (pad & Hpad & He).
  apply (inj Ok) in He as <-. apply slice_len in Hpad. rewrite Z.sub_0_r in Hpad.
  eexists [_; d; pad], w. split; [done|]. cbn [concat]. rewrite app_nil_r, !len_app, Hpad, Z.add_assoc.
  rewrite (Z.add_comm (len (le_bytes _ _))). by apply padding_size_aligns.
Qed.

(** Every array is an Arrow array. *)
Lemma to_arrow v : ∃ a, vortex_array_to_arrow v = Ok a ∧ ref_array a = denote v ∧ laid_out a ∧
  (bit_start v = 0 → ref_bit_offset a = 0).
Proof using All.
  destruct (canonical_total v) as (c & Hc & Hd & Hb). destruct (arrow_total c) as (a & Ha & Hr & Ho & Hl).
  exists a. unfold vortex_array_to_arrow. rewrite Hc. cbn [unwrap_res obind]. rewrite Ha.
  split; [done|]. split; [congruence|]. split; [done|]. intros Hv. by rewrite Ho, Hb.
Qed.

(** ** Flat arrays *)

Lemma regular_block e dt vals u :
  non_nest_types dt = true → keeps dt → encode e (PrimArray dt vals) = Ok u →
  ∃ c, denote c = PrimArray (view_type dt) vals ∧
    vortex_deser (EncUnit_try_serialize u) ALL_ENCODINGS_CONTEXT = Ok (c, []).
Proof using All.
  intros Hdt Hk He. unfold encode in He. cbn [arr_data_type] in He. rewrite Hdt in He.
  unfold regular_encode in He. apply obind_Ok in He as (t & _ & He).
  apply obind_Ok in He as (bufs & Hb & [= <-]).
  destruct (deser_encode _ _ _ [] Hb) as (v & c & Hv & Hc & Hd). exists c. split.
  - rewrite (compress_lossless _ _ _ Hc). by apply (from_arrow_denotes _ _ _ _ Hdt Hk Hv).
  - cbn [EncUnit_try_serialize]. by rewrite app_nil_r in Hd.
Qed.

(** The interface of the column decoders. *)
Lemma flat_decode_encode enable_dict dt vals u :
  non_nest_types dt = true → keeps dt →
  encode (mkVortexEncoder enable_dict) (PrimArray dt vals) = Ok u →
  unit_vortex_decode (EncUnit_try_serialize u) = Ok (PrimArray (view_type dt) vals).
Proof using All.
  intros Hdt Hk He. destruct (regular_block _ _ _ _ Hdt Hk He) as (c & Hc & Hd).
  unfold unit_vortex_decode, VortexDecoder_try_new, try_build. cbn. rewrite Hd. cbn.
  destruct (to_arrow c) as (a & -> & Ha & _). cbn. by rewrite Ha, Hc.
Qed.

Lemma flat_slice_encode e dt vals u start stop :
  non_nest_types dt = true → keeps dt → encode e (PrimArray dt vals) = Ok u →
  0 ≤ start → start ≤ stop → stop ≤ len vals →
  unit_vortex_slice (EncUnit_try_serialize u) start stop
  = arr_slice (PrimArray (view_type dt) vals) start (stop - start).
Proof using All.
  intros Hdt Hk He H0 Hs Hn. destruct (regular_block _ _ _ _ Hdt Hk He) as (c & Hc & Hd).
  unfold unit_vortex_slice, VortexDecoder_try_new, try_build. cbn. rewrite Hd. cbn.
  destruct (filter_denotes c start stop) as (f & Hf & Hden); [done..|by rewrite Hc|].
  unfold omap_ok, decoder_slice. cbn. rewrite Hf. cbn.
  destruct (canonical_total f) as (g & -> & Hg & _). cbn.
  destruct (arrow_total g) as (a & -> & Ha & _). cbn. unfold arr_slice. cbn [arr_len].
  rewrite (proj2 (Z.leb_le 0 start)), (proj2 (Z.leb_le 0 (stop - start))) by lia.
  replace (start + (stop - start)) with stop by lia. rewrite (proj2 (Z.leb_le stop (len vals))) by lia.
  cbn. by rewrite Ha, Hg, Hden, Hc.
Qed.

(** C38: a slice of an encoded array is its rows: decoding the rows from [start] to
    [stop] of a flat array gives those rows of the array, and nothing else is
    decoded. *)
Theorem encoded_slice_rows e dt vals u start stop :
  non_nest_types dt = true → keeps dt → encode e (PrimArray dt vals) = Ok u →
  0 ≤ start → start ≤ stop → stop ≤ len vals →
  unit_vortex_slice (EncUnit_try_serialize u) start stop
  = arr_slice (PrimArray (view_type dt) vals) start (stop - start).
Proof using All. by apply flat_slice_encode. Qed.

(** ** Buffers of bits and of offsets *)

(** The bits of a validity and the offsets of lists, as buffers hold them. *)
Definition bits_at (buf : list Z) (bits : list bool) : Prop :=
  len bits ≤ 8 * len buf ∧ ∀ i b, bits !! i = Some b → buffer_bit buf (Z.of_nat i) = b.

Definition offsets_at (w : nat) (buf : list Z) (offsets : list Z) : Prop :=
  Z.of_nat w * len offsets ≤ len buf ∧
  ∀ i o, offsets !! i = Some o →
    as_signed (8 * Z.of_nat w) (le_val (take w (drop (w * i) buf))) = o.

Lemma bits_laid a bits :
  ref_array a = boolean_array bits → laid_out a → ref_bit_offset a = 0 →
  ∃ buf, boolean_inner a = Ok buf ∧ bits_at buf bits.
Proof using Type.
  intros Ha Hl H0. unfold laid_out, boolean_inner in *. rewrite Ha in *. cbn in *.
  destruct Hl as (buf & Hb & Hlen & Hbits). rewrite H0 in *. rewrite Z.add_0_l, len_map in Hlen. exists buf.
  rewrite Hb. split; [done|]. split; [done|]. intros i b Hi.
  rewrite <-(Hbits i b); [by rewrite Z.add_0_l|]. by rewrite list_lookup_fmap, Hi.
Qed.

Lemma offsets_laid large a offsets :
  ref_array a = offsets_array large offsets → laid_out a →
  ∃ buf, index (ref_buffers a) 0 = Ok buf ∧ offsets_at (offset_width large) buf offsets.
Proof using Type.
  intros Ha Hl. unfold laid_out in *. rewrite Ha in *. unfold offsets_array in *.
  assert (Hn : native_type (if large then Int64 else Int32)
    = Some (offset_width large, signed_value (offset_width large))) by by destruct large.
  destruct large; cbn in Hl; destruct (Hl _ _ Hn) as (buf & Hb & Hlen & Ho); exists buf;
    rewrite Hb; (split; [done|]); rewrite len_map in Hlen; (split; [done|]); intros i o Hi;
    assert (Hv := Ho i (VInt o)); rewrite list_lookup_fmap, Hi in Hv; by injection (Hv eq_refl).
Qed.

Lemma boolean_buffer_bits buf bits :
  bits_at buf bits → boolean_buffer buf (len bits) = Ok bits.
Proof using Type.
  intros [Hlen Hb]. unfold boolean_buffer. rewrite (proj2 (Z.leb_le _ _)) by done. cbn. f_equal.
  apply list_eq. intros i. unfold range. rewrite list_lookup_fmap.
  destruct (bits !! i) as [b|] eqn:Hi.
  - apply lookup_lt_Some in Hi as Hlt. rewrite lookup_seqZ_lt by (unfold len; lia). cbn. f_equal.
    by rewrite Z.add_0_l, (Hb i b).
  - apply lookup_ge_None in Hi. rewrite lookup_seqZ_ge by (unfold len; lia). done.
Qed.

(** The validity of no lists may be left out. *)
Lemma validity_bits buf bits :
  bits_at buf bits →
  ∃ nulls, arrow_buffer_to_validity buf (len bits) = Ok nulls ∧
    (nulls = Some bits ∨ bits = [] ∧ nulls = None).
Proof using Type.
  intros Hb. destruct buf as [|x buf].
  - exists None. split; [done|]. right. split; [|done]. apply len_0. destruct Hb as [Hlen _].
    rewrite (len_nil (A:=Z)) in Hlen. pose proof (len_nonneg bits). lia.
  - exists (Some bits). split; [|by left]. unfold arrow_buffer_to_validity.
    by rewrite boolean_buffer_bits.
Qed.

Lemma scalar_elements_lookup w n buf i :
  (i < n)%nat → scalar_elements w n buf !! i = Some (take w (drop (w * i) buf)).
Proof using Type.
  revert buf i. induction n as [|n IH]; intros buf i Hi; [lia|]. destruct i as [|i]; cbn.
  - by rewrite Nat.mul_0_r.
  - rewrite IH by lia. by rewrite drop_drop, Nat.mul_succ_r, Nat.add_comm.
Qed.

Lemma scalar_elements_length w n buf : length (scalar_elements w n buf) = n.
Proof using Type. revert buf. induction n; intros; cbn; [done|]. by f_equal. Qed.

Lemma scalar_buffer_offsets w buf offsets :
  offsets_at w buf offsets → len offsets * Z.of_nat w < 2 ^ 64 →
  ∃ data, scalar_buffer w buf (len offsets) = Ok data ∧
    map (λ b, as_signed (8 * Z.of_nat w) (le_val b)) data = offsets.
Proof using Type.
  intros [Hlen Ho] Hsmall. unfold scalar_buffer, umul.
  rewrite (proj2 (Z.ltb_lt _ _)) by done. cbn [obind].
  rewrite (proj2 (Z.leb_le _ _)) by lia. cbn [assert obind]. eexists. split; [done|].
  apply list_eq. intros i. rewrite list_lookup_fmap. unfold len. rewrite Nat2Z.id.
  destruct (offsets !! i) as [o|] eqn:Hi.
  - apply lookup_lt_Some in Hi as Hlt. rewrite scalar_elements_lookup by done. cbn. f_equal. by apply Ho.
  - apply lookup_ge_None in Hi. rewrite (proj2 (lookup_ge_None _ i)); [done|].
    by rewrite scalar_elements_length.
Qed.

(** The values that go with the offsets, and their field. *)
Definition list_child (child : option Array) (offsets : list Z) : Field * Array :=
  match child with
  | Some c => (mkField "dummy" (arr_data_type c) (arr_is_nullable c), c)
  | None => (DUMMY_NULL_FIELD, null_array (default 0 (last offsets)))
  end.

(** What Arrow demands of offsets and validity: [OffsetBuffer::new] accepts them, and
    there is a bit per list. *)
Definition lists_ok (bits : list bool) (offsets : list Z) : Prop :=
  offset_buffer offsets = Ok offsets ∧ len offsets = len bits + 1 ∧ len offsets * 8 < 2 ^ 64.

Lemma last_index (offsets : list Z) n m :
  last offsets = Some m → len offsets = n + 1 → index offsets n = Ok m.
Proof using Type.
  intros Hm Hn. rewrite last_lookup in Hm. apply lookup_lt_Some in Hm as Hlt. unfold index, len in *.
  destruct (Z.ltb_spec n 0); [lia|].
  replace (Init.Nat.pred (length offsets)) with (Z.to_nat n) in Hm by lia. by rewrite Hm.
Qed.

Lemma nondecreasing_last o offsets :
  nondecreasing (o :: offsets) = true → o ≤ default 0 (last (o :: offsets)).
Proof using Type.
  revert o. induction offsets as [|p l IH]; intros o Ho; [cbn; lia|].
  cbn [nondecreasing] in Ho. apply andb_prop in Ho as [Hop Hl]. apply Z.leb_le in Hop.
  specialize (IH p Hl). rewrite last_cons_cons. lia.
Qed.

Lemma offset_buffer_last offsets :
  offset_buffer offsets = Ok offsets → ∃ m, last offsets = Some m ∧ 0 ≤ m.
Proof using Type.
  unfold offset_buffer. destruct offsets as [|o l]; [done|]. intros Ho. simplify_outcome.
  rewrite last_cons. repeat match goal with Hb : (_ <=? _) = true |- _ => apply Z.leb_le in Hb end.
  match goal with Hn : context [nondecreasing] |- _ => apply nondecreasing_last in Hn end.
  rewrite last_cons in *. destruct (last l); cbn in *; eexists; (split; [done|lia]).
Qed.

Lemma new_list_gives large vbuf obuf bits offsets child :
  bits_at vbuf bits → offsets_at (offset_width large) obuf offsets → lists_ok bits offsets →
  default 0 (last offsets) ≤ arr_len (list_child child offsets).2 →
  ∃ nulls, new_list_offsets_validity_from_buffers large [vbuf; obuf] (len bits) child
    = Ok (ListArray large (list_child child offsets).1 offsets (list_child child offsets).2 nulls) ∧
    (nulls = Some bits ∨ bits = [] ∧ nulls = None).
Proof using Type.
  intros Hb Ho (Hoff & Hn & Hsmall) Hc. destruct (validity_bits _ _ Hb) as (nulls & Hv & Hnulls).
  exists nulls. split; [|done].
  destruct (scalar_buffer_offsets _ _ _ Ho) as (data & Hd & Hmap); [destruct large; cbn; lia|].
  destruct (offset_buffer_last _ Hoff) as (m & Hm & Hm0).
  unfold new_list_offsets_validity_from_buffers, new_list_offsets_validity_from_buffer_iter.
  cbn [next_buffer obind]. rewrite Hv. cbn [obind]. unfold uadd.
  rewrite (proj2 (Z.ltb_lt _ _)) by lia. cbn [obind]. rewrite <-Hn, Hd. cbn [obind]. rewrite Hmap.
  rewrite (last_index offsets (len bits) m) by done. cbn [obind].
  rewrite (proj2 (Z.ltb_ge _ _)) by done. cbn [obind]. rewrite Hoff. cbn [obind].
  assert (Hfit : nulls_fit nulls (len offsets - 1) = true).
  { unfold nulls_fit. destruct Hnulls as [->|[_ ->]]; [|done]. apply Z.eqb_eq. lia. }
  assert (Hnew : ∀ f c, m ≤ arr_len c → nullable f = arr_is_nullable c ∨ nullable f = true →
    data_type f = arr_data_type c → list_array_new large f offsets c nulls
    = Ok (ListArray large f offsets c nulls)).
  { intros f c Hlc Hf Ht. unfold list_array_new. rewrite Hm. cbn [default].
    rewrite (proj2 (Z.leb_le _ _)) by done. cbn [assert obind]. rewrite Hfit. cbn [assert obind].
    rewrite Ht, bool_decide_eq_true_2 by done.
    destruct Hf as [->| ->]; [destruct (arr_is_nullable c)|]; done. }
  destruct child as [c|]; cbn [list_child fst snd] in *; rewrite Hm in Hc; rewrite ?Hm;
    cbn [default] in *; (apply Hnew; [done| |done]); [by left|by right].
Qed.
End Facts.
