(* ===== verification/VortexLists.v ===== *)
(** * Lists and lists of structs in the built-in codec

    A unit of lists holds their validity and offsets as two blocks, a unit of one
    field of lists of structs a third one with the field.  Decoding gives the lists
    back, and point access the named row; both take the validity from the first bit
    of a buffer, so they are right where the bits start at a byte. *)

From S2P Require Import Prelude Arrow EncUnit Common Buffers Options Chunks Encoders.
From S2P Require Import Decoders LogicalDec DecoderFacts Vortex VortexFacts.
From stdpp Require Import list.
Open Scope Z_scope.

Section Lists.
Context `{VortexLib} (keeps : DataType → Prop) `{!VortexLibLaws keeps}.

(** The validity of lists as the encoder writes it. *)
Definition list_bits (nulls : option (list bool)) (offsets : list Z) : list bool :=
  default (replicate (Z.to_nat (len offsets - 1)) true) nulls.

(** The encoded array starts at a byte of its buffer. *)
Definition byte_aligned (e : VortexEncoder) (arr : Array) : Prop :=
  ∀ v c, from_arrow arr (arr_is_nullable arr) = Ok v → compress (enable_dict e) v = Ok c →
    bit_start c = 0.

Definition offset_type (large : bool) : DataType := if large then Int64 else Int32.

Lemma list_bits_len nulls offsets :
  nulls_fit nulls (len offsets - 1) = true → 1 ≤ len offsets → len offsets = len (list_bits nulls offsets) + 1.
Proof using Type.
  unfold nulls_fit, list_bits. destruct nulls as [bits|]; cbn [from_option]; unfold id.
  - intros Hn%Z.eqb_eq. lia.
  - rewrite len_replicate. lia.
Qed.

(** The blocks of the validity and of the offsets. *)
Lemma list_blocks e large bits offsets b1 b2 rest :
  keeps Boolean → keeps (offset_type large) → byte_aligned e (boolean_array bits) →
  encode_arr e (boolean_array bits) = Ok b1 → encode_arr e (offsets_array large offsets) = Ok b2 →
  ∃ v o, vortex_deser (concat b1 ++ concat b2 ++ rest) ALL_ENCODINGS_CONTEXT
      = Ok (v, concat b2 ++ rest) ∧
    vortex_deser (concat b2 ++ rest) ALL_ENCODINGS_CONTEXT = Ok (o, rest) ∧
    denote v = boolean_array bits ∧ denote o = offsets_array large offsets ∧ bit_start v = 0.
Proof using All.
  intros Hkb Hko Hal H1 H2.
  destruct (deser_encode keeps _ _ _ (concat b2 ++ rest) H1) as (v0 & v & Hv0 & Hv & Hd1).
  destruct (deser_encode keeps _ _ _ rest H2) as (o0 & o & Ho0 & Ho & Hd2).
  exists v, o. do 2 (split; [done|]). split; [|split].
  - rewrite (compress_lossless _ _ _ Hv). exact (from_arrow_denotes Boolean _ _ _ eq_refl Hkb Hv0).
  - rewrite (compress_lossless _ _ _ Ho). destruct large;
      [exact (from_arrow_denotes Int64 _ _ _ eq_refl Hko Ho0)|exact (from_arrow_denotes Int32 _ _ _ eq_refl Hko Ho0)].
  - by apply (Hal v0).
Qed.

(** ** Whole units *)

(** Lists with their validity, given as it was or left out when there are none. *)
Definition same_validity (bits : list bool) (nulls : option (list bool)) : Prop :=
  nulls = Some bits ∨ bits = [] ∧ nulls = None.

(** Decoding a unit of lists, for the two theorems that need it. *)
Lemma encoded_lists_of e large child offsets values nulls u :
  keeps Boolean → keeps (offset_type large) →
  byte_aligned e (boolean_array (list_bits nulls offsets)) →
  lists_ok (list_bits nulls offsets) offsets →
  encode e (ListArray large child offsets values nulls) = Ok u →
  ∃ nulls', unit_list_decode (arr_data_type (ListArray large child offsets values nulls))
      (EncUnit_try_serialize u)
    = Ok (ListArray large DUMMY_NULL_FIELD offsets (null_array (default 0 (last offsets))) nulls') ∧
    same_validity (list_bits nulls offsets) nulls'.
Proof using All.
  intros Hkb Hko Hal Hok He. unfold encode in He.
  assert (Hl : list_encode e (ListArray large child offsets values nulls) = Ok u) by by destruct large.
  clear He. unfold list_encode in Hl. apply obind_Ok in Hl as (t & _ & Hl). cbn [list_parts obind] in Hl.
  apply obind_Ok in Hl as (b1 & H1 & Hl). apply obind_Ok in Hl as (b2 & H2 & [= <-]).
  destruct (list_blocks e large _ offsets b1 b2 [] Hkb Hko Hal H1 H2) as (v & o & Hd1 & Hd2 & Hv & Ho & H0).
  cbn [EncUnit_try_serialize]. rewrite concat_app. rewrite app_nil_r in Hd1, Hd2.
  unfold unit_list_decode, VortexListDecoder_try_new. rewrite Hd1. cbn [obind]. rewrite Hd2. cbn [obind].
  unfold omap_ok, list_decode_all_as_array. cbn [vortex_validity_array vortex_offsets_array unwrap obind].
  destruct (to_arrow keeps v) as (va & -> & Hva & Hlv & Hv0). cbn [obind]. rewrite Hv in Hva.
  destruct (bits_laid va _ Hva Hlv (Hv0 H0)) as (vbuf & -> & Hbits). cbn [obind].
  destruct (to_arrow keeps o) as (oa & -> & Hoa & Hlo & _). cbn [obind]. rewrite Ho in Hoa.
  destruct (offsets_laid large oa _ Hoa Hlo) as (obuf & -> & Hoffs). cbn [obind].
  rewrite Hva. cbn [arr_len boolean_array]. rewrite len_map.
  destruct (new_list_gives large vbuf obuf _ offsets None Hbits Hoffs Hok) as (nulls' & Hnew & Hsame).
  { cbn [list_child snd null_array arr_len]. rewrite len_replicate. lia. }
  exists nulls'. split; [|done]. cbn [Vortex.out_type list_child fst snd] in *.
  unfold new_list. by destruct large; cbn [arr_data_type]; rewrite Hnew.
Qed.

(** C22: a unit of lists gives back their offsets and validity.  For a list array with
    offsets that Arrow accepts and a bit of validity per list ([lists_ok]), and whose
    encoded validity starts at bit 0 of its buffer ([byte_aligned]), decoding what the
    built-in encoder makes of it yields a list array over dummy values with the same offsets and, for every list, the same validity. *)
Theorem encoded_lists_read_back e large child offsets values nulls u :
  keeps Boolean → keeps (offset_type large) →
  byte_aligned e (boolean_array (list_bits nulls offsets)) →
  lists_ok (list_bits nulls offsets) offsets →
  encode e (ListArray large child offsets values nulls) = Ok u →
  ∃ nulls', unit_list_decode (arr_data_type (ListArray large child offsets values nulls))
      (EncUnit_try_serialize u)
    = Ok (ListArray large DUMMY_NULL_FIELD offsets (null_array (default 0 (last offsets))) nulls') ∧
    same_validity (list_bits nulls offsets) nulls'.
Proof using All. by apply encoded_lists_of. Qed.

(** The three blocks of a field of lists of structs. *)
Lemma list_struct_blocks e large child offsets values nulls dt vals u :
  keeps Boolean → keeps (offset_type large) → keeps dt → non_nest_types dt = true →
  byte_aligned e (boolean_array (list_bits nulls offsets)) →
  list_struct_encode e (ListArray large child offsets values nulls) (PrimArray dt vals) = Ok u →
  ∃ v o s, denote v = boolean_array (list_bits nulls offsets) ∧ bit_start v = 0 ∧
    denote o = offsets_array large offsets ∧ denote s = PrimArray (view_type dt) vals ∧
    ∀ t, VortexListStructDecoder_try_new (EncUnit_try_serialize u) t ALL_ENCODINGS_CONTEXT
         = Ok (mkListStructDecoder (Some v) (Some o) (Some s) t).
Proof using All.
  intros Hkb Hko Hk Hdt Hal Hl. unfold list_struct_encode in Hl.
  apply obind_Ok in Hl as (t & _ & Hl). cbn [list_parts obind] in Hl.
  apply obind_Ok in Hl as (b1 & H1 & Hl). apply obind_Ok in Hl as (b2 & H2 & Hl).
  apply obind_Ok in Hl as (b3 & H3 & [= <-]).
  destruct (list_blocks e large _ offsets b1 b2 (concat b3) Hkb Hko Hal H1 H2)
    as (v & o & Hd1 & Hd2 & Hv & Ho & H0).
  destruct (deser_encode keeps _ _ _ [] H3) as (s0 & s & Hs0 & Hs & Hd3). rewrite app_nil_r in Hd3.
  exists v, o, s. split; [done|]. split; [done|]. split; [done|]. split.
  { rewrite (compress_lossless _ _ _ Hs). by apply (from_arrow_denotes _ _ _ _ Hdt Hk Hs0). }
  intros out. cbn [EncUnit_try_serialize]. rewrite !concat_app. unfold VortexListStructDecoder_try_new.
  rewrite Hd1. cbn [obind]. rewrite Hd2. cbn [obind]. by rewrite Hd3.
Qed.

(** A unit of one field of lists of structs gives back the lists of that field:
    the same offsets and validity over the values of the field. *)
Theorem encoded_list_struct_reads_back e large child offsets values nulls dt vals u :
  keeps Boolean → keeps (offset_type large) → keeps dt → non_nest_types dt = true →
  byte_aligned e (boolean_array (list_bits nulls offsets)) →
  lists_ok (list_bits nulls offsets) offsets → default 0 (last offsets) ≤ len vals →
  list_struct_encode e (ListArray large child offsets values nulls) (PrimArray dt vals) = Ok u →
  let field := PrimArray (view_type dt) vals in
  ∃ nulls', unit_list_struct_decode (arr_data_type (ListArray large child offsets values nulls))
      (EncUnit_try_serialize u)
    = Ok (ListArray large (mkField "dummy" (view_type dt) (arr_is_nullable field)) offsets field nulls') ∧
    same_validity (list_bits nulls offsets) nulls'.
Proof using All.
  intros Hkb Hko Hk Hdt Hal Hok Hlast Hu field.
  destruct (list_struct_blocks _ _ _ _ _ _ _ _ _ Hkb Hko Hk Hdt Hal Hu)
    as (v & o & s & Hv & H0 & Ho & Hs & Hnew).
  unfold unit_list_struct_decode. rewrite Hnew. cbn [obind].
  unfold omap_ok, list_struct_decode_all_as_array.
  cbn [ls_validity_array ls_offsets_array ls_struct_array unwrap obind].
  destruct (to_arrow keeps v) as (va & -> & Hva & Hlv & Hv0). cbn [obind]. rewrite Hv in Hva.
  destruct (bits_laid va _ Hva Hlv (Hv0 H0)) as (vbuf & -> & Hbits). cbn [obind].
  destruct (to_arrow keeps o) as (oa & -> & Hoa & Hlo & _). cbn [obind]. rewrite Ho in Hoa.
  destruct (to_arrow keeps s) as (sa & -> & Hsa & _ & _). cbn [obind]. rewrite Hs in Hsa.
  destruct (offsets_laid large oa _ Hoa Hlo) as (obuf & -> & Hoffs). cbn [obind].
  rewrite Hva, Hsa. cbn [arr_len boolean_array]. rewrite len_map. fold field.
  destruct (new_list_gives large vbuf obuf _ offsets (Some field) Hbits Hoffs Hok)
    as (nulls' & Hl & Hsame); [done|].
  exists nulls'. split; [|done]. cbn [ls_out_type list_child fst snd] in *.
  unfold new_list. by destruct large; cbn [arr_data_type]; rewrite Hl.
Qed.

(** ** One row *)

Lemma nondecreasing_lookup l i j a b :
  nondecreasing l = true → (i ≤ j)%nat → l !! i = Some a → l !! j = Some b → a ≤ b.
Proof using Type.
  revert i j a. induction l as [|x l IH]; [done|]. intros i j a Hl Hij Ha Hb.
  assert (Htail : nondecreasing l = true).
  { destruct l; [done|]. cbn [nondecreasing] in Hl. by apply andb_prop in Hl as [_ Hl]. }
  destruct j as [|j]; [replace i with 0%nat in Ha by lia; naive_solver lia|].
  cbn [lookup list_lookup] in Hb. destruct i as [|i]; [|by apply (IH i j a); [done|lia|..]].
  injection Ha as ->. destruct l as [|y l]; [done|]. cbn [nondecreasing] in Hl.
  apply andb_prop in Hl as [Hxy%Z.leb_le _]. pose proof (IH 0%nat j y Htail ltac:(lia) eq_refl Hb). lia.
Qed.

(** The ends of the lists are in order, from zero to the last offset. *)
Lemma lists_ok_row bits offsets i a b :
  lists_ok bits offsets → offsets !! i = Some a → offsets !! S i = Some b →
  0 ≤ a ∧ a ≤ b ∧ b ≤ default 0 (last offsets).
Proof using Type.
  intros (Hoff & _) Ha Hb. unfold offset_buffer in Hoff. simplify_outcome.
  match goal with Hn : nondecreasing offsets = true |- _ => rename Hn into Hs end.
  split; [|split].
  - destruct offsets as [|o l]; [done|].
    match goal with Ho : (0 <=? o) = true |- _ => apply Z.leb_le in Ho end.
    pose proof (nondecreasing_lookup _ 0 i o a Hs ltac:(lia) eq_refl Ha). lia.
  - by apply (nondecreasing_lookup offsets i (S i)); [|lia|..].
  - rewrite last_lookup. apply lookup_lt_Some in Hb as Hlt.
    destruct (lookup_lt_is_Some_2 offsets (Init.Nat.pred (length offsets))) as [m Hm]; [lia|].
    rewrite Hm. cbn. by apply (nondecreasing_lookup offsets (S i) (Init.Nat.pred (length offsets))); [|lia|..].
Qed.

(** The two offsets of a row, as [Buffer::from_vec] lays them out. *)
Lemma row_offsets n :
  0 ≤ n → n < 2 ^ 31 →
  offsets_at (offset_width false) (le_bytes 4 0 ++ le_bytes 4 (wrap 32 n)) [0; n].
Proof using Type.
  intros H0 Hn. rewrite wrap_small by (unfold in_u; lia). split.
  - rewrite len_app, !le_bytes_len. by vm_compute.
  - assert (Hs : ∀ x, 0 ≤ x → x < 2 ^ 31 → as_signed 32 (le_val (le_bytes 4 x)) = x).
    { intros x Hx Hx'. rewrite le_val_le_bytes by (unfold in_u; cbn; lia).
      apply as_signed_small; [done|]. by change (2 ^ (32 - 1)) with (2 ^ 31). }
    intros [|[|i]] o Ho; [injection Ho as <-|injection Ho as <-|done]; cbn [offset_width].
    + replace (take 4 _) with (le_bytes 4 0) by done. by apply Hs.
    + rewrite drop_app_length' by (by rewrite le_bytes_length).
      rewrite take_ge by (by rewrite le_bytes_length). by apply Hs.
Qed.

Lemma sub_list_2 {A} (l : list A) i a b :
  l !! i = Some a → l !! S i = Some b → sub_list l (Z.of_nat i) 2 = [a; b].
Proof using Type.
  intros Ha Hb. unfold sub_list. rewrite Nat2Z.id. change (Z.to_nat 2) with 2%nat.
  by rewrite (drop_S l a i Ha), (drop_S l b (S i) Hb).
Qed.

Lemma sub_list_1 {A} (l : list A) i a : l !! i = Some a → sub_list l (Z.of_nat i) 1 = [a].
Proof using Type.
  intros Ha. unfold sub_list. rewrite Nat2Z.id. change (Z.to_nat 1) with 1%nat.
  by rewrite (drop_S l a i Ha).
Qed.

(** The three slices of a row. *)
Lemma row_validity v bits i valid :
  denote v = boolean_array bits → bit_start v = 0 → bits !! i = Some valid → Z.of_nat i mod 8 = 0 →
  ∃ v1 va vbuf, v_slice v (Z.of_nat i) (Z.of_nat i + 1) = Ok v1 ∧ vortex_array_to_arrow v1 = Ok va ∧
    ref_array va = boolean_array [valid] ∧ boolean_inner va = Ok vbuf ∧ bits_at vbuf [valid].
Proof using All.
  intros Hv H0 Hvalid Hi8. apply lookup_lt_Some in Hvalid as Hlt.
  assert (Hlen : arr_len (boolean_array bits) = Z.of_nat (length bits)) by (cbn; by rewrite len_map).
  destruct (slice_denotes v (Z.of_nat i) (Z.of_nat i + 1)) as (v1 & Hs & Hv1 & Hb1);
    [lia|lia|rewrite Hv; lia|].
  rewrite Hv, Z.add_simpl_l in Hv1. cbn [slice_array boolean_array] in Hv1.
  rewrite (sub_list_1 _ i (Some (VBool valid))) in Hv1 by by rewrite list_lookup_fmap, Hvalid.
  assert (H1 : bit_start v1 = 0) by (rewrite H0, Z.add_0_l in Hb1; destruct Hb1; congruence).
  destruct (to_arrow keeps v1) as (va & Ht & Hva & Hlv & Hv0). rewrite Hv1 in Hva.
  destruct (bits_laid va [valid] Hva Hlv (Hv0 H1)) as (vbuf & Hbuf & Hbits). by exists v1, va, vbuf.
Qed.

Lemma row_offsets_read o offsets i a b :
  denote o = offsets_array false offsets → offsets !! i = Some a → offsets !! S i = Some b →
  ∃ o1 oa, v_slice o (Z.of_nat i) (Z.of_nat i + 1 + 1) = Ok o1 ∧ vortex_array_to_arrow o1 = Ok oa ∧
    int32_value (ref_array oa) 0 = Ok a ∧ int32_value (ref_array oa) 1 = Ok b.
Proof using All.
  intros Ho Ha Hb. apply lookup_lt_Some in Hb as Hlt.
  assert (Hlen : arr_len (offsets_array false offsets) = Z.of_nat (length offsets))
    by (cbn; by rewrite len_map).
  destruct (slice_denotes o (Z.of_nat i) (Z.of_nat i + 1 + 1)) as (o1 & Hs & Ho1 & _);
    [lia|lia|rewrite Ho; lia|].
  rewrite Ho in Ho1. replace (Z.of_nat i + 1 + 1 - Z.of_nat i) with 2 in Ho1 by lia.
  cbn [slice_array offsets_array] in Ho1.
  rewrite (sub_list_2 _ i (Some (VInt a)) (Some (VInt b))) in Ho1
    by (by rewrite list_lookup_fmap, ?Ha, ?Hb).
  destruct (to_arrow keeps o1) as (oa & Ht & Hoa & _ & _). exists o1, oa. by rewrite Hoa, Ho1.
Qed.

Lemma field_rows s dt vals a b :
  denote s = PrimArray dt vals → 0 ≤ a → a ≤ b → b ≤ len vals →
  ∃ s1 sa, v_slice s a b = Ok s1 ∧ vortex_array_to_arrow s1 = Ok sa ∧
    ref_array sa = PrimArray dt (sub_list vals a (b - a)).
Proof using All.
  intros Hs Ha Hab Hb. destruct (slice_denotes s a b) as (s1 & Hsl & Hs1 & _); [done..|by rewrite Hs|].
  destruct (to_arrow keeps s1) as (sa & Ht & Hsa & _ & _). exists s1, sa. by rewrite Hsa, Hs1, Hs.
Qed.

(** C23: point access to a list of structs gives the row: for a row at a multiple of
    eight, [slice] yields one list with the row's validity over exactly the field's
    values between the row's offsets. *)
Theorem encoded_list_struct_row e child offsets values nulls dt vals u i a b valid :
  keeps Boolean → keeps Int32 → keeps dt → non_nest_types dt = true →
  byte_aligned e (boolean_array (list_bits nulls offsets)) →
  lists_ok (list_bits nulls offsets) offsets → Forall (λ o, o < 2 ^ 31) offsets →
  default 0 (last offsets) ≤ len vals →
  list_struct_encode e (ListArray false child offsets values nulls) (PrimArray dt vals) = Ok u →
  offsets !! i = Some a → offsets !! S i = Some b → list_bits nulls offsets !! i = Some valid →
  Z.of_nat i mod 8 = 0 →
  let field := PrimArray (view_type dt) (sub_list vals a (b - a)) in
  unit_list_struct_slice (List child) (EncUnit_try_serialize u) (Z.of_nat i) (Z.of_nat i + 1)
  = Ok (ListArray false (mkField "dummy" (view_type dt) (arr_is_nullable field)) [0; b - a] field
          (Some [valid])).
Proof using All.
  intros Hkb Hko Hk Hdt Hal Hok Hsmall Hlast Hu Ha Hb Hvalid Hi8 field.
  destruct (list_struct_blocks e false _ _ _ _ _ _ _ Hkb Hko Hk Hdt Hal Hu)
    as (v & o & s & Hv & H0 & Ho & Hs & Hnew).
  destruct (lists_ok_row _ _ _ _ _ Hok Ha Hb) as (Ha0 & Hab & Hbl).
  assert (Hb31 : b < 2 ^ 31) by by eapply Forall_lookup_1 in Hsmall.
  apply lookup_lt_Some in Ha as Hlt. destruct Hok as (_ & _ & Hn8).
  destruct (row_validity v _ i valid Hv H0 Hvalid Hi8) as (v1 & va & vbuf & Hv1 & Hva & Hval & Hbuf & Hbits).
  destruct (row_offsets_read o _ i a b Ho Ha Hb) as (o1 & oa & Ho1 & Hoa & Hfirst & Hsecond).
  destruct (field_rows s _ _ a b Hs Ha0 Hab ltac:(lia)) as (s1 & sa & Hs1 & Hsa & Hf).
  unfold unit_list_struct_slice. rewrite Hnew. cbn [obind]. unfold omap_ok, list_struct_slice.
  cbn [ls_validity_array ls_offsets_array ls_struct_array ls_out_type unwrap obind].
  rewrite Hv1. cbn [obind]. rewrite Hva. cbn [obind]. rewrite Hbuf. cbn [obind].
  unfold uadd. rewrite (proj2 (Z.ltb_lt _ _)) by (unfold len in *; lia). cbn [obind].
  rewrite Ho1. cbn [obind]. rewrite Hoa. cbn [obind].
  unfold usub at 1. rewrite (proj2 (Z.leb_le _ _)) by lia. cbn [obind].
  rewrite Z.add_simpl_l. cbn [Z.eqb Pos.eqb assert obind]. rewrite Hfirst. cbn [obind].
  rewrite Hsecond. cbn [obind]. rewrite !(wrap_small 64) by (unfold in_u; lia).
  rewrite Hs1. cbn [obind]. rewrite Hsa. cbn [obind]. rewrite Hf, Hval. unfold isub32.
  rewrite (proj2 (Z.leb_le _ _)), (proj2 (Z.ltb_lt _ _)) by lia. cbn [andb obind]. fold field.
  destruct (new_list_gives false vbuf _ [valid] [0; b - a] (Some field) Hbits
    (row_offsets (b - a) ltac:(lia) ltac:(lia))) as (nulls' & Hl & Hsame).
  - split; [|done]. unfold offset_buffer. cbn. rewrite (proj2 (Z.leb_le _ _)) by lia. done.
  - cbn [list_child snd arr_len]. unfold field. cbn [arr_len last].
    rewrite sub_list_length by lia. cbn. lia.
  - unfold new_list. change (arr_len (boolean_array [valid])) with (len [valid]).
    rewrite Hl. destruct Hsame as [->|[? _]]; done.
Qed.
End Lists.
