(* ===== verification/VortexExample.v ===== *)
(** * A small vortex library

    An instance of [VortexLib] that keeps the laws of [VortexFacts.v]: Boolean arrays
    that may start inside a byte, and 32 and 64-bit integers.  A message is its length
    and a body; nothing is compressed.  The theorems about the built-in codec are
    applied to it, and it shows what becomes of bits that do not start at a byte. *)

From S2P Require Import Prelude Arrow EncUnit Common Buffers Options Chunks Encoders.
From S2P Require Import Decoders LogicalDec DecoderFacts Layout Vortex VortexFacts VortexLists.
From stdpp Require Import list.
Open Scope Z_scope.

(** ** The arrays *)

Inductive SmallArray :=
  | SmallBool (start : nat) (vals : list (option bool))
  | SmallInt (large : bool) (vals : list (option Z)).

Definition int_bits (large : bool) : Z := if large then 64 else 32.

Definition small_denote (v : SmallArray) : Array :=
  match v with
  | SmallBool _ vals => PrimArray Boolean (map (option_map VBool) vals)
  | SmallInt large vals =>
      PrimArray (offset_type large) (map (option_map (λ x, VInt (as_signed (int_bits large) x))) vals)
  end.

Definition small_start (v : SmallArray) : Z :=
  match v with SmallBool start _ => Z.of_nat start | SmallInt _ _ => 0 end.

Definition int_in (large : bool) (x : Z) : bool :=
  (- 2 ^ (int_bits large - 1) <=? x) && (x <? 2 ^ (int_bits large - 1)).

Definition bool_of (v : option value) : outcome (option bool) :=
  match v with
  | None => Ok None
  | Some (VBool b) => Ok (Some b)
  | Some _ => Err (NYI "value")
  end.

Definition int_of (large : bool) (v : option value) : outcome (option Z) :=
  match v with
  | None => Ok None
  | Some (VInt x) => if int_in large x then Ok (Some (wrap (int_bits large) x)) else Err (NYI "value")
  | Some _ => Err (NYI "value")
  end.

Definition small_from_arrow (a : Array) (_ : bool) : outcome SmallArray :=
  match a with
  | PrimArray Boolean vals => let! vs := traverse bool_of vals in Ok (SmallBool 0 vs)
  | PrimArray Int32 vals => let! vs := traverse (int_of false) vals in Ok (SmallInt false vs)
  | PrimArray Int64 vals => let! vs := traverse (int_of true) vals in Ok (SmallInt true vs)
  | _ => Err (NYI "type")
  end.

(** ** Messages *)

(** A byte that tells null from not null, and the value. *)
Definition cell (v : option Z) : option (list Z) :=
  match v with
  | None => Some [0; 0]
  | Some x => if (0 <=? x) && (x <? 256) then Some [1; x] else None
  end.

Fixpoint cells (bs : list Z) : list (option Z) :=
  match bs with
  | t :: x :: bs => (if t =? 0 then None else Some x) :: cells bs
  | _ => []
  end.

Lemma cells_cell vals bss : mapM cell vals = Some bss → cells (concat bss) = vals.
Proof.
  intros Hm%mapM_Some_1. induction Hm as [|v b vals bss Hv _ IH]; [done|]. cbn [concat].
  destruct v as [x|]; cbn in Hv; [destruct ((0 <=? x) && (x <? 256)); [|done]|];
    injection Hv as <-; cbn; by rewrite IH.
Qed.

Definition message (body : list Z) : outcome (list Z) :=
  if len body <? 2 ^ 20 then Ok (le_bytes 4 (len body) ++ body) else Err (NYI "long message").

Definition bool_cells (vals : list (option bool)) : list (option Z) := map (option_map Z.b2z) vals.

Definition small_write (v : SmallArray) : outcome (list Z) :=
  match v with
  | SmallBool start vals =>
      let! bss := ok_or (mapM cell (bool_cells vals)) (NYI "value") in
      message (Z.of_nat start :: concat bss)
  | SmallInt _ vals =>
      let! bss := ok_or (mapM cell vals) (NYI "value") in message (0 :: concat bss)
  end.

(** The type: Boolean, or the integers. *)
Definition small_dtype (v : SmallArray) : option bool :=
  match v with SmallBool _ _ => None | SmallInt large _ => Some large end.

Definition dtype_byte (dt : option bool) : Z :=
  match dt with None => 0 | Some false => 1 | Some true => 2 end.

(** The reader of a message: what it waits for, and at last the body. *)
Inductive SmallReader := RInit | RLen | RBody | RDone (body : list Z).

Definition small_read (r : SmallReader) (buf : list Z) : outcome (option Z * SmallReader) :=
  match r with
  | RInit => Ok (Some 4, RLen)
  | RLen => Ok (Some (le_val buf), RBody)
  | RBody => Ok (None, RDone buf)
  | RDone _ => Err (General "Reader is already finished")
  end.

Definition small_reads (r : SmallReader) : nat :=
  match r with RInit => 2 | RLen => 1 | _ => 0 end.

Definition body (r : SmallReader) : outcome (list Z) :=
  match r with RDone b => Ok b | _ => Panic PUnwrap end.

Definition small_into_dtype (r : SmallReader) : outcome (option bool) :=
  let! b := body r in
  match b with
  | [0] => Ok None | [1] => Ok (Some false) | [2] => Ok (Some true)
  | _ => Err (General "type")
  end.

Definition small_into_array (r : SmallReader) (_ : unit) (dt : option bool) : outcome SmallArray :=
  let! b := body r in
  match b, dt with
  | start :: bs, None =>
      Ok (SmallBool (Z.to_nat start) (map (option_map (λ x, x =? 1)) (cells bs)))
  | _ :: bs, Some large => Ok (SmallInt large (cells bs))
  | [], _ => Err (General "array")
  end.

(** ** Arrow and slices *)

Definition int_buffer (large : bool) (vals : list (option Z)) : list Z :=
  concat (map (λ v, le_bytes (offset_width large) (wrap (int_bits large) (default 0 v))) vals).

Definition small_into_arrow (v : SmallArray) : outcome ArrayRef :=
  Ok (mkRef (small_denote v) (Some (pack_bits (valid_bits (default [] (arr_vals (small_denote v))))))
        [match v with
         | SmallBool start vals => pack_bits (replicate start false ++ map (default false) vals)
         | SmallInt large vals => int_buffer large vals
         end] (small_start v)).

Definition small_slice (keep_start : bool) (v : SmallArray) (a b : Z) : outcome SmallArray :=
  if (0 <=? a) && (a <=? b) && (b <=? arr_len (small_denote v)) then
    Ok match v with
       | SmallBool start vals =>
           SmallBool (if keep_start then (start + Z.to_nat a) mod 8 else 0) (sub_list vals a (b - a))
       | SmallInt large vals => SmallInt large (sub_list vals a (b - a))
       end
  else Err (General "out of bounds").

Definition small_vortex : VortexLib := {|
  VArray := SmallArray;
  VDType := option bool;
  Scalar := Z;
  Operator := unit;
  Encodings := unit;
  ALL_ENCODINGS_CONTEXT := tt;
  from_arrow := small_from_arrow;
  compress _ v := Ok v;
  v_dtype := small_dtype;
  v_len v := arr_len (small_denote v);
  write_dtype dt := message [dtype_byte dt];
  write_array := small_write;
  DTypeReader := SmallReader;
  dtype_reader_new := RInit;
  dtype_read := small_read;
  dtype_reads := small_reads;
  into_dtype := small_into_dtype;
  ArrayReader := SmallReader;
  array_reader_new := RInit;
  array_read := small_read;
  array_reads := small_reads;
  into_array := small_into_array;
  into_canonical v := Ok v;
  into_arrow := small_into_arrow;
  v_slice := small_slice true;
  filter_range := small_slice false;
  ConstantArray x n := SmallInt true (replicate (Z.to_nat n) (Some x));
  compare_arrays _ _ _ := Err (NYI "compare");
  is_run_end _ := false;
  is_dict _ := false;
  v_children _ := [];
|}.

Definition small_kept (dt : DataType) : Prop := dt = Boolean ∨ dt = Int32 ∨ dt = Int64.

(** ** The laws *)

Lemma message_read m b rest :
  message b = Ok m → read_loop small_read 3 RInit [] (m ++ rest) = Ok (RDone b, rest).
Proof.
  unfold message. destruct (Z.ltb_spec (len b) (2 ^ 20)); [|done]. intros Hm%(inj Ok).
  subst m. pose proof (len_nonneg b). rewrite <-app_assoc. cbn [read_loop small_read obind].
  rewrite (split_to_app (le_bytes 4 (len b))) by (by rewrite le_bytes_len). cbn [obind].
  rewrite le_val_le_bytes by (unfold in_u; cbn; lia). by rewrite split_to_app.
Qed.

Lemma bool_cells_back vals : map (option_map (λ x, x =? 1)) (bool_cells vals) = vals.
Proof.
  unfold bool_cells. rewrite map_map. rewrite <-(map_id vals) at 2. apply map_ext.
  by intros [[]|].
Qed.

Lemma small_write_read v m rest :
  small_write v = Ok m → ∃ r, read_loop small_read 3 RInit [] (m ++ rest) = Ok (r, rest) ∧
    small_into_array r tt (small_dtype v) = Ok v.
Proof.
  destruct v as [start vals|large vals]; cbn [small_write]; intros Hm;
    apply obind_Ok in Hm as (bss & Hb & Hm); apply ok_or_Ok, cells_cell in Hb;
    eexists; (split; [by apply message_read|]); cbn; rewrite Hb; [|done].
  by rewrite Nat2Z.id, bool_cells_back.
Qed.

Lemma bools_denoted vals vs : traverse bool_of vals = Ok vs → map (option_map VBool) vs = vals.
Proof.
  intros Ht%traverse_Ok. induction Ht as [|v b vals vs Hv _ IH]; [done|]. cbn. rewrite IH.
  by destruct v as [[]|]; cbn in Hv; simplify_eq.
Qed.

Lemma as_signed_wrap large x :
  int_in large x = true → as_signed (int_bits large) (wrap (int_bits large) x) = x.
Proof.
  unfold int_in, as_signed, wrap. intros [H1%Z.leb_le H2%Z.ltb_lt]%andb_prop.
  rewrite Z.mod_mod by (by destruct large).
  assert (Hw : 2 ^ int_bits large = 2 * 2 ^ (int_bits large - 1)) by (by destruct large).
  destruct (Z.ltb_spec (x mod 2 ^ int_bits large) (2 ^ (int_bits large - 1)));
    destruct (Z.leb_spec 0 x).
  - apply Z.mod_small. lia.
  - rewrite <-(Z.mod_unique_pos x (2 ^ int_bits large) (-1) (x + 2 ^ int_bits large)) in * by lia. lia.
  - rewrite Z.mod_small in * by lia. lia.
  - rewrite <-(Z.mod_unique_pos x (2 ^ int_bits large) (-1) (x + 2 ^ int_bits large)) in * by lia. lia.
Qed.

Lemma ints_denoted large vals vs :
  traverse (int_of large) vals = Ok vs →
  map (option_map (λ x, VInt (as_signed (int_bits large) x))) vs = vals.
Proof.
  intros Ht%traverse_Ok. induction Ht as [|v b vals vs Hv _ IH]; [done|]. cbn [map]. rewrite IH.
  destruct v as [[x|x|x|x]|]; cbn in Hv; try done; [|by injection Hv as <-].
  destruct (int_in large x) eqn:Hx; [|done]. injection Hv as <-. cbn. by rewrite as_signed_wrap.
Qed.

Lemma small_from_arrow_denotes dt vals n v :
  small_kept dt → small_from_arrow (PrimArray dt vals) n = Ok v →
  small_denote v = PrimArray (view_type dt) vals.
Proof.
  intros [->|[->| ->]] Hv; cbn in Hv; apply obind_Ok in Hv as (vs & Hvs & [= <-]);
    unfold small_denote.
  - by rewrite (bools_denoted _ _ Hvs).
  - by rewrite (ints_denoted _ _ _ Hvs).
  - by rewrite (ints_denoted _ _ _ Hvs).
Qed.

Lemma small_slice_denotes keep v a b :
  0 ≤ a → a ≤ b → b ≤ arr_len (small_denote v) →
  ∃ s, small_slice keep v a b = Ok s ∧ small_denote s = slice_array (small_denote v) a (b - a) ∧
    (small_start s = 0 ∨ small_start s = (small_start v + a) mod 8).
Proof.
  intros H0 Hab Hb. unfold small_slice.
  rewrite (proj2 (Z.leb_le _ _) H0), (proj2 (Z.leb_le _ _) Hab), (proj2 (Z.leb_le _ _) Hb).
  eexists. split; [done|]. destruct v as [start vals|large vals]; cbn [small_denote slice_array].
  - unfold sub_list. rewrite skipn_map, firstn_map. split; [done|]. cbn [small_start].
    destruct keep; [right|by left]. rewrite Nat2Z.inj_mod, Nat2Z.inj_add, Z2Nat.id by done. done.
  - unfold sub_list. rewrite skipn_map, firstn_map. split; [done|by left].
Qed.

Lemma int_buffer_take large vals i x :
  vals !! i = Some (Some x) →
  take (offset_width large) (drop (offset_width large * i) (int_buffer large vals))
  = le_bytes (offset_width large) (wrap (int_bits large) x).
Proof.
  unfold int_buffer. revert i. induction vals as [|v vals IH]; intros i Hi; [done|]. cbn [map concat].
  destruct i as [|i].
  - injection Hi as ->. rewrite Nat.mul_0_r, drop_0. by rewrite take_app_length' by (by rewrite le_bytes_length).
  - rewrite Nat.mul_succ_r, Nat.add_comm, <-drop_drop.
    rewrite drop_app_length' by (by rewrite le_bytes_length). by apply IH.
Qed.

Lemma small_laid_out v a : small_into_arrow v = Ok a → laid_out a.
Proof.
  intros [= <-]. unfold laid_out. destruct v as [start vals|large vals]; cbn [small_denote ref_array].
  - eexists. split; [done|]. cbn [ref_bit_offset small_start]. split.
    + destruct (pack_bits_len (replicate start false ++ map (default false) vals)) as [Hp _].
      by rewrite len_app, len_replicate, !len_map in * by done.
    + intros i b Hi. rewrite <-Nat2Z.inj_add. apply packed_bit.
      rewrite lookup_app_r by (rewrite length_replicate; lia). rewrite length_replicate, Nat.add_comm, Nat.add_sub.
      rewrite (list_lookup_fmap (option_map VBool)) in Hi. rewrite list_lookup_fmap. by destruct (vals !! i) as [[c|]|]; cbn in *; simplify_eq.
  - assert (Hl : ∀ w read, native_type (offset_type large) = Some (w, read) →
      ∃ buf, [int_buffer large vals] = [buf] ∧
        Z.of_nat w * len (map (option_map (λ x, VInt (as_signed (int_bits large) x))) vals) ≤ len buf ∧
        ∀ i x, map (option_map (λ x, VInt (as_signed (int_bits large) x))) vals !! i = Some (Some x) →
               read (take w (drop (w * i) buf)) = x); [|by destruct large].
    intros w read Hn. assert (w = offset_width large ∧ read = signed_value (offset_width large)) as [-> ->]
      by (destruct large; by injection Hn as <- <-).
    exists (int_buffer large vals). split; [done|]. split.
    + unfold int_buffer.
      rewrite (len_concat_const _ _ (Z.of_nat (offset_width large))) by (intros; apply le_bytes_len).
      by rewrite len_map.
    + intros i x Hi. rewrite list_lookup_fmap in Hi. destruct (vals !! i) as [[y|]|] eqn:Hy; [|done..].
      apply (inj Some), (inj Some) in Hi as <-. rewrite (int_buffer_take _ _ _ _ Hy). unfold signed_value. f_equal.
      rewrite le_val_le_bytes_mod. unfold as_signed, wrap.
      destruct large; cbn [offset_width int_bits]; rewrite !Z.mod_mod by done; done.
Qed.

#[global] Instance small_laws : @VortexLibLaws small_vortex small_kept.
Proof.
  refine (@Build_VortexLibLaws small_vortex small_kept small_denote small_start _ _ _ _ _ _ _ _ _ _).
  - intros r buf u r' Hr. destruct r; cbn in Hr; simplify_eq; cbn; lia.
  - intros r buf u r' Hr. destruct r; cbn in Hr; simplify_eq; cbn; lia.
  - intros v b Hb. split.
    { cbn in Hb. injection Hb as <-. by destruct v as [|[]]. }
    eexists _, []. split.
    + rewrite <-(app_nil_r b). exact (message_read b _ [] Hb).
    + by destruct v as [|[]].
  - intros v b rest Hb. by apply small_write_read.
  - intros dt vals n v _ Hk Hv. by apply (small_from_arrow_denotes dt vals n).
  - by intros d v c [= <-].
  - intros v. by exists v.
  - intros v. eexists. split; [done|]. split; [done|]. split; [done|]. by apply (small_laid_out v).
  - intros v a b. apply small_slice_denotes.
  - intros v a b H0 Hab Hb. destruct (small_slice_denotes false v a b) as (s & Hs & Hd & _); [done..|].
    by exists s.
Defined.

(** ** Examples *)

Section Examples.
#[local] Existing Instance small_vortex.

Lemma small_aligned e bits : byte_aligned small_kept e (boolean_array bits).
Proof.
  intros v c Hv [= <-]. cbn in Hv. apply obind_Ok in Hv as (vs & _ & [= <-]). done.
Qed.

Lemma message_loops_end_witness :
  read_array RInit [] [2; 0; 0; 0; 7; 8; 9] = Ok (RDone [7; 8], [9]).
Proof.
  destruct (message_loops_end (H:=small_vortex) small_kept) as [_ Hloop].
  rewrite (Hloop RInit [] [2; 0; 0; 0; 7; 8; 9]). by vm_compute.
Defined.

Definition small_ints : list (option value) := [Some (VInt 5); None; Some (VInt 7); Some (VInt 200)].

Lemma encoded_slice_rows_witness :
  ∃ u, encode VortexEncoder_default (PrimArray Int32 small_ints) = Ok u ∧
    unit_vortex_slice (EncUnit_try_serialize u) 1 3 = Ok (PrimArray Int32 [None; Some (VInt 7)]).
Proof.
  destruct (encode VortexEncoder_default (PrimArray Int32 small_ints)) as [u| |] eqn:He;
    [|by vm_compute in He..].
  exists u. split; [done|].
  rewrite (encoded_slice_rows small_kept VortexEncoder_default Int32 small_ints u 1 3);
    [by vm_compute|done|right; by left|exact He|lia..|by vm_compute].
Defined.

(** Three lists, the second one null. *)
Definition small_item : Field := mkField "item" Int32 true.
Definition small_lists : Array :=
  ListArray false small_item [0; 2; 2; 4] (PrimArray Int32 small_ints) (Some [true; false; true]).

Lemma encoded_lists_read_back_witness :
  ∃ u nulls, encode VortexEncoder_default small_lists = Ok u ∧
    unit_list_decode (List small_item) (EncUnit_try_serialize u)
    = Ok (ListArray false DUMMY_NULL_FIELD [0; 2; 2; 4] (null_array 4) nulls) ∧
    same_validity [true; false; true] nulls.
Proof.
  destruct (encode VortexEncoder_default small_lists) as [u| |] eqn:He; [|by vm_compute in He..].
  destruct (encoded_lists_read_back small_kept VortexEncoder_default false small_item [0; 2; 2; 4]
    (PrimArray Int32 small_ints) (Some [true; false; true]) u) as (nulls & Hd & Hs).
  - by left.
  - right. by left.
  - apply small_aligned.
  - split; [done|]. split; [done|]. by vm_compute.
  - exact He.
  - by exists u, nulls.
Defined.

Lemma encoded_list_struct_reads_back_witness :
  ∃ u nulls, list_struct_encode VortexEncoder_default small_lists (PrimArray Int64 small_ints) = Ok u ∧
    unit_list_struct_decode (List small_item) (EncUnit_try_serialize u)
    = Ok (ListArray false (mkField "dummy" Int64 true) [0; 2; 2; 4] (PrimArray Int64 small_ints) nulls) ∧
    same_validity [true; false; true] nulls.
Proof.
  destruct (list_struct_encode VortexEncoder_default small_lists (PrimArray Int64 small_ints))
    as [u| |] eqn:He; [|by vm_compute in He..].
  destruct (encoded_list_struct_reads_back small_kept VortexEncoder_default false small_item
    [0; 2; 2; 4] (PrimArray Int32 small_ints) (Some [true; false; true]) Int64 small_ints u)
    as (nulls & Hd & Hs).
  - by left.
  - right. by left.
  - right. by right.
  - done.
  - apply small_aligned.
  - split; [done|]. split; [done|]. by vm_compute.
  - by vm_compute.
  - exact He.
  - by exists u, nulls.
Defined.

Lemma encoded_list_struct_row_witness :
  ∃ u, list_struct_encode VortexEncoder_default small_lists (PrimArray Int64 small_ints) = Ok u ∧
    unit_list_struct_slice (List small_item) (EncUnit_try_serialize u) 0 1
    = Ok (ListArray false (mkField "dummy" Int64 true) [0; 2]
            (PrimArray Int64 [Some (VInt 5); None]) (Some [true])).
Proof.
  destruct (list_struct_encode VortexEncoder_default small_lists (PrimArray Int64 small_ints))
    as [u| |] eqn:He; [|by vm_compute in He..].
  exists u. split; [done|].
  apply (encoded_list_struct_row small_kept VortexEncoder_default small_item [0; 2; 2; 4]
    (PrimArray Int32 small_ints) (Some [true; false; true]) Int64 small_ints u 0 0 2 true);
    try done; [by left|right; by left|right; by right|apply small_aligned
              |by repeat constructor].
Defined.

(** The third list is valid, and point access reads it as null: the slice of the
    validity starts at the third bit of its buffer, the decoder takes the first. *)
Lemma unaligned_row_validity_lost :
  ∃ u, list_struct_encode VortexEncoder_default small_lists (PrimArray Int64 small_ints) = Ok u ∧
    unit_list_struct_slice (List small_item) (EncUnit_try_serialize u) 2 3
    = Ok (ListArray false (mkField "dummy" Int64 false) [0; 2]
            (PrimArray Int64 [Some (VInt 7); Some (VInt 200)]) (Some [false])).
Proof.
  destruct (list_struct_encode VortexEncoder_default small_lists (PrimArray Int64 small_ints))
    as [u| |] eqn:He; [|by vm_compute in He..].
  exists u. split; [done|]. vm_compute in He. injection He as <-. by vm_compute.
Qed.
End Examples.
