(* ===== verification/ExampleCodecs.v ===== *)
(** * src/wasm-libs: example codecs

    The codecs that come with the repository as plug-ins, in
    wasm-libs/wasm-test-encoders/src/lib.rs and the small crates around it: encoders that
    a writer loads as dynamic libraries, and decoders that go into a file as WASM.  An
    encoder takes an Arrow array with its memory, a decoder gives the buffers of one.  The
    compressors themselves are third-party code. *)

From S2P Require Import Prelude Arrow EncUnit Buffers Guest ReadFile Bitpack Vortex Kwargs.
From stdpp Require Import list sorting.
Open Scope Z_scope.

(** ** Native types and primitive arrays *)

Inductive Native := i16 | i32 | i64 | u16 | u32 | u64 | f16 | f32 | f64.

Definition size_of (t : Native) : nat :=
  match t with i16 | u16 | f16 => 2 | i32 | u32 | f32 => 4 | i64 | u64 | f64 => 8 end.

(** The number that stands for a type in an encoded block. *)
Definition type_id (t : Native) : outcome Z :=
  match t with
  | i16 => Ok 0 | i32 => Ok 1 | i64 => Ok 2 | u16 => Ok 3 | u32 => Ok 4 | u64 => Ok 5
  | f32 => Ok 6 | f64 => Ok 7 | f16 => Panic PTodo
  end.

Definition native_of_id (id : Z) : outcome Native :=
  match id with
  | 0 => Ok i16 | 1 => Ok i32 | 2 => Ok i64 | 3 => Ok u16 | 4 => Ok u32 | 5 => Ok u64
  | 6 => Ok f32 | 7 => Ok f64 | _ => Panic PTodo
  end.

(** A primitive array: its nulls, if it has any, and the bytes of each value. *)
Record PrimitiveArray := mkPrimitive {
  pa_nulls : option NullBuffer;
  pa_values : list (list Z);
}.

(** [make_array] and [as_primitive] of the memory of [n] values. *)
Definition as_primitive (t : Native) (n : Z) (d : ArrayData) : outcome PrimitiveArray :=
  match d with
  | mkArrayData nulls [buffer] _ =>
      let! values := scalar_buffer (size_of t) buffer n in
      Ok (mkPrimitive nulls values)
  | _ => Panic PAssert
  end.

(** The buffer of nulls at the front of a block, behind a flag and its size. *)
Definition null_header (nulls : option (list Z)) : list Z :=
  match nulls with
  | Some buf => le_bytes 4 1 ++ le_bytes 4 (wrap 32 (len buf)) ++ buf
  | None => le_bytes 4 0
  end.

(** [(&input[a..a + 4]).read_u32::<LittleEndian>()] *)
Definition read_u32 (input : list Z) (a : Z) : outcome Z :=
  let! b := slice input a (a + 4) in Ok (le_val b).

(** The nulls and where the block goes on.  Sums of positions do not wrap: a position past
    the end panics either way. *)
Definition read_null_header (input : list Z) : outcome (list Z * Z) :=
  let! null_flag := read_u32 input 0 in
  if null_flag =? 1 then
    let! null_len := read_u32 input 4 in
    let! null_buf := slice input 8 (8 + null_len) in
    Ok (null_buf, 4 + (4 + null_len))
  else Ok ([], 4).

(** ** The pattern codec

    Blocks of 128 values are replaced by an index of one byte into a table of the
    distinct blocks. *)

(** The block at [start]: [values.slice(start, 128).into_inner()]. *)
Definition mini_block (values : list (list Z)) (start : Z) : outcome (list Z) :=
  let! b := slice values start (start + 128) in Ok (concat b).

(** One round of the loop: the state is the bytes so far, the table and its size. *)
Definition pattern_step (values : list (list Z)) (st : list Z * gmap (list Z) Z * Z) (start : Z)
  : outcome (list Z * gmap (list Z) Z * Z) :=
  let '(encoded, dict, dict_idx) := st in
  let! block := mini_block values start in
  match dict !! block with
  | Some idx => Ok (encoded ++ [idx], dict, dict_idx)
  | None =>
      let! next := unwrap (if dict_idx + 1 <? 2 ^ 8 then Some (dict_idx + 1) else None) in
      Ok (encoded ++ [dict_idx], <[block := dict_idx]> dict, next)
  end.

(** [pairs.sort_by(|a, b| a.1.cmp(b.1))] *)
Definition by_index (a b : list Z * Z) : Prop := a.2 ≤ b.2.
#[export] Instance by_index_dec : RelDecision by_index.
Proof. intros a b. unfold by_index. apply _. Defined.
#[export] Instance by_index_trans : Transitive by_index.
Proof. intros a b c. unfold by_index. lia. Qed.
#[export] Instance by_index_total : Total by_index.
Proof. intros a b. unfold by_index. lia. Qed.

Definition encode_custom_helper (t : Native) (input : PrimitiveArray) : outcome (list Z) :=
  let! id := type_id t in
  let values := pa_values input in
  let encoded := null_header (nb_buffer <$> pa_nulls input) ++ le_bytes 4 id ++ le_bytes 4 (wrap 32 (len values)) in
  let! _ := assert (len values mod 128 =? 0) in
  let starts := map (λ i, 128 * i) (range (len values / 128)) in
  let! '(encoded, dict, _) := fold_m (pattern_step values) (encoded, ∅, 0) starts in
  let pairs := merge_sort by_index (map_to_list dict) in
  Ok (encoded ++ concat (map fst pairs)).

(** The native type of the types that the codec takes. *)
Definition custom_native (dt : DataType) : outcome Native :=
  match dt with
  | UInt16 => Ok u16 | Int16 => Ok i16 | UInt32 => Ok u32 | Int32 => Ok i32
  | UInt64 => Ok u64 | Int64 => Ok i64
  | Timestamp Nanosecond _ | Timestamp Microsecond _ => Ok i64
  | _ => Panic PTodo
  end.

Definition encode_custom (dt : DataType) (n : Z) (input : ArrayData) : outcome (list Z) :=
  let! t := custom_native dt in
  let! a := as_primitive t n input in
  encode_custom_helper t a.

Definition custom_decompress (t : Native) (input : list Z) (n : Z) : outcome (list Z) :=
  let! _ := assert (n mod 128 =? 0) in
  let dict_start := n / 128 in
  let w := Z.of_nat (size_of t) in
  fold_m (λ res i,
    let! idx := index input i in
    let start := dict_start + idx * 128 * w in
    let! pattern := slice input start (start + 128 * w) in
    Ok (res ++ pattern)) [] (range dict_start).

Definition decode_custom (input : list Z) : outcome (list (list Z)) :=
  let! '(null_buffer, ptr) := read_null_header input in
  let! data_type := read_u32 input ptr in
  let ptr := ptr + 4 in
  let! n := read_u32 input ptr in
  let ptr := ptr + 4 in
  let! input := slice_from input ptr in
  let! t := native_of_id data_type in
  let! recovered := unwrap_res (custom_decompress t input n) in
  Ok [null_buffer; recovered].

(** ** Pco *)

(** [pco::standalone]: values as their bytes. *)
Class Pco := {
  simple_compress : Native → list (list Z) → outcome (list Z);
  simple_decompress : Native → list Z → outcome (list (list Z));
}.

(** Pco is lossless. *)
Class PcoLaws `{Pco} := {
  pco_lossless t values b : simple_compress t values = Ok b → simple_decompress t b = Ok values;
}.

Section Pco.
Context `{Pco}.

Definition encode_pco_general (t : Native) (input : list (list Z)) : outcome (list Z) :=
  let! id := type_id t in
  let! b := unwrap_res (simple_compress t input) in
  Ok (le_bytes 4 id ++ b).

Definition decode_pco_general (input : list Z) : outcome (list (list Z)) :=
  let! data_type := read_u32 input 0 in
  let! input := slice_from input 4 in
  let! t := native_of_id data_type in
  let! values := unwrap_res (simple_decompress t input) in
  Ok [[]; concat values].

Definition encode_pco_real_general_helper (t : Native) (input : PrimitiveArray) : outcome (list Z) :=
  let! id := type_id t in
  let! b := unwrap_res (simple_compress t (pa_values input)) in
  Ok (null_header (nb_buffer <$> pa_nulls input) ++ le_bytes 4 id ++ b).

(** Floating-point types too; a half has no number. *)
Definition pco_native (dt : DataType) : outcome Native :=
  match dt with
  | Float16 => Ok f16 | Float32 => Ok f32 | Float64 => Ok f64
  | _ => custom_native dt
  end.

Definition encode_pco_real_general (dt : DataType) (n : Z) (input : ArrayData) : outcome (list Z) :=
  let! t := pco_native dt in
  let! a := as_primitive t n input in
  encode_pco_real_general_helper t a.

Definition decode_pco_real_general (input : list Z) : outcome (list (list Z)) :=
  let! '(null_buffer, ptr) := read_null_header input in
  let! data_type := read_u32 input ptr in
  let! input := slice_from input (ptr + 4) in
  let! t := native_of_id data_type in
  let! values := unwrap_res (simple_decompress t input) in
  Ok [null_buffer; concat values].
End Pco.

(** ** Bit packing in blocks of 1024 values of one width *)

(** [fastlanes::BitPacking] for unsigned integers of [w] bytes. *)
Class FastLanes := {
  unchecked_pack : nat → Z → list Z → list Z;
  unchecked_unpack : nat → Z → list Z → list Z;
}.

(** 1024 values below [2 ^ bw] are packed into [128 * bw] bytes. *)
Class FastLanesLaws `{FastLanes} := {
  pack_len w bw b : len b = 1024 → len (unchecked_pack w bw b) = 128 * bw / Z.of_nat w;
  pack_words w bw b : Forall (in_u (8 * Z.of_nat w)) (unchecked_pack w bw b);
  unpack_pack w bw b : len b = 1024 → Forall (in_u bw) b → unchecked_unpack w bw (unchecked_pack w bw b) = b;
}.

Section FastLanes.
Context `{FastLanes}.

(** The width of [u8], [u16], [u32] and [u64], by their number. *)
Definition flsbp_width (id : Z) : outcome nat :=
  match id with 0 => Ok 1%nat | 1 => Ok 2%nat | 2 => Ok 4%nat | 3 => Ok 8%nat | _ => Panic PTodo end.
Definition flsbp_type_id (w : nat) : outcome Z :=
  match w with 1%nat => Ok 0 | 2%nat => Ok 1 | 4%nat => Ok 2 | 8%nat => Ok 3 | _ => Panic PTodo end.

Definition encode_flsbp_general (w : nat) (input : list Z) : outcome (list Z) :=
  let! _ := assert (len input mod 1024 =? 0) in
  let bit_width := bit_width_of input in
  let! id := flsbp_type_id w in
  let! encoded_data := fold_m (λ encoded start,
    let! mini_block := slice input start (start + 1024) in
    Ok (encoded ++ unchecked_pack w bit_width mini_block)) []
    (map (λ i, 1024 * i) (range (len input / 1024))) in
  Ok (concat (map (le_bytes w) encoded_data)
      ++ le_bytes 4 id ++ le_bytes 4 (wrap 32 bit_width) ++ le_bytes 4 (wrap 32 (len input))).

(** [bytemuck::cast_slice] of a slice that is aligned. *)
Definition cast_slice (w : nat) (input : list Z) : outcome (list Z) :=
  let! _ := assert (len input mod Z.of_nat w =? 0) in
  Ok (map le_val (scalar_elements w (Z.to_nat (len input / Z.of_nat w)) input)).

(** The output is not initialised, which [fill] stands for; a last block that is not
    full panics. *)
Definition segment_to_buffer (fill : Z → Z) (w : nat) (input : list Z) (bitwidth n : Z) : outcome (list Z) :=
  let! input := cast_slice w input in
  let packed_len := 128 * bitwidth / Z.of_nat w in
  let! output := fold_m (λ output start,
    let i := start / 1024 in
    let! packed := slice input (i * packed_len) ((i + 1) * packed_len) in
    let! _ := slice output start (start + 1024) in
    Ok (write_at output start (unchecked_unpack w bitwidth packed))) (map fill (range n))
    (map (λ i, 1024 * i) (range (ceil n 1024))) in
  Ok (concat (map (le_bytes w) output)).

Definition decode_fls_bp (fill : Z → Z) (input : list Z) : outcome (list (list Z)) :=
  let! at_len := usub (len input) 4 in
  let! n := read_u32 input at_len in
  let! at_width := usub (len input) 8 in
  let! bitwidth := read_u32 input at_width in
  let! at_type := usub (len input) 12 in
  let! typeid := read_u32 input at_type in
  let! input := slice input 0 at_type in
  let! w := flsbp_width typeid in
  let! output_buffer := segment_to_buffer fill w input bitwidth n in
  Ok [[]; output_buffer].

Definition decode_flsbp_general := decode_fls_bp.
Definition decode_flsbp_native := decode_fls_bp.
End FastLanes.

(** ** General-purpose compressors *)

Class Compressors := {
  compress_prepend_size : list Z → list Z;
  decompress_size_prepended : list Z → outcome (list Z);
  gzip : list Z → list Z;
  gunzip : list Z → outcome (list Z);
  zstd_encode : list Z → outcome (list Z);
  zstd_copy_decode : list Z → outcome (list Z);
  ipc_write : RecordBatch → outcome (list Z);
  ipc_read : list Z → outcome (list ArrayData);
}.

(** UTF-8, as [String] requires it: no overlong form, no surrogate, nothing above
    U+10FFFF. *)
Definition continuation (b : Z) : bool := (128 <=? b) && (b <? 192).

Fixpoint utf8 (l : list Z) : bool :=
  match l with
  | [] => true
  | a :: l =>
      if a <? 128 then utf8 l
      else match l with
      | b :: l =>
          if (194 <=? a) && (a <? 224) then continuation b && utf8 l
          else match l with
          | c :: l =>
              let second := if a =? 224 then (160 <=? b) && (b <? 192)
                            else if a =? 237 then (128 <=? b) && (b <? 160)
                            else (225 <=? a) && (a <? 240) && continuation b in
              if second then continuation c && utf8 l
              else match l with
              | d :: l =>
                  let second := if a =? 240 then (144 <=? b) && (b <? 192)
                                else if a =? 244 then (128 <=? b) && (b <? 144)
                                else (241 <=? a) && (a <? 244) && continuation b in
                  second && continuation c && continuation d && utf8 l
              | [] => false
              end
          | [] => false
          end
      | [] => false
      end
  end.

Section Compressors.
Context `{Compressors}.

Definition encode_lz4_general (input : list Z) : list Z := compress_prepend_size input.
Definition decode_lz4_general (input : list Z) : outcome (list (list Z)) :=
  let! out := unwrap_res (decompress_size_prepended input) in Ok [[]; out].

(** Writing to a vector does not fail. *)
Definition encode_gzip_general (input : list Z) : list Z := gzip input.
(** [read_to_string]: the bytes must be text. *)
Definition decode_gzip_general (input : list Z) : outcome (list (list Z)) :=
  let! s := unwrap_res (gunzip input) in
  let! s := unwrap (if utf8 s then Some s else None) in
  Ok [[]; s].

Definition encode_zstd_general (input : list Z) : outcome (list Z) := unwrap_res (zstd_encode input).
Definition decode_zstd_general (input : list Z) : outcome (list (list Z)) :=
  let! out := unwrap_res (zstd_copy_decode input) in Ok [[]; out].

(** A batch of one column that has no nulls, as an IPC stream. *)
Definition encode_lz4_general2 (input : Array) : outcome (list Z) :=
  let! batch := unwrap_res (RecordBatch_try_new [mkField "column" (arr_data_type input) false] [input]) in
  let! res := unwrap_res (ipc_write batch) in
  Ok (compress_prepend_size res).

Definition decode_lz4_general2 (input : list Z) : outcome (list (list Z)) :=
  let! input := unwrap_res (decompress_size_prepended input) in
  let! columns := unwrap_res (ipc_read input) in
  let! column := index columns 0 in
  Ok (arraydata_to_buffers [] column).
End Compressors.

(** ** Predicates

    fff-ude/src/kwargs.rs: a predicate as it is sent to a decoder. *)

Module Ppd.
Inductive Operator := Eq | NotEq | Gt | Gte | Lt | Lte | And | Or.
#[global] Instance Operator_eq : EqDecision Operator.
Proof. solve_decision. Defined.

Inductive ScalarValue := Null | I32 (x : Z).
Definition as_i32 (v : ScalarValue) : option Z :=
  match v with I32 x => Some x | Null => None end.
Definition is_i32 (v : ScalarValue) : bool := bool_decide (is_Some (as_i32 v)).

Record PPDExpr := mkPPDExpr { op : Operator; right : ScalarValue }.

(** rkyv's archives. *)
Class Rkyv := {
  to_bytes : PPDExpr → outcome (list Z);
  access : list Z → outcome PPDExpr;
}.
Definition ppd_serialize `{Rkyv} (expr : PPDExpr) : outcome (list Z) := unwrap_res (to_bytes expr).
Definition ppd_deserialize `{Rkyv} (bytes : list Z) : outcome PPDExpr := unwrap_res (access bytes).
End Ppd.

(** ** The built-in codec as a plug-in *)

Section Vortex.
Context `{VortexLib}.

Definition ref_data (a : ArrayRef) (child_data : list ArrayData) : ArrayData :=
  mkArrayData (from_bit_0 <$> ref_nulls a) (ref_buffers a) child_data.

(** [to_data]: the values of a dictionary are a child. *)
Definition to_data (d : Decoded) : ArrayData :=
  match d with
  | Plain a => ref_data a []
  | DictionaryArray keys values => ref_data keys [ref_data values []]
  end.

Definition encode_fff_general (input : Array) : outcome (list Z) :=
  let! e := unwrap_res (encode VortexEncoder_default input) in Ok (EncUnit_try_serialize e).

Definition decode_fff_general (input : list Z) : outcome (list (list Z)) :=
  let! vortex_decoder := VortexDecoder_try_new input ALL_ENCODINGS_CONTEXT in
  let! '(data, _) := unwrap_res (decode_all_as_array vortex_decoder) in
  Ok (arraydata_to_buffers [] (to_data data)).

Definition decode_fff_general_normal_ver := decode_fff_general.

(** *** adv-ude-fff: with keyword arguments, and state *)

(** Vortex's scalars and its operator of equality. *)
Context `{Ppd.Rkyv} (scalar_of_i32 : option Z → Scalar) (operator_eq : Operator).

(** A decoder that decodes once. *)
Record BasicDecoder := mkBasic { decoder : VortexDecoder; done : bool }.

Definition BasicDecoder_decode (s : BasicDecoder) : outcome (option (list (list Z))) * BasicDecoder :=
  if done s then (Ok None, s)
  else match unwrap_res (decode_all_as_array (decoder s)) with
       | Ok (data, d) => (Ok (Some (arraydata_to_buffers [] (to_data data))), mkBasic d true)
       | Err e => (Err e, s)
       | Panic p => (Panic p, s)
       end.

(** A predicate comes first; the kwargs are read on wasm32. *)
Definition init_fff (input kwargs : list Z) : outcome BasicDecoder :=
  let! kwargs := kwargs_deserialize 32 kwargs in
  let builder := VortexDecoderBuilder_new input ALL_ENCODINGS_CONTEXT in
  let! builder :=
    match kwargs !! string_bytes "ppd" with
    | Some serialized_expr =>
        let! expr := Ppd.ppd_deserialize serialized_expr in
        let! _ := assert (bool_decide (Ppd.op expr = Ppd.Eq)) in
        let! _ := assert (Ppd.is_i32 (Ppd.right expr)) in
        with_ppd builder (mkPPD (scalar_of_i32 (Ppd.as_i32 (Ppd.right expr))) operator_eq)
    | None =>
        match kwargs !! string_bytes "partial_decode" with
        | Some b => if negb (default 0 (head b) =? 0) then with_partial_decode builder true else Ok builder
        | None => Ok builder
        end
    end in
  let! vortex_decoder := try_build builder in
  Ok (mkBasic vortex_decoder false).
End Vortex.

(** ** What the crates export

    An encoder takes the array over Arrow's C data interface, which hands over its type,
    length and memory; a decoder is wrapped for the host. *)

Definition encode_custom_c := encode_custom.
Definition encode_pco_real_general_c `{Pco} := encode_pco_real_general.

Section Exports.
Context `{P : Plugin}.

Definition custom_decode_general_ffi : Z → Z → Z → Run Guest Z := general_wrapper decode_custom.
Definition fff_decode_general_ffi `{VortexLib} : Z → Z → Z → Run Guest Z := general_wrapper decode_fff_general.
Definition flsbp_decode_general_ffi `{FastLanes} (fill : Z → Z) : Z → Z → Z → Run Guest Z :=
  general_wrapper (decode_flsbp_general fill).
Definition gzip_decode_general_ffi `{Compressors} : Z → Z → Z → Run Guest Z :=
  general_wrapper decode_gzip_general.
Definition lz4_decode_general_ffi `{Compressors} : Z → Z → Z → Run Guest Z :=
  general_wrapper decode_lz4_general.
Definition zstd_decode_general_ffi `{Compressors} : Z → Z → Z → Run Guest Z :=
  general_wrapper decode_zstd_general.
Definition pco_decode_general_ffi `{Pco} : Z → Z → Z → Run Guest Z := general_wrapper decode_pco_general.
Definition pco_real_decode_general_ffi `{Pco} : Z → Z → Z → Run Guest Z :=
  general_wrapper decode_pco_real_general.

(** fff-ude-example-memory-test: as many zeros as the input says. *)
Definition memory_test (input : list Z) : outcome (list Z) :=
  let! size := slice input 0 4 in
  Ok (replicate (Z.to_nat (le_val size)) 0).
Definition test_ffi : Z → Z → Z → Run Guest Z := scalar_wrapper memory_test.

(** fff-ude-example-noop *)
Definition noop (_ : list Z) : outcome (list Z) := Ok [].
Definition noop_ffi : Z → Z → Z → Run Guest Z := scalar_wrapper noop.
End Exports.
