(* ===== verification/PatternCodec.v ===== *)
(** * The pattern codec

    What [encode_custom] of wasm-libs/wasm-test-encoders/src/lib.rs writes, for which
    arrays it panics, and that [decode_custom] gives the array back. *)

From S2P Require Import Prelude Arrow Buffers Guest LogicalDec ExampleCodecs Layout.
From stdpp Require Import list sorting.
Open Scope Z_scope.

(** ** The table of patterns *)

(** The distinct blocks, in the order in which they are first seen. *)
Definition add_pattern (pats : list (list Z)) (b : list Z) : list (list Z) :=
  if decide (b ∈ pats) then pats else pats ++ [b].
Definition patterns_from (pats blocks : list (list Z)) : list (list Z) := foldl add_pattern pats blocks.
Definition patterns : list (list Z) → list (list Z) := patterns_from [].

(** Where a block is in the table. *)
Definition pattern_index (pats : list (list Z)) (b : list Z) : Z :=
  match list_find (b =.) pats with Some (i, _) => Z.of_nat i | None => -1 end.

Lemma pattern_index_spec pats b :
  b ∈ pats → 0 ≤ pattern_index pats b < len pats ∧ pats !! Z.to_nat (pattern_index pats b) = Some b.
Proof.
  intros Hb. unfold pattern_index. destruct (list_find_elem_of (b =.) pats b Hb eq_refl) as [[i c] Hf].
  rewrite Hf. apply list_find_Some in Hf as (Hi & -> & _). apply lookup_lt_Some in Hi as Hl.
  unfold len. split; [lia|]. by rewrite Nat2Z.id.
Qed.

Lemma pattern_index_app pats more b : b ∈ pats → pattern_index (pats ++ more) b = pattern_index pats b.
Proof.
  intros Hb. unfold pattern_index. destruct (list_find_elem_of (b =.) pats b Hb eq_refl) as [[i c] Hf].
  by rewrite (list_find_app_l _ _ _ _ _ Hf), Hf.
Qed.

Lemma pattern_index_new pats b : b ∉ pats → pattern_index (pats ++ [b]) b = len pats.
Proof.
  intros Hb. unfold pattern_index. replace (list_find (b =.) (pats ++ [b])) with (Some (length pats, b)); [done|].
  symmetry. apply list_find_Some. rewrite lookup_app_r, Nat.sub_diag by lia. split; [done|]. split; [done|].
  intros j c Hj Hlt ->. rewrite lookup_app_l in Hj by done. by apply Hb, (list_elem_of_lookup_2 _ j).
Qed.

(** The table only grows, at its end. *)
Lemma patterns_from_prefix pats blocks : ∃ more, patterns_from pats blocks = pats ++ more.
Proof.
  revert pats. induction blocks as [|b blocks IH]; intros pats; [exists []; by rewrite app_nil_r|].
  cbn. unfold patterns_from in IH. destruct (IH (add_pattern pats b)) as [more ->]. unfold add_pattern.
  case_decide; [by exists more|]. exists (b :: more). by rewrite <-app_assoc.
Qed.

Lemma patterns_from_in pats blocks b : b ∈ blocks ∨ b ∈ pats → b ∈ patterns_from pats blocks.
Proof.
  revert pats. induction blocks as [|c blocks IH]; intros pats Hb; cbn.
  - by destruct Hb as [Hb%elem_of_nil|].
  - apply IH. unfold add_pattern. destruct Hb as [Hb|Hb].
    + apply elem_of_cons in Hb as [->|Hb]; [right|by left]. case_decide; set_solver.
    + right. case_decide; set_solver.
Qed.

Lemma patterns_from_Forall (P : list Z → Prop) pats blocks :
  Forall P pats → Forall P blocks → Forall P (patterns_from pats blocks).
Proof.
  intros Hp Hb. revert pats Hp. induction Hb as [|b blocks Hb _ IH]; intros pats Hp; [done|].
  cbn. apply IH. unfold add_pattern. case_decide; [done|]. by apply Forall_app_2; [|repeat constructor].
Qed.

(** ** The map that the encoder keeps *)

Definition table_of (pats : list (list Z)) : gmap (list Z) Z :=
  list_to_map (zip pats (seqZ 0 (len pats))).

Lemma zip_seqZ_fst (pats : list (list Z)) : (zip pats (seqZ 0 (len pats))).*1 = pats.
Proof. apply fst_zip. rewrite length_seqZ. unfold len. lia. Qed.

Lemma table_of_snoc pats b : b ∉ pats → <[b := len pats]> (table_of pats) = table_of (pats ++ [b]).
Proof.
  intros Hb. unfold table_of. rewrite len_app, seqZ_app by (try apply len_nonneg; done).
  rewrite (zip_with_app) by (rewrite length_seqZ; unfold len; lia).
  change (seqZ (0 + len pats) (len [b])) with [len pats]. cbn [zip_with].
  rewrite list_to_map_snoc; [done|]. by rewrite zip_seqZ_fst.
Qed.

Lemma table_of_None pats b : table_of pats !! b = None ↔ b ∉ pats.
Proof. unfold table_of. rewrite <-not_elem_of_list_to_map, zip_seqZ_fst. done. Qed.

Lemma table_of_Some pats b : NoDup pats → b ∈ pats → table_of pats !! b = Some (pattern_index pats b).
Proof.
  intros Hn Hb. destruct (pattern_index_spec pats b Hb) as [Hi Hl]. unfold table_of.
  apply elem_of_list_to_map; [by rewrite zip_seqZ_fst|].
  apply list_elem_of_lookup. exists (Z.to_nat (pattern_index pats b)). rewrite lookup_zip_with, Hl. cbn.
  rewrite lookup_seqZ_lt by lia. cbn. do 2 f_equal. lia.
Qed.

(** Sorted by index, the keys of the map are the table. *)
Lemma sorted_table pats :
  NoDup pats → map fst (merge_sort by_index (map_to_list (table_of pats))) = pats.
Proof.
  intros Hn. replace (merge_sort by_index (map_to_list (table_of pats))) with (zip pats (seqZ 0 (len pats)));
    [apply zip_seqZ_fst|]. symmetry.
  assert (Hp : map_to_list (table_of pats) ≡ₚ zip pats (seqZ 0 (len pats)))
    by (apply map_to_list_to_map; by rewrite zip_seqZ_fst).
  assert (Hsnd : (zip pats (seqZ 0 (len pats))).*2 = seqZ 0 (len pats))
    by (apply snd_zip; rewrite length_seqZ; unfold len; lia).
  apply (StronglySorted_unique_strong by_index).
  - intros x y Hx Hy Hxy Hyx. rewrite merge_sort_Permutation, Hp in Hx.
    apply list_elem_of_lookup in Hx as [i Hi]. apply list_elem_of_lookup in Hy as [j Hj].
    unfold by_index in *. assert (Heq : x.2 = y.2) by lia.
    assert (Hi2 : (zip pats (seqZ 0 (len pats))).*2 !! i = Some x.2) by by rewrite list_lookup_fmap, Hi.
    assert (Hj2 : (zip pats (seqZ 0 (len pats))).*2 !! j = Some x.2) by by rewrite list_lookup_fmap, Hj, Heq.
    rewrite Hsnd in Hi2, Hj2. apply lookup_seqZ in Hi2 as [? ?]. apply lookup_seqZ in Hj2 as [? ?].
    assert (i = j) as -> by lia. congruence.
  - apply StronglySorted_merge_sort; apply _.
  - apply (StronglySorted_map_inv snd by_index Z.le); [done|].
    change (StronglySorted Z.le (zip pats (seqZ 0 (len pats))).*2). rewrite Hsnd. apply seqZ_sorted.
  - by rewrite merge_sort_Permutation.
Qed.

Lemma patterns_from_NoDup pats blocks : NoDup pats → NoDup (patterns_from pats blocks).
Proof.
  revert pats. induction blocks as [|b blocks IH]; intros pats Hn; [done|]. cbn. apply IH.
  unfold add_pattern. case_decide; [done|]. apply NoDup_app. split; [done|]. split; [set_solver|apply NoDup_singleton].
Qed.

(** ** The loop of the encoder *)

(** With a table of at most 255 patterns the loop writes the index of every block; the
    next pattern panics. *)
Lemma pattern_loop values starts blocks pats encoded :
  Forall2 (λ s b, mini_block values s = Ok b) starts blocks → NoDup pats → len pats ≤ 255 →
  fold_m (pattern_step values) (encoded, table_of pats, len pats) starts =
  (let all := patterns_from pats blocks in
   if len all <=? 255
   then Ok (encoded ++ map (pattern_index all) blocks, table_of all, len all)
   else Panic PUnwrap).
Proof.
  intros HF. revert pats encoded. induction HF as [|s b starts blocks Hb _ IH]; intros pats encoded Hn Hlen.
  - cbn. rewrite (proj2 (Z.leb_le _ _)) by done. by rewrite app_nil_r.
  - cbn [fold_m pattern_step]. rewrite Hb. cbn [obind]. change (patterns_from pats (b :: blocks))
      with (patterns_from (add_pattern pats b) blocks). unfold add_pattern. case_decide as Hin.
    + rewrite (table_of_Some pats b Hn Hin). cbn [obind]. rewrite IH by done. cbn zeta.
      case_match; [|done]. do 3 f_equal. rewrite <-app_assoc. f_equal. cbn. f_equal.
      destruct (patterns_from_prefix pats blocks) as [more ->]. symmetry. by apply pattern_index_app.
    + rewrite (proj2 (table_of_None pats b) Hin).
      assert (Hn' : NoDup (pats ++ [b])) by (apply NoDup_app; split; [done|]; split; [set_solver|apply NoDup_singleton]).
      destruct (patterns_from_prefix (pats ++ [b]) blocks) as [more Hmore].
      assert (Hl : len (pats ++ [b]) = len pats + 1) by (rewrite len_app; done).
      destruct (Z.ltb_spec (len pats + 1) (2 ^ 8)).
      * cbn [unwrap obind]. rewrite table_of_snoc by done. rewrite <-Hl, IH by (done || lia). cbn zeta.
        case_match; [|done]. do 3 f_equal. rewrite <-app_assoc. f_equal. cbn. f_equal.
        rewrite Hmore, pattern_index_app by set_solver. symmetry. by apply pattern_index_new.
      * cbn [unwrap obind]. rewrite (proj2 (Z.leb_gt _ _)); [done|]. rewrite Hmore, len_app, Hl.
        pose proof (len_nonneg more). lia.
Qed.

(** ** The blocks *)

Fixpoint blocks_of (n : nat) (values : list (list Z)) : list (list Z) :=
  match n with
  | O => []
  | S n => concat (take 128 values) :: blocks_of n (drop 128 values)
  end.
Definition blocks (values : list (list Z)) : list (list Z) :=
  blocks_of (Z.to_nat (len values / 128)) values.

Lemma blocks_concat n values : length values = (128 * n)%nat → concat (blocks_of n values) = concat values.
Proof.
  revert values. induction n as [|n IH]; intros values Hl; [by destruct values|].
  cbn [blocks_of concat]. rewrite IH by (rewrite length_drop; lia). by rewrite <-concat_app, take_drop.
Qed.

Lemma blocks_length n values w :
  length values = (128 * n)%nat → Forall (λ b, length b = w) values →
  length (blocks_of n values) = n ∧ Forall (λ b, len b = 128 * Z.of_nat w) (blocks_of n values).
Proof.
  revert values. induction n as [|n IH]; intros values Hl Hw; [by repeat constructor|].
  destruct (IH (drop 128 values)) as [Hlen HF]; [rewrite length_drop; lia|by apply Forall_drop|].
  cbn [blocks_of length]. split; [by rewrite Hlen|]. constructor; [|done].
  rewrite (len_concat_width w) by by apply Forall_take.
  unfold len. rewrite length_take. lia.
Qed.

Lemma mini_blocks_read n pre values j :
  length values = (128 * n)%nat → len pre = 128 * j →
  Forall2 (λ s b, mini_block (pre ++ values) s = Ok b) (map (λ i, 128 * i) (seqZ j (Z.of_nat n)))
    (blocks_of n values).
Proof.
  revert pre values j. induction n as [|n IH]; intros pre values j Hl Hpre; [constructor|].
  rewrite seqZ_cons by lia. cbn [map blocks_of].
  assert (Hs : pre ++ values = pre ++ take 128 values ++ drop 128 values) by by rewrite take_drop.
  constructor.
  - unfold mini_block. rewrite Hs, slice_mid; [done|lia|]. unfold len in *. rewrite length_take. lia.
  - rewrite Hs, app_assoc.
    replace (Z.pred (Z.of_nat (S n))) with (Z.of_nat n) by lia.
    apply IH; [rewrite length_drop; lia|]. rewrite len_app. unfold len in *. rewrite length_take. lia.
Qed.

(** ** What is written *)

Definition custom_header (t : Native) (id : Z) (nulls : option (list Z)) (n : Z) : list Z :=
  null_header nulls ++ le_bytes 4 id ++ le_bytes 4 (wrap 32 n).

(** The encoder panics unless the values fill their blocks and there are at most 255
    different blocks, though an index of one byte would tell 256 apart. *)
Lemma encode_custom_helper_eq t id input :
  type_id t = Ok id →
  encode_custom_helper t input =
  (let bs := blocks (pa_values input) in
   let all := patterns bs in
   if negb (len (pa_values input) mod 128 =? 0) then Panic PAssert
   else if len all <=? 255
   then Ok (custom_header t id (nb_buffer <$> pa_nulls input) (len (pa_values input))
            ++ map (pattern_index all) bs ++ concat all)
   else Panic PUnwrap).
Proof.
  intros Hid. unfold encode_custom_helper. rewrite Hid. cbn [obind]. cbn zeta.
  destruct (Z.eqb_spec (len (pa_values input) mod 128) 0) as [Hm|]; [|done]. cbn [assert obind negb].
  set (values := pa_values input) in *. fold (custom_header t id (nb_buffer <$> pa_nulls input) (len values)).
  assert (Hn : length values = (128 * Z.to_nat (len values / 128))%nat).
  { pose proof (Z_div_mod_eq_full (len values) 128). pose proof (len_nonneg values). unfold len in *.
    assert (0 ≤ Z.of_nat (length values) / 128) by (apply Z.div_pos; lia). lia. }
  assert (0 ≤ len values / 128) by (apply Z.div_pos; [apply len_nonneg|lia]).
  unfold range. rewrite <-(Z2Nat.id (len values / 128)) at 1 by done.
  change (fold_m (pattern_step values) (?e, ∅, 0) ?l)
    with (fold_m (pattern_step values) (e, table_of [], len (@nil (list Z))) l).
  rewrite (pattern_loop values _ (blocks values) []);
    [|by apply (mini_blocks_read _ [] values 0)|constructor|done].
  cbn zeta. change (patterns_from [] (blocks values)) with (patterns (blocks values)).
  case_match; [|done]. cbn [obind]. rewrite sorted_table by (apply patterns_from_NoDup; constructor).
  by rewrite <-app_assoc.
Qed.

(** ** What is read *)

(** An element of a concatenation of lists of one length. *)
Lemma concat_element (l : list (list Z)) k i b rest :
  Forall (λ b, len b = k) l → l !! i = Some b →
  ∃ pre post, concat l ++ rest = pre ++ b ++ post ∧ len pre = Z.of_nat i * k.
Proof.
  intros Hl. revert i. induction Hl as [|a l Ha _ IH]; intros [|i] Hi; try done.
  - injection Hi as ->. exists [], (concat l ++ rest). cbn. by rewrite <-app_assoc.
  - destruct (IH i Hi) as (pre & post & He & Hp). exists (a ++ pre), post. cbn [concat].
    rewrite <-!app_assoc, He, len_app, Hp, Ha. split; [done|]. lia.
Qed.

Lemma decompress_blocks t pats bs :
  Forall (λ b, len b = 128 * Z.of_nat (size_of t)) pats → Forall (λ b, b ∈ pats) bs → len pats ≤ 256 →
  custom_decompress t (map (pattern_index pats) bs ++ concat pats) (128 * len bs) = Ok (concat bs).
Proof.
  intros Hpats Hbs Hlen. unfold custom_decompress.
  rewrite Z.mul_comm, Z.mod_mul, Z.div_mul by lia. cbn [assert obind Z.eqb].
  assert (Hg : ∀ done todo res, bs = done ++ todo →
    fold_m (λ res i,
      let! idx := index (map (pattern_index pats) bs ++ concat pats) i in
      let! pattern := slice (map (pattern_index pats) bs ++ concat pats)
        (len bs + idx * 128 * Z.of_nat (size_of t))
        (len bs + idx * 128 * Z.of_nat (size_of t) + 128 * Z.of_nat (size_of t)) in
      Ok (res ++ pattern)) res (seqZ (len done) (len todo)) = Ok (res ++ concat todo)).
  { intros dn todo. revert dn. induction todo as [|b todo IH]; intros dn res Hdn; [by rewrite app_nil_r|].
    rewrite seqZ_cons by (rewrite len_cons; pose proof (len_nonneg todo); lia). cbn [fold_m].
    assert (Hb : b ∈ pats) by (rewrite Forall_forall in Hbs; apply Hbs; rewrite Hdn; set_solver).
    destruct (pattern_index_spec pats b Hb) as [Hi Hlook].
    rewrite (proj2 (index_Ok _ (len dn) (pattern_index pats b))).
    2: { split; [apply len_nonneg|]. unfold len. rewrite Nat2Z.id, Hdn, map_app, <-app_assoc.
         rewrite lookup_app_r by (by rewrite length_map). by rewrite length_map, Nat.sub_diag. }
    cbn [obind]. destruct (concat_element pats _ _ _ [] Hpats Hlook) as (pre & post & Hc & Hpre).
    rewrite app_nil_r in Hc.
    rewrite Forall_forall in Hpats. pose proof (Hpats b Hb) as Hbl.
    rewrite Hc, app_assoc, slice_mid;
      [|rewrite len_app, len_map, Hpre, Z2Nat.id by lia; lia
       |rewrite len_app, len_map, Hpre, Hbl, Z2Nat.id by lia; lia].
    cbn [obind]. rewrite len_cons. replace (Z.pred (1 + len todo)) with (len todo) by lia.
    replace (Z.succ (len dn)) with (len (dn ++ [b])) by (rewrite len_app; done).
    rewrite <-app_assoc, <-Hc, (IH (dn ++ [b])) by (by rewrite <-app_assoc).
    cbn [concat]. by rewrite app_assoc. }
  apply (Hg [] bs [] eq_refl).
Qed.

Lemma read_u32_mid pre x post a :
  a = len pre → in_u 32 x → read_u32 (pre ++ le_bytes 4 x ++ post) a = Ok x.
Proof.
  intros -> Hx. unfold read_u32. rewrite slice_mid by (rewrite ?le_bytes_len; done).
  cbn [obind]. by rewrite le_val_le_bytes.
Qed.

Lemma read_u32_here x post : in_u 32 x → read_u32 (le_bytes 4 x ++ post) 0 = Ok x.
Proof. by apply (read_u32_mid []). Qed.

Lemma null_header_read nulls rest :
  len (default [] nulls) < 2 ^ 32 →
  read_null_header (null_header nulls ++ rest) = Ok (default [] nulls, len (null_header nulls)).
Proof.
  intros Hn. unfold read_null_header, null_header. destruct nulls as [buf|]; cbn [default] in *.
  - unfold id in Hn. pose proof (len_nonneg buf). rewrite wrap_small by done. rewrite <-!app_assoc.
    rewrite read_u32_here by done. cbn [obind Z.eqb Pos.eqb].
    rewrite (read_u32_mid (le_bytes 4 1) (len buf)) by done. cbn [obind].
    rewrite (app_assoc (le_bytes 4 1)). rewrite slice_mid by (rewrite len_app, !le_bytes_len; lia).
    cbn [obind]. by rewrite !len_app, !le_bytes_len.
  - rewrite read_u32_here by done. cbn [obind Z.eqb]. by rewrite le_bytes_len.
Qed.

Lemma type_id_native t id : type_id t = Ok id → native_of_id id = Ok t ∧ in_u 32 id.
Proof. destruct t; intros [= <-]; by split. Qed.

Lemma decode_custom_block t id nulls n body r :
  type_id t = Ok id → len (default [] nulls) < 2 ^ 32 → in_u 32 n →
  custom_decompress t body n = Ok r →
  decode_custom (custom_header t id nulls n ++ body) = Ok [default [] nulls; r].
Proof.
  intros Hid Hnulls Hn Hr. destruct (type_id_native t id Hid) as [Ht Hidu].
  unfold decode_custom, custom_header. rewrite wrap_small by done. rewrite <-!app_assoc.
  rewrite null_header_read by done. cbn [obind].
  rewrite read_u32_mid by done. cbn [obind].
  rewrite (app_assoc (null_header nulls)), read_u32_mid by (rewrite ?len_app, ?le_bytes_len; done).
  cbn [obind]. rewrite (app_assoc (_ ++ _) (le_bytes 4 n)). unfold slice_from.
  rewrite slice_suffix by (rewrite !len_app, !le_bytes_len; lia). cbn [obind].
  rewrite Ht. cbn [obind]. by rewrite Hr.
Qed.

(** ** Arrays *)

(** The types of the codec, and how a native value is read. *)
Lemma custom_type dt t :
  custom_native dt = Ok t → ∃ id read, type_id t = Ok id ∧ native_type dt = Some (size_of t, read) ∧
    non_nest_types dt = true ∧ view_type dt = dt.
Proof.
  destruct dt; try done; repeat match goal with u : TimeUnit |- _ => destruct u end; try done;
    intros [= <-]; do 2 eexists; done.
Qed.

(** A laid out array of such a type. *)
Lemma lays_out_native dt vals d w read :
  native_type dt = Some (w, read) → lays_out dt vals d →
  ∃ nulls slots, d = mkArrayData (from_bit_0 <$> nulls) [concat slots] [] ∧ lays_validity nulls vals ∧ Forall2 (slot dt w) vals slots.
Proof.
  intros Hn Hl.
  destruct Hl as [nulls vs bools Hval Hv|vt w' read' nulls vs slots Hn' Hval Hv|vt nulls vs views bufs Ht Hval Hv].
  - discriminate Hn.
  - exists nulls, slots. split; [done|]. split; [done|]. by simplify_eq.
  - by destruct Ht; subst.
Qed.

(** What an encoder sees of a laid out array, and what the host makes of its buffers. *)
Lemma primitive_input dt t read vals d :
  native_type dt = Some (size_of t, read) → non_nest_types dt = true → view_type dt = dt →
  lays_out dt vals d → len vals < 2 ^ 32 →
  ∃ nulls slots, as_primitive t (len vals) d = Ok (mkPrimitive (from_bit_0 <$> nulls) slots) ∧
    len slots = len vals ∧ Forall (λ b, length b = size_of t) slots ∧ len (default [] nulls) < 2 ^ 32 ∧
    primitive_array_from_arrow_buffers_iter dt [default [] nulls; concat slots] (len vals)
    = Ok (PrimArray dt vals).
Proof.
  intros Hnat Hnn Hview Hl Hlen. pose proof (len_nonneg vals).
  destruct (lays_out_native _ _ _ _ _ Hnat Hl) as (nulls & slots & -> & Hval & Hslots).
  assert (Hw : Forall (λ b, length b = size_of t) slots)
    by (eapply Forall2_Forall_r; [exact Hslots|]; apply Forall_forall; by intros ?? ? []).
  assert (Hnum : len slots = len vals) by (unfold len; by rewrite (Forall2_length _ _ _ Hslots)).
  exists nulls, slots. split_and!; try done.
  - unfold as_primitive. rewrite <-Hnum, scalar_buffer_concat; [done|done|]. rewrite Hnum.
    pose proof (native_width _ _ _ Hnat). nia.
  - destruct Hval as [-> | [-> _]]; [|done]. pose proof (pack_bits_len (valid_bits vals)) as [_ Hpb].
    unfold valid_bits in Hpb at 2. rewrite len_map in Hpb. cbn [default]. unfold Datatypes.id. lia.
  - pose proof (laid_out_reads dt vals (mkArrayData (from_bit_0 <$> nulls) [concat slots] []) Hnn) as Hread.
    cbn [arraydata_to_buffers app foldl] in Hread. rewrite nb_from_bit_0, Hview in Hread. by apply Hread.
Qed.

(** The distinct blocks of an array. *)
Definition array_patterns (t : Native) (d : ArrayData) (n : Z) : outcome (list (list Z)) :=
  let! a := as_primitive t n d in Ok (patterns (blocks (pa_values a))).

(** The codec gives back what it encodes, and panics on the arrays it does not take. *)
Lemma pattern_codec dt t vals d :
  custom_native dt = Ok t → lays_out dt vals d → len vals < 2 ^ 32 →
  ∃ pats, array_patterns t d (len vals) = Ok pats ∧
    if (len vals mod 128 =? 0) && (len pats <=? 255)
    then ∃ block bufs, encode_custom dt (len vals) d = Ok block ∧ decode_custom block = Ok bufs ∧
      primitive_array_from_arrow_buffers_iter dt bufs (len vals) = Ok (PrimArray dt vals)
    else ∃ p, encode_custom dt (len vals) d = Panic p.
Proof.
  intros Ht Hl Hlen. destruct (custom_type dt t Ht) as (id & read & Hid & Hnat & Hnn & Hview).
  destruct (primitive_input _ _ _ _ _ Hnat Hnn Hview Hl Hlen)
    as (nulls & slots & Has & Hnum & Hw & Hnulls & Harr).
  exists (patterns (blocks slots)). unfold array_patterns, encode_custom. rewrite Ht. cbn [obind].
  rewrite Has. cbn [obind].
  split; [done|]. rewrite (encode_custom_helper_eq t id _ Hid). cbn [pa_values pa_nulls]. cbn zeta. rewrite nb_from_bit_0.
  rewrite Hnum. destruct (Z.eqb_spec (len vals mod 128) 0) as [Hm|]; cbn [negb andb]; [|by eexists].
  destruct (Z.leb_spec (len (patterns (blocks slots))) 255) as [Hp|]; [|by eexists].
  set (all := patterns (blocks slots)) in *.
  assert (Hn : len vals = 128 * (len vals / 128)) by (pose proof (Z_div_mod_eq_full (len vals) 128); lia).
  assert (Hq : 0 ≤ len vals / 128) by (apply Z.div_pos; [apply len_nonneg|lia]).
  assert (Hls : length slots = (128 * Z.to_nat (len slots / 128))%nat)
    by (rewrite Hnum; unfold len in *; lia).
  destruct (blocks_length _ _ _ Hls Hw) as [Hbl Hbf].
  eexists _, _. split; [done|]. split.
  - apply (decode_custom_block t id nulls (len vals) _ (concat (blocks slots))); [done..| |].
    + split; [apply len_nonneg|done].
    + replace (len vals) with (128 * len (blocks slots)).
      * apply decompress_blocks; [|apply Forall_forall; intros b Hb; apply patterns_from_in; by left|lia].
        apply patterns_from_Forall; [constructor|exact Hbf].
      * unfold blocks, len at 1. rewrite Hbl, Hnum. lia.
  - unfold blocks. rewrite blocks_concat by done. exact Harr.
Qed.

(** C14: the pattern codec gives back what it encodes, and panics on exactly the arrays
    that it does not take.  For an array of a type of the codec, in any layout of
    [lays_out] (its nulls start at bit 0 of their buffer; [sliced_nulls_shift] shows what
    happens to others), [encode_custom] succeeds if the array fills its blocks of 128 values and
    has at most 255 different blocks, and panics otherwise.  [decode_custom] then gives
    two buffers from which the host builds the same array. *)
Theorem pattern_codec_roundtrip dt t vals d :
  custom_native dt = Ok t → lays_out dt vals d → len vals < 2 ^ 32 →
  ∃ pats, array_patterns t d (len vals) = Ok pats ∧
    if (len vals mod 128 =? 0) && (len pats <=? 255)
    then ∃ block bufs, encode_custom dt (len vals) d = Ok block ∧ decode_custom block = Ok bufs ∧
      primitive_array_from_arrow_buffers_iter dt bufs (len vals) = Ok (PrimArray dt vals)
    else ∃ p, encode_custom dt (len vals) d = Panic p.
Proof. apply pattern_codec. Qed.

(** ** An example *)

(** An array with its validity and the bytes of its values. *)
Definition native_layout (w : nat) (vals : list (option value)) : ArrayData :=
  mkArrayData (Some (from_bit_0 (pack_bits (valid_bits vals)))) [concat (map (value_bytes w) vals)] [].

Lemma native_layout_ok dt w read vals :
  native_type dt = Some (w, read) → Forall (λ v, ∀ x, v = Some x → native_value dt w x) vals →
  lays_out dt vals (native_layout w vals).
Proof.
  intros Hn Hv. apply (lays_native dt w read (Some (pack_bits (valid_bits vals)))); [done|by left|].
  induction Hv as [|v vals Hv _ IH]; [constructor|]. constructor; [|done].
  split; [apply value_bytes_length|]. intros x ->. split; [by apply Hv|done].
Qed.

(** Two blocks that are equal and have nulls, and one that is different. *)
Definition pattern_example : list (option value) :=
  let block := None :: map (λ i, Some (VInt i)) (range 127) in
  block ++ map (λ i, Some (VInt (300 - i))) (range 128) ++ block.

Lemma pattern_codec_roundtrip_witness :
  ∃ pats, array_patterns u16 (native_layout 2 pattern_example) (len pattern_example) = Ok pats ∧ len pats = 2 ∧
  ∃ block bufs, encode_custom UInt16 (len pattern_example) (native_layout 2 pattern_example) = Ok block ∧
    decode_custom block = Ok bufs ∧
    primitive_array_from_arrow_buffers_iter UInt16 bufs (len pattern_example)
    = Ok (PrimArray UInt16 pattern_example).
Proof.
  destruct (pattern_codec_roundtrip UInt16 u16 pattern_example (native_layout 2 pattern_example))
    as (pats & Hp & Hcase).
  - done.
  - apply (native_layout_ok UInt16 2 _ _ eq_refl). apply Forall_forall. intros v Hv x ->.
    assert (Hall : forallb (λ v, match v with Some (VInt y) => (0 <=? y) && (y <? 2 ^ 16) | Some _ => false | None => true end)
      pattern_example = true) by by vm_compute.
    rewrite forallb_forall in Hall. specialize (Hall (Some x) (proj1 (list_elem_of_In _ _) Hv)).
    destruct x; try done. apply andb_true_iff in Hall as [Ha Hb].
    apply Z.leb_le in Ha. apply Z.ltb_lt in Hb. by split.
  - by vm_compute.
  - assert (len pats = 2) by (revert Hp; vm_compute; by intros [= <-]).
    exists pats. split; [done|]. split; [done|]. replace (len pats) with 2 in Hcase.
    exact Hcase.
Defined.

(** ** Nulls that do not start at bit 0

    128 valid values, a slice whose nulls start at the second bit of their buffer.  The
    encoder writes the buffer without the place where the nulls start, so that the first
    value comes back as a null. *)
Definition sliced_nulls : NullBuffer := mkNulls (pack_bits (false :: replicate 128 true)) 1.
Definition sliced_array : ArrayData :=
  mkArrayData (Some sliced_nulls) [concat (map (le_bytes 2) (range 128))] [].

Lemma sliced_nulls_shift :
  map (λ i, buffer_bit (nb_buffer sliced_nulls) (nb_offset sliced_nulls + i)) (range 128)
    = replicate 128 true ∧
  (let! block := encode_custom UInt16 128 sliced_array in
   let! bufs := decode_custom block in
   let! a := primitive_array_from_arrow_buffers_iter UInt16 bufs 128 in
   Ok (take 2 (match a with PrimArray _ vals => vals | _ => [] end))) = Ok [None; Some (VInt 1)].
Proof. split; vm_compute; reflexivity. Qed.
