(* ===== verification/PluginCodecs.v ===== *)
(** * What the other example codecs give back

    Pco, bit packing, the text compressors and the built-in codec as a plug-in: the
    decoder of each gives buffers from which the host builds the array that was encoded. *)

From S2P Require Import Prelude Arrow EncUnit Common Options Chunks Encoders Buffers Bitpack Kwargs Guest GuestFacts Decoders LogicalDec.
From S2P Require Import ReadFile DecoderFacts EndToEnd Layout Vortex VortexFacts VortexLists ExampleCodecs PatternCodec.
From stdpp Require Import list.
Open Scope Z_scope.

(** ** Pco *)

Section Pco.
Context `{PcoLaws}.

Lemma pco_type dt t id :
  pco_native dt = Ok t → type_id t = Ok id → ∃ read, native_type dt = Some (size_of t, read) ∧
    non_nest_types dt = true ∧ view_type dt = dt.
Proof.
  destruct dt; try done; repeat match goal with u : TimeUnit |- _ => destruct u end; try done;
    intros [= <-] Hid; try discriminate Hid; eexists; done.
Qed.

(** Nulls are kept, which [encode_pco_general] does not. *)
Lemma pco_real_roundtrip dt t vals d block :
  pco_native dt = Ok t → lays_out dt vals d → len vals < 2 ^ 32 →
  encode_pco_real_general dt (len vals) d = Ok block →
  ∃ bufs, decode_pco_real_general block = Ok bufs ∧
    primitive_array_from_arrow_buffers_iter dt bufs (len vals) = Ok (PrimArray dt vals).
Proof using All.
  intros Ht Hl Hlen He. unfold encode_pco_real_general in He. rewrite Ht in He. cbn [obind] in He.
  apply obind_Ok in He as (a & Ha & He). unfold encode_pco_real_general_helper in He.
  apply obind_Ok in He as (id & Hid & He). apply obind_Ok in He as (b & Hb & He). apply (inj Ok) in He as <-.
  apply unwrap_res_Ok, pco_lossless in Hb. destruct (pco_type dt t id Ht Hid) as (read & Hnat & Hnn & Hview).
  destruct (primitive_input _ _ _ _ _ Hnat Hnn Hview Hl Hlen) as (nulls & slots & Has & _ & _ & Hnulls & Harr).
  pose proof (eq_trans (eq_sym Ha) Has) as Heq. apply (inj Ok) in Heq as ->. cbn [pa_nulls pa_values] in *. rewrite nb_from_bit_0.
  destruct (type_id_native t id Hid) as [Hnid Hu].
  exists [default [] nulls; concat slots]. split; [|exact Harr].
  unfold decode_pco_real_general. rewrite null_header_read by done. cbn [obind].
  rewrite read_u32_mid by done. cbn [obind]. rewrite app_assoc. unfold slice_from.
  rewrite slice_suffix by (rewrite !len_app, !le_bytes_len; lia). cbn [obind].
  rewrite Hnid. cbn [obind]. by rewrite Hb.
Qed.

Lemma pco_roundtrip t id values block :
  type_id t = Ok id → encode_pco_general t values = Ok block →
  decode_pco_general block = Ok [[]; concat values].
Proof using All.
  intros Hid He. destruct (type_id_native t id Hid) as [Hnid Hu].
  unfold encode_pco_general in He. rewrite Hid in He. cbn [obind] in He.
  apply obind_Ok in He as (b & Hb & He). apply (inj Ok) in He as <-. apply unwrap_res_Ok, pco_lossless in Hb.
  unfold decode_pco_general. rewrite read_u32_here by done. cbn [obind]. unfold slice_from.
  rewrite slice_suffix by (rewrite ?len_app, !le_bytes_len; lia). cbn [obind].
  rewrite Hnid. cbn [obind]. by rewrite Hb.
Qed.
End Pco.

(** ** Bit packing *)

Section FastLanes.
Context `{!FastLanes} `{!FastLanesLaws}.

(** The width of a list of unsigned integers holds all of them. *)
Lemma widths_hold w l :
  Forall (in_u w) l → 0 ≤ w → 0 ≤ bit_width_of l ≤ w ∧ Forall (in_u (bit_width_of l)) l.
Proof using Type.
  intros Hl Hw. unfold bit_width_of.
  assert (Hone : ∀ x, in_u w x → 0 ≤ significant_bits x ≤ w ∧ x < 2 ^ significant_bits x).
  { unfold in_u, significant_bits. intros x Hx. destruct (Z.eqb_spec x 0) as [->|]; [lia|].
    pose proof (Z.log2_nonneg x). assert (Z.log2 x < w) by (apply Z.log2_lt_pow2; lia).
    split; [lia|]. apply Z.log2_spec. lia. }
  assert (Hg : ∀ acc, 0 ≤ acc ≤ w →
    0 ≤ foldl (λ acc x, Z.max acc (significant_bits x)) acc l ≤ w ∧
    Forall (in_u (foldl (λ acc x, Z.max acc (significant_bits x)) acc l)) l); [|by apply Hg; lia].
  induction Hl as [|x l Hx _ IH]; intros acc Hacc; simpl; [done|].
  destruct (Hone x Hx) as [Hb Hlt].
  destruct (IH (Z.max acc (significant_bits x))) as [Hr Hall]; [lia|]. split; [done|].
  constructor; [|done]. pose proof (bit_width_of_ge (Z.max acc (significant_bits x)) l).
  split; [apply Hx|]. eapply Z.lt_le_trans; [apply Hlt|]. apply Z.pow_le_mono_r; lia.
Qed.

Definition full_blocks (bs : list (list Z)) : Prop := Forall (λ b, len b = 1024) bs.

Lemma full_blocks_len bs : full_blocks bs → len (concat bs) = 1024 * len bs.
Proof using Type.
  induction 1 as [|b bs Hb _ IH]; [done|]. cbn [concat]. rewrite len_app, len_cons, IH. lia.
Qed.

(** The loop of the encoder, after the blocks [before]. *)
Lemma pack_loop w bw before after encoded :
  full_blocks before → full_blocks after →
  fold_m (λ encoded start,
    let! mini_block := slice (concat (before ++ after)) start (start + 1024) in
    Ok (encoded ++ unchecked_pack w bw mini_block)) encoded
    (map (λ i, 1024 * i) (seqZ (len before) (len after)))
  = Ok (encoded ++ concat (map (unchecked_pack w bw) after)).
Proof using Type.
  intros Hb Ha. revert before Hb encoded. induction Ha as [|b after Hlb Ha IH]; intros before Hb encoded.
  - rewrite seqZ_nil by done. cbn. by rewrite app_nil_r.
  - rewrite seqZ_cons by (rewrite len_cons; pose proof (len_nonneg after); lia). cbn [map fold_m].
    rewrite concat_app. cbn [concat]. rewrite slice_mid by (rewrite ?full_blocks_len, ?Hlb by done; lia).
    cbn [obind]. rewrite len_cons. replace (Z.pred (1 + len after)) with (len after) by lia.
    replace (Z.succ (len before)) with (len (before ++ [b])) by (rewrite len_app; done).
    change (concat before ++ b ++ concat after) with (concat before ++ concat (b :: after)).
    rewrite <-concat_app, cons_middle, app_assoc. rewrite IH by (apply Forall_app; by repeat constructor).
    cbn [map concat]. by rewrite app_assoc.
Qed.

(** The loop of the decoder. *)
Lemma unpack_loop w bw packed_len before after tail :
  (∀ b, b ∈ before ++ after → len b = 1024 ∧ len (unchecked_pack w bw b) = packed_len ∧
        unchecked_unpack w bw (unchecked_pack w bw b) = b) → len tail = 1024 * len after →
  fold_m (λ output start,
    let! packed := slice (concat (map (unchecked_pack w bw) (before ++ after)))
                     (start / 1024 * packed_len) ((start / 1024 + 1) * packed_len) in
    let! _ := slice output start (start + 1024) in
    Ok (write_at output start (unchecked_unpack w bw packed))) (concat before ++ tail)
    (map (λ i, 1024 * i) (seqZ (len before) (len after)))
  = Ok (concat (before ++ after)).
Proof using All.
  revert before tail. induction after as [|b after IH]; intros before tail Hok Htail.
  - rewrite (len_nil (A:=list Z)) in Htail. assert (tail = []) as -> by (apply len_0; lia).
    rewrite seqZ_nil by done. cbn. by rewrite !app_nil_r.
  - pose proof (len_nonneg after). pose proof (len_nonneg before).
    rewrite seqZ_cons by (rewrite len_cons; lia). cbn [map fold_m].
    replace (1024 * len before / 1024) with (len before) by (rewrite Z.mul_comm, Z.div_mul; lia).
    assert (Hbefore : full_blocks before ∧
      len (concat (map (unchecked_pack w bw) before)) = packed_len * len before).
    { clear -Hok. induction before as [|c before IH]; [split; [constructor|change (0 = packed_len * 0); lia]|].
      destruct (Hok c) as (Hc & Hp & _); [set_solver|].
      destruct IH as [Hf Hl]; [intros b' Hb'; apply Hok; set_solver|].
      split; [by constructor|]. cbn [map concat]. rewrite len_app, len_cons, Hl, Hp. lia. }
    destruct Hbefore as [Hbf Hbp]. destruct (Hok b) as (Hb & Hp & Hu); [set_solver|].
    rewrite len_cons in Htail.
    rewrite map_app, concat_app. cbn [map concat]. rewrite slice_mid by (rewrite ?Hbp, ?Hp; lia). cbn [obind].
    rewrite Hu. unfold slice at 1. rewrite len_app, full_blocks_len by done.
    rewrite !(proj2 (Z.leb_le _ _)) by lia. cbn [andb obind].
    specialize (IH (before ++ [b]) (drop 1024 tail)). rewrite <-!app_assoc in IH. cbn [app] in IH.
    rewrite len_cons. replace (Z.pred (1 + len after)) with (len after) by lia.
    replace (Z.succ (len before)) with (len (before ++ [b])) by (rewrite len_app; done).
    rewrite <-IH; [|exact Hok|unfold len in *; rewrite length_drop; lia].
    rewrite map_app, concat_app. cbn [map concat]. f_equal.
    unfold write_at. rewrite concat_app. cbn [concat]. rewrite app_nil_r.
    assert (Hcl : length (concat before) = Z.to_nat (1024 * len before))
      by (apply full_blocks_len in Hbf; unfold len in *; lia).
    rewrite <-Hcl, take_app_length, <-app_assoc. do 2 f_equal.
    rewrite drop_app_ge by lia. f_equal. unfold len in *. lia.
Qed.

Lemma cast_slice_words w l :
  (0 < w)%nat → Forall (in_u (8 * Z.of_nat w)) l → cast_slice w (concat (map (le_bytes w) l)) = Ok l.
Proof using Type.
  intros Hw Hl. unfold cast_slice. rewrite (len_concat_const _ _ (Z.of_nat w)) by (intros; apply le_bytes_len).
  rewrite Z.mul_comm, Z.mod_mul, Z.div_mul by lia. cbn [assert obind Z.eqb].
  assert (Hel : scalar_elements w (Z.to_nat (len l)) (concat (map (le_bytes w) l)) = map (le_bytes w) l).
  { rewrite <-(app_nil_r (concat _)). unfold len. rewrite Nat2Z.id.
    rewrite <-(length_map (le_bytes w)). apply scalar_elements_concat.
    apply Forall_map, Forall_forall. intros x _. apply le_bytes_length. }
  rewrite Hel, map_map. f_equal. clear Hel. induction Hl as [|x l Hx _ IH]; [done|]. cbn [map].
  by rewrite IH, le_val_le_bytes.
Qed.

(** A list of unsigned integers whose length is a multiple of 1024 is given back. *)
Lemma flsbp_roundtrip w id fill input :
  flsbp_type_id w = Ok id → Forall (in_u (8 * Z.of_nat w)) input → len input mod 1024 = 0 →
  len input < 2 ^ 32 →
  ∃ block, encode_flsbp_general w input = Ok block ∧
    decode_fls_bp fill block = Ok [[]; concat (map (le_bytes w) input)].
Proof using All.
  intros Hid Hin Hmod Hlen. pose proof (len_nonneg input).
  assert (Hw : (0 < w ≤ 8)%nat ∧ flsbp_width id = Ok w ∧ in_u 32 id)
    by (do 9 (destruct w as [|w]; [try done; injection Hid as <-; repeat split; lia|]); done).
  destruct Hw as (Hw & Hidw & Hidu).
  destruct (widths_hold (8 * Z.of_nat w) input Hin) as [Hbw Hfit]; [lia|]. set (bw := bit_width_of input) in *.
  destruct (mini_blocks_spec (S (length input)) input) as [Hc Hfull]; [lia|done|].
  set (bs := mini_blocks (S (length input)) input) in *.
  assert (Hnum : len input / 1024 = len bs)
    by (rewrite <-Hc, full_blocks_len, Z.mul_comm, Z.div_mul by done; done).
  assert (Hok : ∀ b, b ∈ [] ++ bs → len b = 1024 ∧ len (unchecked_pack w bw b) = 128 * bw / Z.of_nat w ∧
    unchecked_unpack w bw (unchecked_pack w bw b) = b).
  { intros b Hb. cbn in Hb. rewrite Forall_forall in Hfull. pose proof (Hfull b Hb) as Hb1.
    split; [done|]. split; [by apply pack_len|]. apply unpack_pack; [done|].
    rewrite <-Hc in Hfit. apply list_elem_of_lookup in Hb as [i Hi].
    rewrite Forall_forall in Hfit. apply Forall_forall. intros x Hx. apply Hfit.
    apply list_elem_of_In, in_concat. exists b. split; apply list_elem_of_In; [by eapply list_elem_of_lookup_2|done]. }
  eexists. split.
  - unfold encode_flsbp_general. rewrite Hmod, Hid. cbn [assert obind Z.eqb]. fold bw. rewrite Hnum.
    pose proof (pack_loop w bw [] bs [] ltac:(constructor) Hfull) as Hloop. cbn [app] in Hloop.
    rewrite Hc in Hloop. change (len (@nil (list Z))) with 0 in Hloop. unfold range. rewrite Hloop.
    cbn [obind]. reflexivity.
  - set (body := concat (map (le_bytes w) (concat (map (unchecked_pack w bw) bs)))).
    assert (Hbwu : in_u 32 bw) by (split; lia). assert (Hlu : in_u 32 (len input)) by (split; lia).
    rewrite !wrap_small by done. unfold decode_fls_bp.
    assert (Hl : len (body ++ le_bytes 4 id ++ le_bytes 4 bw ++ le_bytes 4 (len input)) = len body + 12)
      by (rewrite !len_app, !le_bytes_len; lia).
    rewrite Hl. pose proof (len_nonneg body).
    rewrite (proj2 (usub_Ok _ 4 (len body + 8))) by lia. cbn [obind].
    rewrite !(app_assoc body). rewrite (app_assoc (body ++ _)).
    rewrite <-(app_nil_r (le_bytes 4 (len input))), read_u32_mid by (rewrite ?len_app, ?le_bytes_len; lia || done).
    cbn [obind]. rewrite (proj2 (usub_Ok _ 8 (len body + 4))) by lia. cbn [obind]. rewrite app_nil_r.
    rewrite <-(app_assoc (body ++ _)).
    rewrite read_u32_mid by (rewrite ?len_app, ?le_bytes_len; lia || done).
    cbn [obind]. rewrite (proj2 (usub_Ok _ 12 (len body))) by lia. cbn [obind].
    rewrite <-(app_assoc body). rewrite read_u32_mid by done. cbn [obind].
    rewrite slice_prefix by done. cbn [obind]. rewrite Hidw. cbn [obind]. unfold segment_to_buffer, body.
    rewrite cast_slice_words; [cbn [obind]|lia|].
    2: { apply Forall_concat, Forall_map, Forall_forall. intros b _. apply pack_words. }
    replace (ceil (len input) 1024) with (len bs).
    2: { unfold ceil. rewrite <-Hnum. pose proof (Z_div_mod_eq_full (len input) 1024).
         replace (len input + 1024 - 1) with (1023 + (len input / 1024) * 1024) by lia.
         rewrite Z.div_add by lia. done. }
    assert (Hout : len (map fill (range (len input))) = 1024 * len bs).
    { rewrite len_map. unfold range, len at 1. rewrite length_seqZ.
      pose proof (full_blocks_len bs Hfull) as Hf. rewrite Hc in Hf. lia. }
    pose proof (unpack_loop w bw (128 * bw / Z.of_nat w) [] bs (map fill (range (len input))) Hok Hout) as Hloop.
    unfold range at 2. cbn [app concat] in Hloop. change (len (@nil (list Z))) with 0 in Hloop.
    rewrite Hloop. cbn [obind]. by rewrite Hc.
Qed.
End FastLanes.

(** ** General-purpose compressors *)

Section Compressors.
Context `{Compressors}.

Class CompressorsLaws := {
  lz4_lossless b : decompress_size_prepended (compress_prepend_size b) = Ok b;
  gzip_lossless b : gunzip (gzip b) = Ok b;
  zstd_lossless b z : zstd_encode b = Ok z → zstd_copy_decode z = Ok b;
  ipc_lossless dt vals batch b : batch = mkBatch [mkField "column" dt false] [PrimArray dt vals] →
    ipc_write batch = Ok b → ∃ d, ipc_read b = Ok [d] ∧ lays_out dt vals d;
}.
Context `{!CompressorsLaws}.

Lemma lz4_roundtrip b : decode_lz4_general (encode_lz4_general b) = Ok [[]; b].
Proof. unfold decode_lz4_general, encode_lz4_general. by rewrite lz4_lossless. Qed.

(** Only text survives: the decoder reads into a string. *)
Lemma gzip_text b :
  decode_gzip_general (encode_gzip_general b) = if utf8 b then Ok [[]; b] else Panic PUnwrap.
Proof. unfold decode_gzip_general, encode_gzip_general. rewrite gzip_lossless. cbn. by destruct (utf8 b). Qed.

Lemma zstd_roundtrip b z : encode_zstd_general b = Ok z → decode_zstd_general z = Ok [[]; b].
Proof.
  intros Hz. apply unwrap_res_Ok, zstd_lossless in Hz. unfold decode_zstd_general. by rewrite Hz.
Qed.

(** A whole array: one without nulls, since the column is not nullable. *)
Lemma lz4_array_roundtrip dt vals block :
  non_nest_types dt = true → view_type dt = dt → len vals < 2 ^ 32 →
  encode_lz4_general2 (PrimArray dt vals) = Ok block →
  ∃ bufs, decode_lz4_general2 block = Ok bufs ∧
    primitive_array_from_arrow_buffers_iter dt bufs (len vals) = Ok (PrimArray dt vals).
Proof.
  intros Hnn Hview Hlen He. unfold encode_lz4_general2 in He.
  apply obind_Ok in He as (batch & Hb & He). apply obind_Ok in He as (res & Hr & He). apply (inj Ok) in He as <-.
  rewrite unwrap_res_Ok in Hb. rewrite unwrap_res_Ok in Hr. apply record_batch_ok in Hb as (-> & _). cbn [arr_data_type] in Hr.
  destruct (ipc_lossless dt vals _ res eq_refl Hr) as (d & Hd & Hl).
  exists (arraydata_to_buffers [] d). unfold decode_lz4_general2. rewrite lz4_lossless. cbn [unwrap_res obind].
  rewrite Hd. split; [done|]. rewrite <-Hview at 2. apply laid_out_reads; [done| |done]. by rewrite Hview.
Qed.
End Compressors.

(** ** The built-in codec as a plug-in *)

Section Vortex.
Context `{VortexLib} (keeps : DataType → Prop) `{!VortexLibLaws keeps}.

(** The arrays that vortex makes have one of Arrow's layouts, from their first bit on. *)
Class ArrowMemory := {
  arrow_memory dt v a vals : keeps dt → denote v = PrimArray (view_type dt) vals → bit_start v = 0 →
    into_arrow v = Ok a → lays_out (view_type dt) vals (ref_data a []);
}.
Context `{!ArrowMemory}.

(** What a decoder makes of an encoded array: buffers of the array. *)
Lemma fff_decodes e dt vals u :
  non_nest_types dt = true → keeps dt → byte_aligned keeps e (PrimArray dt vals) → len vals < 2 ^ 32 →
  encode e (PrimArray dt vals) = Ok u →
  ∃ v data, vortex_deser (EncUnit_try_serialize u) ALL_ENCODINGS_CONTEXT = Ok (v, []) ∧
    decode_all_as_array (mkVortexDecoder (Some v) false) = Ok (data, mkVortexDecoder None false) ∧
    primitive_array_from_arrow_buffers_iter dt (arraydata_to_buffers [] (to_data data)) (len vals)
    = Ok (PrimArray (view_type dt) vals).
Proof using All.
  intros Hdt Hk Hal Hlen He. unfold encode in He. cbn [arr_data_type] in He. rewrite Hdt in He.
  unfold regular_encode in He. apply obind_Ok in He as (t & _ & He).
  apply obind_Ok in He as (bufs & Hb & He). apply (inj Ok) in He as <-.
  destruct (deser_encode keeps _ _ _ [] Hb) as (v & c & Hv & Hc & Hd). rewrite app_nil_r in Hd.
  assert (Hden : denote c = PrimArray (view_type dt) vals).
  { rewrite (compress_lossless _ _ _ Hc). by apply (from_arrow_denotes _ _ _ _ Hdt Hk Hv). }
  destruct (canonical_total c) as (c' & Hc' & Hd' & Hs'). destruct (arrow_total c') as (a & Ha & _).
  exists c, (Plain a). split; [done|]. split.
  - unfold decode_all_as_array, vortex_array_to_arrow. cbn. rewrite Hc'. cbn. by rewrite Ha.
  - apply laid_out_reads; [done| |done]. cbn [to_data].
    apply (arrow_memory dt c'); [done|by rewrite Hd'|by apply Hs', (Hal v c)|done].
Qed.

(** The stateless plug-in. *)
Lemma fff_general_roundtrip dt vals u :
  non_nest_types dt = true → keeps dt → byte_aligned keeps VortexEncoder_default (PrimArray dt vals) →
  len vals < 2 ^ 32 → encode_fff_general (PrimArray dt vals) = Ok u →
  ∃ bufs, decode_fff_general u = Ok bufs ∧
    primitive_array_from_arrow_buffers_iter dt bufs (len vals) = Ok (PrimArray (view_type dt) vals).
Proof using All.
  intros Hdt Hk Hal Hlen He. unfold encode_fff_general in He. apply obind_Ok in He as (e & He & Hu).
  apply (inj Ok) in Hu as <-. rewrite unwrap_res_Ok in He.
  destruct (fff_decodes _ _ _ _ Hdt Hk Hal Hlen He) as (v & data & Hd & Hdata & Harr).
  eexists. split; [|exact Harr]. unfold decode_fff_general.
  assert (Hnew : VortexDecoder_try_new (EncUnit_try_serialize e) ALL_ENCODINGS_CONTEXT
    = Ok (mkVortexDecoder (Some v) false))
    by (unfold VortexDecoder_try_new, try_build; cbn; by rewrite Hd).
  rewrite Hnew. cbn [obind]. by rewrite Hdata.
Qed.

(** *** With arguments and state *)

Context `{Ppd.Rkyv} (scalar_of_i32 : option Z → Scalar) (operator_eq : Operator).

(** Arguments that do not change the decoding: no predicate, and no partial decoding. *)
Definition plain_kwargs (kwargs : list (list Z * list Z)) : Prop :=
  kwargs_map kwargs !! string_bytes "ppd" = None ∧
  ∀ b, kwargs_map kwargs !! string_bytes "partial_decode" = Some b → default 0 (head b) = 0.

(** The decoder that the arguments build. *)
Lemma init_plain input kwargs v rest :
  kwargs_fit 32 kwargs → plain_kwargs kwargs → vortex_deser input ALL_ENCODINGS_CONTEXT = Ok (v, rest) →
  init_fff scalar_of_i32 operator_eq input (kwargs_serialize kwargs)
  = Ok (mkBasic (mkVortexDecoder (Some v) false) false).
Proof using Type.
  intros Hfit [Hppd Hpartial] Hd. unfold init_fff. rewrite kwargs_back by done. cbn [obind]. rewrite Hppd.
  assert (Hb : try_build (VortexDecoderBuilder_new input ALL_ENCODINGS_CONTEXT)
    = Ok (mkVortexDecoder (Some v) false)) by (unfold try_build; cbn; by rewrite Hd).
  destruct (kwargs_map kwargs !! string_bytes "partial_decode") as [b|] eqn:Hp; cbn [obind].
  - rewrite (Hpartial b eq_refl). cbn [Z.eqb negb obind]. by rewrite Hb.
  - by rewrite Hb.
Qed.

(** The plug-in: the rest of it is that of any plug-in. *)
Definition adv_plugin (rest : Plugin) : Plugin := {|
  DecoderState := BasicDecoder;
  export_names := @export_names rest;
  general_functions := @general_functions rest;
  init_function := Some (init_fff scalar_of_i32 operator_eq);
  decode_function := Some BasicDecoder_decode;
  initial_memory := @initial_memory rest;
  buffer_align := @buffer_align rest;
  dangling := @dangling rest;
  find_block := @find_block rest;
  dealloc_accepts := @dealloc_accepts rest;
|}.

(** C21: the stateful plug-in decodes once.  For a flat array that the built-in codec has
    encoded, with an encoded form that starts at bit 0 of its buffer ([byte_aligned]), and
    arguments that ask neither for a predicate nor for partial decoding,
    [init_fff] gives a decoder.  When it is in a box of the guest, the first call of
    [decode_fff] gives buffers from which the host builds the array, strings as views; the
    second says that the data is at its end and drops the box, and leaves the rest of the
    heap alone; a third call finds no box. *)
Theorem stateful_plugin_decodes_once rest e dt vals u kwargs (g : @Guest (adv_plugin rest)) (p : Z) :
  non_nest_types dt = true → keeps dt → byte_aligned keeps e (PrimArray dt vals) → len vals < 2 ^ 32 →
  encode e (PrimArray dt vals) = Ok u → kwargs_fit 32 kwargs → plain_kwargs kwargs →
  ∃ s, init_fff scalar_of_i32 operator_eq (EncUnit_try_serialize u) (kwargs_serialize kwargs) = Ok s ∧
    (heap g !! p = Some (@ODecoder (adv_plugin rest) s) →
     ∃ bufs g1 g2,
       @decode_fff (adv_plugin rest) BasicDecoder_decode p g = (Ok (Some bufs), g1) ∧
       primitive_array_from_arrow_buffers_iter dt bufs (len vals) = Ok (PrimArray (view_type dt) vals) ∧
       @decode_fff (adv_plugin rest) BasicDecoder_decode p g1 = (Ok None, g2) ∧
       heap g2 = delete p (heap g) ∧ mem g2 = mem g ∧
       @decode_fff (adv_plugin rest) BasicDecoder_decode p g2 = (Panic PUnwrap, g2)).
Proof using All.
  intros Hdt Hk Hal Hlen He Hfit Hplain.
  destruct (fff_decodes _ _ _ _ Hdt Hk Hal Hlen He) as (v & data & Hd & Hdata & Harr).
  exists (mkBasic (mkVortexDecoder (Some v) false) false). split; [by apply (init_plain _ _ v [])|].
  intros Hp. set (d' := mkBasic (mkVortexDecoder None false) true).
  exists (arraydata_to_buffers [] (to_data data)),
    (mkGuest (P:=adv_plugin rest) (mem g) (<[p := @ODecoder (adv_plugin rest) d']> (heap g))),
    (mkGuest (P:=adv_plugin rest) (mem g) (delete p (heap g))).
  assert (Hstep : BasicDecoder_decode (mkBasic (mkVortexDecoder (Some v) false) false)
    = (Ok (Some (arraydata_to_buffers [] (to_data data))), d'))
    by (unfold BasicDecoder_decode; cbn [done decoder]; by rewrite Hdata).
  split_and!; try done.
  - rewrite (decode_fff_eq (P:=adv_plugin rest) BasicDecoder_decode p g _ Hp), Hstep. done.
  - rewrite (decode_fff_eq (P:=adv_plugin rest) BasicDecoder_decode p _ d') by apply lookup_insert_eq.
    cbn. by rewrite delete_insert_eq.
  - apply (decode_fff_dangling (P:=adv_plugin rest)). apply lookup_delete_eq.
Qed.
End Vortex.
