(* ===== verification/PluginExample.v ===== *)
(** * The stateful plug-in, applied

    The small vortex library has Arrow's layouts, and the plug-in decodes what it
    encodes. *)

From S2P Require Import Prelude Arrow EncUnit Common Buffers Kwargs Guest LogicalDec.
From S2P Require Import Layout Vortex VortexFacts VortexLists VortexExample WasmDecoding ExampleCodecs PluginCodecs.
From stdpp Require Import list.
Open Scope Z_scope.

Section Example.
#[local] Existing Instance small_vortex.

Lemma le_bytes_same n x y :
  x mod 2 ^ (8 * Z.of_nat n) = y mod 2 ^ (8 * Z.of_nat n) → le_bytes n x = le_bytes n y.
Proof.
  intros Hxy. pose proof (le_bytes_le_val (le_bytes n x) (le_bytes_ok n x)) as Hx.
  pose proof (le_bytes_le_val (le_bytes n y) (le_bytes_ok n y)) as Hy.
  rewrite le_bytes_length, le_val_le_bytes_mod in Hx, Hy. by rewrite <-Hx, <-Hy, Hxy.
Qed.

Lemma as_signed_range w x : 0 < w → - 2 ^ (w - 1) ≤ as_signed w x < 2 ^ (w - 1) ∧
  as_signed w x mod 2 ^ w = wrap w x mod 2 ^ w.
Proof.
  intros Hw. assert (Hp : 2 ^ w = 2 * 2 ^ (w - 1)) by (rewrite <-Z.pow_succ_r by lia; f_equal; lia).
  assert (0 < 2 ^ (w - 1)) by (apply Z.pow_pos_nonneg; lia).
  pose proof (wrap_in_u w x ltac:(lia)) as Hu. unfold in_u in Hu. unfold as_signed.
  destruct (Z.ltb_spec (wrap w x) (2 ^ (w - 1))); [split; [lia|done]|]. split; [lia|].
  rewrite <-(Z.mod_add _ 1) by lia. f_equal. lia.
Qed.

Lemma small_int_slot large y :
  slot (offset_type large) (offset_width large)
    (option_map (λ x, VInt (as_signed (int_bits large) x)) y)
    (le_bytes (offset_width large) (wrap (int_bits large) (default 0 y))).
Proof.
  split; [apply le_bytes_length|]. intros x Hx. destruct y as [y|]; [|done]. injection Hx as <-. cbn [default].
  destruct (as_signed_range (int_bits large) y) as [Hr Hm]; [by destruct large|]. split.
  - by destruct large.
  - cbn [value_bytes option_map]. apply le_bytes_same. unfold id. by destruct large.
Qed.

#[local] Instance small_memory : @ArrowMemory small_vortex small_kept small_laws.
Proof.
  split. intros dt v a vals Hk Hd Hs Ha. assert (Hview : view_type dt = dt) by by destruct Hk as [-> | [-> | ->]].
  rewrite Hview in *. apply (inj Ok) in Ha as <-. change (denote v) with (small_denote v) in Hd.
  change (bit_start v) with (small_start v) in Hs.
  unfold ref_data. cbn [ref_nulls ref_buffers]. destruct v as [start vs|large vs]; cbn [small_denote] in Hd.
  - injection Hd as <- <-. assert (start = 0%nat) as -> by (cbn in Hs; lia). cbn [small_denote arr_vals default].
    apply lays_boolean; [by left|]. cbn [replicate app]. apply Forall2_fmap. apply Forall_Forall2_diag.
    apply Forall_forall. intros [b|] _ x Hx; by simplify_eq/=.
  - injection Hd as <- <-. cbn [small_denote arr_vals default].
    assert (Hn : ∃ read, native_type (offset_type large) = Some (offset_width large, read)) by (destruct large; by eexists).
    destruct Hn as [read Hn]. apply (lays_native _ (offset_width large) read); [done|by left|]. apply Forall2_fmap.
    apply Forall_Forall2_diag. apply Forall_forall. intros y _. apply small_int_slot.
Qed.

(** No predicates are archived. *)
#[local] Instance no_rkyv : Ppd.Rkyv := {|
  Ppd.to_bytes _ := Err (NYI "rkyv");
  Ppd.access _ := Err (NYI "rkyv");
|}.

Definition other_kwargs : list (list Z * list Z) :=
  [(string_bytes "partial_decode", [0]); (string_bytes "other", [1; 2])].

Definition small_unit : EncUnit :=
  match encode VortexEncoder_default (PrimArray Int32 small_ints) with
  | Ok u => u
  | _ => mkEncUnit [] Vortex []
  end.

Definition init_small := init_fff (λ o : option Z, default 0 o) tt.

Definition small_decoder : BasicDecoder :=
  mkBasic (mkVortexDecoder (Some (SmallInt false [Some 5; None; Some 7; Some 200])) false) false.

Definition small_plugin : Plugin := adv_plugin (λ o : option Z, default 0 o) tt split_plugin.

(** The decoder in a box at 8, and nothing else in the heap but a block. *)
Definition small_guest : @Guest small_plugin :=
  mkGuest (P:=small_plugin) [] (<[8 := @ODecoder small_plugin small_decoder]> {[ 24 := ORaw 4 1 ]}).

Lemma small_decoder_built :
  init_small (EncUnit_try_serialize small_unit) (kwargs_serialize other_kwargs) = Ok small_decoder.
Proof. vm_cast_no_check (eq_refl (Ok small_decoder)). Qed.

Lemma stateful_plugin_decodes_once_witness :
  ∃ bufs g1 g2,
    @decode_fff small_plugin BasicDecoder_decode 8 small_guest = (Ok (Some bufs), g1) ∧
    primitive_array_from_arrow_buffers_iter Int32 bufs 4 = Ok (PrimArray Int32 small_ints) ∧
    @decode_fff small_plugin BasicDecoder_decode 8 g1 = (Ok None, g2) ∧ heap g2 = {[ 24 := ORaw 4 1 ]} ∧
    @decode_fff small_plugin BasicDecoder_decode 8 g2 = (Panic PUnwrap, g2).
Proof.
  destruct (stateful_plugin_decodes_once (H:=small_vortex) small_kept (λ o : option Z, default 0 o) tt
    split_plugin VortexEncoder_default Int32 small_ints small_unit other_kwargs small_guest 8)
    as (s & Hs & Hdecode).
  - done.
  - by right; left.
  - intros v c Hv [= <-]. cbn in Hv. apply obind_Ok in Hv as (vs & _ & [= <-]). done.
  - done.
  - by vm_compute.
  - split; [done|repeat (apply Forall_cons_2; [split; by vm_compute|]); constructor|by vm_compute].
  - split; [by vm_compute|]. intros b Hb.
    assert (Hk : kwargs_map other_kwargs !! string_bytes "partial_decode" = Some [0]) by by vm_compute.
    rewrite Hk in Hb. by injection Hb as <-.
  - pose proof (eq_trans (eq_sym Hs) small_decoder_built) as Heq. apply (inj Ok) in Heq as ->.
    destruct Hdecode as (bufs & g1 & g2 & H1 & Harr & H2 & Hheap & _ & H3); [apply lookup_insert_eq|].
    exists bufs, g1, g2. repeat split; [exact H1|exact Harr|exact H2| |exact H3].
    refine (eq_trans Hheap _). apply (delete_insert_id (M:=gmap Z)). reflexivity.
Defined.
End Example.
