(* ===== verification/Nested.v ===== *)
(** * Nested columns: what the encoders write

    A column of lists and structs is several physical columns.  [shaped] says which
    arrays go to which of them, for any property of a physical column; it is kept by
    encoding an array, so that when the encoder has finished every physical column
    holds its part of every array. *)

From S2P Require Import Prelude Arrow Common Footer Options Chunks Encoders Buffers.
From S2P Require Import Writer Dict Float64 Sketch SharedDict PhysEnc PhysEncFacts LogicalEnc LogicalEncFacts Table.
From S2P Require Import Decoders LogicalDec DecoderFacts VortexFacts VortexLists.
From stdpp Require Import list.
Open Scope Z_scope.

Definition list_type (large : bool) (f : Field) : DataType := if large then LargeList f else List f.

(** ** Arrays that Arrow accepts *)

(** The lists of an array start at its first value and end at its last one: the array
    was not sliced.  [aligned] is what the codec asks of the validity of lists. *)
Section Shapes.
Context (aligned : list bool → Prop).

Inductive nested_ok : DataType → Array → Prop :=
  | ok_flat dt vals : non_nest_types dt = true → nested_ok dt (PrimArray dt vals)
  | ok_list large f offsets values nulls :
      lists_ok (list_bits nulls offsets) offsets → aligned (list_bits nulls offsets) →
      head offsets = Some 0 → last offsets = Some (arr_len values) →
      nullable f || negb (arr_is_nullable values) = true →
      nested_ok (data_type f) values →
      nested_ok (list_type large f) (ListArray large f offsets values nulls)
  | ok_struct fs columns nulls rows :
      0 ≤ rows → fs ≠ [] → nulls_fit nulls rows = true → fields_ok fs columns nulls rows →
      nested_ok (Struct fs) (StructArray fs columns nulls rows)
with fields_ok : list Field → list Array → option (list bool) → Z → Prop :=
  | ok_no_field nulls rows : fields_ok [] [] nulls rows
  | ok_field f fs c columns nulls rows :
      nested_ok (data_type f) c → arr_len c = rows → field_masked nulls f c = true →
      fields_ok fs columns nulls rows → fields_ok (f :: fs) (c :: columns) nulls rows.

Scheme nested_ok_mut := Induction for nested_ok Sort Prop
  with fields_ok_mut := Induction for fields_ok Sort Prop.

Lemma sub_list_whole {A} (l : list A) n : n = len l → sub_list l 0 n = l.
Proof using Type. intros ->. unfold sub_list, len. rewrite Nat2Z.id, drop_0. by apply take_ge. Qed.

Lemma slice_nulls nulls n :
  nulls_fit nulls n = true → option_map (λ b, sub_list b 0 n) nulls = nulls.
Proof using Type.
  destruct nulls as [b|]; [|done]. intros Hn%Z.eqb_eq. cbn. by rewrite sub_list_whole.
Qed.

Lemma list_bits_fit nulls offsets :
  lists_ok (list_bits nulls offsets) offsets → nulls_fit nulls (len offsets - 1) = true.
Proof using Type.
  intros (_ & Hn & _). destruct nulls as [b|]; [|done]. apply Z.eqb_eq. unfold list_bits in Hn.
  cbn in Hn. lia.
Qed.

(** A slice of everything is the array. *)
Lemma slice_whole dt a : nested_ok dt a → slice_array a 0 (arr_len a) = a.
Proof using Type.
  apply (nested_ok_mut (λ _ a _, slice_array a 0 (arr_len a) = a)
    (λ _ columns _ rows _, map (λ c, slice_array c 0 rows) columns = columns)).
  - intros. cbn. by rewrite sub_list_whole.
  - intros large f offsets values nulls Hok _ _ _ _ _ _. cbn. rewrite sub_list_whole by lia.
    by rewrite slice_nulls by by apply list_bits_fit.
  - intros fs columns nulls rows _ _ Hn _ IH. cbn. by rewrite IH, slice_nulls.
  - done.
  - intros f fs c columns nulls rows _ IHc <- _ _ IH. cbn. by rewrite IHc, IH.
Qed.

Lemma nested_len_nonneg dt a : nested_ok dt a → 0 ≤ arr_len a.
Proof using Type.
  intros [? ?| large f offsets values nulls (_ & Hn & _)|]; cbn; [apply len_nonneg| |done].
  pose proof (len_nonneg (list_bits nulls offsets)). lia.
Qed.

Lemma nested_list_inv large f a :
  nested_ok (list_type large f) a →
  ∃ offsets values nulls, a = ListArray large f offsets values nulls ∧
    lists_ok (list_bits nulls offsets) offsets ∧ aligned (list_bits nulls offsets) ∧
    head offsets = Some 0 ∧ last offsets = Some (arr_len values) ∧
    nullable f || negb (arr_is_nullable values) = true ∧ nested_ok (data_type f) values.
Proof using Type.
  intros Hok. remember (list_type large f) as dt eqn:Hdt.
  destruct Hok as [dt vals Hnn|large' f' offsets values nulls| ].
  - subst dt. by destruct large.
  - assert (large' = large ∧ f' = f) as [-> ->] by (by destruct large, large'; simplify_eq).
    by exists offsets, values, nulls.
  - by destruct large.
Qed.

Lemma nested_struct_inv fs a :
  nested_ok (Struct fs) a →
  ∃ columns nulls rows, a = StructArray fs columns nulls rows ∧
    0 ≤ rows ∧ fs ≠ [] ∧ nulls_fit nulls rows = true ∧ fields_ok fs columns nulls rows.
Proof using Type.
  intros Hok. remember (Struct fs) as dt eqn:Hdt.
  destruct Hok as [dt vals Hnn|large f offsets values nulls| ]; [by subst dt|by destruct large|].
  simplify_eq. by eexists _, _, _.
Qed.

(** The items of lists that cover their values are the values. *)
Lemma items_whole large f offsets values nulls :
  nested_ok (list_type large f) (ListArray large f offsets values nulls) →
  extract_items (ListArray large f offsets values nulls) = Ok values.
Proof using Type.
  intros (? & ? & ? & [= <- <- <-] & _ & _ & Hhead & Hlast & _ & Hv)%nested_list_inv.
  pose proof (nested_len_nonneg _ _ Hv) as Hn.
  unfold extract_items. cbn [arr_len].
  destruct offsets as [|o offsets']; [done|]. injection Hhead as ->.
  change (index (0 :: offsets') 0) with (Ok 0). cbn [obind].
  rewrite (last_index _ _ _ Hlast) by lia. cbn [obind]. unfold usub.
  rewrite (proj2 (Z.leb_le 0 _) Hn), Z.sub_0_r. cbn [obind]. unfold arr_slice.
  rewrite (proj2 (Z.leb_le 0 _) Hn), Z.add_0_l, !Z.leb_refl. cbn [Z.leb Z.compare andb assert obind].
  f_equal. by eapply slice_whole.
Qed.
End Shapes.

(** ** Which array goes where *)

Section Columns.
Context `{EncoderLibs} `{Codecs} `{Sampling} (pushdown : bool).

(** [shaped P dt k n e arrs]: an encoder for arrays of type [dt] has the physical
    columns from [k] to [n], and [P] holds of each, its type, its encoder, and the
    part of [arrs] it is given. *)
Inductive shaped (P : nat → DataType → PhysicalColEncoder → list Array → Prop)
    : DataType → nat → nat → LogicalEncoder → list Array → Prop :=
  | sh_flat dt k d arrs :
      non_nest_types dt = true → P k dt d arrs → shaped P dt k (S k) (FlatColEncoder d (Z.of_nat k)) arrs
  | sh_list large f k n o v arrs items :
      pushed_fields pushdown (data_type f) = None → P k (list_type large f) o arrs →
      Forall2 (λ a b, extract_items a = Ok b) arrs items → shaped P (data_type f) (S k) n v items →
      shaped P (list_type large f) k n (ListColEncoder o (Z.of_nat k) v) arrs
  | sh_struct fs k n v es arrs rows :
      P k Boolean v (map extract_validity arrs) →
      Forall2 (λ a r, struct_columns a = Ok r) arrs rows → shaped_fields P fs (S k) n es rows →
      shaped P (Struct fs) k n (StructColEncoder v (Z.of_nat k) es) arrs
with shaped_fields (P : nat → DataType → PhysicalColEncoder → list Array → Prop)
    : list Field → nat → nat → list LogicalEncoder → list (list Array) → Prop :=
  | sh_no_field k rows : Forall (λ r, r = []) rows → shaped_fields P [] k k [] rows
  | sh_field f fs k m n e es heads tails :
      shaped P (data_type f) k m e heads → shaped_fields P fs m n es tails →
      length heads = length tails →
      shaped_fields P (f :: fs) k n (e :: es) (zip_with cons heads tails).

Scheme shaped_mut := Induction for shaped Sort Prop
  with shaped_fields_mut := Induction for shaped_fields Sort Prop.

Lemma shaped_range P dt k n e arrs : shaped P dt k n e arrs → (k < n)%nat.
Proof using Type.
  apply (shaped_mut P (λ _ k n _ _ _, k < n)%nat (λ _ k n _ _ _, k ≤ n)%nat); lia.
Qed.

Lemma shaped_fields_range P fs k n es rows : shaped_fields P fs k n es rows → (k ≤ n)%nat.
Proof using Type.
  induction 1 as [|f fs k m n e es heads tails He _ IH]; [done|]. apply shaped_range in He. lia.
Qed.

(** What holds of the columns of the range may be replaced. *)
Lemma shaped_impl P Q dt k n e arrs :
  shaped P dt k n e arrs →
  (∀ i t d as_, (k ≤ i < n)%nat → P i t d as_ → Q i t d as_) → shaped Q dt k n e arrs.
Proof using Type.
  apply (shaped_mut P
    (λ dt k n e arrs _, (∀ i t d as_, (k ≤ i < n)%nat → P i t d as_ → Q i t d as_) → shaped Q dt k n e arrs)
    (λ fs k n es rows _, (∀ i t d as_, (k ≤ i < n)%nat → P i t d as_ → Q i t d as_) →
       shaped_fields Q fs k n es rows)).
  - intros dt' k' d as_ Hnn HP Himp. constructor; [done|]. apply Himp; [lia|done].
  - intros large f k' n' o v as_ items Hpush HP Hitems Hv IH Himp. apply shaped_range in Hv as Hr.
    apply sh_list with (items := items); [done| |done|].
    + apply Himp; [lia|done].
    + apply IH. intros. apply Himp; [lia|done].
  - intros fs k' n' v es as_ rows HP Hrows Hes IH Himp. apply shaped_fields_range in Hes as Hr.
    apply sh_struct with (rows := rows); [|done|].
    + apply Himp; [lia|done].
    + apply IH. intros. apply Himp; [lia|done].
  - by constructor.
  - intros f fs k' m n' e' es heads tails He IHe Hes IHes Hlen Himp.
    apply shaped_range in He as Hr1. apply shaped_fields_range in Hes as Hr2.
    econstructor; [apply IHe|apply IHes|done]; intros; (apply Himp; [lia|done]).
Qed.

Lemma shaped_fields_impl P Q fs k n es rows :
  shaped_fields P fs k n es rows →
  (∀ i t d as_, (k ≤ i < n)%nat → P i t d as_ → Q i t d as_) → shaped_fields Q fs k n es rows.
Proof using Type.
  induction 1 as [|f fs k m n e es heads tails He Hes IH Hlen]; intros Himp; [by constructor|].
  apply shaped_range in He as Hr1. apply shaped_fields_range in Hes as Hr2.
  econstructor; [|apply IH|done].
  - eapply shaped_impl; [exact He|]. intros. apply Himp; [lia|done].
  - intros. apply Himp; [lia|done].
Qed.

(** The rows of a struct without the struct: one more. *)
Lemma rows_snoc heads tails (h : Array) t :
  length heads = length tails →
  zip_with cons heads tails ++ [h :: t] = zip_with cons (heads ++ [h]) (tails ++ [t]).
Proof using Type. intros Hl. by rewrite zip_with_app by done. Qed.

(** ** One physical column *)

Context (limit : Z) (wasm : WASMWritingContext) (ct : CompressionType) (Hlimit : 0 ≤ limit).
Context (string_hash : string → Z).

(** The chunks of column [k] among those emitted, [out], and the one being filled, hold
    the arrays. *)
Definition filling_in (out : list EncodedColumnChunk) (k : nat) (dt : DataType)
    (d : PhysicalColEncoder) (arrs : list Array) : Prop :=
  ∃ ed e chunks c0 c, d = PEncoderDict e ∧ ed_state limit wasm ed ct arrs c0 (chunks, e, c) ∧
    filter (column_of k) out = in_col k chunks.

(** The chunks of column [k] hold the arrays; the encoder is as new. *)
Definition written_in (out : list EncodedColumnChunk) (k : nat) (dt : DataType)
    (d : PhysicalColEncoder) (arrs : list Array) : Prop :=
  ∃ ed chunks, d = PEncoderDict (EncoderDictColEncoder_new limit wasm ed ct) ∧
    chunked (plain_units wasm ct ed) arr_len limit NoDictionary arrs chunks ∧
    filter (column_of k) out = in_col k chunks.

(** Only the bytes counted depend on the counter. *)
Lemma ed_state_counter ed arrs c0 chunks e c c' :
  ed_state limit wasm ed ct arrs c0 (chunks, e, c) →
  ∃ c1, ed_state limit wasm ed ct arrs c1 (chunks, e, c').
Proof using Type.
  intros [Hp Hs _]. cbn in *.
  exists (mkCounter (dict_type c') (dict_size c') (index_size c' - total_bytes chunks - len (chunk_bytes (ed_chunk e)))).
  split; [done..|]. cbn. destruct c'. cbn. f_equal. lia.
Qed.

Lemma column_step out k dt d a arrs counter ctx cs d' counter' ctx' :
  filling_in out k dt d arrs →
  in_column (Z.of_nat k) (phys_encode string_hash d a counter ctx) = Ok (cs, d', counter', ctx') →
  filling_in (out ++ cs) k dt d' (arrs ++ [a]) ∧ Forall (column_of k) cs ∧ ctx' = ctx.
Proof using Type.
  intros (ed & e & chunks & c0 & c & -> & Hst & Hout) Hi. unfold in_column in Hi.
  apply obind_Ok in Hi as ([[[more d1] n1] x1] & Hd & Hi). injection Hi as <- <- <- <-.
  unfold phys_encode in Hd. apply obind_Ok in Hd as ([[more' e'] n'] & He & Hd).
  injection Hd as <- <- <- <-. destruct (ed_state_counter _ _ _ _ _ _ counter Hst) as [c1 Hst1].
  assert (Hstep : local_step (chunks, e, counter) a = Ok (chunks ++ more', e', n'))
    by (unfold local_step; by rewrite He).
  fold (in_col k more'). split; [|split; [|done]].
  - exists ed, e', (chunks ++ more'), c1, n'. split; [done|]. split; [by eapply ed_step|].
    rewrite filter_app, Hout, in_col_same. unfold in_col. by rewrite map_app.
  - apply Forall_map, Forall_forall. done.
Qed.

Lemma column_end out k dt d arrs counter ctx cs d' counter' ctx' :
  filling_in out k dt d arrs →
  in_column (Z.of_nat k) (phys_finish string_hash d counter ctx) = Ok (cs, d', counter', ctx') →
  written_in (out ++ cs) k dt d' arrs ∧ Forall (column_of k) cs ∧ ctx' = ctx.
Proof using Hlimit.
  intros (ed & e & chunks & c0 & c & -> & Hst & Hout) Hi. unfold in_column in Hi.
  apply obind_Ok in Hi as ([[[more d1] n1] x1] & Hd & Hi). injection Hi as <- <- <- <-.
  unfold phys_finish in Hd. destruct (ed_finish e counter) as [[more' e'] n'] eqn:He.
  injection Hd as <- <- <- <-. destruct (ed_state_counter _ _ _ _ _ _ counter Hst) as [c1 Hst1].
  destruct (ed_finish_writes _ _ _ _ _ _ _ _ _ _ _ _ Hlimit Hst1 He) as (Hch & -> & _).
  fold (in_col k more'). split; [|split; [|done]].
  - exists ed, (chunks ++ more'). split; [done|]. split; [done|].
    rewrite filter_app, Hout, in_col_same. unfold in_col. by rewrite map_app.
  - apply Forall_map, Forall_forall. done.
Qed.

(** Chunks of other columns change nothing. *)
Definition in_range (k n : nat) (c : EncodedColumnChunk) : Prop :=
  ∃ i, (k ≤ i < n)%nat ∧ column_of i c.

Lemma filter_other k n i cs :
  Forall (in_range k n) cs → (i < k ∨ n ≤ i)%nat → filter (column_of i) cs = [].
Proof using Type.
  intros Hcs Hi. induction Hcs as [|c cs (j & Hj & Hc) _ IH]; [done|].
  rewrite filter_cons_False; [exact IH|]. unfold column_of in *. lia.
Qed.

Lemma filling_ext out out' i dt d arrs :
  filter (column_of i) out' = filter (column_of i) out →
  filling_in out i dt d arrs → filling_in out' i dt d arrs.
Proof using Type.
  intros Heq (ed & e & chunks & c0 & c & Hd & Hst & Hout). exists ed, e, chunks, c0, c. by rewrite Heq.
Qed.

Lemma written_ext out out' i dt d arrs :
  filter (column_of i) out' = filter (column_of i) out →
  written_in out i dt d arrs → written_in out' i dt d arrs.
Proof using Type.
  intros Heq (ed & chunks & Hd & Hch & Hout). exists ed, chunks. by rewrite Heq.
Qed.

Lemma own_range k n cs : (k < n)%nat → Forall (column_of k) cs → Forall (in_range k n) cs.
Proof using Type.
  intros Hk Hcs. eapply Forall_impl; [exact Hcs|]. intros c Hc. exists k. by split; [lia|].
Qed.

Lemma sub_range k m n l cs : (k ≤ m)%nat → (n ≤ l)%nat → Forall (in_range m n) cs → Forall (in_range k l) cs.
Proof using Type.
  intros Hk Hn Hcs. eapply Forall_impl; [exact Hcs|]. intros c (i & Hi & Hc). exists i. by split; [lia|].
Qed.

(** ** Encoding an array *)

(** The loop over the fields of a struct. *)
Definition encode_fields :=
  fix go (fs : list LogicalEncoder) (columns : list Array) (counter : EncodingCounter)
      (ctx : SharedDictionaryContext) {struct fs}
    : outcome (list EncodedColumnChunk * list LogicalEncoder * EncodingCounter * SharedDictionaryContext) :=
    match fs, columns with
    | f :: fs, column :: columns =>
        let! '(res, f, counter, ctx) := log_encode_chunks string_hash f column counter ctx in
        let! '(more, fs, counter, ctx) := go fs columns counter ctx in
        Ok (res ++ more, f :: fs, counter, ctx)
    | fs, _ => Ok ([], fs, counter, ctx)
    end.

Definition finish_fields :=
  fix go (fs : list LogicalEncoder) (counter : EncodingCounter) (ctx : SharedDictionaryContext) {struct fs}
    : outcome (list EncodedColumnChunk * list LogicalEncoder * EncodingCounter * SharedDictionaryContext) :=
    match fs with
    | f :: fs =>
        let! '(res, f, counter, ctx) := log_finish_chunks string_hash f counter ctx in
        let! '(more, fs, counter, ctx) := go fs counter ctx in
        Ok (res ++ more, f :: fs, counter, ctx)
    | [] => Ok ([], [], counter, ctx)
    end.

(** Chunks of columns before and after a range leave what is said of the range. *)
Section Extend.
Context (F : list EncodedColumnChunk → nat → DataType → PhysicalColEncoder → list Array → Prop).
Context (Hext : ∀ out out' i dt d arrs,
  filter (column_of i) out' = filter (column_of i) out → F out i dt d arrs → F out' i dt d arrs).

Lemma column_extend out cs more k n dt d arrs :
  Forall (in_range (S k) n) more → F (out ++ cs) k dt d arrs → F (out ++ cs ++ more) k dt d arrs.
Proof using Hext.
  intros Hm. apply Hext. by rewrite app_assoc, filter_app, (filter_other (S k) n k more), app_nil_r by (done || lia).
Qed.

Lemma skip_before out cs more k m i :
  Forall (in_range k m) cs → (m ≤ i)%nat →
  filter (column_of i) (out ++ cs ++ more) = filter (column_of i) (out ++ more).
Proof using Type. intros Hc Hi. by rewrite !filter_app, (filter_other k m i cs) by (done || lia). Qed.

Lemma skip_after out cs more m n i :
  Forall (in_range m n) more → (i < m)%nat →
  filter (column_of i) (out ++ cs ++ more) = filter (column_of i) (out ++ cs).
Proof using Type.
  intros Hc Hi. by rewrite app_assoc, filter_app, (filter_other m n i more), app_nil_r by (done || lia).
Qed.

Lemma shaped_before out cs more k m n dt e arrs :
  Forall (in_range k m) cs → shaped (F (out ++ more)) dt m n e arrs →
  shaped (F (out ++ cs ++ more)) dt m n e arrs.
Proof using Hext.
  intros Hc Hs. eapply shaped_impl; [exact Hs|]. intros i t d as_ Hi. apply Hext.
  apply (skip_before _ _ _ k m); [done|lia].
Qed.

Lemma shaped_after out cs more k m n dt e arrs :
  Forall (in_range m n) more → shaped (F (out ++ cs)) dt k m e arrs →
  shaped (F (out ++ cs ++ more)) dt k m e arrs.
Proof using Hext.
  intros Hc Hs. eapply shaped_impl; [exact Hs|]. intros i t d as_ Hi. apply Hext.
  apply (skip_after _ _ _ m n); [done|lia].
Qed.

Lemma fields_before out cs more k m n fs es rows :
  Forall (in_range k m) cs → shaped_fields (F (out ++ more)) fs m n es rows →
  shaped_fields (F (out ++ cs ++ more)) fs m n es rows.
Proof using Hext.
  intros Hc Hs. eapply shaped_fields_impl; [exact Hs|]. intros i t d as_ Hi. apply Hext.
  apply (skip_before _ _ _ k m); [done|lia].
Qed.
End Extend.

Lemma ranges_app k m n cs more :
  (k ≤ m)%nat → (m ≤ n)%nat → Forall (in_range k m) cs → Forall (in_range m n) more →
  Forall (in_range k n) (cs ++ more).
Proof using Type.
  intros Hk Hn Hc Hm. apply Forall_app. split; [by eapply sub_range, Hc|by eapply sub_range, Hm].
Qed.

(** *** One more array *)

Section Step.
Context (aligned : list bool → Prop) (out : list EncodedColumnChunk).

(** Encoding an array of the type gives every physical column its part of it. *)
Definition one_more (dt : DataType) (k n : nat) (e : LogicalEncoder) (arrs : list Array) : Prop :=
  ∀ a counter ctx cs e' counter' ctx', nested_ok aligned dt a →
    log_encode_chunks string_hash e a counter ctx = Ok (cs, e', counter', ctx') →
    shaped (filling_in (out ++ cs)) dt k n e' (arrs ++ [a]) ∧ Forall (in_range k n) cs ∧ ctx' = ctx.

Definition one_more_row (fs : list Field) (k n : nat) (es : list LogicalEncoder)
    (rows : list (list Array)) : Prop :=
  ∀ columns nulls r counter ctx cs es' counter' ctx', fields_ok aligned fs columns nulls r →
    encode_fields es columns counter ctx = Ok (cs, es', counter', ctx') →
    shaped_fields (filling_in (out ++ cs)) fs k n es' (rows ++ [columns]) ∧
    Forall (in_range k n) cs ∧ ctx' = ctx.

Lemma flat_step dt k d arrs :
  non_nest_types dt = true → filling_in out k dt d arrs →
  one_more dt k (S k) (FlatColEncoder d (Z.of_nat k)) arrs.
Proof using Type.
  intros Hnn Hd a counter ctx cs e' counter' ctx' _ He. cbn [log_encode_chunks] in He.
  unfold flat_encode in He. apply obind_Ok in He as ([[[cs0 d0] n0] c0] & Hd0 & [= <- <- <- <-]).
  destruct (column_step _ _ _ _ _ _ _ _ _ _ _ _ Hd Hd0) as (Hfill & Hcs & ->).
  split; [by constructor|]. split; [|done]. apply own_range; [lia|done].
Qed.

Lemma list_step large f k n o v arrs items :
  pushed_fields pushdown (data_type f) = None → filling_in out k (list_type large f) o arrs →
  Forall2 (λ a b, extract_items a = Ok b) arrs items →
  shaped (filling_in out) (data_type f) (S k) n v items → one_more (data_type f) (S k) n v items →
  one_more (list_type large f) k n (ListColEncoder o (Z.of_nat k) v) arrs.
Proof using Type.
  intros Hpush Ho Hitems Hv IH a counter ctx cs e' counter' ctx' Hok He.
  apply nested_list_inv in Hok as Hinv. destruct Hinv as (offsets & values & nulls & -> & _ & _ & _ & _ & _ & Hva).
  cbn [log_encode_chunks] in He. unfold list_encode in He.
  apply obind_Ok in He as ([[[cs0 o0] n0] c0] & Ho0 & He). rewrite (items_whole aligned) in He by done.
  cbn [obind] in He. apply obind_Ok in He as ([[[more v1] n1] c1] & Hv1 & [= <- <- <- <-]).
  destruct (column_step _ _ _ _ _ _ _ _ _ _ _ _ Ho Ho0) as (Hfill & Hcs & ->).
  destruct (IH _ _ _ _ _ _ _ Hva Hv1) as (Hsv & Hmore & ->). apply shaped_range in Hv as Hr.
  apply (own_range k (S k)) in Hcs; [|lia]. split; [|split; [|done]].
  - apply sh_list with (items := items ++ [values]); [done| | |].
    + by apply (column_extend _ filling_ext _ _ _ k n).
    + apply Forall2_app; [done|]. constructor; [by apply (items_whole aligned)|done].
    + by apply (shaped_before _ filling_ext _ _ _ k).
  - by apply (ranges_app k (S k)); [lia|lia|..].
Qed.

Lemma encode_struct v k es a counter ctx :
  log_encode_chunks string_hash (StructColEncoder v k es) a counter ctx =
    let! '(res, v, counter, ctx) := in_column k (phys_encode string_hash v (extract_validity a) counter ctx) in
    let! columns := struct_columns a in
    let! '(more, fs, counter, ctx) := encode_fields es columns counter ctx in
    Ok (res ++ more, StructColEncoder v k fs, counter, ctx).
Proof using Type. done. Qed.

Lemma struct_step fs k n v es arrs rows :
  filling_in out k Boolean v (map extract_validity arrs) →
  Forall2 (λ a r, struct_columns a = Ok r) arrs rows →
  shaped_fields (filling_in out) fs (S k) n es rows → one_more_row fs (S k) n es rows →
  one_more (Struct fs) k n (StructColEncoder v (Z.of_nat k) es) arrs.
Proof using Type.
  intros Hv Hrows Hes IH a counter ctx cs e' counter' ctx' Hok He.
  apply nested_struct_inv in Hok as (columns & nulls & r & -> & _ & _ & _ & Hf).
  rewrite encode_struct in He.
  apply obind_Ok in He as ([[[cs0 v0] n0] c0] & Hv0 & He). cbn [struct_columns obind] in He.
  apply obind_Ok in He as ([[[more es1] n1] c1] & Hes1 & [= <- <- <- <-]).
  destruct (column_step _ _ _ _ _ _ _ _ _ _ _ _ Hv Hv0) as (Hfill & Hcs & ->).
  destruct (IH _ _ _ _ _ _ _ _ _ Hf Hes1) as (Hsf & Hmore & ->). apply shaped_fields_range in Hes as Hr.
  apply (own_range k (S k)) in Hcs; [|lia]. split; [|split; [|done]].
  - apply sh_struct with (rows := rows ++ [columns]).
    + rewrite map_app. by apply (column_extend _ filling_ext _ _ _ k n).
    + apply Forall2_app; [done|]. by constructor.
    + by apply (fields_before _ filling_ext _ _ _ k).
  - by apply (ranges_app k (S k)); [lia|lia|..].
Qed.

Lemma field_step f fs k m n e es heads tails :
  shaped (filling_in out) (data_type f) k m e heads → one_more (data_type f) k m e heads →
  shaped_fields (filling_in out) fs m n es tails → one_more_row fs m n es tails →
  length heads = length tails → one_more_row (f :: fs) k n (e :: es) (zip_with cons heads tails).
Proof using Type.
  intros He IHe Hes IHes Hlen columns nulls r counter ctx cs es' counter' ctx' Hf Henc.
  inversion Hf as [|? ? c columns' ? ? Hc _ _ Hfs]; subst. cbn [encode_fields] in Henc.
  apply obind_Ok in Henc as ([[[cs0 e1] n0] c0] & He1 & Henc).
  apply obind_Ok in Henc as ([[[more es1] n1] c1] & Hes1 & [= <- <- <- <-]).
  destruct (IHe _ _ _ _ _ _ _ Hc He1) as (Hse & Hcs & ->).
  destruct (IHes _ _ _ _ _ _ _ _ _ Hfs Hes1) as (Hsf & Hmore & ->).
  apply shaped_range in He as Hr1. apply shaped_fields_range in Hes as Hr2. split; [|split; [|done]].
  - rewrite rows_snoc by done. apply sh_field with (m := m).
    + by apply (shaped_after _ filling_ext _ _ _ _ _ n).
    + by apply (fields_before _ filling_ext _ _ _ k).
    + by rewrite !length_app, Hlen.
  - by apply (ranges_app k m); [lia|lia|..].
Qed.

Lemma nested_step dt k n e arrs : shaped (filling_in out) dt k n e arrs → one_more dt k n e arrs.
Proof using Type.
  apply (shaped_mut (filling_in out) (λ dt k n e arrs _, one_more dt k n e arrs)
    (λ fs k n es rows _, one_more_row fs k n es rows)).
  - apply flat_step.
  - intros. by eapply list_step.
  - intros. by eapply struct_step.
  - clear. intros k rows Hrows columns nulls r counter ctx cs es' counter' ctx' Hf He. inversion Hf; subst.
    cbn in He. simplify_eq. split; [|by split; [constructor|]]. constructor. apply Forall_app.
    split; [done|]. by constructor.
  - intros. by apply field_step with (m := m).
Qed.
End Step.

(** *** The end of a row group *)

Section Finish.
Context (out : list EncodedColumnChunk).

(** Finishing leaves every physical column written, and its encoder as new. *)
Definition closes (dt : DataType) (k n : nat) (e : LogicalEncoder) (arrs : list Array) : Prop :=
  ∀ counter ctx cs e' counter' ctx',
    log_finish_chunks string_hash e counter ctx = Ok (cs, e', counter', ctx') →
    shaped (written_in (out ++ cs)) dt k n e' arrs ∧ Forall (in_range k n) cs ∧ ctx' = ctx.

Definition closes_fields (fs : list Field) (k n : nat) (es : list LogicalEncoder)
    (rows : list (list Array)) : Prop :=
  ∀ counter ctx cs es' counter' ctx', finish_fields es counter ctx = Ok (cs, es', counter', ctx') →
    shaped_fields (written_in (out ++ cs)) fs k n es' rows ∧ Forall (in_range k n) cs ∧ ctx' = ctx.

Lemma flat_closes dt k d arrs :
  non_nest_types dt = true → filling_in out k dt d arrs →
  closes dt k (S k) (FlatColEncoder d (Z.of_nat k)) arrs.
Proof using Hlimit.
  intros Hnn Hd counter ctx cs e' counter' ctx' He. cbn [log_finish_chunks] in He.
  unfold flat_finish in He. apply obind_Ok in He as ([[[cs0 d0] n0] c0] & Hd0 & [= <- <- <- <-]).
  destruct (column_end _ _ _ _ _ _ _ _ _ _ _ Hd Hd0) as (Hfill & Hcs & ->).
  split; [by constructor|]. split; [|done]. apply own_range; [lia|done].
Qed.

Lemma list_closes large f k n o v arrs items :
  pushed_fields pushdown (data_type f) = None → filling_in out k (list_type large f) o arrs →
  Forall2 (λ a b, extract_items a = Ok b) arrs items →
  shaped (filling_in out) (data_type f) (S k) n v items → closes (data_type f) (S k) n v items →
  closes (list_type large f) k n (ListColEncoder o (Z.of_nat k) v) arrs.
Proof using Hlimit.
  intros Hpush Ho Hitems Hv IH counter ctx cs e' counter' ctx' He.
  cbn [log_finish_chunks] in He. unfold list_finish in He.
  apply obind_Ok in He as ([[[cs0 o0] n0] c0] & Ho0 & He).
  apply obind_Ok in He as ([[[more v1] n1] c1] & Hv1 & [= <- <- <- <-]).
  destruct (column_end _ _ _ _ _ _ _ _ _ _ _ Ho Ho0) as (Hfill & Hcs & ->).
  destruct (IH _ _ _ _ _ _ Hv1) as (Hsv & Hmore & ->). apply shaped_range in Hv as Hr.
  apply (own_range k (S k)) in Hcs; [|lia]. split; [|split; [|done]].
  - apply sh_list with (items := items); [done| |done|].
    + by apply (column_extend _ written_ext _ _ _ k n).
    + by apply (shaped_before _ written_ext _ _ _ k).
  - by apply (ranges_app k (S k)); [lia|lia|..].
Qed.

Lemma finish_struct v k es counter ctx :
  log_finish_chunks string_hash (StructColEncoder v k es) counter ctx =
    let! '(res, v, counter, ctx) := in_column k (phys_finish string_hash v counter ctx) in
    let! '(more, fs, counter, ctx) := finish_fields es counter ctx in
    Ok (res ++ more, StructColEncoder v k fs, counter, ctx).
Proof using Type. done. Qed.

Lemma struct_closes fs k n v es arrs rows :
  filling_in out k Boolean v (map extract_validity arrs) →
  Forall2 (λ a r, struct_columns a = Ok r) arrs rows →
  shaped_fields (filling_in out) fs (S k) n es rows → closes_fields fs (S k) n es rows →
  closes (Struct fs) k n (StructColEncoder v (Z.of_nat k) es) arrs.
Proof using Hlimit.
  intros Hv Hrows Hes IH counter ctx cs e' counter' ctx' He. rewrite finish_struct in He.
  apply obind_Ok in He as ([[[cs0 v0] n0] c0] & Hv0 & He).
  apply obind_Ok in He as ([[[more es1] n1] c1] & Hes1 & [= <- <- <- <-]).
  destruct (column_end _ _ _ _ _ _ _ _ _ _ _ Hv Hv0) as (Hfill & Hcs & ->).
  destruct (IH _ _ _ _ _ _ Hes1) as (Hsf & Hmore & ->). apply shaped_fields_range in Hes as Hr.
  apply (own_range k (S k)) in Hcs; [|lia]. split; [|split; [|done]].
  - apply sh_struct with (rows := rows); [|done|].
    + by apply (column_extend _ written_ext _ _ _ k n).
    + by apply (fields_before _ written_ext _ _ _ k).
  - by apply (ranges_app k (S k)); [lia|lia|..].
Qed.

Lemma field_closes f fs k m n e es heads tails :
  shaped (filling_in out) (data_type f) k m e heads → closes (data_type f) k m e heads →
  shaped_fields (filling_in out) fs m n es tails → closes_fields fs m n es tails →
  length heads = length tails → closes_fields (f :: fs) k n (e :: es) (zip_with cons heads tails).
Proof using Type.
  intros He IHe Hes IHes Hlen counter ctx cs es' counter' ctx' Henc. cbn [finish_fields] in Henc.
  apply obind_Ok in Henc as ([[[cs0 e1] n0] c0] & He1 & Henc).
  apply obind_Ok in Henc as ([[[more es1] n1] c1] & Hes1 & [= <- <- <- <-]).
  destruct (IHe _ _ _ _ _ _ He1) as (Hse & Hcs & ->).
  destruct (IHes _ _ _ _ _ _ Hes1) as (Hsf & Hmore & ->).
  apply shaped_range in He as Hr1. apply shaped_fields_range in Hes as Hr2. split; [|split; [|done]].
  - apply sh_field with (m := m); [| |done].
    + by apply (shaped_after _ written_ext _ _ _ _ _ n).
    + by apply (fields_before _ written_ext _ _ _ k).
  - by apply (ranges_app k m); [lia|lia|..].
Qed.

Lemma nested_closes dt k n e arrs : shaped (filling_in out) dt k n e arrs → closes dt k n e arrs.
Proof using Hlimit.
  apply (shaped_mut (filling_in out) (λ dt k n e arrs _, closes dt k n e arrs)
    (λ fs k n es rows _, closes_fields fs k n es rows)).
  - apply flat_closes.
  - intros. by eapply list_closes.
  - intros. by eapply struct_closes.
  - clear. intros k rows Hrows counter ctx cs es' counter' ctx' He. cbn in He. simplify_eq.
    by split; [constructor|split; [constructor|]].
  - intros. by apply field_closes with (m := m).
Qed.
End Finish.

(** A whole row group of a column: its arrays, one after the other, and [finish]. *)
Definition log_run (e : LogicalEncoder) (arrs : list Array) (counter : EncodingCounter)
    (ctx : SharedDictionaryContext)
  : outcome (list EncodedColumnChunk * LogicalEncoder * EncodingCounter * SharedDictionaryContext) :=
  let! '(out, e, counter, ctx) :=
    fold_m (λ st a, let '(out, e, counter, ctx) := st in
      let! '(cs, e, counter, ctx) := log_encode_chunks string_hash e a counter ctx in
      Ok (out ++ cs, e, counter, ctx)) ([], e, counter, ctx) arrs in
  let! '(cs, e, counter, ctx) := log_finish_chunks string_hash e counter ctx in
  Ok (out ++ cs, e, counter, ctx).

Lemma log_run_writes aligned dt k n e arrs counter ctx out e' counter' ctx' :
  shaped (filling_in []) dt k n e [] → Forall (nested_ok aligned dt) arrs →
  log_run e arrs counter ctx = Ok (out, e', counter', ctx') →
  shaped (written_in out) dt k n e' arrs ∧ Forall (in_range k n) out ∧ ctx' = ctx.
Proof using Hlimit.
  intros Hs Harrs Hrun. unfold log_run in Hrun.
  apply obind_Ok in Hrun as ([[[out1 e1] n1] ctx1] & Hf & Hrun).
  apply obind_Ok in Hrun as ([[[cs e2] n2] ctx2] & Hfin & [= <- <- <- <-]).
  set (P := λ pre (st : list EncodedColumnChunk * LogicalEncoder * EncodingCounter * SharedDictionaryContext),
    Forall (nested_ok aligned dt) pre →
    shaped (filling_in st.1.1.1) dt k n st.1.1.2 pre ∧ Forall (in_range k n) st.1.1.1 ∧ st.2 = ctx).
  assert (HP : P arrs (out1, e1, n1, ctx1)).
  { eapply (fold_m_prefix P); [| |exact Hf].
    - intros _. by split; [|split; [constructor|]].
    - intros pre [[[o e0] c0] x0] a st' Hpre Hstep [Hpok Ha]%Forall_app. cbn in Hstep.
      apply obind_Ok in Hstep as ([[[cs0 e3] c3] x3] & Henc & [= <-]). apply Forall_cons in Ha as [Ha _].
      destruct (Hpre Hpok) as (Hsh & Hr & Hx). cbn in Hsh, Hr, Hx. subst x0.
      destruct (nested_step _ _ _ _ _ _ _ Hsh _ _ _ _ _ _ _ Ha Henc) as (Hsh' & Hr' & ->). cbn.
      split; [done|]. split; [|done]. by apply Forall_app. }
  destruct (HP Harrs) as (Hsh & Hr & Hx). cbn in Hsh, Hr, Hx. subst ctx1. clear HP P Hf.
  destruct (nested_closes _ _ _ _ _ _ Hsh _ _ _ _ _ _ Hfin) as (Hw & Hr' & ->).
  split; [done|]. split; [|done]. by apply Forall_app.
Qed.

(** ** New encoders *)

(** The type of an array that was read: strings and binary values directly below it
    have become views. *)
Definition read_type (dt : DataType) : DataType :=
  match dt with
  | List f => List (field_to_view f)
  | LargeList f => LargeList (field_to_view f)
  | Struct fs => Struct (map field_to_view fs)
  | dt => view_type dt
  end.

(** The types that are read back: [column_ok] holds of the type of every physical
    column, no list of structs is pushed down, and below the children no strings have
    become views, because the decoders only expect that one level down. *)
Section Types.
Context (column_ok : DataType → Prop).

Inductive nested_type : DataType → Prop :=
  | nt_flat dt : non_nest_types dt = true → column_ok dt → nested_type dt
  | nt_list large f :
      pushed_fields pushdown (data_type f) = None → column_ok (list_type large f) →
      read_type (data_type f) = view_type (data_type f) → nested_type (data_type f) →
      nested_type (list_type large f)
  | nt_struct fs : fs ≠ [] → column_ok Boolean → nested_fields fs → nested_type (Struct fs)
with nested_fields : list Field → Prop :=
  | nt_no_field : nested_fields []
  | nt_field f fs :
      read_type (data_type f) = view_type (data_type f) → nested_type (data_type f) →
      nested_fields fs → nested_fields (f :: fs).

Scheme nested_type_mut := Induction for nested_type Sort Prop
  with nested_fields_mut := Induction for nested_fields Sort Prop.

Context (opt : DictionaryTypeOptions) (Hopt : no_dictionary_column opt) (seed : Z → Rng).

Lemma filling_new ed k dt :
  filling_in [] k dt (PEncoderDict (EncoderDictColEncoder_new limit wasm ed ct)) [].
Proof using Type.
  exists ed, (EncoderDictColEncoder_new limit wasm ed ct), [], EncodingCounter_default,
    (mkCounter (dict_type EncodingCounter_default) (dict_size EncodingCounter_default)
       (index_size EncodingCounter_default + total_bytes [] + len (chunk_bytes (fresh_chunk NoDictionary)))).
  split; [done|]. split; [|done]. split; cbn; [done|apply stream_nil|done].
Qed.

Lemma physical_new dt rng d k :
  physical_type dt = true → create_physical_encoder dt limit wasm opt ct rng = Ok d → filling_in [] k dt d [].
Proof using Hopt.
  unfold physical_type, create_physical_encoder. intros Hp Hd.
  destruct (non_nest_types dt).
  - destruct Hopt as [-> | ->]; injection Hd as <-; apply filling_new.
  - destruct dt; try done; injection Hd as <-; apply filling_new.
Qed.

Lemma next_column_nat k i idx :
  next_column_index (mkColumnIndex (Z.of_nat k)) = Ok (i, idx) →
  i = Z.of_nat k ∧ idx = mkColumnIndex (Z.of_nat (S k)) ∧ Z.of_nat (S k) < 2 ^ 32.
Proof using Type.
  unfold next_column_index. intros Hn. apply obind_Ok in Hn as (n & [Hlt ->]%uadd_Ok & [= <- <-]).
  cbn in *. split; [done|]. split; [f_equal; lia|lia].
Qed.

(** The loop over the fields of a struct. *)
Definition create_fields :=
  fix go (fields : list Field) (idx : ColumnIndexSequence) {struct fields}
    : outcome (list LogicalEncoder * list fb.LogicalTree * ColumnIndexSequence) :=
    match fields with
    | mkField _ field_type _ :: fields =>
        let! '(e, tree, idx) := create_encoder pushdown limit wasm opt ct seed field_type idx in
        let! '(es, trees, idx) := go fields idx in
        Ok (e :: es, tree :: trees, idx)
    | [] => Ok ([], [], idx)
    end.

Definition creates_shaped (dt : DataType) : Prop := ∀ k e tree idx,
  create_encoder pushdown limit wasm opt ct seed dt (mkColumnIndex (Z.of_nat k)) = Ok (e, tree, idx) →
  ∃ n, idx = mkColumnIndex (Z.of_nat n) ∧ shaped (filling_in []) dt k n e [] ∧ Z.of_nat n < 2 ^ 32.

Definition creates_fields (fs : list Field) : Prop := ∀ k es trees idx,
  Z.of_nat k < 2 ^ 32 → create_fields fs (mkColumnIndex (Z.of_nat k)) = Ok (es, trees, idx) →
  ∃ n, idx = mkColumnIndex (Z.of_nat n) ∧ shaped_fields (filling_in []) fs k n es [] ∧ Z.of_nat n < 2 ^ 32.

Lemma creates_flat dt : non_nest_types dt = true → creates_shaped dt.
Proof using Hopt.
  intros Hnn k e tree idx Hc.
  assert (Hc' : (let! d := create_physical_encoder dt limit wasm opt ct (seed (Z.of_nat k)) in
    let! '(i, idx) := next_column_index (mkColumnIndex (Z.of_nat k)) in
    Ok (FlatColEncoder d i, fb.mkLogicalTree fb.FLAT [], idx)) = Ok (e, tree, idx))
    by (destruct dt; done).
  apply obind_Ok in Hc' as (d & Hd & Hc'). apply obind_Ok in Hc' as ([i idx1] & Hi & [= <- <- <-]).
  apply next_column_nat in Hi as (-> & -> & Hlt). exists (S k). split; [done|]. split; [|done].
  constructor; [done|]. eapply physical_new; [|exact Hd]. unfold physical_type. by rewrite Hnn.
Qed.

Lemma creates_list large f :
  pushed_fields pushdown (data_type f) = None → creates_shaped (data_type f) →
  creates_shaped (list_type large f).
Proof using Hopt.
  intros Hpush IH k e tree idx Hc. destruct f as [nm child nl]. cbn [data_type] in *.
  assert (Hc' : (let! '(i, idx) := next_column_index (mkColumnIndex (Z.of_nat k)) in
    let! o := create_physical_encoder (list_type large (mkField nm child nl)) limit wasm opt ct (seed i) in
    let! '(v, child_tree, idx) := create_encoder pushdown limit wasm opt ct seed child idx in
    Ok (ListColEncoder o i v, fb.mkLogicalTree fb.LIST [child_tree], idx)) = Ok (e, tree, idx))
    by (destruct large; cbn [create_encoder list_type] in Hc; by rewrite Hpush in Hc).
  apply obind_Ok in Hc' as ([i idx1] & Hi & Hc'). apply next_column_nat in Hi as (-> & -> & Hlt).
  apply obind_Ok in Hc' as (o & Ho & Hc'). apply obind_Ok in Hc' as ([[v t] idx2] & Hv & [= <- <- <-]).
  destruct (IH _ _ _ _ Hv) as (n & -> & Hs & Hn). exists n. split; [done|]. split; [|done].
  apply sh_list with (items := []); [done| |constructor|done].
  eapply physical_new; [|exact Ho]. by destruct large.
Qed.

Lemma creates_struct fs : creates_fields fs → creates_shaped (Struct fs).
Proof using Hopt.
  intros IH k e tree idx Hc.
  change (create_encoder pushdown limit wasm opt ct seed (Struct fs) (mkColumnIndex (Z.of_nat k))) with
    (let! '(i, idx) := next_column_index (mkColumnIndex (Z.of_nat k)) in
     let! '(encoders, trees, idx) := create_fields fs idx in
     let! v := create_physical_encoder Boolean limit wasm opt ct (seed i) in
     Ok (StructColEncoder v i encoders, fb.mkLogicalTree fb.STRUCT trees, idx)) in Hc.
  apply obind_Ok in Hc as ([i idx1] & Hi & Hc). apply next_column_nat in Hi as (-> & -> & Hlt).
  apply obind_Ok in Hc as ([[es trees] idx2] & Hes & Hc). apply obind_Ok in Hc as (v & Hv & [= <- <- <-]).
  destruct (IH _ _ _ _ Hlt Hes) as (n & -> & Hs & Hn). exists n. split; [done|]. split; [|done].
  apply sh_struct with (rows := []); [|constructor|done]. by eapply physical_new.
Qed.

Lemma create_shaped dt : nested_type dt → creates_shaped dt.
Proof using Hopt.
  apply (nested_type_mut (λ dt _, creates_shaped dt) (λ fs _, creates_fields fs)).
  - intros. by apply creates_flat.
  - intros. by apply creates_list.
  - intros. by apply creates_struct.
  - intros k es trees idx Hk [= <- <- <-]. exists k. by split; [|split; [constructor|]].
  - intros [nm t nl] fs _ _ IHf _ IHfs k es trees idx Hk Hc. cbn [create_fields data_type] in *.
    apply obind_Ok in Hc as ([[e tree] idx1] & He & Hc).
    apply obind_Ok in Hc as ([[es1 trees1] idx2] & Hes & [= <- <- <-]).
    destruct (IHf _ _ _ _ He) as (m & -> & Hs & Hm). destruct (IHfs _ _ _ _ Hm Hes) as (n & -> & Hss & Hn).
    exists n. split; [done|]. split; [|done].
    by apply (sh_field _ (mkField nm t nl) fs k m n e es1 [] []).
Qed.
End Types.
End Columns.
