(* ===== verification/NestedRead.v ===== *)
(** * Nested columns, read back

    The decoder of a nested column puts the arrays of its physical columns together
    again.  [reads_as] says how an array comes back; the theorem says that a column
    written by [Nested.v] is read as it was written. *)

From S2P Require Import Prelude Arrow EncUnit Common Footer Options Chunks Encoders Buffers.
From S2P Require Import Wire Writer Dict Float64 Sketch SharedDict PhysEnc PhysEncFacts LogicalEnc Table.
From S2P Require Import Decoders LogicalDec DecoderFacts EndToEnd VortexFacts VortexLists Nested.
From stdpp Require Import list.
Open Scope Z_scope.

(** ** How an array comes back *)

Definition struct_bits (nulls : option (list bool)) (rows : Z) : list bool :=
  default (replicate (Z.to_nat rows) true) nulls.

(** Strings as views, lists and structs with the same validity; a validity of no rows
    may be left out. *)
Inductive reads_as : Array → Array → Prop :=
  | ra_flat dt vals : reads_as (PrimArray dt vals) (PrimArray (view_type dt) vals)
  | ra_list large f offsets values values' nulls nulls' :
      same_validity (list_bits nulls offsets) nulls' → reads_as values values' →
      reads_as (ListArray large f offsets values nulls)
               (ListArray large (field_to_view f) offsets values' nulls')
  | ra_struct fs columns columns' nulls nulls' rows :
      same_validity (struct_bits nulls rows) nulls' → Forall2 reads_as columns columns' →
      reads_as (StructArray fs columns nulls rows)
               (StructArray (map field_to_view fs) columns' nulls' rows).

Lemma reads_as_len a a' : reads_as a a' → arr_len a' = arr_len a.
Proof. by intros []. Qed.

Lemma same_default {A} (bits bits0 : list A) nulls :
  nulls = Some bits ∨ bits = [] ∧ nulls = None → (bits = [] → bits0 = []) → default bits0 nulls = bits.
Proof. intros [->|[Hb ->]] H0; [done|]. cbn. by rewrite Hb, H0. Qed.

Lemma replicate_nil {A} n (a : A) : replicate n a = [] → n = 0%nat.
Proof. by destruct n. Qed.

Section Facts.
Context (aligned : list bool → Prop).

Lemma reads_as_validity dt a a' :
  nested_ok aligned dt a → reads_as a a' → arr_validity a' = arr_validity a.
Proof.
  intros Hok Hr. destruct Hr as [t vals|large f offsets values values' nulls nulls' Hn _
    |fs columns columns' nulls nulls' rows Hn _]; [done| |].
  - inversion Hok as [|? ? ? ? ? Hl|]; subst. cbn.
    change (default (replicate (Z.to_nat (len offsets - 1)) true) nulls) with (list_bits nulls offsets).
    apply same_default; [exact Hn|]. intros Hb. destruct Hl as (_ & Hlen & _). rewrite Hb in Hlen.
    rewrite Hlen. done.
  - inversion Hok as [| |? ? ? ? Hr _ Hfit _]; subst. cbn.
    change (default (replicate (Z.to_nat rows) true) nulls) with (struct_bits nulls rows).
    apply same_default; [exact Hn|]. unfold struct_bits. destruct nulls as [b|]; [|done].
    cbn. intros ->. cbn in Hfit. apply Z.eqb_eq in Hfit. by rewrite <-Hfit.
Qed.

Lemma reads_as_nullable dt a a' :
  nested_ok aligned dt a → reads_as a a' → arr_is_nullable a' = arr_is_nullable a.
Proof. intros Hok Hr. unfold arr_is_nullable. by rewrite (reads_as_validity dt a). Qed.

Lemma nested_ok_type dt a : nested_ok aligned dt a → arr_data_type a = dt.
Proof. intros [|[]|]; done. Qed.

Lemma reads_as_type dt a a' : nested_ok aligned dt a → reads_as a a' → arr_data_type a' = read_type dt.
Proof.
  intros Hok Hr. apply nested_ok_type in Hok as Ht. destruct Hr as [t vals|[]|]; cbn in Ht; subst; try done.
  inversion Hok; subst; try done. by destruct dt.
Qed.

(** ** Putting arrays together *)

Lemma list_array_ok large f offsets values nulls :
  default 0 (last offsets) ≤ arr_len values → nulls_fit nulls (len offsets - 1) = true →
  nullable f || negb (arr_is_nullable values) = true → data_type f = arr_data_type values →
  list_array_new large f offsets values nulls = Ok (ListArray large f offsets values nulls).
Proof.
  intros Hl Hfit Hn Ht. unfold list_array_new. rewrite (proj2 (Z.leb_le _ _) Hl). cbn [assert obind].
  rewrite Hfit. cbn [assert obind]. rewrite Hn. cbn [assert obind]. by rewrite Ht, bool_decide_eq_true_2.
Qed.

Lemma same_validity_fit bits nulls n : same_validity bits nulls → len bits = n → nulls_fit nulls n = true.
Proof. intros [->|[_ ->]] Hn; [|done]. by apply Z.eqb_eq. Qed.

(** What a unit of a physical column gives: flat arrays, or lists without values. *)
Inductive part_read : Array → Array → Prop :=
  | part_flat dt vals : part_read (PrimArray dt vals) (PrimArray (view_type dt) vals)
  | part_list large f offsets values nulls nulls' :
      same_validity (list_bits nulls offsets) nulls' →
      part_read (ListArray large f offsets values nulls)
        (ListArray large DUMMY_NULL_FIELD offsets (null_array (default 0 (last offsets))) nulls').

Lemma join_list_reads large f a part items :
  nested_ok aligned (list_type large f) a → part_read a part →
  (∀ values, extract_items a = Ok values → reads_as values items) →
  read_type (data_type f) = view_type (data_type f) →
  ∃ a', join_list (list_type large f) (part, items) = Ok a' ∧ reads_as a a'.
Proof.
  intros Hok Hpart Hitems Ht. apply nested_list_inv in Hok as Hinv.
  destruct Hinv as (offsets & values & nulls & -> & Hl & _ & _ & Hlast & Hnull & Hv).
  specialize (Hitems values (items_whole aligned _ _ _ _ _ Hok)).
  inversion Hpart as [|? ? ? ? ? nulls' Hsame]; subst. destruct Hl as (Hoff & Hlen & _).
  exists (ListArray large (field_to_view f) offsets items nulls'). split; [|by constructor].
  assert (Hnew : list_array_new large (field_to_view f) offsets items nulls'
    = Ok (ListArray large (field_to_view f) offsets items nulls')).
  { apply list_array_ok.
    - rewrite Hlast. cbn. rewrite (reads_as_len _ _ Hitems). lia.
    - eapply same_validity_fit; [exact Hsame|]. lia.
    - cbn [field_to_view nullable]. by rewrite (reads_as_nullable _ _ _ Hv Hitems).
    - cbn [field_to_view data_type]. rewrite (reads_as_type _ _ _ Hv Hitems). by rewrite Ht. }
  destruct large; cbn [join_list list_type as_list Bool.eqb obind]; by rewrite Hoff; cbn [obind]; rewrite Hnew.
Qed.

(** The nulls of a struct, as its decoder makes them. *)
Definition bits_nulls (bits : list bool) : option (list bool) :=
  match bits with [] => None | _ => Some bits end.

Lemma bits_nulls_same bits : same_validity bits (bits_nulls bits).
Proof. destruct bits; [by right|by left]. Qed.

Lemma struct_bits_len nulls rows : 0 ≤ rows → nulls_fit nulls rows = true → len (struct_bits nulls rows) = rows.
Proof.
  intros Hr Hfit. unfold struct_bits. destruct nulls as [b|]; cbn in *; [by apply Z.eqb_eq in Hfit|].
  rewrite len_replicate. lia.
Qed.

Lemma validity_len dt a : nested_ok aligned dt a → len (arr_validity a) = arr_len a.
Proof.
  intros [t vals|large f offsets values nulls (_ & Hn & _)|fs columns nulls rows Hr _ Hfit _]; cbn.
  - by rewrite len_map.
  - change (default _ nulls) with (list_bits nulls offsets). lia.
  - change (default _ nulls) with (struct_bits nulls rows). by apply struct_bits_len.
Qed.

Lemma masked_all l bits :
  forallb id l = true → forallb (λ '(outer, inner), negb outer || inner) (zip bits l) = true.
Proof.
  revert bits. induction l as [|x l IH]; intros [|y bits]; try done. cbn.
  intros [-> Hl]%andb_prop. by rewrite orb_true_r, IH.
Qed.

(** Masking does not depend on whether an all-true validity is written out. *)
Lemma field_masked_read dt f c c' nulls rows :
  nested_ok aligned dt c → reads_as c c' → arr_len c = rows → nulls_fit nulls rows = true →
  field_masked nulls f c = true →
  field_masked (bits_nulls (struct_bits nulls rows)) (field_to_view f) c' = true.
Proof.
  intros Hok Hr Hlen Hfit. unfold field_masked. cbn [field_to_view nullable].
  rewrite (reads_as_nullable _ _ _ Hok Hr), (reads_as_validity _ _ _ Hok Hr).
  destruct (nullable f); [done|]. cbn [orb]. intros [Hall Hmask]%andb_prop.
  pose proof (validity_len _ _ Hok) as Hv. destruct nulls as [[|x b]|].
  - assert (rows = 0) as Hr0 by (cbn in Hfit; apply Z.eqb_eq in Hfit; by rewrite <-Hfit).
    rewrite Hlen, Hr0 in Hv. apply len_0 in Hv. unfold arr_is_nullable. by rewrite Hv.
  - cbn in Hall |- *. by rewrite Hall.
  - cbn in Hmask. apply negb_true_iff in Hmask as Hnn. unfold arr_is_nullable in Hnn.
    apply negb_false_iff in Hnn. rewrite masked_all by done. rewrite Hmask. by rewrite orb_true_r.
Qed.

Lemma fields_read fs columns columns' nulls rows :
  fields_ok aligned fs columns nulls rows → Forall2 reads_as columns columns' →
  nulls_fit nulls rows = true → Forall (λ f, read_type (data_type f) = view_type (data_type f)) fs →
  len fs = len columns' ∧
  forallb (λ '(f, c), bool_decide (data_type f = arr_data_type c) && (arr_len c =? rows)
                      && field_masked (bits_nulls (struct_bits nulls rows)) f c)
    (zip (map field_to_view fs) columns') = true ∧
  (columns' ≠ [] → match columns' with c :: _ => arr_len c | [] => 0 end = rows).
Proof.
  intros Hok. revert columns'. induction Hok as [|f fs c columns nulls rows Hc Hlen Hmask Hfs IH];
    intros columns' HF Hfit Hv; [by apply Forall2_nil_inv_l in HF as ->|].
  apply Forall2_cons_inv_l in HF as (c' & cs' & Hcc & HF & ->). apply Forall_cons in Hv as [Hvf Hv].
  destruct (IH _ HF Hfit Hv) as (Hl & Hall & _). rewrite !len_cons, Hl. split; [done|].
  split; [|intros _; by rewrite (reads_as_len _ _ Hcc)].
  cbn [map zip zip_with forallb]. rewrite Hall, andb_true_r. apply andb_true_intro. split.
  - apply andb_true_intro. split; [|by rewrite (reads_as_len _ _ Hcc), Hlen, Z.eqb_refl].
    apply bool_decide_eq_true. by rewrite (reads_as_type _ _ _ Hc Hcc), Hvf.
  - by apply (field_masked_read (data_type f) f c).
Qed.

Lemma struct_array_ok fields columns nulls rows :
  len fields = len columns → nulls_fit nulls rows = true →
  match columns with c :: _ => arr_len c | [] => 0 end = rows →
  forallb (λ '(f, c), bool_decide (data_type f = arr_data_type c) && (arr_len c =? rows)
                      && field_masked nulls f c) (zip fields columns) = true →
  struct_array_new fields columns nulls = Ok (StructArray fields columns nulls rows).
Proof.
  intros Hl Hfit Hrows Hall. unfold struct_array_new. rewrite Hrows, Hl, Z.eqb_refl. cbn [assert obind].
  rewrite Hfit. cbn [assert obind]. by rewrite Hall.
Qed.

Lemma bool_array_values bits : boolean_values (bool_array bits) = Ok bits.
Proof. unfold boolean_values, bool_array. f_equal. rewrite map_map. apply map_id. Qed.

Lemma extract_struct_validity fs columns nulls rows :
  extract_validity (StructArray fs columns nulls rows) = bool_array (struct_bits nulls rows).
Proof. by destruct nulls. Qed.

Lemma join_struct_reads fs a part columns' :
  nested_ok aligned (Struct fs) a → part_read (extract_validity a) part →
  (∀ columns, struct_columns a = Ok columns → Forall2 reads_as columns columns') →
  Forall (λ f, read_type (data_type f) = view_type (data_type f)) fs →
  ∃ a', join_struct fs (part, columns') = Ok a' ∧ reads_as a a'.
Proof.
  intros Hok Hpart Hcols Hv. apply nested_struct_inv in Hok as (columns & nulls & rows & -> & Hr & Hne & Hfit & Hf).
  specialize (Hcols columns eq_refl). rewrite extract_struct_validity in Hpart.
  pose proof (bits_nulls_same (struct_bits nulls rows)) as Hsame.
  exists (StructArray (map field_to_view fs) columns' (bits_nulls (struct_bits nulls rows)) rows).
  split; [|by constructor].
  destruct (fields_read fs columns columns' nulls rows Hf Hcols Hfit Hv) as (Hl & Hall & Hrows).
  assert (part = bool_array (struct_bits nulls rows)) as -> by by inversion Hpart.
  unfold join_struct. rewrite bool_array_values. cbn [obind].
  apply struct_array_ok; [by rewrite len_map| |apply Hrows; intros ->; by apply Hne, len_0|exact Hall].
  eapply same_validity_fit; [exact Hsame|]. by apply struct_bits_len.
Qed.

(** ** Strings further down *)

(** Whatever the checks before the last one say. *)
Ltac strip_asserts :=
  lazymatch goal with
  | |- obind (assert ?b) _ = _ => destruct b; [cbn [assert obind]; strip_asserts|done]
  | |- _ => done
  end.

Lemma list_array_wrong large f offsets values nulls :
  data_type f ≠ arr_data_type values → list_array_new large f offsets values nulls = Panic PAssert.
Proof using Type.
  intros Ht. unfold list_array_new. rewrite (bool_decide_eq_false_2 _ Ht). strip_asserts.
Qed.

(** C40: strings more than one level down are not read back.  The fields of the arrays
    a decoder makes have views for the strings directly below them only
    ([field_to_view]), but a list or struct read below has views of its own; when its
    type therefore differs, Arrow's constructor panics: for lists of lists of strings,
    and for structs with such a field. *)
Theorem nested_strings_panic :
  (∀ large f a values part items,
     nested_ok aligned (list_type large f) a → part_read a part →
     extract_items a = Ok values → reads_as values items →
     read_type (data_type f) ≠ view_type (data_type f) →
     join_list (list_type large f) (part, items) = Panic PAssert) ∧
  (∀ fs a columns part columns' i f,
     nested_ok aligned (Struct fs) a → part_read (extract_validity a) part →
     struct_columns a = Ok columns → Forall2 reads_as columns columns' →
     fs !! i = Some f → read_type (data_type f) ≠ view_type (data_type f) →
     join_struct fs (part, columns') = Panic PAssert).
Proof using Type.
  split.
  - intros large f a values part items Hok Hpart Hitems Hr Ht. apply nested_list_inv in Hok as Hinv.
    destruct Hinv as (offsets & values0 & nulls & -> & (Hoff & _) & _ & _ & _ & _ & Hv).
    rewrite (items_whole aligned _ _ _ _ _ Hok) in Hitems. injection Hitems as <-.
    inversion Hpart as [|? ? ? ? ? nulls' Hsame]; subst.
    destruct large; cbn [join_list list_type as_list Bool.eqb obind]; rewrite Hoff; cbn [obind];
      rewrite list_array_wrong; try done; cbn [field_to_view data_type];
      by rewrite (reads_as_type _ _ _ Hv Hr).
  - intros fs a columns part columns' i f Hok Hpart Hcols HF Hf Ht.
    apply nested_struct_inv in Hok as (columns0 & nulls & rows & -> & _ & _ & _ & Hfs).
    injection Hcols as <-. rewrite extract_struct_validity in Hpart.
    assert (part = bool_array (struct_bits nulls rows)) as -> by by inversion Hpart.
    unfold join_struct. rewrite bool_array_values. cbn [obind]. unfold struct_array_new.
    assert (Hall : ∀ m n, forallb (λ '(f, c), bool_decide (data_type f = arr_data_type c) && (arr_len c =? m)
      && field_masked n f c) (zip (map field_to_view fs) columns') = false).
    { intros m n. revert i columns' Hf HF. clear -Ht Hfs.
      induction Hfs as [|g fs c columns0 nulls rows Hc _ _ _ IH]; [done|].
      intros i columns' Hf HF. apply Forall2_cons_inv_l in HF as (c' & cs' & Hcc & HF & ->).
      cbn [map zip zip_with forallb]. destruct i as [|i]; [|by rewrite (IH i), andb_false_r].
      injection Hf as ->. rewrite (bool_decide_eq_false_2); [done|]. cbn [field_to_view data_type].
      by rewrite (reads_as_type _ _ _ Hc Hcc). }
    rewrite Hall. strip_asserts.
Qed.
End Facts.

(** ** Physical columns of lists *)

(** What is relied on of vortex: lists it keeps, with a validity it keeps the start of,
    come back with the same offsets and validity. *)
Class ListLaws `{EncoderLibs} {RT} `{DecoderLibs RT} (list_kept : bool → Prop)
    (aligned : list bool → Prop) := {
  list_decode_encode enable_dict large f offsets values nulls u :
    list_kept large → aligned (list_bits nulls offsets) → lists_ok (list_bits nulls offsets) offsets →
    vortex_encode enable_dict (ListArray large f offsets values nulls) = Ok u →
    ∃ nulls', vortex_list_decode (list_type large f) (EncUnit_try_serialize u)
      = Ok (ListArray large DUMMY_NULL_FIELD offsets (null_array (default 0 (last offsets))) nulls') ∧
      same_validity (list_bits nulls offsets) nulls';
}.

Section Columns.
Context {R RT : Type} `{Reader R} `{Flatbuffers} `{EncoderLibs} `{DecoderLibs RT}.
Context `{Codecs} `{!CodecsLaws} `{Checksum} (pushdown : bool).
Context (keeps : DataType → Prop) (list_kept : bool → Prop) (aligned : list bool → Prop).
Context `{!VortexLaws keeps} `{!ListLaws list_kept aligned}.
Context (limit : Z) (wasm : WASMWritingContext) (ct : CompressionType).

(** Vortex keeps the arrays of a physical column, and writes them itself. *)
Definition column_ok (dt : DataType) : Prop :=
  built_in wasm dt ∧
  match dt with List _ => list_kept false | LargeList _ => list_kept true | dt => keeps dt end.

(** The arrays of a physical column: flat ones, or lists that are not pushed down. *)
Inductive part_of : DataType → Array → Prop :=
  | of_flat dt vals : non_nest_types dt = true → part_of dt (PrimArray dt vals)
  | of_list large f offsets values nulls :
      pushed_fields pushdown (data_type f) = None → lists_ok (list_bits nulls offsets) offsets →
      aligned (list_bits nulls offsets) →
      part_of (list_type large f) (ListArray large f offsets values nulls).

Lemma not_pushed_down large f :
  pushed_fields pushdown (data_type f) = None → pushed_down pushdown (list_type large f) = false.
Proof using Type.
  intros Hp. destruct large; cbn; unfold pushed_fields in Hp; destruct (data_type f); try done;
    by case_match.
Qed.

Lemma part_unit_reads ctx ed dt a :
  reads_builtin ctx → column_ok dt → part_of dt a → unit_reads pushdown ctx wasm ct ed dt part_read a.
Proof using All.
  intros Hctx [Hb Hk] Hp u b rest Hu Hrec. destruct Hp as [dt vals Hnn|large f offsets values nulls Hpush Hl Hal].
  - destruct (plain_unit_decodes keeps pushdown ctx wasm ct ed (PrimArray dt vals) u b dt rest)
      as (dec & Hn & Hd); [done| |by left|done|done|].
    { exists dt, vals. split; [done|]. split; [done|]. split; [|done]. by destruct dt. }
    exists dec, (PrimArray (view_type dt) vals). by split; [|split; [|constructor]].
  - destruct (next_unit_builtin ctx wasm ct ed (ListArray large f offsets values nulls) u b
      (list_type large f) rest Hctx Hb Hu Hrec) as (v & Hv & Hn).
    destruct (list_decode_encode (list_kept:=list_kept) ed large f offsets values nulls v)
      as (nulls' & Hd & Hs); [by destruct large|done..|].
    eexists _, _. split; [exact Hn|]. split; [|by constructor].
    cbn [unit_decode]. rewrite (not_pushed_down large f Hpush), <-Hd. by destruct large.
Qed.

(** *** The columns of a row group in a file *)

Context `{Sampling} (out : list EncodedColumnChunk) (r : R) (ck : bool) (file : list Z).
Context (ctx : WASMReadingContext R RT) (cache : SharedDictionaryCache) (ckt : option ChecksumType).
Context (metas : list fb.ColumnMetadata) (Hlimit : 0 ≤ limit).

(** The metadata of column [i] records its chunks. *)
Definition column_recorded (i : nat) : Prop :=
  ∃ ms, metas !! i = Some (fb.mkColumnMetadata (Some (map Chunk_to_fb ms))) ∧
    Forall2 (records ck file) (filter (column_of i) out) ms.

Context (Hr : ReaderOf R r file) (Hck : ckt = None ∨ ck = true) (Hctx : reads_builtin (Some ctx)).

Abbreviation written := (written_in limit wasm ct out).
Abbreviation decoder := (primitive_decoder r (Some ctx) cache ckt).

Lemma column_reads i dt d arrs :
  written i dt d arrs → column_recorded i → Z.of_nat (S i) < 2 ^ 32 → physical_type dt = true →
  column_ok dt → Forall (part_of dt) arrs →
  ∃ chunks parts p', next_column_chunks metas (mkColumnIndex (Z.of_nat i))
      = Ok (chunks, mkColumnIndex (Z.of_nat (S i))) ∧
    prim_decode_batch pushdown (decoder chunks dt) = Ok (parts, p') ∧ Forall2 part_read arrs parts.
Proof using All.
  intros (ed & chunks & _ & Hch & Hout) (ms & Hm & Hrec) Hi Hp Hk Harrs. rewrite Hout in Hrec.
  apply in_col_records in Hrec.
  destruct (chunked_read pushdown part_read limit wasm ct ed arrs chunks ck file ms
    (decoder (map Chunk_to_fb ms) dt) Hch Hrec Hr Hck Hp) as (parts & p' & Hd & _ & HF); [|done|].
  - eapply Forall_impl; [exact Harrs|]. intros a Ha. by apply part_unit_reads.
  - exists (map Chunk_to_fb ms), parts, p'. split; [|done].
    unfold next_column_chunks, next_column_index. cbn [current_index].
    rewrite (proj2 (uadd_Ok 32 _ _ _)) by (split; [|done]; lia). cbn [obind].
    rewrite Nat2Z.id, Hm. cbn [unwrap obind fb.column_chunks ok_or]. do 3 f_equal. lia.
Qed.

(** *** The loops over the fields of a struct *)

Definition create_children :=
  fix go (fields : list Field) (idx : ColumnIndexSequence) {struct fields}
    : outcome (list (LogicalColDecoder (R:=R) (RT:=RT)) * ColumnIndexSequence) :=
    match fields with
    | [] => Ok ([], idx)
    | mkField _ t _ :: fields =>
        let! '(c, idx) := create_decoder r metas (Some ctx) cache ckt t idx in
        let! '(children, idx) := go fields idx in
        Ok (c :: children, idx)
    end.

Definition decode_children :=
  fix go (children : list (LogicalColDecoder (R:=R) (RT:=RT))) {struct children}
    : outcome (list (list Array) * list (LogicalColDecoder (R:=R) (RT:=RT))) :=
    match children with
    | [] => Ok ([], [])
    | c :: children =>
        let! '(column, c) := log_decode_batch pushdown c in
        let! '(columns, children) := go children in
        Ok (column :: columns, c :: children)
    end.

Lemma create_list_decoder large f idx :
  create_decoder r metas (Some ctx) cache ckt (list_type large f) idx =
    let! '(chunks, idx) := next_column_chunks metas idx in
    let! '(values, idx) := create_decoder r metas (Some ctx) cache ckt (data_type f) idx in
    Ok (LList (list_type large f) (decoder chunks (list_type large f)) values, idx).
Proof using Type. by destruct large, f. Qed.

Lemma create_struct_decoder fs idx :
  create_decoder r metas (Some ctx) cache ckt (Struct fs) idx =
    let! '(chunks, idx) := next_column_chunks metas idx in
    let! '(children, idx) := create_children fs idx in
    Ok (LStruct fs (decoder chunks Boolean) children, idx).
Proof using Type. done. Qed.

Lemma create_flat_decoder dt idx :
  non_nest_types dt = true →
  create_decoder r metas (Some ctx) cache ckt dt idx =
    let! '(chunks, idx) := next_column_chunks metas idx in Ok (LPrimitive (decoder chunks dt), idx).
Proof using Type. by destruct dt. Qed.

Lemma decode_struct fs (v : PrimitiveColDecoder (R:=R) (RT:=RT)) children :
  log_decode_batch pushdown (LStruct fs v children) =
    let! '(validity, v) := prim_decode_batch pushdown v in
    let! '(columns, children) := decode_children children in
    let! rows := transpose columns in
    let! res := traverse (join_struct fs) (zip validity rows) in
    Ok (res, LStruct fs v children).
Proof using Type. done. Qed.

Lemma transpose_cons n c cs rows :
  length c = n → transpose_n n cs = Ok rows → transpose_n n (c :: cs) = Ok (zip_with cons c rows).
Proof using Type.
  revert n cs rows. induction c as [|a c IH]; intros n cs rows <- Ht; [by injection Ht as <-|].
  cbn [length transpose_n] in *. apply obind_Ok in Ht as (heads & Hh & Ht).
  apply obind_Ok in Ht as (rest & Hrest & [= <-]). cbn [traverse head unwrap obind]. rewrite Hh.
  cbn [obind map tail]. by rewrite (IH _ _ rest).
Qed.

Lemma transpose_nil n : transpose_n n [] = Ok (replicate n []).
Proof using Type. induction n as [|n IH]; [done|]. cbn. by rewrite IH. Qed.

(** *** What is read below a field *)

Abbreviation rtype := (nested_type pushdown column_ok).
Abbreviation create := (create_decoder r metas (Some ctx) cache ckt).

Definition recorded (k n : nat) : Prop := ∀ i, (k ≤ i < n)%nat → column_recorded i.

(** The decoder of columns [k] to [n] gives the arrays. *)
Definition reads_back (dt : DataType) (k n : nat) (arrs : list Array) : Prop :=
  rtype dt → Forall (nested_ok aligned dt) arrs → recorded k n → Z.of_nat n < 2 ^ 32 →
  ∃ d d' arrs', create dt (mkColumnIndex (Z.of_nat k)) = Ok (d, mkColumnIndex (Z.of_nat n)) ∧
    log_decode_batch pushdown d = Ok (arrs', d') ∧ Forall2 reads_as arrs arrs'.

Definition row_ok (fs : list Field) (row : list Array) : Prop := ∃ nulls n, fields_ok aligned fs row nulls n.

Definition fields_read_back (fs : list Field) (k n : nat) (rows : list (list Array)) : Prop :=
  nested_fields pushdown column_ok fs → Forall (row_ok fs) rows → recorded k n → Z.of_nat n < 2 ^ 32 →
  ∃ ds ds' columns rows',
    create_children fs (mkColumnIndex (Z.of_nat k)) = Ok (ds, mkColumnIndex (Z.of_nat n)) ∧
    decode_children ds = Ok (columns, ds') ∧ length columns = length fs ∧
    Forall (λ c, length c = length rows) columns ∧
    transpose_n (length rows) columns = Ok rows' ∧ Forall2 (Forall2 reads_as) rows rows'.

Lemma flat_reads_back dt k d arrs :
  non_nest_types dt = true → written k dt d arrs → reads_back dt k (S k) arrs.
Proof using All.
  intros Hnn Hw Hty Harrs Hrec Hn.
  assert (Hk : column_ok dt).
  { destruct Hty as [? _ ?|[]|]; done. }
  destruct (column_reads k dt d arrs Hw (Hrec k ltac:(lia)) Hn) as (chunks & parts & p' & Hc & Hd & HF);
    [by unfold physical_type; rewrite Hnn|done| |].
  { eapply Forall_impl; [exact Harrs|]. intros a Ha. destruct Ha as [|[]|]; by try constructor. }
  exists (LPrimitive (decoder chunks dt)), (LPrimitive p'), parts.
  rewrite create_flat_decoder by done. rewrite Hc. split; [done|]. cbn [log_decode_batch].
  rewrite Hd. split; [done|]. clear - HF Harrs Hnn.
  induction HF as [|a a' arrs parts Ha _ IH]; [constructor|]. apply Forall_cons in Harrs as [Hok Harrs].
  constructor; [|by apply IH]. destruct Ha as [|large]; [constructor|].
  apply nested_ok_type in Hok. cbn in Hok. subst dt. by destruct large.
Qed.

Lemma nested_type_list large f :
  rtype (list_type large f) →
  pushed_fields pushdown (data_type f) = None ∧ column_ok (list_type large f) ∧
  read_type (data_type f) = view_type (data_type f) ∧ rtype (data_type f).
Proof using Type.
  intros Ht. remember (list_type large f) as dt eqn:Hdt. destruct Ht as [dt Hnn|large' f'|].
  - subst dt. by destruct large.
  - by assert (large' = large ∧ f' = f) as [-> ->] by (by destruct large, large'; simplify_eq).
  - by destruct large.
Qed.

Lemma list_reads_back large f k n o arrs items :
  written k (list_type large f) o arrs → Forall2 (λ a b, extract_items a = Ok b) arrs items →
  (k < n)%nat → reads_back (data_type f) (S k) n items → reads_back (list_type large f) k n arrs.
Proof using All.
  intros Ho Hitems Hkn IH Hty Harrs Hrec Hn. apply nested_type_list in Hty as (Hpush & Hk & Hview & Hty).
  destruct (column_reads k _ o arrs Ho (Hrec k ltac:(lia))) as (chunks & parts & p' & Hc & Hd & HF);
    [lia|by destruct large|done| |].
  { eapply Forall_impl; [exact Harrs|]. intros a (? & ? & ? & -> & ? & ? & _)%nested_list_inv. by constructor. }
  destruct (IH Hty) as (v & v' & vals & Hcv & Hdv & HFv); [|by intros i Hi; apply Hrec; lia|done|].
  { clear - Hitems Harrs. induction Hitems as [|a b arrs items Hab _ IHi]; [constructor|].
    apply Forall_cons in Harrs as [Ha Harrs]. constructor; [|by apply IHi].
    apply nested_list_inv in Ha as Hinv. destruct Hinv as (? & values & ? & -> & _ & _ & _ & _ & _ & Hv).
    by rewrite (items_whole aligned _ _ _ _ _ Ha) in Hab; injection Hab as <-. }
  assert (Hjoin : ∃ arrs', traverse (join_list (list_type large f)) (zip parts vals) = Ok arrs' ∧
    Forall2 reads_as arrs arrs').
  { clear - Hitems Harrs HF HFv Hview. revert parts vals HF HFv.
    induction Hitems as [|a b arrs items Hab _ IHi]; intros parts vals HF HFv.
    - apply Forall2_nil_inv_l in HF as ->. by exists [].
    - apply Forall2_cons_inv_l in HF as (part & parts' & Hp & HF & ->).
      apply Forall2_cons_inv_l in HFv as (item & vals' & Hv & HFv & ->).
      apply Forall_cons in Harrs as [Ha Harrs]. destruct (IHi Harrs _ _ HF HFv) as (arrs' & Ht & HFr).
      destruct (join_list_reads aligned large f a part item Ha Hp) as (a' & Hj & Har);
        [intros values Hva; rewrite Hab in Hva; by injection Hva as <-|done|].
      exists (a' :: arrs'). split; [|by constructor]. cbn [zip zip_with traverse]. rewrite Hj. cbn [obind].
      by rewrite Ht. }
  destruct Hjoin as (arrs' & Ht & HFr). eexists _, _, arrs'. rewrite create_list_decoder, Hc. cbn [obind].
  rewrite Hcv. split; [done|]. cbn [log_decode_batch]. rewrite Hd. cbn [obind]. rewrite Hdv. cbn [obind].
  by rewrite Ht.
Qed.

Lemma nested_type_struct fs :
  rtype (Struct fs) → fs ≠ [] ∧ column_ok Boolean ∧ nested_fields pushdown column_ok fs.
Proof using Type.
  intros Ht. remember (Struct fs) as dt eqn:Hdt. destruct Ht as [dt Hnn|large f|]; simplify_eq; try done.
  by destruct large.
Qed.

Lemma nested_fields_view fs :
  nested_fields pushdown column_ok fs → Forall (λ f, read_type (data_type f) = view_type (data_type f)) fs.
Proof using Type. induction 1; by constructor. Qed.

Lemma struct_reads_back fs k n v arrs rows :
  written k Boolean v (map extract_validity arrs) →
  Forall2 (λ a row, struct_columns a = Ok row) arrs rows → (k < n)%nat →
  fields_read_back fs (S k) n rows → reads_back (Struct fs) k n arrs.
Proof using All.
  intros Hv Hrows Hkn IH Hty Harrs Hrec Hn. apply nested_type_struct in Hty as (Hne & Hk & Hty).
  destruct (column_reads k _ v _ Hv (Hrec k ltac:(lia))) as (chunks & parts & p' & Hc & Hd & HF);
    [lia|done|done| |].
  { apply Forall_map. eapply Forall_impl; [exact Harrs|].
    intros a (? & ? & ? & -> & _)%nested_struct_inv. rewrite extract_struct_validity. by constructor. }
  destruct (IH Hty) as (ds & ds' & columns & rows' & Hcs & Hds & Hlc & Hlens & Ht & HFr);
    [|by intros i Hi; apply Hrec; lia|done|].
  { clear - Hrows Harrs. induction Hrows as [|a row arrs rows Hrow _ IHr]; [constructor|].
    apply Forall_cons in Harrs as [Ha Harrs]. constructor; [|by apply IHr].
    apply nested_struct_inv in Ha as (? & nulls & m & -> & _ & _ & _ & Hf). injection Hrow as <-.
    by exists nulls, m. }
  assert (Hjoin : ∃ arrs', traverse (join_struct fs) (zip parts rows') = Ok arrs' ∧ Forall2 reads_as arrs arrs').
  { pose proof (nested_fields_view fs Hty) as Hview. clear - Hrows Harrs HF HFr Hview.
    revert parts rows' HF HFr. induction Hrows as [|a row arrs rows Hrow _ IHr]; intros parts rows' HF HFr.
    - cbn in HF. apply Forall2_nil_inv_l in HF as ->. by exists [].
    - cbn [map] in HF. apply Forall2_cons_inv_l in HF as (part & parts' & Hp & HF & ->).
      apply Forall2_cons_inv_l in HFr as (row' & rows2 & Hrr & HFr & ->).
      apply Forall_cons in Harrs as [Ha Harrs]. destruct (IHr Harrs _ _ HF HFr) as (arrs' & Ht & HFa).
      destruct (join_struct_reads aligned fs a part row' Ha Hp) as (a' & Hj & Har);
        [intros cs Hcs; rewrite Hrow in Hcs; by injection Hcs as <-|done|].
      exists (a' :: arrs'). split; [|by constructor]. cbn [zip zip_with traverse]. rewrite Hj. cbn [obind].
      by rewrite Ht. }
  destruct Hjoin as (arrs' & Hj & HFa). eexists _, _, arrs'. rewrite create_struct_decoder, Hc. cbn [obind].
  rewrite Hcs. split; [done|]. rewrite decode_struct, Hd. cbn [obind]. rewrite Hds. cbn [obind].
  destruct columns as [|c columns]; [destruct fs; done|]. apply Forall_cons in Hlens as [Hlen _].
  cbn [transpose]. rewrite Hlen, Ht. cbn [obind]. by rewrite Hj.
Qed.

Lemma no_fields_read_back k rows : Forall (λ row, row = []) rows → fields_read_back [] k k rows.
Proof using Type.
  intros Hrows _ _ _ _. exists [], [], [], (replicate (length rows) []). rewrite transpose_nil.
  do 5 (split; [done|]). clear - Hrows. induction Hrows as [|row rows -> _ IH]; constructor; [constructor|exact IH].
Qed.

Lemma field_rows_ok f fs heads tails :
  length heads = length tails → Forall (row_ok (f :: fs)) (zip_with cons heads tails) →
  Forall (nested_ok aligned (data_type f)) heads ∧ Forall (row_ok fs) tails.
Proof using Type.
  revert tails. induction heads as [|h heads IH]; intros [|t tails] Hl Hrows; try done.
  cbn in Hrows. apply Forall_cons in Hrows as [(nulls & n & Hok) Hrows].
  destruct (IH tails) as [Hh Ht]; [by injection Hl|done|].
  inversion Hok; subst. split; constructor; try done. by eexists _, _.
Qed.

Lemma zip_cons_length heads (tails : list (list Array)) :
  length heads = length tails → length (zip_with cons heads tails) = length heads.
Proof using Type. intros Hl. rewrite length_zip_with. lia. Qed.

Lemma zip_cons_reads (R0 : Array → Array → Prop) heads heads' tails tails' :
  Forall2 R0 heads heads' → Forall2 (Forall2 R0) tails tails' →
  Forall2 (Forall2 R0) (zip_with cons heads tails) (zip_with cons heads' tails').
Proof using Type.
  intros HF. revert tails tails'. induction HF as [|h h' heads heads' Hh _ IH]; intros tails tails' HT; [constructor|].
  destruct HT as [|t t' tails tails' Ht HT]; [constructor|]. cbn. constructor; [by constructor|by apply IH].
Qed.

Lemma field_reads_back f fs k m n heads tails :
  (k ≤ m)%nat → (m ≤ n)%nat → length heads = length tails →
  reads_back (data_type f) k m heads → fields_read_back fs m n tails →
  fields_read_back (f :: fs) k n (zip_with cons heads tails).
Proof using All.
  intros Hkm Hmn Hl IHf IHfs Hty Hrows Hrec Hn. apply field_rows_ok in Hrows as [Hheads Htails]; [|done].
  inversion Hty; subst.
  destruct IHf as (d & d' & heads' & Hc & Hd & HF); [done|done|by intros i Hi; apply Hrec; lia|lia|].
  destruct IHfs as (ds & ds' & columns & tails' & Hcs & Hds & Hlc & Hlens & Ht & HFt);
    [done|done|by intros i Hi; apply Hrec; lia|done|].
  rewrite zip_cons_length by done. apply Forall2_length in HF as Hlh.
  exists (d :: ds), (d' :: ds'), (heads' :: columns), (zip_with cons heads' tails').
  destruct f as [nm t nl]. cbn [create_children data_type] in *. rewrite Hc. cbn [obind]. rewrite Hcs.
  split; [done|]. cbn [decode_children]. rewrite Hd. cbn [obind]. rewrite Hds. split; [done|].
  split; [cbn; by rewrite Hlc|]. rewrite Hl in *. split; [by constructor|].
  split; [by apply transpose_cons|by apply zip_cons_reads].
Qed.

Lemma shaped_reads_back dt k n e arrs : shaped pushdown written dt k n e arrs → reads_back dt k n arrs.
Proof using All.
  apply (shaped_mut pushdown written (λ dt k n _ arrs _, reads_back dt k n arrs)
    (λ fs k n _ rows _, fields_read_back fs k n rows)).
  - intros. by eapply flat_reads_back.
  - intros large f k' n' o v as_ items _ Ho Hitems Hv IH. apply shaped_range in Hv.
    eapply list_reads_back; [exact Ho|exact Hitems|lia|exact IH].
  - intros fs k' n' v es as_ rows Hv Hrows Hes IH. apply shaped_fields_range in Hes.
    eapply struct_reads_back; [exact Hv|exact Hrows|lia|exact IH].
  - intros. by apply no_fields_read_back.
  - intros f fs k' m n' e' es heads tails He IHe Hes IHes Hl. apply shaped_range in He.
    apply shaped_fields_range in Hes. eapply field_reads_back; [| |done|exact IHe|exact IHes]; lia.
Qed.
End Columns.
