(* ===== verification/NestedRoundtrip.v ===== *)
(** * A nested column, written and read back

    The encoder and the decoder of a column of lists and structs together, over any
    codec that keeps the interfaces of [DecoderFacts.v] and [NestedRead.v]; and the
    codec of [Vortex.v], which keeps both. *)

From S2P Require Import Prelude Arrow EncUnit Common Footer Options Chunks Encoders Buffers.
From S2P Require Import Wire Writer Dict Float64 Sketch SharedDict PhysEnc PhysEncFacts LogicalEnc Table.
From S2P Require Import Decoders LogicalDec DecoderFacts EndToEnd.
From S2P Require Import Vortex VortexFacts VortexLists VortexExample Nested NestedRead.
From stdpp Require Import list.
Open Scope Z_scope.

(** ** The codec of the repository *)

(** The encoders and decoders that call [vortex.rs]; the plugins, the WASM runtime and
    Arrow's [concat] stay parameters. *)
Section Codec.
Context `{VortexLib} (keeps : DataType → Prop) `{!VortexLibLaws keeps}.
Context (Plugin : Type) (plugin_new : string → outcome Plugin)
  (plugin_call : Plugin → string → Array → outcome (list Z)).
Context (RT : Type) (multi_buf : RT → string → list Z → outcome (list (list Z)))
  (runtime_new : list Z → outcome RT) (concat_arrow : list Array → outcome Array).

Definition vortex_encoders : EncoderLibs := {|
  Library := Plugin;
  library_new := plugin_new;
  library_call := plugin_call;
  vortex_encode enable_dict arr := encode (mkVortexEncoder enable_dict) arr;
  Encoders.list_struct_encode := list_struct_encode VortexEncoder_default;
|}.

Definition vortex_decoders : DecoderLibs RT := {|
  vortex_decode := unit_vortex_decode;
  vortex_slice := unit_vortex_slice;
  vortex_list_decode := unit_list_decode;
  vortex_list_struct_decode := unit_list_struct_decode;
  vortex_list_struct_slice := unit_list_struct_slice;
  call_multi_buf := multi_buf;
  Runtime_try_new := runtime_new;
  concat_nested := concat_arrow;
|}.

(** Lists are kept when their validity and offsets are. *)
Definition lists_kept (large : bool) : Prop := keeps Boolean ∧ keeps (offset_type large).

(** The validity starts at a byte, with and without dictionaries. *)
Definition validity_aligned (bits : list bool) : Prop :=
  ∀ enable_dict, byte_aligned keeps (mkVortexEncoder enable_dict) (boolean_array bits).

Lemma codec_keeps_flat : @VortexLaws vortex_encoders RT vortex_decoders keeps.
Proof using All. split. intros ed dt vals u Hnn Hk Hu. exact (flat_decode_encode keeps ed dt vals u Hnn Hk Hu). Qed.

Lemma codec_keeps_slices : @VortexSliceLaws vortex_encoders RT vortex_decoders keeps.
Proof using All.
  split. intros ed dt vals u start stop Hnn Hk Hu H0 Hs Hn.
  change (vortex_slice (EncUnit_try_serialize u) start stop)
    with (unit_vortex_slice (EncUnit_try_serialize u) start stop).
  rewrite (flat_slice_encode keeps (mkVortexEncoder ed) dt vals u start stop Hnn Hk Hu H0 Hs Hn). unfold arr_slice.
  cbn [arr_len]. rewrite (proj2 (Z.leb_le 0 start)), (proj2 (Z.leb_le 0 (stop - start))) by lia.
  rewrite (proj2 (Z.leb_le _ (len vals))) by lia. done.
Qed.

Lemma codec_keeps_lists : @ListLaws vortex_encoders RT vortex_decoders lists_kept validity_aligned.
Proof using All.
  split. intros ed large f offsets values nulls u [Hb Ho] Hal Hok Hu.
  destruct (encoded_lists_of keeps (mkVortexEncoder ed) large f offsets values nulls u Hb Ho (Hal ed) Hok Hu)
    as (nulls' & Hd & Hs).
  exists nulls'. split; [|done]. by destruct large.
Qed.
End Codec.

(** ** One column *)

Section Column.
Context {R RT : Type} `{Reader R} `{Flatbuffers} `{EncoderLibs} `{DecoderLibs RT}.
Context `{Codecs} `{!CodecsLaws} `{Checksum} `{Sampling} (pushdown : bool) (string_hash : string → Z).
Context (keeps : DataType → Prop) (list_kept : bool → Prop) (aligned : list bool → Prop).
Context `{!VortexLaws keeps} `{!ListLaws list_kept aligned}.

Lemma written_column_reads limit wasm ct opt seed dt k e tree idx arrs counter sctx out e' counter' sctx'
    (r : R) file ck (ctx : WASMReadingContext R RT) cache ckt metas :
  0 ≤ limit → no_dictionary_column opt →
  nested_type pushdown (column_ok keeps list_kept wasm) dt →
  create_encoder pushdown limit wasm opt ct seed dt (mkColumnIndex (Z.of_nat k)) = Ok (e, tree, idx) →
  Forall (nested_ok aligned dt) arrs →
  log_run string_hash e arrs counter sctx = Ok (out, e', counter', sctx') →
  ReaderOf R r file → ckt = None ∨ ck = true → reads_builtin (Some ctx) →
  (∀ i, (k ≤ i)%nat → Z.of_nat i < current_index idx → column_recorded out ck file metas i) →
  ∃ d d' arrs', create_decoder r metas (Some ctx) cache ckt dt (mkColumnIndex (Z.of_nat k)) = Ok (d, idx) ∧
    log_decode_batch pushdown d = Ok (arrs', d') ∧ Forall2 reads_as arrs arrs'.
Proof using All.
  intros Hlimit Hopt Hty Hc Harrs Hrun Hr Hck Hctx Hrec.
  destruct (create_shaped pushdown limit wasm ct (column_ok keeps list_kept wasm) opt Hopt seed dt Hty
    k e tree idx Hc) as (n & -> & Hs & Hn). cbn [current_index] in Hrec.
  destruct (log_run_writes pushdown limit wasm ct Hlimit string_hash aligned dt k n e arrs counter sctx
    out e' counter' sctx' Hs Harrs Hrun) as (Hw & _ & _).
  eapply shaped_reads_back in Hw; [|done..]. apply Hw; [done|done| |done].
  intros i [Hk Hi]. apply Hrec; [done|lia].
Qed.

(** C6: a nested column is read back.  A field of lists and structs of any depth is
    several physical columns; when the arrays that its encoder, new and without
    dictionaries, encoded for a row group are recorded in a file under these columns,
    the decoder of the field takes the same columns and gives the same arrays: the
    same offsets, the same validity at every level, and strings as views. *)
Theorem nested_column_reads_back limit wasm ct opt seed dt k e tree idx arrs counter sctx out e' counter'
    sctx' (r : R) file ck (ctx : WASMReadingContext R RT) cache ckt metas :
  0 ≤ limit → no_dictionary_column opt →
  nested_type pushdown (column_ok keeps list_kept wasm) dt →
  create_encoder pushdown limit wasm opt ct seed dt (mkColumnIndex (Z.of_nat k)) = Ok (e, tree, idx) →
  Forall (nested_ok aligned dt) arrs →
  log_run string_hash e arrs counter sctx = Ok (out, e', counter', sctx') →
  ReaderOf R r file → ckt = None ∨ ck = true → reads_builtin (Some ctx) →
  (∀ i, (k ≤ i)%nat → Z.of_nat i < current_index idx → column_recorded out ck file metas i) →
  ∃ d d' arrs', create_decoder r metas (Some ctx) cache ckt dt (mkColumnIndex (Z.of_nat k)) = Ok (d, idx) ∧
    log_decode_batch pushdown d = Ok (arrs', d') ∧ Forall2 reads_as arrs arrs'.
Proof using All. by apply written_column_reads. Qed.
End Column.

(** ** Example *)

Section Example.
#[local] Existing Instance small_vortex.
#[local] Existing Instance stored.
#[local] Existing Instance stored_laws.
#[local] Existing Instance sum_checksum.
#[local] Existing Instance no_sampling.
#[local] Existing Instance symbol_flatbuffers.

#[local] Instance small_encoders : EncoderLibs :=
  vortex_encoders unit (λ _, Err (NYI "plugin")) (λ _ _ _, Err (NYI "plugin")).
#[local] Instance small_decoders : DecoderLibs unit :=
  vortex_decoders unit (λ _ _ _, Err (NYI "runtime")) (λ _, Err (NYI "runtime"))
    (λ _, Err (NYI "concat")).
#[local] Instance small_flat : VortexLaws small_kept := codec_keeps_flat small_kept _ _ _ _ _ _ _.
#[local] Instance small_list : ListLaws (lists_kept small_kept) (validity_aligned small_kept) :=
  codec_keeps_lists small_kept _ _ _ _ _ _ _.

(** A struct of an integer and a list of integers. *)
Definition pair_fields : list Field :=
  [mkField "a" Int32 true; mkField "b" (List (mkField "item" Int64 true)) true].

Definition some_ints (l : list Z) : list (option value) := map (Some ∘ VInt) l.

(** Rows with and without nulls at every level. *)
Definition pair_arrays : list Array :=
  [StructArray pair_fields
     [PrimArray Int32 (None :: some_ints [7]);
      ListArray false (mkField "item" Int64 true) [0; 2; 3] (PrimArray Int64 (some_ints [1; 2; 3])) None]
     (Some [true; false]) 2;
   StructArray pair_fields
     [PrimArray Int32 (some_ints [8]);
      ListArray false (mkField "item" Int64 true) [0; 0] (PrimArray Int64 []) (Some [false])] None 1].

Definition pair_run : outcome (list EncodedColumnChunk * LogicalEncoder * EncodingCounter *
    SharedDictionaryContext) :=
  let! '(e, _, _) := create_encoder true 8 WASMWritingContext_empty NoDictionaryOption Uncompressed (λ _, tt : @Rng no_sampling)
    (Struct pair_fields) (mkColumnIndex (Z.of_nat 0)) in
  log_run length_hash e pair_arrays EncodingCounter_default (SharedDictionaryContext_new 0 0 false Uncompressed).

(** The metadata of a column: its chunks, where they are in the file. *)
Definition metadata_of (chunks : list EncodedColumnChunk) (i : nat) : fb.ColumnMetadata :=
  fb.mkColumnMetadata (Some (map Chunk_to_fb (of_column (Z.of_nat i) (placed true 0 chunks)))).

Lemma pairs_aligned bits : validity_aligned small_kept bits.
Proof. intros ed. apply small_aligned. Qed.

Lemma pair_lists offsets ints nulls n :
  lists_ok (list_bits nulls offsets) offsets → head offsets = Some 0 → last offsets = Some (len ints) →
  len offsets - 1 = n → nested_ok (validity_aligned small_kept) (List (mkField "item" Int64 true))
    (ListArray false (mkField "item" Int64 true) offsets (PrimArray Int64 ints) nulls).
Proof.
  intros Hl Hh Hla Hn. apply (ok_list _ false); [done|apply pairs_aligned|done|done|done|by constructor].
Qed.

Lemma pairs_ok : Forall (nested_ok (validity_aligned small_kept) (Struct pair_fields)) pair_arrays.
Proof.
  constructor; [|constructor; [|constructor]]; (constructor; [lia|done|done|]);
    (constructor; [by constructor|done|done|]); constructor; try done;
    try (by apply (pair_lists _ _ _ 2)); try (by apply (pair_lists _ _ _ 1)); constructor.
Qed.

Lemma pair_type wasm :
  built_in wasm Boolean → built_in wasm Int32 → built_in wasm Int64 →
  built_in wasm (List (mkField "item" Int64 true)) →
  nested_type true (column_ok small_kept (lists_kept small_kept) wasm) (Struct pair_fields).
Proof.
  intros Hb H32 H64 Hl. apply nt_struct; [done|by split; [|left]|].
  constructor; [done|apply nt_flat; [done|split; [done|by right; left]]|].
  constructor; [done| |constructor].
  apply (nt_list true _ false); [done| |done|apply nt_flat; [done|split; [done|by right; right]]].
  split; [done|]. split; [by left|by right; left].
Qed.

(** Eight chunks of four physical columns; the arrays come back with the validity of
    the structs and lists written out. *)
Lemma nested_column_reads_back_witness :
  ∃ chunks e' counter' sctx' d d' arrs',
    pair_run = Ok (chunks, e', counter', sctx') ∧ len chunks = 8 ∧
    create_decoder (chunks_file chunks) (map (metadata_of chunks) (seq 0 4)) (Some current_context)
      (mkCache [] [] [] []) (Some XxHash) (Struct pair_fields) (mkColumnIndex 0) = Ok (d, mkColumnIndex 4) ∧
    log_decode_batch true d = Ok (arrs', d') ∧ Forall2 reads_as pair_arrays arrs'.
Proof.
  destruct (create_encoder true 8 WASMWritingContext_empty NoDictionaryOption Uncompressed
    (λ _, tt : @Rng no_sampling) (Struct pair_fields) (mkColumnIndex (Z.of_nat 0))) as [[[e tree] idx]| |] eqn:Hc;
    [|done..].
  assert (Hrun : match pair_run with
    | Ok (chunks, _, _, _) => forallb chunk_fitsb chunks && (len chunks =? 8)
        && (len (chunks_file chunks) <? 2 ^ 64) | _ => false end = true) by by vm_compute.
  destruct pair_run as [[[[chunks e'] counter'] sctx']| |] eqn:Hp; [|done..].
  apply andb_prop in Hrun as [Hrun Hlen]. apply andb_prop in Hrun as [Hfit Hn].
  apply chunks_fit in Hfit. apply Z.eqb_eq in Hn. apply Z.ltb_lt in Hlen.
  unfold pair_run in Hp. rewrite Hc in Hp. cbn [obind] in Hp.
  assert (Hidx : idx = mkColumnIndex 4) by (cbn in Hc; by injection Hc as _ _ <-). subst idx.
  destruct (nested_column_reads_back (R:=list Z) (RT:=unit) true length_hash small_kept
    (lists_kept small_kept) (validity_aligned small_kept) 8 WASMWritingContext_empty Uncompressed
    NoDictionaryOption (λ _, tt : @Rng no_sampling) (Struct pair_fields) 0 e tree (mkColumnIndex 4) pair_arrays
    EncodingCounter_default (SharedDictionaryContext_new 0 0 false Uncompressed) chunks e' counter' sctx'
    (chunks_file chunks) (chunks_file chunks) true current_context (mkCache [] [] [] []) (Some XxHash)
    (map (metadata_of chunks) (seq 0 4))) as (d & d' & arrs' & Hd & Hdec & HF).
  - lia.
  - by left.
  - by apply pair_type.
  - exact Hc.
  - exact pairs_ok.
  - exact Hp.
  - by apply slice_reader_of.
  - by right.
  - exact current_reads_builtin.
  - intros i _ Hi. cbn [current_index] in Hi. exists (of_column (Z.of_nat i) (placed true 0 chunks)).
    split; [by rewrite list_lookup_fmap, lookup_seq_lt by lia|].
    pose proof (placed_records true (Z.of_nat i) [] chunks [] Hfit) as Hrec.
    unfold chunks_file. by rewrite app_nil_l, app_nil_r in Hrec.
  - exists chunks, e', counter', sctx', d, d', arrs'. split_and!; [done|exact Hn|exact Hd|exact Hdec|exact HF].
Defined.

(** A list of one list of one string. *)
Definition string_lists : Field := mkField "item" (List (mkField "item" Utf8 true)) true.
Definition one_string : Array :=
  ListArray false (mkField "item" Utf8 true) [0; 1] (PrimArray Utf8 [Some (VStr "x")]) None.
Definition read_string : Array :=
  ListArray false (mkField "item" Utf8View true) [0; 1] (PrimArray Utf8View [Some (VStr "x")])
    (Some [true]).

Lemma nested_strings_panic_witness :
  join_list (List string_lists)
    (ListArray false DUMMY_NULL_FIELD [0; 1] (null_array 1) (Some [true]), read_string) = Panic PAssert.
Proof.
  destruct (nested_strings_panic (validity_aligned small_kept)) as [Hlists _].
  apply (Hlists false string_lists (ListArray false string_lists [0; 1] one_string None) one_string).
  - apply (ok_list _ false); [done|apply pairs_aligned|done|done|done|].
    apply (ok_list _ false); [done|apply pairs_aligned|done|done|done|by constructor].
  - apply (part_list false string_lists [0; 1] one_string None). by left.
  - done.
  - apply ra_list; [by left|constructor].
  - done.
Defined.
End Example.
