(* ===== verification/NestedTable.v ===== *)
(** * A table of nested columns, written and read back

    The columns of a schema take consecutive ranges of physical columns; a step of one
    does not touch the chunks of another.  The columns of [Nested.v] are therefore
    columns of a table in the sense of [Table.v], and a file of them is read back. *)

From S2P Require Import Prelude Arrow EncUnit Common Footer Options Chunks Encoders Buffers.
From S2P Require Import Selection Reader Wire Writer FileRoundtrip WriterSpec Dict SharedDict PhysEnc PhysEncFacts.
From S2P Require Import LogicalEnc LogicalEncFacts Table.
From S2P Require Import Decoders DictCache LogicalDec OpenFile ReadFile DecoderFacts EndToEnd.
From S2P Require Import VortexFacts VortexLists Nested NestedRead.
From stdpp Require Import list.
Open Scope Z_scope.

(** ** Where the columns are *)

(** The type of a column and its physical columns, from the first to the one after
    the last. *)
Record Place := mkPlace { pl_type : DataType; pl_start : nat; pl_end : nat }.

Fixpoint places_from (k : nat) (places : list Place) (n : nat) : Prop :=
  match places with
  | [] => k = n
  | p :: places => pl_start p = k ∧ (k < pl_end p)%nat ∧ places_from (pl_end p) places n
  end.

Definition inside (p : Place) (i : nat) : Prop := (pl_start p ≤ i < pl_end p)%nat.

Lemma places_bounds k places n i p :
  places_from k places n → places !! i = Some p → (k ≤ pl_start p)%nat ∧ (pl_start p < pl_end p ≤ n)%nat.
Proof.
  revert k i. induction places as [|q places IH]; intros k i Hp Hi; [done|].
  destruct Hp as (<- & Hlt & Hp). assert (Hn : (pl_end q ≤ n)%nat).
  { clear - Hp. revert Hp. generalize (pl_end q). induction places as [|r places IH]; intros m Hp; cbn in Hp; [lia|].
    destruct Hp as (<- & Hr & Hp). specialize (IH _ Hp). lia. }
  destruct i as [|i]; [injection Hi as ->; lia|]. destruct (IH _ i Hp Hi). lia.
Qed.

Lemma places_later k places n i p : places_from k places n → places !! i = Some p → (k + i ≤ pl_start p)%nat.
Proof.
  revert k i. induction places as [|q places IH]; intros k i Hp Hi; [done|].
  destruct Hp as (<- & Hlt & Hp). destruct i as [|i]; [injection Hi as ->; lia|].
  specialize (IH _ i Hp Hi). lia.
Qed.

(** The ranges of two columns have nothing in common. *)
Lemma places_apart k places n i j p q c :
  places_from k places n → places !! i = Some p → places !! j = Some q → i ≠ j →
  inside p c → ¬ inside q c.
Proof.
  revert k i j. induction places as [|r places IH]; intros k i j Hp Hi Hj Hij; [done|].
  destruct Hp as (Hr & Hlt & Hp). unfold inside in *.
  destruct i as [|i], j as [|j]; [done| | |eapply IH; [exact Hp|exact Hi|exact Hj|lia]].
  - injection Hi as ->. destruct (places_bounds _ _ _ _ _ Hp Hj). lia.
  - injection Hj as ->. destruct (places_bounds _ _ _ _ _ Hp Hi). lia.
Qed.

(** ** A nested column among others *)

Section Write.
Context `{EncoderLibs} `{Codecs} `{Sampling} (string_hash : string → Z) (pushdown : bool).
Context (limit : Z) (wasm : WASMWritingContext) (ct : CompressionType) (Hlimit : 0 ≤ limit).
Context (aligned : list bool → Prop) (places : list Place) (total : nat).
Context (Hplaces : places_from 0 places total).
#[local] Instance nested_encoders : LogicalColEncoder LogicalEncoder SharedDictionaryContext :=
  logical_encoder string_hash.

Abbreviation S := (Spec LogicalEncoder SharedDictionaryContext).
Abbreviation filling out := (filling_in limit wasm ct out).
Abbreviation written out := (written_in limit wasm ct out).

(** What a step of column [i] leaves alone. *)
Record only_places (i : nat) (s s' : S) : Prop := {
  op_encoders j : j ≠ i → sp_encoders s' !! j = sp_encoders s !! j;
  op_counters j : j ≠ i → sp_counters s' !! j = sp_counters s !! j;
  op_chunks c : (∀ p, places !! i = Some p → ¬ inside p c) →
    filter (column_of c) (g_chunks (sp_current s')) = filter (column_of c) (g_chunks (sp_current s));
}.

(** The columns of a place, whatever is said of each. *)
Definition in_place (P : nat → DataType → PhysicalColEncoder → list Array → Prop) (arrs : list Array)
    (i : nat) (encoder : option LogicalEncoder) : Prop :=
  ∃ p e, places !! i = Some p ∧ encoder = Some e ∧
    shaped pushdown P (pl_type p) (pl_start p) (pl_end p) e arrs.

Definition nested_pending (arrs : list Array) (i : nat) (s : S) : Prop :=
  in_place (filling (g_chunks (sp_current s))) arrs i (sp_encoders s !! i) ∧ is_Some (sp_counters s !! i).

Definition nested_finished (arrs : list Array) (i : nat) (s : S) : Prop :=
  in_place (written (g_chunks (sp_current s))) arrs i (sp_encoders s !! i) ∧ is_Some (sp_counters s !! i).

Definition nested_written (arrs : list Array) (i : nat) (g : Group) : Prop :=
  ∃ e, in_place (written (g_chunks g)) arrs i e.

Definition nested_fits (i : nat) (a : Array) : Prop :=
  ∀ p, places !! i = Some p → nested_ok aligned (pl_type p) a.

(** What is said of the columns of a place depends on their chunks only. *)
Lemma in_place_ext (F : list EncodedColumnChunk → nat → DataType → PhysicalColEncoder → list Array → Prop)
    out out' arrs i encoder :
  (∀ i t d as_, filter (column_of i) out' = filter (column_of i) out → F out i t d as_ → F out' i t d as_) →
  (∀ p c, places !! i = Some p → inside p c → filter (column_of c) out' = filter (column_of c) out) →
  in_place (F out) arrs i encoder → in_place (F out') arrs i encoder.
Proof using Type.
  intros Hext Hc (p & e & Hp & He & Hs). exists p, e. split; [done|]. split; [done|].
  eapply shaped_impl; [exact Hs|]. intros c t d as_ Hin. apply Hext. by apply (Hc p).
Qed.

Lemma other_place i j s s' p c :
  i ≠ j → only_places i s s' → places !! j = Some p → inside p c →
  filter (column_of c) (g_chunks (sp_current s')) = filter (column_of c) (g_chunks (sp_current s)).
Proof using Hplaces.
  intros Hij Ho Hp Hc. apply (op_chunks _ _ _ Ho). intros q Hq.
  by apply (places_apart _ _ _ j i p q c Hplaces Hp Hq).
Qed.

Lemma pending_elsewhere arrs i j s s' :
  i ≠ j → only_places i s s' → nested_pending arrs j s → nested_pending arrs j s'.
Proof using Hplaces.
  intros Hij Ho [Hin Hc]. unfold nested_pending.
  rewrite (op_encoders _ _ _ Ho), (op_counters _ _ _ Ho) by done. split; [|done].
  eapply in_place_ext; [|intros p c; by apply (other_place i j)|exact Hin].
  intros. by eapply filling_ext.
Qed.

Lemma finished_elsewhere arrs i j s s' :
  i ≠ j → only_places i s s' → nested_finished arrs j s → nested_finished arrs j s'.
Proof using Hplaces.
  intros Hij Ho [Hin Hc]. unfold nested_finished.
  rewrite (op_encoders _ _ _ Ho), (op_counters _ _ _ Ho) by done. split; [|done].
  eapply in_place_ext; [|intros p c; by apply (other_place i j)|exact Hin].
  intros. by eapply written_ext.
Qed.

(** Emitting chunks of the columns of a place. *)
Lemma emit_place i p (s : S) e' c' cs :
  places !! i = Some p → Forall (in_range (pl_start p) (pl_end p)) cs →
  let s' : S := mkSpec (<[i := e']> (sp_encoders s)) (<[i := c']> (sp_counters s)) (sp_ctx s) (sp_rows s)
              (sp_groups s) (mkGroup (g_rows (sp_current s)) (g_chunks (sp_current s) ++ cs))
  in only_places i s s' ∧ same_rest eq s s'.
Proof using Type.
  intros Hp Hcs. cbv zeta. split; split; cbn; try done.
  - intros j Hj. by rewrite list_lookup_insert_ne.
  - intros j Hj. by rewrite list_lookup_insert_ne.
  - intros c Hc. specialize (Hc p Hp). unfold inside in Hc.
    by rewrite filter_app, (filter_other (pl_start p) (pl_end p) c cs), app_nil_r by (done || lia).
  - by rewrite length_insert.
Qed.

Lemma run_then_some
    (m : outcome (list EncodedColumnChunk * LogicalEncoder * EncodingCounter * SharedDictionaryContext))
    res e c ctx :
  then_some m = Ok (res, e, c, ctx) → m = Ok (default [] res, e, c, ctx).
Proof using Type.
  unfold then_some. intros Hm. apply obind_Ok in Hm as ([[[cs e1] c1] ctx1] & -> & [= <- <- <- <-]).
  by destruct cs.
Qed.

Lemma write_place rows arrs i (s : S) col s' :
  nested_pending arrs i s → nested_fits i col → sp_write_column ∅ rows s (Z.of_nat i, col) = Ok s' →
  nested_pending (arrs ++ [col]) i s' ∧ only_places i s s' ∧ same_rest eq s s'.
Proof using Type.
  intros [(p & e & Hp & He & Hs) [c0 Hc0]] Hfit Hw. unfold sp_write_column in Hw.
  apply obind_Ok in Hw as (x & _ & Hw). rewrite lookup_empty in Hw.
  apply (run_column _ _ _ _ _ He) in Hw as (c & res & e' & c' & ctx' & Hc & Hrun & ->).
  cbn [encode nested_encoders logical_encoder] in Hrun. apply run_then_some in Hrun.
  destruct (nested_step pushdown limit wasm ct string_hash aligned _ _ _ _ _ _ Hs _ _ _ _ _ _ _ (Hfit p Hp) Hrun)
    as (Hs' & Hr & ->).
  split; [|by apply (emit_place i p)]. split; cbn.
  - exists p, e'. split; [done|]. split; [|exact Hs']. apply list_lookup_insert_eq. by eapply lookup_lt_Some.
  - exists c'. apply list_lookup_insert_eq. by eapply lookup_lt_Some.
Qed.

Lemma finish_place arrs i (s : S) s' :
  nested_pending arrs i s → sp_run_encoder finish s (Z.of_nat i) = Ok s' →
  nested_finished arrs i s' ∧ only_places i s s' ∧ same_rest eq s s'.
Proof using Hlimit.
  intros [(p & e & Hp & He & Hs) [c0 Hc0]] Hw.
  apply (run_column _ _ _ _ _ He) in Hw as (c & res & e' & c' & ctx' & Hc & Hrun & ->).
  cbn [finish nested_encoders logical_encoder] in Hrun. apply run_then_some in Hrun.
  destruct (nested_closes pushdown limit wasm ct Hlimit string_hash _ _ _ _ _ _ Hs _ _ _ _ _ _ Hrun)
    as (Hs' & Hr & ->).
  split; [|by apply (emit_place i p)]. split; cbn.
  - exists p, e'. split; [done|]. split; [|exact Hs']. apply list_lookup_insert_eq. by eapply lookup_lt_Some.
  - exists c'. apply list_lookup_insert_eq. by eapply lookup_lt_Some.
Qed.

(** A finished column starts the next row group as new. *)
Lemma shaped_again P dt k n e arrs :
  shaped pushdown (written P) dt k n e arrs → shaped pushdown (filling []) dt k n e [].
Proof using Type.
  apply (shaped_mut pushdown (written P) (λ dt k n e _ _, shaped pushdown (filling []) dt k n e [])
    (λ fs k n es _ _, shaped_fields pushdown (filling []) fs k n es [])).
  - intros dt' k' d as_ Hnn (ed & chunks & -> & _). constructor; [done|apply filling_new].
  - intros large f k' n' o v as_ items Hpush (ed & chunks & -> & _) _ _ IH.
    apply sh_list with (items := []); [done|apply filling_new|constructor|done].
  - intros fs k' n' v es as_ rows (ed & chunks & -> & _) _ _ IH.
    apply sh_struct with (rows := []); [apply filling_new|constructor|done].
  - by constructor.
  - intros f fs k' m n' e' es heads tails _ IHe _ IHes _. by apply (sh_field _ _ f fs k' m n' e' es [] []).
Qed.

Lemma finished_place arrs i (s : S) : nested_finished arrs i s → nested_pending [] i (sp_close_group s).
Proof using Type.
  intros [(p & e & Hp & He & Hs) Hc]. split; [|done]. exists p, e. split; [done|]. split; [done|].
  by apply shaped_again in Hs.
Qed.

Lemma nested_steps :
  ColumnSteps string_hash eq nested_fits only_places nested_pending nested_finished (λ _, nested_written).
Proof using Hplaces Hlimit.
  split.
  - by intros c c' ->.
  - done.
  - intros arrs i j s s'. apply pending_elsewhere.
  - intros arrs i j s s'. apply finished_elsewhere.
  - intros rows arrs i s col s'. apply write_place.
  - intros arrs i s s'. apply finish_place.
  - done.
  - intros arrs i s. apply finished_place.
  - intros arrs i s [Hin _]. by eexists.
Qed.
End Write.

(** ** A new writer *)

Section New.
Context `{EncoderLibs} `{Codecs} `{Sampling} `{Checksum} `{Flatbuffers}.
Context (string_hash : string → Z) (pushdown : bool) (seed : Z → Rng) (column_ok : DataType → Prop).

(** The encoders of a schema take its places. *)
Lemma create_nested_encoders wasm o sch encs idx :
  no_dictionary_column (dictionary_type o) →
  Forall (λ f, nested_type pushdown column_ok (data_type f)) sch →
  create_encoders (create_logical_encoder pushdown seed) wasm o sch = Ok (encs, idx) →
  ∃ places total, places_from 0 places total ∧ current_index idx = Z.of_nat total ∧
    (sch ≠ [] → Z.of_nat total < 2 ^ 32) ∧ map pl_type places = map data_type sch ∧
    length encs = length sch ∧
    ∀ i p e, places !! i = Some p → map fst encs !! i = Some e →
      shaped pushdown (filling_in (iounit_size o) wasm (opt_compression_type o) [])
        (pl_type p) (pl_start p) (pl_end p) e [].
Proof.
  intros Hd Hsch Hc. unfold create_encoders, range in Hc.
  change ColumnIndexSequence_default with (mkColumnIndex (Z.of_nat 0)) in Hc.
  assert (Hids : length (seqZ 0 (len sch)) = length sch) by (rewrite length_seqZ; unfold len; lia).
  revert Hids Hc. generalize (seqZ 0 (len sch)). generalize 0%nat. revert encs idx.
  induction Hsch as [|f sch Hf Hsch IH]; intros encs idx k ids Hids Hc.
  - destruct ids; [|done]. cbn in Hc. injection Hc as <- <-. exists [], k. by split_and!.
  - destruct ids as [|id ids]; [done|]. injection Hids as Hids.
    cbn [zip zip_with traverse_st] in Hc. apply obind_Ok in Hc as ([et idx1] & Hc1 & Hc).
    apply obind_Ok in Hc1 as ([[e tree] idx2] & Hc1 & [= <- <-]).
    apply obind_Ok in Hc as ([encs' idx3] & Hc & [= <- <-]). unfold create_logical_encoder in Hc1.
    destruct (create_shaped pushdown (iounit_size o) wasm (opt_compression_type o) column_ok (dictionary_type o)
      Hd seed (data_type f) Hf k e tree idx2 Hc1) as (m & -> & Hs & Hm).
    destruct (IH encs' idx3 m ids Hids Hc) as (places & total & Hp & Hi & Hb & Ht & Hl & He).
    apply shaped_range in Hs as Hr.
    exists (mkPlace (data_type f) k m :: places), total. split_and!; [done|done|..].
    + intros _. destruct sch as [|f' sch]; [|by apply Hb]. destruct places; [|done]. cbn in Hp. by subst.
    + cbn. by rewrite Ht.
    + cbn. by rewrite Hl.
    + intros [|i] p e0 Hpi Hei; cbn in Hpi, Hei; [by simplify_eq|by apply (He i)].
Qed.
End New.

(** ** Reading a row group *)

(** The batch that is read for a written one: the columns as [reads_as] says, under the
    same names and nullability. *)
Definition batch_reads (sch : list Field) (b : Batch) (rb : RecordBatch) : Prop :=
  rb_schema rb = map (λ f, mkField (name f) (read_type (data_type f)) (nullable f)) sch ∧
  Forall2 reads_as b.1 (rb_columns rb).

(** A record batch of the schema, of arrays that Arrow accepts. *)
Definition nested_batch (aligned : list bool → Prop) (sch : list Field) (b : Batch) : Prop :=
  valid_batch sch b ∧ Forall2 (λ f a, nested_ok aligned (data_type f) a) sch b.1.

Lemma reads_as_nulls aligned dt a a' : nested_ok aligned dt a → reads_as a a' → has_nulls a' = has_nulls a.
Proof.
  intros Hok Hr. pose proof (reads_as_nullable aligned dt a a' Hok Hr) as Hn.
  destruct Hr as [t vals| |]; [|exact Hn..]. by destruct t.
Qed.

(** The columns of one batch. *)
Lemma nested_record_batch aligned sch b this :
  nested_batch aligned sch b → Forall2 reads_as b.1 this →
  ∃ rb, RecordBatch_try_new (map (λ '(c, f), mkField (name f) (arr_data_type c) (nullable f)) (zip this sch)) this
    = Ok rb ∧ batch_reads sch b rb.
Proof.
  intros [[rb0 Hrb] Hok] HF. apply record_batch_ok in Hrb as (_ & Hne & rows & Hfit).
  assert (Hsch : map (λ '(c, f), mkField (name f) (arr_data_type c) (nullable f)) (zip this sch)
    = map (λ f, mkField (name f) (read_type (data_type f)) (nullable f)) sch).
  { clear - Hok HF. revert this HF. induction Hok as [|f a sch columns Ha _ IH]; intros this HF.
    - by apply Forall2_nil_inv_l in HF as ->.
    - apply Forall2_cons_inv_l in HF as (a' & this' & Hr & HF & ->). cbn [zip zip_with map].
      by rewrite (reads_as_type aligned _ _ _ Ha Hr), (IH _ HF). }
  rewrite Hsch. exists (mkBatch (map (λ f, mkField (name f) (read_type (data_type f)) (nullable f)) sch) this).
  split; [|by split].
  apply record_batch_new with (rows := rows).
  { intros ->. apply Forall2_nil_inv_r in HF. done. }
  clear - Hok HF Hfit. revert this HF Hfit. induction Hok as [|f a sch columns Ha _ IH]; intros this HF Hfit.
  - apply Forall2_nil_inv_l in HF as ->. constructor.
  - apply Forall2_cons_inv_l in HF as (a' & this' & Hr & HF & ->). apply Forall2_cons in Hfit as [(Hl & Hn & _) Hfit].
    cbn [map]. constructor; [|by apply IH]. split; [by rewrite (reads_as_len _ _ Hr)|].
    cbn [nullable data_type]. rewrite (reads_as_nulls aligned _ _ _ Ha Hr).
    split; [done|]. by rewrite (reads_as_type aligned _ _ _ Ha Hr).
Qed.

Section Read.
Context {R RT : Type} `{Reader R} `{Flatbuffers} `{EncoderLibs} `{DecoderLibs RT}.
Context `{Codecs} `{!CodecsLaws} `{Checksum} `{Sampling} (pushdown : bool).
Context (keeps : DataType → Prop) (list_kept : bool → Prop) (aligned : list bool → Prop).
Context `{!VortexLaws keeps} `{!ListLaws list_kept aligned}.
Context (limit : Z) (wasm : WASMWritingContext) (ct : CompressionType) (Hlimit : 0 ≤ limit).
Context (r : R) (file : list Z) (Hr : ReaderOf R r file) (ck : bool).
Context (ctx : WASMReadingContext R RT) (cache : SharedDictionaryCache) (ckt : option ChecksumType).
Context (Hck : ckt = None ∨ ck = true) (Hctx : reads_builtin (Some ctx)).

Abbreviation written out := (written_in limit wasm ct out).
Abbreviation rtype := (nested_type pushdown (column_ok keeps list_kept wasm)).

Lemma decode_places out metas k places total sch arrss :
  places_from k places total → Z.of_nat total < 2 ^ 32 → map pl_type places = map data_type sch →
  Forall (λ f, rtype (data_type f)) sch →
  Forall2 (λ p arrs, Forall (nested_ok aligned (pl_type p)) arrs ∧
    ∃ e, shaped pushdown (written out) (pl_type p) (pl_start p) (pl_end p) e arrs) places arrss →
  (∀ i, (i < total)%nat → column_recorded out ck file metas i) →
  ∃ arrss', traverse_st
      (λ idx f, let! f := unwrap f in decode_col pushdown r metas (Some ctx) cache ckt All idx f)
      (mkColumnIndex (Z.of_nat k)) (map Some sch)
    = Ok (arrss', mkColumnIndex (Z.of_nat total)) ∧ Forall2 (Forall2 reads_as) arrss arrss'.
Proof using All.
  intros Hp Htotal Htypes Hsch HF Hrec. revert k sch Hp Htypes Hsch.
  induction HF as [|p arrs places arrss [Hok [e Hs]] _ IH]; intros k [|f sch] Hp Htypes Hsch; try done.
  - cbn in Hp. subst k. by exists [].
  - cbn [map] in Htypes. injection Htypes as Ht Htypes. apply Forall_cons in Hsch as [Hf Hsch].
    assert (Hend : (pl_end p ≤ total)%nat)
      by (destruct (places_bounds _ _ _ 0 p Hp eq_refl); lia).
    destruct Hp as (Hk & _ & Hp). rewrite Hk, Ht in Hs. rewrite Ht in Hok.
    eapply shaped_reads_back in Hs; [|done..].
    destruct (Hs Hf Hok) as (d & d' & arrs' & Hd & Hdec & Hra); [|lia|].
    { intros i Hi. apply Hrec. lia. }
    destruct (IH (pl_end p) sch Hp Htypes Hsch) as (arrss' & Hts & HFr).
    exists (arrs' :: arrss'). split; [|by constructor].
    assert (Hcol : decode_col pushdown r metas (Some ctx) cache ckt All (mkColumnIndex (Z.of_nat k)) f
      = Ok (arrs', mkColumnIndex (Z.of_nat (pl_end p)))).
    { unfold decode_col, create_logical_decoder. rewrite Hd. cbn [obind]. by rewrite Hdec. }
    cbn [map traverse_st unwrap obind]. rewrite Hcol. cbn [obind]. by rewrite Hts.
Qed.

(** The arrays of a column, all of its type. *)
Lemma nested_columns bs sch i f :
  Forall (nested_batch aligned sch) bs → sch !! i = Some f → Forall (nested_ok aligned (data_type f)) (column i bs).
Proof using Type.
  intros Hbs Hf. induction Hbs as [|b bs [_ Hb] _ IH]; [constructor|].
  destruct (Forall2_lookup_l _ _ _ _ _ Hb Hf) as (a & Ha & Hok).
  assert (Hc : column i (b :: bs) = a :: column i bs) by (unfold column; cbn; by rewrite Ha).
  rewrite Hc. by constructor.
Qed.

Lemma column_metadata_recorded total g rg m i :
  cols_record (Z.of_nat total) ck file (g_chunks g) (col_metadatas rg) →
  column_metadatas m = map ColumnMetadata_to_fb (col_metadatas rg) → (i < total)%nat →
  column_recorded (g_chunks g) ck file (column_metadatas m) i.
Proof using Type.
  intros [Hn Hrec] Hm Hi. destruct (lookup_lt_is_Some_2 (col_metadatas rg) i) as [mi Hmi]; [unfold len in Hn; lia|].
  exists (column_chunks mi). split; [by rewrite Hm, list_lookup_fmap, Hmi|]. exact (Hrec i mi Hmi).
Qed.

(** A row group gives its batches. *)
Lemma nested_group_reads places total sch bs g rg m :
  places_from 0 places total → Z.of_nat total < 2 ^ 32 → map pl_type places = map data_type sch →
  sch ≠ [] → Forall (λ f, rtype (data_type f)) sch → Forall (nested_batch aligned sch) bs →
  group_written (written:=nested_written pushdown limit wasm ct places) (length sch) bs g →
  cols_record (Z.of_nat total) ck file (g_chunks g) (col_metadatas rg) →
  column_metadatas m = map ColumnMetadata_to_fb (col_metadatas rg) →
  ∃ rbs, read_row_group pushdown r sch ProjectAll (Some ctx) cache ckt (m, All) = Ok rbs ∧
    Forall2 (batch_reads sch) bs rbs.
Proof using All.
  intros Hp Htotal Htypes Hne Hsch Hbs [_ Hw] Hcols Hm.
  assert (Hlp : length places = length sch) by (rewrite <-(length_map pl_type), Htypes; apply length_map).
  assert (Hbl : Forall (λ b : Batch, length b.1 = length sch) bs).
  { eapply Forall_impl; [exact Hbs|]. intros b [_ HF]. by apply Forall2_length in HF. }
  destruct (decode_places (g_chunks g) (column_metadatas m) 0 places total sch
    (map (λ i, column i bs) (seq 0 (length sch)))) as (arrss' & Ht & HF); try done.
  { apply Forall2_same_length_lookup_2; [by rewrite length_map, length_seq|]. intros i p arrs Hpi Harrs.
    apply lookup_lt_Some in Hpi as Hi. rewrite list_lookup_fmap, lookup_seq_lt in Harrs by lia. injection Harrs as <-.
    destruct (Hw i ltac:(lia)) as (e & q & e' & Hq & _ & Hs). assert (q = p) as -> by congruence.
    split; [|by exists e'].
    destruct (lookup_lt_is_Some_2 sch i) as [f Hf]; [lia|].
    assert (Hpt : pl_type p = data_type f).
    { assert (Hl : map pl_type places !! i = map data_type sch !! i) by by rewrite Htypes.
      rewrite !list_lookup_fmap, Hpi, Hf in Hl. by injection Hl. }
    rewrite Hpt. by apply (nested_columns bs sch). }
  { intros i Hi. by apply (column_metadata_recorded total g rg). }
  apply (row_group_batches pushdown r (Some ctx) cache ckt sch All reads_as (batch_reads sch) bs m arrss'); try done.
  - unfold decode_columns. change ColumnIndexSequence_default with (mkColumnIndex (Z.of_nat 0)). by rewrite Ht.
  - intros b this Hb HFt. apply (nested_record_batch aligned); [|done].
    rewrite Forall_forall in Hbs. by apply Hbs.
Qed.
End Read.

(** ** The whole file *)

Section Table.
Context {R RT : Type} `{Reader R} `{Flatbuffers} `{!FlatbuffersLaws} `{EncoderLibs} `{DecoderLibs RT}.
Context `{Codecs} `{!CodecsLaws} `{Checksum} `{!ChecksumLaws} `{Sampling}.
Context (keeps : DataType → Prop) (list_kept : bool → Prop) (aligned : list bool → Prop).
Context `{!VortexLaws keeps} `{!ListLaws list_kept aligned}.
Context (string_hash : string → Z) (coeffs : list (Z * Z)).
Context (max : Z) `{!BoundedUnits max} (Hmax : 0 ≤ max).

#[local] Instance nested_table_encoders : LogicalColEncoder LogicalEncoder SharedDictionaryContext :=
  logical_encoder string_hash.
#[local] Instance nested_table_dictionaries : SharedDictionaryOps SharedDictionaryContext :=
  shared_dictionary_ops string_hash coeffs.

(** A new writer starts an empty table of the places of its schema. *)
Lemma new_nested_table pushdown seed builtin sch o w :
  no_dictionary_column (dictionary_type o) → opt_custom_encunit_len o = ∅ → sch ≠ [] →
  Forall (λ f, nested_type pushdown (column_ok keeps list_kept (wasm_context w)) (data_type f)) sch →
  FileWriter_try_new (create_logical_encoder pushdown seed) SharedDictionaryContext_new builtin sch o
    = Ok w →
  ∃ places total ctx, places_from 0 places total ∧ Z.of_nat total < 2 ^ 32 ∧
    map pl_type places = map data_type sch ∧
    table_state eq
      (pending:=nested_pending pushdown (iounit_size o) (wasm_context w) (opt_compression_type o) places)
      (written:=λ _, nested_written pushdown (iounit_size o) (wasm_context w) (opt_compression_type o) places)
      (length sch) ctx ([], []) (sp_new w) ∧
    ctx_is_multi_col_sharing ctx = false ∧ dictionaries ctx = [] ∧
    custom_encunit_len w = ∅ ∧ row_group_size w = opt_row_group_size o ∧
    num_physical_columns (state w) = Z.of_nat total.
Proof using Type.
  intros Hd Hcustom Hne Hsch Hw.
  destruct (new_writer_parts _ _ _ _ _ _ (no_dictionary_not_shared o Hd) Hcustom Hw)
    as (encs & idx & ctx & Hc & Hsp & Hshare & Hnd & Hcu & Hrg & Hn & _).
  destruct (create_nested_encoders pushdown seed (column_ok keeps list_kept (wasm_context w)) _ _ _ _ _ Hd Hsch Hc)
    as (places & total & Hp & Hi & Hb & Ht & Hl & He).
  exists places, total, ctx. rewrite Hi in *. split; [done|]. split; [by apply Hb|]. split; [done|].
  split; [|done]. rewrite Hsp. split; cbn; [by rewrite length_map, Hl|done|constructor|done|].
  intros i Hlt. assert (Hlp : length places = length sch) by (rewrite <-(length_map pl_type), Ht; apply length_map).
  destruct (lookup_lt_is_Some_2 places i) as [p Hpi]; [lia|].
  destruct (lookup_lt_is_Some_2 (map fst encs) i) as [e Hei]; [rewrite length_map; lia|]. split; cbn.
  - exists p, e. split; [done|]. split; [exact Hei|]. by apply (He i).
  - exists EncodingCounter_default. apply lookup_replicate. split; [done|].
    pose proof (places_later _ _ _ _ _ Hp Hpi). destruct (places_bounds _ _ _ _ _ Hp Hpi). lia.
Qed.

(** C4: a table of nested columns is read back.  When a writer of columns of lists and
    structs, nested as [nested_type] allows (to any depth, but with strings at most one
    level below a nested field), over types that the built-in encoding keeps, without
    dictionaries of its own, writes valid record batches and finishes, then the reader
    opens the file and gives back a batch for every batch that was written, in order:
    the same names and nullability, the same lists, the same validity at every level,
    the same values, with strings as views. *)
Theorem nested_table_reads_back pushdown seed builtin sch o w batches file counters :
  0 ≤ iounit_size o → iounit_size o + 2 * max < 2 ^ 32 →
  new_writer pushdown seed builtin sch o = Ok w →
  no_dictionary_column (dictionary_type o) → opt_custom_encunit_len o = ∅ → sch ≠ [] →
  Forall (λ f, nested_type pushdown (column_ok keeps list_kept (wasm_context w)) (data_type f)) sch →
  Forall (nested_batch aligned sch) batches → write_file w batches = Ok (file, counters) →
  ∃ s1 s,
    sp_write_batches ∅ (opt_row_group_size o) (sp_new w) batches = Ok s1 ∧ sp_finish s1 = Ok s ∧
    (len file - zsum (map group_len (sp_groups s)) < 2 ^ 32 →
     ∀ b : FileReaderV2Builder (R:=R) (RT:=RT),
       ReaderOf R (b_reader b) file → read_ahead b = false → b_selection b = All →
       b_projections b = ProjectAll →
       (b_verify_io_unit_checksum b = true → opt_enable_io_unit_checksum o = true) →
       ∃ reader rbs, open_file pushdown b = Ok reader ∧ read_file pushdown reader = Ok rbs ∧
         Forall2 (batch_reads sch) batches rbs).
Proof using All.
  intros Hs Hfits Hw Hd Hcustom Hne Hsch Hvalid Hfile.
  destruct (new_nested_table _ _ _ _ _ _ Hd Hcustom Hne Hsch Hw)
    as (places & total & ctx & Hp & Htotal & Htypes & Hts & Hshare & Hnd & Hcu & Hrgs & Hnum).
  assert (Hlp : length places = length sch) by (rewrite <-(length_map pl_type), Htypes; apply length_map).
  destruct (file_reads string_hash coeffs max Hmax
    (nested_steps string_hash pushdown (iounit_size o) (wasm_context w) (opt_compression_type o) Hs aligned
       places total Hp)
    pushdown seed builtin sch o w batches file counters (length sch) total ctx)
    as (s1 & s & Hs1 & Hsf & Hread); [done..| |done|].
  { eapply Forall_impl; [exact Hvalid|]. intros b [_ Hb]. split; [by apply Forall2_length in Hb|].
    intros i a Ha p Hpi. destruct (Forall2_lookup_r _ _ _ _ _ Hb Ha) as (f & Hf & Hok).
    assert (Hl : map pl_type places !! i = map data_type sch !! i) by by rewrite Htypes.
    rewrite !list_lookup_fmap, Hpi, Hf in Hl. injection Hl as ->. done. }
  exists s1, s. split; [done|]. split; [done|]. intros Hlen b Hr Hahead Hsel Hproj Hck.
  assert (Hpos : total ≠ 0%nat).
  { destruct places as [|p places]; [by destruct sch|]. destruct (places_bounds _ _ _ 0 p Hp eq_refl). lia. }
  destruct (Hread Hlen b Hahead) as (reader & ms & cx & ckt & Hopen & Hcx & Hckt & Hgroups & Hrf);
    [rewrite Hproj; split; [by destruct total|done]|done|done|].
  apply oc_builtin in Hcx. exists reader. rewrite Hrf. unfold reads_groups in *. rewrite Hsel, select_all, Hproj in *.
  destruct (traverse_groups (λ m, read_row_group pushdown (b_reader b) sch ProjectAll (Some cx)
    (mkCache [] [] [] []) ckt (m, All)) (batch_reads sch)
    (batch_groups snd (opt_row_group_size o) batches) ms) as (rbs & Hrbs & HF).
  { assert (Hvg : Forall (Forall (nested_batch aligned sch)) (batch_groups snd (opt_row_group_size o) batches))
      by (by apply Forall_concat; rewrite batch_groups_concat).
    clear Hrf. induction Hgroups as [|bs m groups ms (g & rg & pms & Hg & Hcr & Hpm & Hm & _) _ IH]; [constructor|].
    apply Forall_cons in Hvg as [Hv Hvg]. constructor; [|by apply IH].
    injection Hpm as <-. by eapply nested_group_reads. }
  exists rbs. rewrite batch_groups_concat in HF. by split; [|split].
Qed.
End Table.
