(* ===== verification/NestedExample.v ===== *)
(** * A table of nested columns, in a file

    The codec of [Vortex.v] over the small vortex library writes a table with a column
    of structs, and the reader gives it back. *)

From S2P Require Import Prelude Arrow EncUnit Common Footer Options Chunks Encoders Buffers.
From S2P Require Import Selection Reader Wire Writer FileRoundtrip WriterSpec Dict SharedDict PhysEnc PhysEncFacts.
From S2P Require Import LogicalEnc LogicalEncFacts Table.
From S2P Require Import Decoders DictCache LogicalDec OpenFile ReadFile DecoderFacts EndToEnd.
From S2P Require Import Vortex VortexFacts VortexLists VortexExample Nested NestedRead NestedRoundtrip NestedTable.
From stdpp Require Import list.
Open Scope Z_scope.

(** ** Units of the small library are short *)

Section Bounds.
#[local] Existing Instance small_vortex.

Lemma message_len b m : message b = Ok m → len m < 2 ^ 20 + 4.
Proof.
  unfold message. destruct (Z.ltb_spec (len b) (2 ^ 20)); [|done]. intros Hm%(inj Ok). subst m.
  rewrite len_app, le_bytes_len. lia.
Qed.

Lemma small_write_len v m : small_write v = Ok m → len m < 2 ^ 20 + 4.
Proof.
  destruct v; cbn [small_write]; intros Hm; apply obind_Ok in Hm as (bss & _ & Hm);
    by apply message_len in Hm.
Qed.

Lemma encode_arr_len e a bufs : encode_arr e a = Ok bufs → len (concat bufs) < 2 ^ 22 / 3.
Proof.
  unfold encode_arr. intros He. apply obind_Ok in He as (v & _ & He). apply obind_Ok in He as (c & _ & He).
  apply obind_Ok in He as (d & Hd & He). apply obind_Ok in He as (w & Hw & He).
  apply obind_Ok in He as (p & Hp & He). apply (inj Ok) in He as <-.
  assert (Hdl : len d = 5).
  { cbn [write_dtype small_vortex] in Hd. unfold message in Hd. cbn in Hd. by injection Hd as <-. }
  apply small_write_len in Hw. apply slice_Ok in Hp as [_ ->].
  assert (Hz : ∀ n m, len (take n (drop m ZEROS)) ≤ 512).
  { intros n m. unfold len. rewrite length_take, length_drop. unfold ZEROS. rewrite length_replicate. lia. }
  match goal with |- context [take ?n (drop ?m ZEROS)] => specialize (Hz n m) end.
  cbn [concat]. rewrite !len_app, le_bytes_len, (len_nil (A:=Z)), Hdl in *.
  change (2 ^ 22 / 3) with 1398101. lia.
Qed.

Lemma small_encode_len e a u : encode e a = Ok u → len (EncUnit_try_serialize u) < 2 ^ 22.
Proof.
  unfold encode, regular_encode, list_encode. intros He.
  destruct (non_nest_types _); [|destruct (is_list_type _); [|done]].
  - apply obind_Ok in He as (t & _ & He). apply obind_Ok in He as (b & Hb & He). apply (inj Ok) in He as <-.
    apply encode_arr_len in Hb. change (2 ^ 22 / 3) with 1398101 in Hb. cbn [EncUnit_try_serialize]. lia.
  - cbn [assert obind] in He. apply obind_Ok in He as ([v o] & _ & He). apply obind_Ok in He as (b & Hb & He).
    apply obind_Ok in He as (b' & Hb' & He). apply (inj Ok) in He as <-.
    apply encode_arr_len in Hb, Hb'. change (2 ^ 22 / 3) with 1398101 in *. cbn [EncUnit_try_serialize].
    rewrite concat_app, len_app. lia.
Qed.

Lemma small_list_struct_len l f u :
  list_struct_encode VortexEncoder_default l f = Ok u → len (EncUnit_try_serialize u) < 2 ^ 22.
Proof.
  unfold list_struct_encode. intros He. apply obind_Ok in He as (t & _ & He).
  apply obind_Ok in He as ([v o] & _ & He). apply obind_Ok in He as (b & Hb & He).
  apply obind_Ok in He as (b1 & Hb1 & He). apply obind_Ok in He as (b2 & Hb2 & He). apply (inj Ok) in He as <-.
  apply encode_arr_len in Hb, Hb1, Hb2. change (2 ^ 22 / 3) with 1398101 in *. cbn [EncUnit_try_serialize].
  rewrite !concat_app, !len_app. lia.
Qed.
End Bounds.

#[local] Existing Instance stored.

Lemma small_units_bounded : @BoundedUnits small_encoders stored (2 ^ 22).
Proof.
  split.
  - intros wasm dt ed enc arr b ct z Henc Hb ->%stored_compress.
    assert (enc = @vortex_encoder small_encoders ed) as ->.
    { unfold create_encunit_encoder in Henc. destruct (data_type_to_wasm_lib _ _); [done|by injection Henc as <-]. }
    unfold encode_array in Hb. apply obind_Ok in Hb as (u & Hu & [= <-]). rewrite unwrap_res_Ok in Hu.
    apply small_encode_len in Hu. lia.
  - intros l f u ct z Hu ->%stored_compress. apply small_list_struct_len in Hu. lia.
Qed.

(** ** A table with a column of structs *)

Section Example.
#[local] Existing Instance small_vortex.
#[local] Existing Instance small_encoders.
#[local] Existing Instance small_decoders.
#[local] Existing Instance small_flat.
#[local] Existing Instance small_list.
#[local] Existing Instance stored_laws.
#[local] Existing Instance no_sampling.
#[local] Existing Instance sum_checksum.
#[local] Existing Instance sum_checksum_laws.
#[local] Existing Instance symbol_flatbuffers.
#[local] Existing Instance symbol_flatbuffers_laws.
#[local] Existing Instance small_units_bounded.
#[local] Instance pair_encoders : LogicalColEncoder LogicalEncoder SharedDictionaryContext :=
  logical_encoder length_hash.
#[local] Instance pair_dictionaries : SharedDictionaryOps SharedDictionaryContext :=
  shared_dictionary_ops length_hash constant_coeffs.

Definition pair_schema : list Field :=
  [mkField "p" (Struct pair_fields) true; mkField "q" Int64 true].

(** Two rows and one row. *)
Definition pair_batches : list Batch :=
  zip_with (λ a q, ([a; PrimArray Int64 q], len q)) pair_arrays [some_ints [5; 6]; [None]].

Definition pair_writer : outcome (FileWriter (E:=LogicalEncoder) (Ctx:=SharedDictionaryContext)) :=
  FileWriter_try_new (create_logical_encoder true (λ _, tt : @Rng no_sampling))
    SharedDictionaryContext_new (Ok []) pair_schema small_groups.

Lemma pair_file :
  ∃ w file counters, pair_writer = Ok w ∧ write_file w pair_batches = Ok (file, counters).
Proof.
  assert (Hrun : match (let! w := pair_writer in let! w1 := write_batches w pair_batches in
        finish_groups w1) with
      | Ok w => Some (len (dictionaries (shared_dictionary_context w))) | _ => None end = Some 0)
    by by vm_compute.
  destruct pair_writer as [w| |]; [|done..]. cbn [obind] in Hrun. exists w.
  destruct (file_written length_hash constant_coeffs w pair_batches Hrun) as (file & counters & Hf).
  by exists file, counters.
Qed.

Definition pair_spec : outcome (Spec LogicalEncoder SharedDictionaryContext) :=
  let! w := pair_writer in
  let! s := sp_write_batches ∅ 3 (sp_new w) pair_batches in sp_finish s.

Lemma pair_file_short w file counters s1 s :
  pair_writer = Ok w → write_file w pair_batches = Ok (file, counters) →
  sp_write_batches ∅ 3 (sp_new w) pair_batches = Ok s1 → sp_finish s1 = Ok s →
  len file - zsum (map group_len (sp_groups s)) < 2 ^ 32.
Proof.
  intros Hw Hf Hs1 Hs.
  assert (Hgroups : match pair_spec with Ok s => Some (len (sp_groups s), dictionaries (sp_ctx s))
    | _ => None end = Some (2, [])) by by vm_compute.
  unfold pair_spec in Hgroups. rewrite Hw in Hgroups. cbn [obind] in Hgroups. rewrite Hs1 in Hgroups.
  cbn [obind] in Hgroups. rewrite Hs in Hgroups. injection Hgroups as Hn Hd.
  assert (Hwf : match pair_writer with
    | Ok w => Some (num_physical_columns (state w), len (get_sorted_wasms (wasm_context w)),
                    map_to_list (custom_encunit_len w), row_group_size w)
    | _ => None end = Some (5, 0, [], 3)) by by vm_compute.
  rewrite Hw in Hwf. injection Hwf as Hnum Hwasm Hc Hr. apply len_0 in Hwasm. apply map_to_list_empty_iff in Hc.
  rewrite (file_short length_hash constant_coeffs (2 ^ 22) true (λ _, tt : @Rng no_sampling) (Ok []) pair_schema
    small_groups w pair_batches file counters s1 s); try done; [by rewrite Hnum, Hn, Hwasm|by rewrite Hr].
Qed.

(** The types of the columns are kept, and nothing is written for a WASM decoder. *)
Lemma pair_columns_kept w :
  pair_writer = Ok w →
  Forall (λ f, nested_type true (column_ok small_kept (lists_kept small_kept) (wasm_context w)) (data_type f))
    pair_schema.
Proof.
  intros Hw. assert (Hwc : match pair_writer with
    | Ok w => Some (map (data_type_to_wasm_lib (wasm_context w))
                      [Boolean; Int32; Int64; List (mkField "item" Int64 true)],
                    always_set_custom_wasm_for_built_in (wasm_context w))
    | _ => None end = Some ([None; None; None; None], false)) by by vm_compute.
  rewrite Hw in Hwc. injection Hwc as Hb H32 H64 Hl Ha.
  constructor; [|constructor; [|constructor]]; cbn [data_type].
  - by apply pair_type.
  - apply nt_flat; [done|]. split; [done|]. right. by right.
Qed.

Lemma pair_batches_valid : Forall (nested_batch (validity_aligned small_kept) pair_schema) pair_batches.
Proof.
  pose proof pairs_ok as Hok. apply Forall_cons in Hok as [H1 Hok]. apply Forall_cons in Hok as [H2 _].
  constructor; [|constructor; [|constructor]]; (split; [by eexists|]);
    (constructor; [done|constructor; [by constructor|constructor]]).
Qed.

Lemma nested_table_reads_back_witness :
  ∃ w file counters reader rbs,
    pair_writer = Ok w ∧ write_file w pair_batches = Ok (file, counters) ∧
    open_file true (checking_builder file) = Ok reader ∧ read_file true reader = Ok rbs ∧
    Forall2 (batch_reads pair_schema) pair_batches rbs.
Proof.
  destruct pair_file as (w & file & counters & Hw & Hf).
  destruct (nested_table_reads_back (R:=FileHandle) (RT:=unit) small_kept (lists_kept small_kept)
    (validity_aligned small_kept) length_hash constant_coeffs (2 ^ 22) ltac:(lia) true
    (λ _, tt : @Rng no_sampling) (Ok []) pair_schema small_groups w pair_batches file
    counters) as (s1 & s & Hs1 & Hs & Hread).
  - done.
  - done.
  - exact Hw.
  - by right.
  - done.
  - done.
  - by apply pair_columns_kept.
  - exact pair_batches_valid.
  - exact Hf.
  - destruct (Hread (pair_file_short w file counters s1 s Hw Hf Hs1 Hs)
      (checking_builder file) (file_reader_of file)) as (reader & rbs & Hopen & Hr & HF); [done..|].
    exists w, file, counters, reader, rbs. split_and!; [done|exact Hf|exact Hopen|exact Hr|exact HF].
Defined.
End Example.
