(* ===== verification/Progress.v ===== *)
(** * Writing a table does not fail

    The theorems about a written table start from a writer that succeeded.  Here it
    does: when every array can be encoded and the table is within the range of the
    counters, every batch is taken and the file is finished. *)

From S2P Require Import Prelude Arrow EncUnit Common Footer Options Chunks Encoders.
From S2P Require Import Writer Selection Reader Wire FileRoundtrip WriterSpec Dict SharedDict.
From S2P Require Import PhysEnc PhysEncFacts LogicalEnc LogicalEncFacts Table EndToEnd.

(** ** One array *)

Section Progress.
Context `{EncoderLibs} `{Codecs} `{Sampling} (string_hash : string → Z) (coeffs : list (Z * Z)).
#[local] Instance progress_encoders : LogicalColEncoder LogicalEncoder SharedDictionaryContext :=
  logical_encoder string_hash.
#[local] Instance progress_dictionaries : SharedDictionaryOps SharedDictionaryContext :=
  shared_dictionary_ops string_hash coeffs.
Context (limit : Z) (wasm : WASMWritingContext) (ed : bool) (ct : CompressionType).
Context (Hlimit : 0 ≤ limit) (max : Z) `{!BoundedUnits max} (Hmax : 0 ≤ max) (Hfits : limit + max < 2 ^ 64).

Abbreviation S := (Spec LogicalEncoder SharedDictionaryContext).
Abbreviation Pending := (pending limit wasm ed ct).

(** The unit encoder takes the array. *)
Definition encodable (a : Array) : Prop := is_Some (match encode_unit wasm ct ed a with Ok u => Some u | _ => None end).

Lemma encodable_unit a : encodable a → ∃ u, encode_unit wasm ct ed a = Ok u.
Proof. unfold encodable. intros [u Hu]. destruct (encode_unit _ _ _ _) as [v| |]; [by exists v|done..]. Qed.

Definition rows_in (arrs : list Array) : Z := zsum (map arr_len arrs).

Lemma arr_rows_nonneg arrs : Forall (λ a, 0 ≤ arr_len a) arrs → 0 ≤ rows_in arrs.
Proof. induction 1 as [|a arrs Ha _ IH]; [done|]. unfold rows_in in *. cbn. rewrite zsum_cons. lia. Qed.

(** What the chunk being filled has counted. *)
Lemma stream_counted arrs chunks c size :
  Forall (λ a, 0 ≤ arr_len a) arrs →
  stream (plain_units wasm ct ed) arr_len limit NoDictionary arrs chunks c size →
  size ≤ limit ∧ num_rows c ≤ rows_in arrs.
Proof using Hlimit.
  intros Hn (groups & g & -> & _ & [(uss & HF & Hc) _ Hsize Hl]). apply Forall_app in Hn as [Hn Hg]. split.
  - destruct g as [|a g]; [|apply Hl; rewrite len_cons; pose proof (len_nonneg g); lia].
    assert (uss = []) as -> by (by eapply Forall2_nil_inv_l).
    rewrite Hsize. subst c. unfold chunk_bytes. cbn. rewrite (len_nil (A:=Z)). lia.
  - subst c. cbn. unfold rows_in. rewrite map_app, zsum_app. pose proof (arr_rows_nonneg _ Hn). unfold rows_in in *. lia.
Qed.

Lemma ed_encode_total arrs c0 chunks e c a :
  Forall (λ a, 0 ≤ arr_len a) (arrs ++ [a]) → rows_in (arrs ++ [a]) < 2 ^ 64 →
  fold_m local_step ([], fresh limit wasm ed ct, c0) arrs = Ok (chunks, e, c) →
  encodable a → index_size c + max < 2 ^ 64 →
  ∃ more e' c', ed_encode e a c = Ok (more, e', c') ∧ index_size c ≤ index_size c' ≤ index_size c + max.
Proof using Hlimit Hmax Hfits BoundedUnits0.
  intros Hn Hrows Hf Ha Hc. apply ed_state_run in Hf as [Hp Hs _]. cbn in Hp, Hs.
  apply Forall_app in Hn as [Hn Hna]. apply Forall_cons in Hna as [Hna _].
  destruct (stream_counted _ _ _ _ Hn Hs) as [Hsize Hnum].
  unfold rows_in in Hrows. rewrite map_app, zsum_app in Hrows. cbn in Hrows. rewrite zsum_cons in Hrows.
  change (zsum []) with 0 in Hrows. fold (rows_in arrs) in Hrows.
  apply encodable_unit in Ha as [u Hu]. apply (encode_unit_bound max) in Hu as Hb.
  pose proof (len_nonneg (bytes u)).
  unfold ed_encode. rewrite Hp. cbn [ed_wasm ed_ct ed_enable_dict ed_size ed_chunk ed_column_chunk_size].
  rewrite Hu. cbn [obind]. unfold count_index, add_chunk_rows.
  rewrite (proj2 (uadd_Ok 64 (ed_size e) _ _)) by (split; [|done]; lia). cbn [obind].
  rewrite (proj2 (uadd_Ok 64 (index_size c) _ _)) by (split; [|done]; lia). cbn [obind num_rows push_unit].
  rewrite (proj2 (uadd_Ok 64 (num_rows _) _ _)) by (split; [|done]; lia). cbn [obind].
  destruct (limit <? _); eexists _, _, _; (split; [done|]); cbn; lia.
Qed.

(** ** What the counters add up to *)

Definition spent (s : S) : Z := zsum (map index_size (sp_counters s)).

Record counted (bound : Z) (s : S) : Prop := {
  ct_nonneg : Forall (λ c, 0 ≤ index_size c) (sp_counters s);
  ct_spent : spent s ≤ bound;
}.

Lemma counter_below (cs : list EncodingCounter) i c :
  Forall (λ c, 0 ≤ index_size c) cs → cs !! i = Some c → 0 ≤ index_size c ≤ zsum (map index_size cs).
Proof using Type.
  intros Hcs. revert i. induction Hcs as [|d cs Hd Hcs IH]; intros i Hi; [done|]. cbn. rewrite zsum_cons.
  assert (Hs : 0 ≤ zsum (map index_size cs)).
  { clear - Hcs. induction Hcs as [|d cs Hd _ IH]; [done|]. cbn. rewrite zsum_cons. lia. }
  destruct i as [|i]; [injection Hi as ->; lia|]. specialize (IH i Hi). lia.
Qed.

Lemma counter_grows (cs : list EncodingCounter) i c c' :
  cs !! i = Some c →
  zsum (map index_size (<[i := c']> cs)) = zsum (map index_size cs) + (index_size c' - index_size c).
Proof using Type.
  revert i. induction cs as [|d cs IH]; intros i Hi; [done|].
  destruct i as [|i].
  - injection Hi as ->. change (<[0%nat := c']> (c :: cs)) with (c' :: cs). cbn [map]. rewrite !zsum_cons. lia.
  - change (<[Datatypes.S i := c']> (d :: cs)) with (d :: <[i := c']> cs). cbn [map].
    rewrite !zsum_cons, (IH i Hi). lia.
Qed.

(** ** One step *)

Lemma write_column_total rows arrs i (s : S) a bound :
  Pending arrs i s → Forall (λ a, 0 ≤ arr_len a) (arrs ++ [a]) → rows_in (arrs ++ [a]) < 2 ^ 64 →
  encodable a → counted bound s → bound + max < 2 ^ 64 →
  ∃ s', sp_write_column ∅ rows s (Z.of_nat i, a) = Ok s' ∧ counted (bound + max) s'.
Proof using Hlimit Hmax Hfits BoundedUnits0.
  intros (c0 & chunks & e & c & Hf & Hse & Hsc & _) Hn Hrows Ha [Hnn Hsp] Hb.
  destruct (counter_below _ _ _ Hnn Hsc) as [Hc0 Hc].
  destruct (ed_encode_total arrs c0 chunks e c a Hn Hrows Hf Ha) as (more & e' & c' & He & Hc');
    [unfold spent in Hsp; lia|].
  unfold sp_write_column, sp_run_encoder.
  rewrite (proj2 (index_Ok (sp_encoders s) (Z.of_nat i) _)) by (split; [lia|by rewrite Nat2Z.id]).
  cbn [obind]. rewrite lookup_empty.
  rewrite (proj2 (index_Ok (sp_counters s) (Z.of_nat i) _)) by (split; [lia|by rewrite Nat2Z.id]).
  cbn [obind encode progress_encoders logical_encoder log_encode_chunks].
  unfold flat_encode, in_column, phys_encode. rewrite He. cbn [obind].
  destruct (then_some_chunks (in_col i more) (FlatColEncoder (PEncoderDict e') (Z.of_nat i)) c' (sp_ctx s))
    as (res & Hres & _). unfold in_col in Hres. rewrite Hres. cbn [obind].
  eexists. split; [done|]. rewrite Nat2Z.id. split; cbn.
  - apply Forall_insert; [done|lia].
  - unfold spent in *. cbn. rewrite (counter_grows _ _ c) by done. lia.
Qed.

Lemma finish_column_total arrs i (s : S) bound :
  Pending arrs i s → counted bound s →
  ∃ s', sp_run_encoder finish s (Z.of_nat i) = Ok s' ∧ counted bound s'.
Proof using Type.
  intros (c0 & chunks & e & c & Hf & Hse & Hsc & _) [Hnn Hsp]. unfold sp_run_encoder.
  rewrite (proj2 (index_Ok (sp_encoders s) (Z.of_nat i) _)) by (split; [lia|by rewrite Nat2Z.id]).
  cbn [obind]. rewrite (proj2 (index_Ok (sp_counters s) (Z.of_nat i) _)) by (split; [lia|by rewrite Nat2Z.id]).
  cbn [obind finish progress_encoders logical_encoder log_finish_chunks].
  unfold flat_finish, in_column, phys_finish. destruct (ed_finish e c) as [[more e'] c'] eqn:He. cbn [obind].
  assert (Hc : index_size c' = index_size c).
  { unfold ed_finish in He. destruct (encunits (ed_chunk e)); by injection He as _ _ <-. }
  destruct (then_some_chunks (in_col i more) (FlatColEncoder (PEncoderDict e') (Z.of_nat i)) c' (sp_ctx s))
    as (res & Hres & _). unfold in_col in Hres. rewrite Hres. cbn [obind].
  eexists. split; [done|]. rewrite Nat2Z.id. destruct (counter_below _ _ _ Hnn Hsc) as [Hc0 _]. split; cbn.
  - apply Forall_insert; [done|lia].
  - unfold spent in *. cbn. rewrite (counter_grows _ _ c) by done. lia.
Qed.

(** ** A batch *)

Lemma write_columns_total rows bs l k (s : S) bound :
  (∀ i, (k ≤ i < k + length l)%nat → Pending (column i bs) i s) →
  (∀ i a, l !! i = Some a → encodable a ∧ Forall (λ a, 0 ≤ arr_len a) (column (k + i) bs ++ [a]) ∧
     rows_in (column (k + i) bs ++ [a]) < 2 ^ 64) →
  counted bound s → bound + max * len l < 2 ^ 64 →
  ∃ s', fold_m (sp_write_column ∅ rows) s (zip (seqZ (Z.of_nat k) (len l)) l) = Ok s' ∧
    counted (bound + max * len l) s'.
Proof using Hlimit Hmax Hfits BoundedUnits0.
  revert k s bound. induction l as [|a l IH]; intros k s bound Hp Hl Hc Hb.
  - exists s. change (len []) with 0. by rewrite Z.mul_0_r, Z.add_0_r.
  - rewrite len_cons in *. pose proof (len_nonneg l). rewrite seqZ_cons by lia. cbn [zip zip_with fold_m].
    destruct (Hl 0%nat a eq_refl) as (Ha & Hn & Hr). rewrite Nat.add_0_r in Hn, Hr.
    assert (Hpk : Pending (column k bs) k s) by (apply Hp; cbn; lia).
    destruct (write_column_total rows (column k bs) k s a bound Hpk Hn Hr Ha Hc) as (s1 & Hs1 & Hc1); [nia|].
    rewrite Hs1. cbn [obind].
    destruct (write_pending string_hash limit wasm ed ct rows _ _ _ _ _ Hpk Hs1) as (_ & Honly & _).
    replace (Z.succ (Z.of_nat k)) with (Z.of_nat (Datatypes.S k)) by lia.
    replace (Z.pred (1 + len l)) with (len l) by lia.
    destruct (IH (Datatypes.S k) s1 (bound + max)) as (s' & Hs' & Hc').
    + intros i Hi. apply (pending_other _ _ _ _ _ k i s s1); [lia|done|]. apply Hp. cbn. lia.
    + intros i b Hi. replace (Datatypes.S k + i)%nat with (k + Datatypes.S i)%nat by lia. by apply (Hl (Datatypes.S i)).
    + done.
    + nia.
    + exists s'. split; [exact Hs'|]. replace (bound + max * (1 + len l)) with (bound + max + max * len l) by lia. done.
Qed.

Lemma flush_columns_total bs n k m (s : S) bound :
  (∀ i, (k ≤ i < k + m)%nat → Pending (column i bs) i s) → counted bound s → (k + m = n)%nat →
  ∃ s', fold_m (sp_run_encoder finish) s (seqZ (Z.of_nat k) (Z.of_nat m)) = Ok s' ∧ counted bound s'.
Proof using Hlimit.
  intros Hp Hc _. revert k s Hp Hc. induction m as [|m IH]; intros k s Hp Hc; [by exists s|].
  rewrite seqZ_cons by lia. cbn [fold_m].
  assert (Hpk : Pending (column k bs) k s) by (apply Hp; lia).
  destruct (finish_column_total (column k bs) k s bound Hpk Hc) as (s1 & Hs1 & Hc1). rewrite Hs1. cbn [obind].
  destruct (finish_pending string_hash limit wasm ed ct Hlimit _ _ _ _ Hpk Hs1) as (_ & Honly & _).
  replace (Z.succ (Z.of_nat k)) with (Z.of_nat (Datatypes.S k)) by lia.
  replace (Z.pred (Z.of_nat (Datatypes.S m))) with (Z.of_nat m) by lia.
  apply IH; [|done]. intros i Hi. apply (pending_other _ _ _ _ _ k i s s1); [lia|done|]. apply Hp. lia.
Qed.

(** ** Batches *)

Context (n : nat) (ctx : SharedDictionaryContext) (rgs : Z).
Abbreviation Table := (table_state eq (pending:=Pending) (written:=λ _, column_written limit wasm ed ct) n ctx).

(** The columns of a batch have its rows and can be encoded. *)
Record good_batch (b : Batch) : Prop := {
  gb_width : length b.1 = n;
  gb_rows : 0 ≤ b.2 < 2 ^ 32;
  gb_columns : Forall (λ a, arr_len a = b.2 ∧ encodable a) b.1;
}.

Lemma good_columns i bs :
  Forall good_batch bs → (i < n)%nat →
  Forall (λ a, 0 ≤ arr_len a) (column i bs) ∧ rows_in (column i bs) = rows_of snd bs.
Proof using Type.
  intros Hbs Hi. induction Hbs as [|b bs [Hw Hr Hc] _ [IH1 IH2]]; [by split|].
  destruct (lookup_lt_is_Some_2 b.1 i) as [a Ha]; [lia|].
  destruct (Forall_lookup_1 _ _ _ _ Hc Ha) as [Hl _].
  assert (Hcol : column i (b :: bs) = a :: column i bs) by (unfold column; cbn; by rewrite Ha).
  rewrite Hcol. split; [constructor; [lia|done]|]. unfold rows_in, rows_of in *. cbn [map].
  rewrite !zsum_cons, IH2, Hl. cbn. rewrite wrap_small by done. done.
Qed.

Lemma good_rows bs : Forall good_batch bs → 0 ≤ rows_of snd bs.
Proof using Type.
  induction 1 as [|b bs [_ Hr _] _ IH]; [done|]. unfold rows_of in *. cbn [map]. rewrite zsum_cons.
  cbn. rewrite wrap_small by done. lia.
Qed.

Lemma rows_of_app (bs1 bs2 : list Batch) : rows_of snd (bs1 ++ bs2) = rows_of snd bs1 + rows_of snd bs2.
Proof using Type. unfold rows_of. by rewrite map_app, zsum_app. Qed.

(** Where the writer is after the batches [before]. *)
Record on_track (before : list Batch) (s : S) : Prop := {
  ot_table : Table (foldl (place_batch snd rgs) ([], []) before) s;
  ot_counted : counted (max * Z.of_nat n * len before) s;
  ot_rows : sp_rows s = rows_of snd before;
}.

(** The batches of the current row group are among those written. *)
Lemma current_batches before closed current :
  foldl (place_batch snd rgs) ([], []) before = (closed, current) → Forall good_batch before →
  Forall good_batch current ∧ rows_of snd current ≤ rows_of snd before.
Proof using Type.
  intros Hf Hb. pose proof (place_batches_concat snd rgs [] [] before) as Hc. rewrite Hf in Hc. cbn in Hc.
  rewrite <-Hc in *. apply Forall_app in Hb as [Hg1 Hg2]. split; [done|]. rewrite rows_of_app.
  pose proof (good_rows _ Hg1). lia.
Qed.

Lemma flush_total bs s bound :
  length (sp_encoders s) = n → (∀ i, (i < n)%nat → Pending (column i bs) i s) → counted bound s →
  ∃ s', sp_flush_pending s = Ok s' ∧ counted bound (sp_close_group s').
Proof using Hlimit.
  intros Hn Hp Hc.
  destruct (flush_columns_total bs n 0 n s bound) as (s' & Hs' & Hc'); [intros i Hi; apply Hp; lia|done|done|].
  exists s'. unfold sp_flush_pending, range, len. rewrite Hn. split; [exact Hs'|]. by destruct Hc'.
Qed.

Lemma write_batch_total before b s :
  on_track before s → Forall good_batch (before ++ [b]) → rows_of snd (before ++ [b]) < 2 ^ 32 →
  max * Z.of_nat n * len (before ++ [b]) < 2 ^ 64 →
  ∃ s', sp_write_batch ∅ rgs s b.1 b.2 = Ok s' ∧ on_track (before ++ [b]) s'.
Proof using Hlimit Hmax Hfits BoundedUnits0.
  intros [Ht Hc Hr] Hg Hrows Hmany. apply Forall_app in Hg as [Hg Hgb]. apply Forall_cons in Hgb as [Hgb _].
  destruct (foldl (place_batch snd rgs) ([], []) before) as [closed current] eqn:Hplace.
  destruct (current_batches _ _ _ Hplace Hg) as [Hcur Hle].
  rewrite rows_of_app in Hrows. rewrite len_app in Hmany. change (len [b]) with 1 in Hmany.
  assert (Hone : rows_of snd [b] = b.2).
  { unfold rows_of. cbn [map]. rewrite zsum_cons. cbn. rewrite wrap_small by apply (gb_rows _ Hgb). unfold zsum. cbn. lia. }
  pose proof (good_rows _ Hg) as H0rows. pose proof (gb_rows _ Hgb) as Hbrows.
  assert (Hwide : len b.1 = Z.of_nat n) by (unfold len; by rewrite (gb_width _ Hgb)).
  destruct (write_columns_total b.2 current b.1 0 s (max * Z.of_nat n * len before)) as (s1 & Hs1 & Hc1).
  { intros i Hi. apply (ts_columns _ _ _ _ _ Ht). rewrite <-(gb_width _ Hgb). lia. }
  { intros i a Ha. cbn [Nat.add]. destruct (Forall_lookup_1 _ _ _ _ (gb_columns _ Hgb) Ha) as [Hl He].
    assert (Hi : (i < n)%nat) by (rewrite <-(gb_width _ Hgb); by eapply lookup_lt_Some).
    destruct (good_columns i current Hcur Hi) as [Hnn Hsum]. split; [done|]. split.
    - apply Forall_app. split; [done|]. constructor; [lia|done].
    - unfold rows_in in *. rewrite map_app, zsum_app, Hsum. cbn [map]. rewrite zsum_cons, Hl.
      change (zsum []) with 0. lia. }
  { done. }
  { rewrite Hwide. lia. }
  destruct (write_columns string_hash eq (flat_steps string_hash limit wasm ed ct Hlimit) n b.2 current b s s1)
    as [Hp1 Hrest]; [by split; [apply gb_width|]|apply (ts_columns _ _ _ _ _ Ht)|exact Hs1|].
  assert (Hnext : ∃ s', sp_write_batch ∅ rgs s b.1 b.2 = Ok s' ∧
    counted (max * Z.of_nat n * len (before ++ [b])) s').
  { unfold sp_write_batch, Writer.enumerate, range. change (Z.of_nat 0) with 0 in Hs1. rewrite Hs1. cbn [obind]. unfold sp_add_rows.
    rewrite (wrap_small 32 b.2) by done. rewrite (sr_rows _ _ _ Hrest), (sr_current _ _ _ Hrest), Hr.
    rewrite (ts_rows _ _ _ _ _ Ht). cbn [snd]. pose proof (good_rows _ Hcur).
    rewrite (proj2 (uadd_Ok 32 (rows_of snd before) b.2 _)) by (split; [|done]; lia). cbn [obind].
    rewrite (proj2 (uadd_Ok 32 (rows_of snd current) b.2 _)) by (split; [|done]; lia). cbn [obind sp_current g_rows].
    rewrite len_app. change (len [b]) with 1.
    replace (max * Z.of_nat n * (len before + 1)) with (max * Z.of_nat n * len before + max * len b.1) by lia.
    destruct (_ <=? _); [|eexists; split; [done|]; by destruct Hc1].
    match goal with |- ∃ _, (let! _ := sp_flush_pending ?t in _) = _ ∧ _ => set (t0 := t) end.
    destruct (flush_total (current ++ [b]) t0 (max * Z.of_nat n * len before + max * len b.1))
      as (s' & Hs' & Hc').
    - subst t0. cbn. rewrite (sr_width _ _ _ Hrest). apply (ts_width _ _ _ _ _ Ht).
    - intros i Hi. by apply Hp1.
    - by destruct Hc1.
    - rewrite Hs'. cbn [obind]. by eexists. }
  destruct Hnext as (s' & Hs' & Hc'). exists s'. split; [exact Hs'|]. split; [|done|].
  - rewrite foldl_app, Hplace. cbn [foldl].
    eapply (write_batch_state string_hash eq (flat_steps string_hash limit wasm ed ct Hlimit)); [|exact Ht|exact Hs'].
    by split; [apply gb_width|].
  - destruct (write_batch_rows _ _ _ _ _ _ Hs') as [_ ->]. rewrite rows_of_app, Hr, Hone.
    by rewrite wrap_small.
Qed.

Lemma write_batches_total before batches s :
  on_track before s → Forall good_batch (before ++ batches) → rows_of snd (before ++ batches) < 2 ^ 32 →
  max * Z.of_nat n * len (before ++ batches) < 2 ^ 64 →
  ∃ s', sp_write_batches ∅ rgs s batches = Ok s' ∧ on_track (before ++ batches) s'.
Proof using Hlimit Hmax Hfits BoundedUnits0.
  revert before s. induction batches as [|b batches IH]; intros before s Hs Hg Hr Hm.
  - exists s. by rewrite app_nil_r.
  - rewrite cons_middle, app_assoc in Hg, Hr, Hm |- *. assert (Hg' := Hg). apply Forall_app in Hg' as [Hg1 Hg2].
    destruct (write_batch_total before b s Hs Hg1) as (s1 & Hs1 & Ht1).
    + rewrite rows_of_app in Hr. pose proof (good_rows _ Hg2). lia.
    + rewrite (len_app _ batches) in Hm. pose proof (len_nonneg batches). nia.
    + destruct (IH _ s1 Ht1 Hg Hr Hm) as (s' & Hs' & Ht'). exists s'. split; [|exact Ht'].
      unfold sp_write_batches in *. cbn [fold_m]. by rewrite Hs1.
Qed.

Lemma finish_total before s :
  on_track before s → is_multi_col_sharing ctx = false → ∃ s', sp_finish s = Ok s' ∧ sp_ctx s' = ctx.
Proof using Hlimit.
  intros [Ht Hc _] Hshare. destruct (foldl (place_batch snd rgs) ([], []) before) as [closed current].
  destruct (flush_total current s _ (ts_width _ _ _ _ _ Ht) (ts_columns _ _ _ _ _ Ht) Hc) as (s' & Hs' & _).
  exists (sp_close_group s'). unfold sp_finish. rewrite <-(ts_ctx _ _ _ _ _ Ht), Hshare. cbn [obind]. rewrite Hs'.
  split; [done|].
  by apply (finish_group string_hash eq (flat_steps string_hash limit wasm ed ct Hlimit) n ctx closed current s s')
    in Ht as [_ -> _ _ _].
Qed.
End Progress.

(** ** A table *)

Section Table.
Context `{EncoderLibs} `{Codecs} `{Sampling} `{Checksum} `{!ChecksumLaws} `{Flatbuffers}.
Context (string_hash : string → Z) (coeffs : list (Z * Z)).
Context (max : Z) `{!BoundedUnits max} (Hmax : 0 ≤ max).
#[local] Instance table_encoders : LogicalColEncoder LogicalEncoder SharedDictionaryContext :=
  logical_encoder string_hash.
#[local] Instance table_dictionaries : SharedDictionaryOps SharedDictionaryContext :=
  shared_dictionary_ops string_hash coeffs.

Lemma good_row_sum (bs : list Batch) :
  Forall (λ b, 0 ≤ b.2 < 2 ^ 32) bs → rows_of snd bs = zsum (map snd bs).
Proof.
  unfold rows_of. induction 1 as [|b bs Hb _ IH]; [done|]. cbn [map]. rewrite !zsum_cons, IH. cbn.
  by rewrite wrap_small.
Qed.

(** A new writer has counted nothing. *)
Lemma new_counted pushdown seed builtin sch o w bound :
  no_dictionary_column (dictionary_type o) → opt_custom_encunit_len o = ∅ →
  new_writer pushdown seed builtin sch o = Ok w → 0 ≤ bound → counted bound (sp_new w).
Proof.
  intros Hd Hcustom Hw Hb.
  destruct (new_writer_parts _ _ _ _ _ _ (no_dictionary_not_shared o Hd) Hcustom Hw) as (encs & idx & ctx & _ & -> & _).
  split; unfold spent; cbn; generalize (Z.to_nat (current_index idx)); intros k.
  - by apply Forall_replicate.
  - induction k as [|k IH]; [done|]. cbn. rewrite zsum_cons. cbn. lia.
Qed.

(** C7: a table can be written.  A new writer of flat columns without dictionaries of
    their own takes every batch whose columns have its rows and can be encoded, and
    finishes the file, as long as the rows fit the 32-bit counters of the file and the
    encoded units the 64-bit ones. *)
Theorem table_is_written pushdown seed builtin sch o w batches :
  0 ≤ iounit_size o → iounit_size o + 2 * max < 2 ^ 32 →
  new_writer pushdown seed builtin sch o = Ok w →
  flat_schema sch → no_dictionary_column (dictionary_type o) → opt_custom_encunit_len o = ∅ →
  Forall (good_batch (wasm_context w) (bool_decide (dictionary_type o = EncoderDictionary))
            (opt_compression_type o) (length sch)) batches →
  zsum (map snd batches) < 2 ^ 32 → max * len sch * len batches < 2 ^ 64 →
  ∃ file counters, write_file w batches = Ok (file, counters).
Proof.
  intros Hs Hfits Hw Hflat Hd Hcustom Hb Hrows Hmany.
  destruct (new_table _ _ _ _ _ _ Hflat Hd Hcustom Hw) as (ctx & Hts & Hshare & Hnodict & Hcu & Hrgs & Hnum & _).
  destruct (new_writer_ok _ _ _ _ _ _ Hs Hw) as (Hn & Hok & _).
  assert (Hstart : on_track (iounit_size o) (wasm_context w)
    (bool_decide (dictionary_type o = EncoderDictionary)) (opt_compression_type o) max (length sch) ctx
    (opt_row_group_size o) [] (sp_new w)) by
    (split; [exact Hts|eapply new_counted; [exact Hd|exact Hcustom|exact Hw|rewrite Z.mul_0_r; lia]|done]).
  destruct (write_batches_total string_hash (iounit_size o) (wasm_context w)
    (bool_decide (dictionary_type o = EncoderDictionary)) (opt_compression_type o) Hs max Hmax ltac:(lia)
    (length sch) ctx (opt_row_group_size o) [] batches (sp_new w) Hstart Hb) as (s1 & Hs1 & Ht1).
  { rewrite good_row_sum; [done|by eapply Forall_impl; [exact Hb|]; intros b []]. }
  { exact Hmany. }
  destruct (finish_total string_hash coeffs (iounit_size o) (wasm_context w)
    (bool_decide (dictionary_type o = EncoderDictionary)) (opt_compression_type o) Hs max
    (length sch) ctx (opt_row_group_size o) _ s1 Ht1 Hshare) as (s & Hsf & Hctx).
  apply (file_written string_hash coeffs).
  assert (HE := logical_contract string_hash max (iounit_size o) Hs Hmax (num_physical_columns (state w)) Hfits).
  assert (Hpos : 0 ≤ num_physical_columns (state w)) by (rewrite Hn; apply schema_columns_nonneg).
  pose proof (write_batches_agree _ _ _ _ _ _ _ batches HE Hw Hpos Hok) as Hag.
  rewrite Hcu, Hrgs in Hag. pose proof (eq_ind _ (λ x, agree _ x _) Hag _ Hs1) as Hag1. cbv beta in Hag1. destruct (write_batches w batches) as [w1| |]; [|done..]. cbn [obind].
  pose proof (finish_groups_agree _ _ _ Hpos _ _ _ Hag1) as Hag2'.
  pose proof (eq_ind _ (λ x, agree _ x _) Hag2' _ Hsf) as Hag2. cbv beta in Hag2.
  destruct (finish_groups w1) as [w2| |]; [|done..]. destruct Hag2 as [_ _ Hctx2 _ _].
  by rewrite Hctx2, Hctx, Hnodict.
Qed.
End Table.

(** ** An example *)

Section Examples.
#[local] Existing Instance byte_encoder.
#[local] Existing Instance stored.
#[local] Existing Instance no_sampling.
#[local] Existing Instance sum_checksum.
#[local] Existing Instance sum_checksum_laws.
#[local] Existing Instance symbol_flatbuffers.
#[local] Existing Instance byte_units_bounded.

(** All of a batch, as a test. *)
Definition good_batchb (wasm : WASMWritingContext) (ed : bool) (ct : CompressionType) (n : nat) (b : Batch) : bool :=
  Nat.eqb (length b.1) n && (0 <=? b.2) && (b.2 <? 2 ^ 32) &&
  forallb (λ a, (arr_len a =? b.2) && is_ok (encode_unit wasm ct ed a)) b.1.

Lemma good_batchb_ok wasm ed ct n b : good_batchb wasm ed ct n b = true → good_batch wasm ed ct n b.
Proof.
  unfold good_batchb. rewrite !andb_true_iff, Nat.eqb_eq, Z.leb_le, Z.ltb_lt, forallb_forall.
  intros [[[Hn Hlo] Hhi] Hc]. split; [done|done|]. apply Forall_forall. intros a Ha%list_elem_of_In.
  specialize (Hc a Ha). rewrite andb_true_iff, Z.eqb_eq in Hc. destruct Hc as [Hl He]. split; [done|].
  unfold encodable. destruct (encode_unit wasm ct ed a); [by eexists|done..].
Qed.

Lemma table_is_written_witness :
  ∃ w file counters, table_writer = Ok w ∧
    @write_file _ _ _ _ (logical_encoder length_hash) (shared_dictionary_ops length_hash constant_coeffs)
      w table_batches = Ok (file, counters).
Proof.
  assert (Hrun : match table_writer with
    | Ok w => forallb (good_batchb (wasm_context w) true Uncompressed 2) table_batches
    | _ => false end = true) by by vm_compute.
  destruct table_writer as [w| |] eqn:Hw; [|done..]. exists w.
  destruct (table_is_written length_hash constant_coeffs 257 ltac:(lia) false (λ _, tt : @Rng no_sampling) (Ok [])
    table_schema small_groups w table_batches) as (file & counters & Hf).
  - done.
  - done.
  - exact Hw.
  - by repeat constructor.
  - by right.
  - done.
  - apply Forall_forall. intros b Hb%list_elem_of_In. rewrite forallb_forall in Hrun.
    by apply good_batchb_ok, Hrun.
  - by vm_compute.
  - by vm_compute.
  - exists file, counters. split; [done|exact Hf].
Defined.
End Examples.
