(* ===== verification/WasmTable.v ===== *)
(** * Tables of columns that a plug-in decodes

    A writer may give the columns of a type to a library and put the WASM binary that
    decodes them into the file, or have everything decoded by the built-in binary.  The
    reader compiles the binaries of the file and finds for each encoding unit the one
    that decodes it. *)

From S2P Require Import Prelude Arrow EncUnit Common Footer Options Chunks Encoders.
From S2P Require Import Writer Selection Reader Wire FileRoundtrip WriterSpec Dict SharedDict Buffers.
From S2P Require Import PhysEnc PhysEncFacts LogicalEnc LogicalEncFacts Table.
From S2P Require Import Decoders DictCache LogicalDec OpenFile ReadFile DecoderFacts EndToEnd.
From stdpp Require Import list sorting.
Open Scope Z_scope.

(** ** The numbering of the binaries *)

(** The ids of the binaries are their positions: the reader numbers them so. *)
Definition dense_ids (c : WASMWritingContext) : Prop :=
  ∀ id lib, wasms c !! id = Some lib → 0 ≤ id < Z.of_nat (size (wasms c)).

Lemma dense_keys (c : WASMWritingContext) :
  dense_ids c → map fst (merge_sort by_id (map_to_list (wasms c))) = seqZ 0 (Z.of_nat (size (wasms c))).
Proof.
  intros Hd. assert (Hp : merge_sort by_id (map_to_list (wasms c)) ≡ₚ map_to_list (wasms c))
    by apply merge_sort_Permutation.
  apply (StronglySorted_unique Z.le).
  - apply (StronglySorted_fmap fst by_id Z.le); [done|]. apply StronglySorted_merge_sort; apply _.
  - apply seqZ_sorted.
  - apply submseteq_length_Permutation.
    + apply NoDup_submseteq; [rewrite Hp; apply NoDup_fst_map_to_list|].
      intros id (kv & -> & Hkv)%list_elem_of_fmap. rewrite Hp in Hkv. destruct kv as [id lib].
      apply elem_of_map_to_list in Hkv. apply elem_of_seqZ. specialize (Hd id lib Hkv). cbn. lia.
    + rewrite length_seqZ, length_map, Hp, length_map_to_list. lia.
Qed.

(** The binary of an id is at its position. *)
Lemma sorted_wasm (c : WASMWritingContext) id lib :
  dense_ids c → wasms c !! id = Some lib →
  ∃ k, id = Z.of_nat k ∧ get_sorted_wasms c !! k = Some (decode_wasm_binary lib).
Proof.
  intros Hd Hlib. pose proof (Hd id lib Hlib) as Hid. exists (Z.to_nat id). split; [lia|].
  unfold get_sorted_wasms. rewrite list_lookup_fmap.
  pose proof (dense_keys c Hd) as Hkeys. set (l := merge_sort by_id (map_to_list (wasms c))) in *.
  assert (Hk : map fst l !! Z.to_nat id = Some id) by (rewrite Hkeys; apply lookup_seqZ; lia).
  rewrite list_lookup_fmap in Hk. destruct (l !! Z.to_nat id) as [[id' lib']|] eqn:Hl; [|done].
  injection Hk as ->. assert (Hin : (id, lib') ∈ map_to_list (wasms c)).
  { rewrite <-(merge_sort_Permutation by_id (map_to_list (wasms c))). fold l. by eapply list_elem_of_lookup_2. }
  apply elem_of_map_to_list in Hin. rewrite Hlib in Hin. by injection Hin as <-.
Qed.

(** ** Units that a plug-in decodes *)

Section Units.
Context {R RT : Type} `{Reader R} `{Flatbuffers} `{EncoderLibs} `{DecoderLibs RT}.
Context `{Codecs} `{!CodecsLaws} (pushdown : bool).

(** The binary decodes what [encode] makes of the arrays of a type: to the buffers of the
    array, strings as views. *)
Definition decodes_units (binary : list Z) (dt : DataType) (encode : Array → outcome EncUnit.EncUnit) : Prop :=
  ∃ rt, Runtime_try_new binary = Ok rt ∧
    ∀ vals u, len vals < 2 ^ 32 → encode (PrimArray dt vals) = Ok u →
      ∃ bufs, call_multi_buf rt WASM_FUNC_GENERAL (EncUnit_try_serialize u) = Ok bufs ∧
        primitive_array_from_arrow_buffers_iter dt bufs (len vals) = Ok (PrimArray (view_type dt) vals).

(** The units of a type are written for a binary of the file: by the library that comes
    with it, or by the built-in encoder when everything is. *)
Inductive through_wasm (wasm : WASMWritingContext) (dt : DataType) : Prop :=
  | through_custom id lib c :
      always_set_custom_wasm_for_built_in wasm = false →
      data_type_to_wasm_ids wasm !! dt = Some id → wasms wasm !! id = Some lib →
      CustomEncoder_try_new (encode_lib_path lib) "encode" = Ok c →
      decodes_units (decode_wasm_binary lib) dt (CustomEncoder_encode c) →
      through_wasm wasm dt
  | through_builtin id lib :
      always_set_custom_wasm_for_built_in wasm = true → data_type_to_wasm_lib wasm dt = None →
      builtin_wasm_id wasm = Some id → wasms wasm !! id = Some lib →
      (∀ enable_dict, decodes_units (decode_wasm_binary lib) dt (vortex_encode enable_dict)) →
      through_wasm wasm dt.

(** The parts of such a unit. *)
Lemma wasm_unit wasm ct ed dt vals u :
  through_wasm wasm dt → len vals < 2 ^ 32 → encode_unit wasm ct ed (PrimArray dt vals) = Ok u →
  ∃ id lib rt data bufs, wasms wasm !! id = Some lib ∧ Runtime_try_new (decode_wasm_binary lib) = Ok rt ∧
    compress_data data ct = Ok (bytes u) ∧ su_compression_type u = ct ∧ su_num_rows u = len vals ∧
    su_encoding u = mkEncoding CUSTOM_WASM (Some (mkWASMEncoding id [])) ∧
    call_multi_buf rt WASM_FUNC_GENERAL data = Ok bufs ∧
    primitive_array_from_arrow_buffers_iter dt bufs (len vals) = Ok (PrimArray (view_type dt) vals).
Proof.
  intros Hw Hlen Hu. unfold encode_unit in Hu. cbn [arr_data_type arr_len] in Hu.
  rewrite (wrap_small 32 (len vals)) in Hu by (split; [apply len_nonneg|done]).
  destruct Hw as [id lib c Hset Hid Hlib Hc (rt & Hrt & Hdec)|id lib Hset Hno Hid Hlib Hdec].
  - unfold create_encunit_encoder, data_type_to_wasm_lib in Hu. rewrite Hid in Hu. cbn [mbind option_bind] in Hu.
    rewrite Hlib, Hc in Hu. cbn [unwrap_res obind] in Hu. apply obind_Ok in Hu as (b & Hb & Hu).
    apply obind_Ok in Hu as (z & Hz & Hu). apply obind_Ok in Hu as (e & He & [= <-]).
    unfold encode_array in Hb. apply obind_Ok in Hb as (v & Hv & [= <-]). rewrite unwrap_res_Ok in Hv.
    destruct (Hdec vals v Hlen Hv) as (bufs & Hbufs & Harr).
    exists id, lib, rt, (EncUnit_try_serialize v), bufs. split_and!; try done.
    cbn. unfold unit_encoding, data_type_to_wasm_id in He. rewrite Hset, Hid in He. cbn in He. by injection He as <-.
  - unfold create_encunit_encoder in Hu. rewrite Hno in Hu. cbn [obind] in Hu.
    apply obind_Ok in Hu as (b & Hb & Hu).
    apply obind_Ok in Hu as (z & Hz & Hu). apply obind_Ok in Hu as (e & He & [= <-]).
    unfold encode_array in Hb. apply obind_Ok in Hb as (v & Hv & [= <-]). rewrite unwrap_res_Ok in Hv.
    destruct (Hdec ed) as (rt & Hrt & Hdec'). destruct (Hdec' vals v Hlen Hv) as (bufs & Hbufs & Harr).
    exists id, lib, rt, (EncUnit_try_serialize v), bufs. split_and!; try done.
    cbn. unfold unit_encoding in He. rewrite Hset, Hid in He. cbn in He. by injection He as <-.
Qed.

(** The runtimes of the binaries are found under their ids. *)
Definition finds_runtimes (wasm : WASMWritingContext) (ctx : WASMReadingContext R RT) : Prop :=
  ∀ id lib rt, wasms wasm !! id = Some lib → Runtime_try_new (decode_wasm_binary lib) = Ok rt →
    ∃ c, get_runtime Runtime_try_new ctx id = Ok (rt, c).

(** The decoder of a unit written for a binary, and what it decodes. *)
Lemma wasm_unit_decoder wasm ct ed ctx dt vals u b rest :
  non_nest_types dt = true → through_wasm wasm dt → finds_runtimes wasm ctx → len vals < 2 ^ 32 →
  encode_unit wasm ct ed (PrimArray dt vals) = Ok u → unit_recorded u b →
  eu_num_rows b = len vals ∧
  ∃ data rt, let dec := WASMEncUnitDecoder data rt WASM_FUNC_GENERAL dt (len vals) in
    next_unit (EncUnit_to_fb b) (bytes u ++ rest) dt (Some ctx) = Ok (dec, rest) ∧
    unit_decode pushdown dec = Ok (PrimArray (view_type dt) vals).
Proof.
  intros Hnn Hw Hctx Hlen Hu (Hsize & Hrows & Henc & Hcomp).
  destruct (wasm_unit _ _ _ _ _ _ Hw Hlen Hu)
    as (id & lib & rt & data & bufs & Hlib & Hrt & Hz & Hct & Hn & He & Hbufs & Harr).
  destruct (Hctx id lib rt Hlib Hrt) as [c Hc].
  split; [by rewrite Hrows, Hn|]. exists data, rt. cbv zeta. split.
  - unfold next_unit. cbn [EncUnit_to_fb fb.eu_size fb.eu_encoding fb.eu_compression fb.eu_num_rows].
    rewrite split_to_app by done. cbn [obind unwrap]. rewrite Hcomp, Hct, Hrows, Hn, Henc, He.
    unfold create_encunit_decoder.
    assert (Hd : (if ct =? Uncompressed then Ok (bytes u) else decompress_data (bytes u) ct) = Ok data).
    { apply compress_roundtrip in Hz. destruct (ct =? Uncompressed) eqn:Hc'; [|done].
      unfold decompress_data in Hz. by rewrite Hc' in Hz. }
    rewrite Hd. cbn [obind Encoding_to_fb encoding_type wasm_encoding option_map fb.type_].
    change (CUSTOM_WASM =? CASCADE) with false. change (CUSTOM_WASM =? CUSTOM_WASM) with true. cbn iota.
    unfold wasm_decoder, Encoding_to_fb, WASMEncoding_to_fb.
    cbn [fb.wasm_encoding Footer.wasm_encoding option_map ok_or obind fb.wasm_id Footer.wasm_id].
    rewrite Hc. done.
  - cbn [unit_decode]. rewrite Hnn, Hbufs. cbn [obind]. exact Harr.
Qed.

(** A unit written for a binary is read back. *)
Lemma wasm_unit_reads wasm ct ed ctx f vals :
  non_nest_types (data_type f) = true → through_wasm wasm (data_type f) → finds_runtimes wasm ctx →
  len vals < 2 ^ 32 → array_units_read pushdown wasm ed ct ctx f (PrimArray (data_type f) vals).
Proof.
  intros Hnn Hw Hctx Hlen u b rest Hu Hrec.
  destruct (wasm_unit_decoder wasm ct ed ctx _ vals u b rest Hnn Hw Hctx Hlen Hu Hrec)
    as (_ & data & rt & Hnext & Hdec).
  by eexists _, _.
Qed.
End Units.

(** ** Tables *)

Section Table.
Context {R RT : Type} `{Reader R} `{Flatbuffers} `{!FlatbuffersLaws} `{EncoderLibs} `{DecoderLibs RT}.
Context `{Codecs} `{!CodecsLaws} `{Checksum} `{!ChecksumLaws} `{Sampling}.
Context (keeps : DataType → Prop) `{!VortexLaws keeps}.
Context (string_hash : string → Z) (coeffs : list (Z * Z)).
Context (max : Z) `{!BoundedUnits max} (Hmax : 0 ≤ max).

#[local] Instance wasm_table_encoders : LogicalColEncoder LogicalEncoder SharedDictionaryContext :=
  logical_encoder string_hash.
#[local] Instance wasm_table_dictionaries : SharedDictionaryOps SharedDictionaryContext :=
  shared_dictionary_ops string_hash coeffs.

(** A column is kept by the built-in encoding or goes through a binary of the file. *)
Definition column_kept (wasm : WASMWritingContext) (f : Field) : Prop :=
  non_nest_types (data_type f) = true ∧
  ((keeps (data_type f) ∧ built_in wasm (data_type f)) ∨ through_wasm wasm (data_type f)).

(** The binaries of the file compile and are numbered by their positions. *)
Record binaries_ok (wasm : WASMWritingContext) : Prop := {
  bo_dense : dense_ids wasm;
  bo_number : Z.of_nat (size (wasms wasm)) ≤ 2 ^ 32;
  bo_compile : Forall (λ w, ∃ rt : RT, Runtime_try_new w = Ok rt) (get_sorted_wasms wasm);
}.

Lemma sorted_wasms_number (wasm : WASMWritingContext) :
  len (get_sorted_wasms wasm) = Z.of_nat (size (wasms wasm)).
Proof.
  unfold len, get_sorted_wasms. rewrite length_map, merge_sort_Permutation, length_map_to_list. done.
Qed.

Lemma opened_finds (wasm : WASMWritingContext) (b : FileReaderV2Builder (R:=R) (RT:=RT)) ctx :
  binaries_ok wasm → wasm_rts b = None → opened_context b (get_sorted_wasms wasm) ctx →
  finds_runtimes wasm ctx.
Proof.
  intros [Hd Hn Hc] Hnone [_ Hrts] id lib rt Hlib Hrt.
  assert (HF : ∃ rts, Forall2 (λ w rt, Runtime_try_new w = Ok rt) (get_sorted_wasms wasm) rts).
  { clear Hrts. induction Hc as [|w l [r0 Hr0] _ [rts IH]]; [by exists []|]. exists (r0 :: rts). by constructor. }
  destruct HF as [rts HF]. destruct (sorted_wasm wasm id lib Hd Hlib) as (k & -> & Hk).
  destruct (Forall2_lookup_l _ _ _ _ _ HF Hk) as (rt' & Hrt' & Hw). assert (rt' = rt) as -> by congruence.
  apply (Hrts rts k rt); [done|by rewrite sorted_wasms_number|done|done].
Qed.

Lemma kept_array (wasm : WASMWritingContext) pushdown ct ed ctx f a rows :
  reads_builtin (Some ctx) → finds_runtimes wasm ctx → column_kept wasm f → fits_field rows f a →
  arr_len a < 2 ^ 32 → array_units_read pushdown wasm ed ct ctx f a.
Proof.
  intros Hctx Hfind [Hnn [[Hk Hb]|Hw]] Hfit Hlen.
  - by apply (readable_array pushdown wasm ed ct ctx keeps f a rows).
  - destruct (flat_array f a rows Hnn Hfit) as [vals ->]. by apply wasm_unit_reads.
Qed.

Lemma kept_batch (wasm : WASMWritingContext) pushdown ct ed ctx sch (b : Batch) :
  reads_builtin (Some ctx) → finds_runtimes wasm ctx → Forall (column_kept wasm) sch → valid_batch sch b →
  Forall (λ a, arr_len a < 2 ^ 32) b.1 → batch_units_read pushdown wasm ed ct sch ctx b.
Proof.
  intros Hctx Hfind Hsch [rb Hb] Hlen. apply record_batch_ok in Hb as (_ & _ & rows & HF).
  unfold batch_units_read. induction HF as [|f a fs cs Hfa _ IH]; [constructor|].
  apply Forall_cons in Hsch as [Hf Hfs]. apply Forall_cons in Hlen as [Ha Hlen].
  constructor; [by eapply kept_array|by apply IH].
Qed.

(** C2: a table with custom encodings is read back.  The writer gives the columns of some
    types to libraries of the user, or everything to the built-in binary, and puts the
    WASM binaries that decode them into the file; the other columns are encoded by the
    built-in encoding.  A reader that knows nothing of these libraries opens the file,
    compiles the binaries it carries, and gives back exactly the batches that were
    written, strings as views, when the ids of the binaries are their positions and each
    decodes what its library encodes. *)
Theorem wasm_table_reads_back pushdown seed builtin sch o w batches file counters :
  0 ≤ iounit_size o → iounit_size o + 2 * max < 2 ^ 32 →
  new_writer pushdown seed builtin sch o = Ok w →
  no_dictionary_column (dictionary_type o) → opt_custom_encunit_len o = ∅ →
  sch ≠ [] → Forall (column_kept (wasm_context w)) sch → binaries_ok (wasm_context w) →
  Forall (valid_batch sch) batches → Forall (λ b, Forall (λ a, arr_len a < 2 ^ 32) b.1) batches →
  write_file w batches = Ok (file, counters) →
  ∃ s1 s,
    sp_write_batches ∅ (opt_row_group_size o) (sp_new w) batches = Ok s1 ∧ sp_finish s1 = Ok s ∧
    (len file - zsum (map group_len (sp_groups s)) < 2 ^ 32 →
     ∀ b : FileReaderV2Builder (R:=R) (RT:=RT),
       ReaderOf R (b_reader b) file → wasm_rts b = None → read_ahead b = false → b_selection b = All →
       b_projections b = ProjectAll →
       (b_verify_io_unit_checksum b = true → opt_enable_io_unit_checksum o = true) →
       ∃ reader, open_file pushdown b = Ok reader ∧
         read_file pushdown reader
         = Ok (map (λ b, mkBatch (map field_to_view sch) (map to_view b.1)) batches)).
Proof.
  intros Hs Hfits Hw Hd Hcustom Hne Hkept Hbin Hvalid Hlens Hfile.
  assert (Hflat : flat_schema sch) by (eapply Forall_impl; [exact Hkept|]; by intros f [? _]).
  destruct (table_reads string_hash coeffs max Hmax pushdown seed builtin sch o w batches file counters)
    as (s1 & s & Hs1 & Hsf & Ht); [done..|]. exists s1, s. split; [done|]. split; [done|].
  intros Hlen b Hr Hnone Hahead Hsel Hproj Hck.
  destruct (new_table _ _ _ _ _ _ Hflat Hd Hcustom Hw) as (_ & _ & _ & _ & _ & _ & _ & Hsmall).
  destruct (Ht Hlen b) as (reader & Hopen & Hrf); [by apply whole_builder; auto|done| |].
  - intros ctx Hctx. apply Forall_forall. intros bt Hbt.
    rewrite Forall_forall in Hvalid. rewrite Forall_forall in Hlens.
    apply kept_batch; [apply Hctx|by eapply opened_finds|done|by apply Hvalid|by apply Hlens].
  - exists reader. split; [done|]. rewrite Hrf, Hproj. by apply read_all_batches.
Qed.
End Table.
