(* ===== verification/SelectedRead.v ===== *)
(** * Reading with a selection

    fff-poc/src/reader/mod.rs and decoder: with selected rows a row group that has
    some of them is asked for the first one only.  A column decoder looks for the
    chunk and the unit of the row; the built-in codec slices the unit, a WASM unit is
    decoded whole and then sliced. *)

From S2P Require Import Prelude Arrow EncUnit Common Footer Options Chunks Encoders.
From S2P Require Import Writer Selection Reader Wire FileRoundtrip WriterSpec Dict SharedDict Buffers.
From S2P Require Import PhysEnc PhysEncFacts LogicalEnc LogicalEncFacts Table.
From S2P Require Import Decoders DictCache LogicalDec OpenFile ReadFile DecoderFacts EndToEnd WasmTable.
From stdpp Require Import list.
Open Scope Z_scope.

(** ** The row groups that have selected rows *)

Section Selected.
Context {M : Type} (row_count : M → Z).

(** The selected rows of each row group, from its first row, and only the groups that
    have some. *)
Fixpoint group_selections (start : Z) (rows : list Z) (ms : list M) : list (M * Selection) :=
  match ms with
  | [] => []
  | m :: ms =>
      match filter (λ i, start ≤ i < start + row_count m) rows with
      | [] => []
      | g => [(m, RowIndexes (map (λ i, i - start) g))]
      end ++ group_selections (start + row_count m) rows ms
  end.

Lemma group_selections_skip start g rows ms :
  Forall (λ m, 0 ≤ row_count m) ms → Forall (λ i, i < start) g →
  group_selections start (g ++ rows) ms = group_selections start rows ms.
Proof.
  intros Hms. revert start. induction Hms as [|m ms Hm _ IH]; intros start Hg; [done|].
  cbn [group_selections]. rewrite filter_app.
  assert (Hnil : filter (λ i, start ≤ i < start + row_count m) g = []).
  { apply list_filter_none. intros i Hi. rewrite Forall_forall in Hg. specialize (Hg i Hi). lia. }
  rewrite Hnil, IH; [done|]. eapply Forall_impl; [exact Hg|]. cbn. lia.
Qed.

Lemma group_selections_nil start ms : group_selections start [] ms = [].
Proof. revert start. induction ms as [|m ms IH]; intros start; [done|]. cbn. apply IH. Qed.

(** The loop that skips through the sorted rows computes them. *)
Lemma process_groups_selections start rows ms :
  Forall (λ m, 0 ≤ row_count m) ms → 0 ≤ start → start + zsum (map row_count ms) < 2 ^ 64 →
  StronglySorted Z.le rows → Forall (λ i, start ≤ i) rows →
  process_groups row_count start rows ms = Ok (group_selections start rows ms).
Proof.
  intros Hms. revert start rows. induction Hms as [|m ms Hm Hms IH]; intros start rows Hst Htot Hs Hge; [done|].
  cbn [map] in Htot. rewrite zsum_cons in Htot. cbn [process_groups group_selections].
  pose proof (zsum_nonneg (map row_count ms) (proj2 (Forall_map _ _ _) Hms)) as Hpos.
  rewrite (proj2 (uadd_Ok 64 _ _ _)) by (split; [lia|done]). cbn [obind].
  rewrite skip_below_id by done.
  destruct (collect_group_spec start (start + row_count m) rows Hs Hge) as (g & rest & Hc & -> & Hg & Hr).
  rewrite Hc. cbn [obind]. apply StronglySorted_app_r in Hs.
  rewrite filter_app, (list_filter_all _ g), (list_filter_none _ rest), app_nil_r; cycle 1.
  { intros i Hi. rewrite Forall_forall in Hr. specialize (Hr i Hi). lia. }
  { by apply Forall_forall. }
  rewrite group_selections_skip; [|done|eapply Forall_impl; [exact Hg|]; cbn; lia].
  assert (Hthis : match map (λ i, i - start) g with
      | [] => [] | _ :: _ => [(m, RowIndexes (map (λ i, i - start) g))] end
    = match g with [] => [] | _ :: _ => [(m, RowIndexes (map (λ i, i - start) g))] end) by by destruct g.
  destruct rest as [|i rest].
  - rewrite group_selections_nil, app_nil_r. by destruct g.
  - rewrite IH; [|lia|lia|done|done]. cbn [obind]. by destruct g.
Qed.
End Selected.

Lemma process_selections {M} (row_count : M → Z) rows ms :
  Forall (in_u 64) rows → Forall (λ n, 0 ≤ n) (map row_count ms) → zsum (map row_count ms) < 2 ^ 64 →
  process_selection row_count (RowIndexes rows) ms
  = Ok (group_selections row_count 0 (merge_sort Z.le rows) ms).
Proof.
  intros Hrows Hms Htot. cbn [process_selection]. destruct rows as [|i rows]; [by rewrite group_selections_nil|].
  apply process_groups_selections; [by apply Forall_map|done|lia|apply merge_sort_Z_sorted|].
  rewrite (merge_sort_Permutation Z.le (i :: rows)).
  eapply Forall_impl; [exact Hrows|]. unfold in_u. cbn. lia.
Qed.

(** The first selected row of every row group, counted from the first row of the
    table; [sizes] are the numbers of rows of the groups. *)
Fixpoint first_selected (rows : list Z) (start : Z) (sizes : list Z) : list Z :=
  match sizes with
  | [] => []
  | n :: sizes => take 1 (filter (λ i, start ≤ i < start + n) rows) ++ first_selected rows (start + n) sizes
  end.

Lemma first_selected_between rows start sizes :
  Forall (λ n, 0 ≤ n) sizes →
  Forall (λ i, start ≤ i < start + zsum sizes) (first_selected rows start sizes).
Proof.
  intros Hs. revert start. induction Hs as [|n sizes Hn Hs IH]; intros start; [constructor|].
  cbn [first_selected]. rewrite zsum_cons. pose proof (zsum_nonneg sizes Hs). apply Forall_app. split.
  - apply Forall_take. apply Forall_forall. intros i [Hi _]%list_elem_of_filter. lia.
  - eapply Forall_impl; [apply IH|]. cbn. lia.
Qed.

(** One row is in one group. *)
Lemma first_selected_one i start sizes :
  Forall (λ n, 0 ≤ n) sizes →
  first_selected [i] start sizes
  = if bool_decide (start ≤ i < start + zsum sizes) then [i] else [].
Proof.
  intros Hs. revert start. induction Hs as [|n sizes Hn Hs IH]; intros start.
  - cbn. rewrite bool_decide_false; [done|]. change (zsum []) with 0. lia.
  - cbn [first_selected]. rewrite IH, zsum_cons. pose proof (zsum_nonneg sizes Hs).
    destruct (decide (start ≤ i < start + n)).
    + rewrite filter_cons_True by done. rewrite bool_decide_false by lia.
      by rewrite bool_decide_true by lia.
    + rewrite filter_cons_False by done. cbn [app take].
      destruct (decide (start + n ≤ i < start + n + zsum sizes)).
      * by rewrite !bool_decide_true by lia.
      * by rewrite !bool_decide_false by lia.
Qed.

(** ** Rows of a column *)

(** The rows of arrays that follow one another. *)
Definition column_rows (arrs : list Array) : list (option value) :=
  concat (map (λ a, default [] (arr_vals a)) arrs).

(** Row [i] of them, as an array. *)
Definition row_array (dt : DataType) (arrs : list Array) (i : Z) : Array :=
  PrimArray dt (option_list (column_rows arrs !! Z.to_nat i)).

Section Rows.
Context {R RT : Type} `{Reader R} `{Flatbuffers} `{EncoderLibs} `{DecoderLibs RT}.
Context `{Codecs} `{!CodecsLaws} `{Checksum} (pushdown : bool).
Context (ctx : option (WASMReadingContext R RT)) (wasm : WASMWritingContext) (ct : CompressionType) (ed : bool).
Context (dt t : DataType).

(** Some rows of the units of [a] are read without the others. *)
Definition rows_read (a : Array) : Prop :=
  ∃ vals, a = PrimArray dt vals ∧ ∀ u b rest, encode_unit wasm ct ed a = Ok u → unit_recorded u b →
    eu_num_rows b = len vals ∧
    ∃ dec, next_unit (EncUnit_to_fb b) (bytes u ++ rest) dt ctx = Ok (dec, rest) ∧
      ∀ start n, 0 ≤ start → 0 ≤ n → start + n ≤ len vals →
        unit_rows pushdown dec start n = Ok (PrimArray t (sub_list vals start n)).

(** No rows, and then the one that is looked for. *)
Definition row_at_end (v : option value) (arrays : list Array) : Prop :=
  ∃ k, arrays = replicate k (PrimArray t []) ++ [PrimArray t [v]].

Lemma concat_row v arrays : row_at_end v arrays → concat_arrays arrays = Ok (PrimArray t [v]).
Proof.
  intros [k ->]. destruct k as [|k]; [done|]. cbn [replicate app].
  assert (Hm : ∀ k, mapM arr_vals (replicate k (PrimArray t []) ++ [PrimArray t [v]])
    = Some (replicate k [] ++ [[v]])).
  { clear k. intros k. induction k as [|k IH]; [done|]. cbn [replicate app mapM arr_vals mbind option_bind].
    by rewrite IH. }
  assert (Hf : forallb (λ b, bool_decide (arr_data_type b = t))
    (PrimArray t [] :: replicate k (PrimArray t []) ++ [PrimArray t [v]]) = true).
  { apply forallb_forall. intros b Hb%list_elem_of_In. apply bool_decide_eq_true.
    revert b Hb. apply Forall_forall. constructor; [done|]. apply Forall_app. split; [|by constructor].
    by apply Forall_replicate. }
  unfold concat_arrays. destruct (replicate k (PrimArray t []) ++ [PrimArray t [v]]) as [|x xs] eqn:He.
  { by destruct k. }
  cbn [arr_data_type] in *. rewrite Hf. cbn [negb]. rewrite <-He.
  specialize (Hm (S k)). cbn [replicate app] in Hm. rewrite Hm. do 2 f_equal.
  clear. cbn [app concat]. induction k; [done|]. by cbn.
Qed.

Lemma row_at_end_more v arrays acc :
  row_at_end v arrays → row_at_end v (PrimArray t [] :: arrays) ∧
  acc ++ PrimArray t [] :: arrays = (acc ++ [PrimArray t []]) ++ arrays.
Proof. intros [k ->]. split; [by exists (S k)|by rewrite <-app_assoc]. Qed.

Lemma sub_list_one {A} (l : list A) i v : 0 ≤ i → l !! Z.to_nat i = Some v → sub_list l i 1 = [v].
Proof.
  intros Hi Hv. unfold sub_list. rewrite (drop_S _ _ _ Hv). by cbn.
Qed.

(** The loop over the units of a chunk skips those before the row. *)
Lemma row_loop_finds g uss blocks row cur acc v :
  Forall rows_read g → Forall2 (λ a us, plain_units wasm ct ed a = Ok us) g uss →
  Forall2 unit_recorded (concat uss) blocks →
  0 ≤ cur → cur ≤ row → cur + len (column_rows g) < 2 ^ 64 →
  column_rows g !! Z.to_nat (row - cur) = Some v →
  ∃ arrays us buf, row_at_end v arrays ∧
    row_loop pushdown dt ctx row cur 1 acc (map EncUnit_to_fb blocks) (concat (map bytes (concat uss)))
    = Ok (acc ++ arrays, us, buf).
Proof.
  intros Hg HF. revert blocks cur acc Hg.
  induction HF as [|a us g uss Ha _ IH]; intros blocks cur acc Hg Hrec Hc Hrow Htot Hv.
  { cbn in Hv. by rewrite lookup_nil in Hv. }
  apply plain_units_one in Ha as (u & -> & Hu). cbn [concat app] in Hrec |- *.
  apply Forall2_cons_inv_l in Hrec as (b & blocks' & Hb & Hrec & ->).
  apply Forall_cons in Hg as [(vals & Hvals & Hread) Hg]. subst a.
  destruct (Hread u b (concat (map bytes (concat uss))) Hu Hb) as (Hn & dec & Hnext & Hslice).
  change (column_rows (PrimArray dt vals :: g)) with (vals ++ column_rows g) in Htot, Hv.
  rewrite len_app in Htot. pose proof (len_nonneg vals). pose proof (len_nonneg (column_rows g)).
  cbn [map concat row_loop]. cbn [fb.eu_num_rows EncUnit_to_fb]. rewrite Hn.
  rewrite (proj2 (uadd_Ok 64 _ _ _)) by (split; [lia|done]). cbn [obind].
  destruct (Z.leb_spec row (cur + len vals)) as [Hle|Hgt].
  - rewrite !(proj2 (usub_Ok _ _ _)) by (split; [lia|done]). cbn [obind].
    rewrite (proj2 (usub_Ok _ _ _)) by (split; [lia|done]). cbn [obind].
    rewrite Hnext. cbn [obind]. rewrite Hslice by lia. cbn [obind].
    destruct (Z.eq_dec row (cur + len vals)) as [->|Hne].
    + replace (Z.min 1 (len vals - (cur + len vals - cur))) with 0 by lia.
      assert (Hnil : sub_list vals (cur + len vals - cur) 0 = []) by (unfold sub_list; done).
      rewrite Hnil. change (1 - 0) with 1. change (1 =? 0) with false. cbn iota.
      destruct (IH blocks' (cur + len vals) (acc ++ [PrimArray t []]) Hg Hrec) as (arrays & us & buf & Hend & ->);
        [lia|lia|lia| |].
      { rewrite lookup_app_r in Hv by (unfold len; lia). rewrite <-Hv. f_equal. unfold len. lia. }
      destruct (row_at_end_more v arrays acc Hend) as [Hmore Happ].
      exists (PrimArray t [] :: arrays), us, buf. by rewrite Happ.
    + replace (Z.min 1 (len vals - (row - cur))) with 1 by lia.
      rewrite lookup_app_l in Hv by (unfold len in *; lia).
      rewrite (sub_list_one vals (row - cur) v) by (done || lia).
      exists [PrimArray t [v]], (map EncUnit_to_fb blocks'), (concat (map bytes (concat uss))).
      split; [by exists 0%nat|done].
  - destruct Hb as (Hsize & _). cbn [fb.eu_size EncUnit_to_fb]. rewrite split_to_app by done. cbn [obind].
    change (1 =? 0) with false. cbn iota. apply IH; [done|done|lia|lia|lia|].
    rewrite lookup_app_r in Hv by (unfold len in *; lia). rewrite <-Hv. f_equal. unfold len. lia.
Qed.

(** A row of a chunk of plain units. *)
Lemma chunk_row g c units row v :
  Forall rows_read g → holds (plain_units wasm ct ed) arr_len NoDictionary g c → units_recorded c units →
  0 ≤ row → len (column_rows g) < 2 ^ 64 → column_rows g !! Z.to_nat row = Some v →
  ∃ d', chunk_decode_row_at pushdown (CNoDict (mkNoDict units (chunk_bytes c) dt ctx)) row 1
    = Ok (Some (PrimArray t [v]), d').
Proof.
  intros Hg (uss & HF & ->) (blocks & Hrec & ->) Hrow Hlen Hv. cbn [encunits] in Hrec.
  destruct (row_loop_finds g uss blocks row 0 [] v) as (arrays & us & buf & Hend & Hl); try done.
  { by rewrite Z.sub_0_r. }
  cbn [chunk_decode_row_at]. unfold nd_decode_row_at.
  cbn [nd_data_type nd_wasm_context nd_encunit_iter nd_encoded_chunk_buf chunk_bytes encunits].
  unfold chunk_bytes. cbn [encunits]. rewrite Hl. cbn [obind app].
  pose proof (concat_row v arrays Hend) as Hc. destruct arrays as [|a arrays]; [done|].
  rewrite Hc. by eexists.
Qed.

Lemma rows_count g : Forall rows_read g → len (column_rows g) = zsum (map arr_len g).
Proof.
  induction 1 as [|a g (vals & -> & _) _ IH]; [done|].
  change (column_rows (PrimArray dt vals :: g)) with (vals ++ column_rows g).
  cbn [map]. by rewrite len_app, zsum_cons, IH.
Qed.

(** The decoder of the column. *)
Context (p : PrimitiveColDecoder (R:=R) (RT:=RT)) (ck : bool) (file : list Z).
Context (Hr : ReaderOf R (pr_r p) file) (Hv : verifiable ck p) (Hflat : non_nest_types dt = true).
Context (Htype : pr_primitive_type p = dt) (Hctx : pr_wasm_context p = ctx).

(** The loop over the chunks of a column skips those before the row, and stops after
    it. *)
Lemma prim_rows_finds groups chunks metas last row cur v :
  Forall rows_read (concat groups) →
  Forall2 (holds (plain_units wasm ct ed) arr_len NoDictionary) groups chunks →
  Forall2 (records ck file) chunks metas →
  0 ≤ cur → cur ≤ row → cur + len (column_rows (concat groups)) < 2 ^ 64 →
  column_rows (concat groups) !! Z.to_nat (row - cur) = Some v →
  ∃ last' rest, prim_rows pushdown p last row cur 1 (map Chunk_to_fb metas)
    = Ok ([PrimArray t [v]], last', rest).
Proof using All.
  intros Hg Hh. revert metas last cur Hg.
  induction Hh as [|g c groups chunks Hgc _ IH]; intros metas last cur Hg Hrec Hc Hrow Htot Hval.
  { cbn in Hval. by rewrite lookup_nil in Hval. }
  apply Forall2_cons_inv_l in Hrec as (m & metas' & Hm & Hrec & ->).
  cbn [concat] in *. apply Forall_app in Hg as [Hgg Hg].
  assert (Hcat : column_rows (g ++ concat groups) = column_rows g ++ column_rows (concat groups))
    by (unfold column_rows; by rewrite map_app, concat_app).
  rewrite Hcat, len_app in *. pose proof (len_nonneg (column_rows g)).
  pose proof (len_nonneg (column_rows (concat groups))).
  assert (Hnum : chunk_num_rows m = len (column_rows g)).
  { destruct Hm as (_ & -> & _). destruct Hgc as (uss & _ & ->). cbn. by rewrite rows_count. }
  cbn [map prim_rows]. change (1 =? 0) with false. cbn iota.
  cbn [fb.chunk_num_rows Chunk_to_fb]. rewrite Hnum.
  rewrite (proj2 (uadd_Ok 64 _ _ _)) by (split; [lia|done]). cbn [obind].
  destruct (Z.leb_spec (cur + len (column_rows g)) row) as [Hle|Hgt].
  - apply IH; [done|done|lia|lia|lia|]. rewrite lookup_app_r in Hval by (unfold len in *; lia).
    rewrite <-Hval. f_equal. unfold len. lia.
  - rewrite !(proj2 (usub_Ok _ _ _)) by (split; [lia|done]). cbn [obind].
    rewrite (proj2 (usub_Ok _ _ _)) by (split; [lia|done]). cbn [obind].
    replace (Z.min (len (column_rows g) - (row - cur)) 1) with 1 by lia.
    rewrite lookup_app_l in Hval by (unfold len in *; lia).
    rewrite (open_plain_chunk p ck file c m); try done;
      [|by destruct Hgc as (uss & _ & ->)|by unfold physical_type; rewrite Htype, Hflat].
    cbn [obind]. rewrite Htype, Hctx.
    destruct (chunk_row g c (map EncUnit_to_fb (blocks m)) (row - cur) v) as [d' Hd];
      [done|done|by eapply records_units|lia|lia|done|].
    cbn [rows_of_chunk]. rewrite Hd. cbn [obind arr_len].
    change (usub 1 (len [v])) with (Ok 0). cbn [obind].
    change (uadd 64 0 (len [v])) with (Ok 1). cbn [obind]. change (0 =? 0) with true. cbn iota.
    cbn [obind]. change (usub 1 1) with (Ok 0). cbn [obind].
    destruct metas' as [|m' metas']; [by eexists _, _|]. cbn [map prim_rows]. by eexists _, _.
Qed.

(** A row of a column is found and decoded. *)
Lemma chunked_row limit arrs chunks metas row :
  chunked (plain_units wasm ct ed) arr_len limit NoDictionary arrs chunks →
  Forall2 (records ck file) chunks metas → Forall rows_read arrs →
  pr_chunks_meta_iter p = map Chunk_to_fb metas →
  0 ≤ row < len (column_rows arrs) → len (column_rows arrs) < 2 ^ 64 →
  ∃ p', prim_decode_row_at pushdown p row 1 = Ok ([row_array t arrs row], p').
Proof using All.
  intros (groups & <- & Hh & _) Hrec Hg Hms Hrow Htot.
  destruct (lookup_lt_is_Some_2 (column_rows (concat groups)) (Z.to_nat row)) as [v Hval];
    [unfold len in *; lia|].
  destruct (prim_rows_finds groups chunks metas (pr_chunk_decoder p) row 0 v) as (last & rest & Hp);
    [done|done|done|lia|lia|lia|by rewrite Z.sub_0_r|].
  unfold prim_decode_row_at, row_array. rewrite Hms, Hp, Hval. by eexists.
Qed.
End Rows.

(** ** Units whose rows are read *)

Section Units.
Context {R RT : Type} `{Reader R} `{Flatbuffers} `{EncoderLibs} `{DecoderLibs RT}.
Context `{Codecs} `{!CodecsLaws} (pushdown : bool) (keeps : DataType → Prop) `{!VortexSliceLaws keeps}.
Context (ctx : WASMReadingContext R RT) (wasm : WASMWritingContext) (ct : CompressionType) (ed : bool).

(** The built-in codec slices. *)
Lemma builtin_rows_read dt vals :
  reads_builtin (Some ctx) → non_nest_types dt = true → keeps dt → built_in wasm dt → len vals < 2 ^ 32 →
  rows_read pushdown (Some ctx) wasm ct ed dt (view_type dt) (PrimArray dt vals).
Proof using All.
  intros Hctx Hnn Hk Hb Hlen. exists vals. split; [done|]. intros u b rest Hu Hrec.
  destruct (next_unit_builtin (Some ctx) wasm ct ed (PrimArray dt vals) u b dt rest Hctx Hb Hu Hrec)
    as (v & Hv & Hn).
  destruct (builtin_unit wasm ct ed (PrimArray dt vals) u Hb Hu) as (_ & _ & _ & _ & _ & Hrows).
  destruct Hrec as (_ & Hrec & _). split.
  { rewrite Hrec, Hrows. apply wrap_small. split; [apply len_nonneg|done]. }
  eexists. split; [exact Hn|]. intros start n Hs H0n Hsn. unfold unit_rows. cbn [unit_slice]. rewrite Hnn.
  rewrite (vortex_slice_encode ed dt vals v) by (done || lia).
  do 2 f_equal. f_equal. lia.
Qed.

(** There is no slice of a WASM unit: it is decoded, and its array sliced. *)
Lemma wasm_rows_read dt vals :
  non_nest_types dt = true → through_wasm wasm dt → finds_runtimes wasm ctx → len vals < 2 ^ 32 →
  rows_read pushdown (Some ctx) wasm ct ed dt (view_type dt) (PrimArray dt vals).
Proof using All.
  intros Hnn Hw Hctx Hlen. exists vals. split; [done|]. intros u b rest Hu Hrec.
  destruct (wasm_unit_decoder pushdown wasm ct ed ctx dt vals u b rest Hnn Hw Hctx Hlen Hu Hrec)
    as (Hrows & data & rt & Hnext & Hdec).
  split; [done|]. eexists. split; [exact Hnext|]. intros start n Hs H0n Hsn.
  unfold unit_rows. cbn [unit_slice]. rewrite Hdec. cbn [obind]. unfold arr_slice. cbn [arr_len].
  rewrite (proj2 (Z.leb_le 0 start)), (proj2 (Z.leb_le 0 n)), (proj2 (Z.leb_le _ (len vals))) by lia.
  done.
Qed.

Lemma kept_rows_read f vals :
  reads_builtin (Some ctx) → finds_runtimes wasm ctx → column_kept keeps wasm f → len vals < 2 ^ 32 →
  rows_read pushdown (Some ctx) wasm ct ed (data_type f) (view_type (data_type f))
    (PrimArray (data_type f) vals).
Proof using All.
  intros Hctx Hfind [Hnn [[Hk Hb]|Hw]] Hlen; [by apply builtin_rows_read|by apply wasm_rows_read].
Qed.
End Units.

(** ** A row of the table *)

(** Row [i] of the batches, as a batch of one row. *)
Definition table_row (sch : list Field) (bs : list Batch) (i : Z) : Batch :=
  (imap (λ k f, row_array (data_type f) (column k bs) i) sch, 1).

(** A batch of as many rows as it says. *)
Definition counted_batch (sch : list Field) (b : Batch) : Prop :=
  sch ≠ [] ∧ 0 ≤ b.2 < 2 ^ 32 ∧ Forall2 (fits_field b.2) sch b.1.

Lemma counted_valid sch b : counted_batch sch b → valid_batch sch b.
Proof.
  intros (Hne & _ & HF). exists (mkBatch sch b.1). apply record_batch_new with (rows := b.2); [|done].
  apply Forall2_length in HF. destruct sch; [done|]. by destruct b.1.
Qed.

Lemma rows_of_counted sch bs :
  Forall (counted_batch sch) bs → rows_of snd bs = zsum (map snd bs).
Proof.
  unfold rows_of. induction 1 as [|b bs (_ & Hb & _) _ IH]; [done|]. cbn [map]. rewrite !zsum_cons, IH.
  f_equal. by apply wrap_small.
Qed.

Lemma column_cons k bs b a : b.1 !! k = Some a → column k (b :: bs) = a :: column k bs.
Proof. intros Ha. unfold column. cbn. by rewrite Ha. Qed.

(** Every column has the rows of its batches. *)
Lemma column_rows_counted sch bs k f :
  flat_schema sch → Forall (counted_batch sch) bs → sch !! k = Some f →
  len (column_rows (column k bs)) = zsum (map snd bs).
Proof.
  intros Hflat Hbs Hf. pose proof (Forall_lookup_1 _ _ _ _ Hflat Hf) as Hnn. cbn beta in Hnn.
  induction Hbs as [|b bs (_ & Hb & HF) _ IH]; [done|].
  destruct (Forall2_lookup_l _ _ _ _ _ HF Hf) as (a & Ha & Hfa).
  destruct (flat_array f a _ Hnn Hfa) as [vals ->]. destruct Hfa as (Hlen & _).
  rewrite (column_cons _ _ _ _ Ha). change (column_rows (PrimArray (data_type f) vals :: column k bs))
    with (vals ++ column_rows (column k bs)).
  cbn [map]. rewrite len_app, zsum_cons, IH. f_equal. exact Hlen.
Qed.

Lemma column_app k bs cs : column k (bs ++ cs) = column k bs ++ column k cs.
Proof. unfold column. by rewrite omap_app. Qed.

Lemma column_rows_app l l' : column_rows (l ++ l') = column_rows l ++ column_rows l'.
Proof. unfold column_rows. by rewrite map_app, concat_app. Qed.

(** A row of some batches among the batches of the table. *)
Lemma table_row_between sch pre bs post i :
  flat_schema sch → Forall (counted_batch sch) (pre ++ bs ++ post) →
  zsum (map snd pre) ≤ i < zsum (map snd pre) + zsum (map snd bs) →
  table_row sch bs (i - zsum (map snd pre)) = table_row sch (pre ++ bs ++ post) i.
Proof.
  intros Hflat Hall Hi. unfold table_row. f_equal. apply imap_ext. intros k f Hf. unfold row_array. f_equal.
  apply Forall_app in Hall as [Hpre Hall]. apply Forall_app in Hall as [Hbs Hpost].
  pose proof (column_rows_counted sch pre k f Hflat Hpre Hf) as Hlp.
  pose proof (column_rows_counted sch bs k f Hflat Hbs Hf) as Hlb.
  rewrite !column_app, !column_rows_app. f_equal.
  assert (0 ≤ zsum (map snd pre)) by (rewrite <-Hlp; apply len_nonneg).
  rewrite lookup_app_r by (unfold len in *; lia).
  rewrite lookup_app_l by (unfold len in *; lia).
  f_equal. unfold len in *. lia.
Qed.

(** A value of a column can stand in its field alone. *)
Lemma row_value_fits sch bs k f i :
  flat_schema sch → Forall (counted_batch sch) bs → sch !! k = Some f →
  0 ≤ i < zsum (map snd bs) → fits_field 1 f (row_array (data_type f) (column k bs) i).
Proof.
  intros Hflat Hbs Hf Hi. rewrite <-(column_rows_counted sch bs k f Hflat Hbs Hf) in Hi.
  destruct (lookup_lt_is_Some_2 (column_rows (column k bs)) (Z.to_nat i)) as [v Hv]; [unfold len in Hi; lia|].
  unfold row_array. rewrite Hv. split; [done|]. split; [|done].
  apply list_elem_of_lookup_2 in Hv. clear Hi. pose proof (Forall_lookup_1 _ _ _ _ Hflat Hf) as Hnn.
  cbn beta in Hnn. induction Hbs as [|b bs (_ & _ & HF) _ IH]; [by apply elem_of_nil in Hv|].
  destruct (Forall2_lookup_l _ _ _ _ _ HF Hf) as (a & Ha & Hfa).
  destruct (flat_array f a _ Hnn Hfa) as [vals ->]. rewrite (column_cons _ _ _ _ Ha) in Hv.
  change (column_rows (PrimArray (data_type f) vals :: column k bs))
    with (vals ++ column_rows (column k bs)) in Hv.
  apply elem_of_app in Hv as [Hv|Hv]; [|by apply IH].
  destruct Hfa as (_ & Hn & _). destruct (nullable f); [done|]. cbn [orb] in *.
  destruct v as [v|]; [by destruct (data_type f)|].
  apply negb_true_iff in Hn. apply negb_true_iff.
  assert (Hall : arr_is_nullable (PrimArray (data_type f) vals) = true).
  { unfold arr_is_nullable. apply negb_true_iff, not_true_is_false. intros Hall.
    rewrite forallb_forall in Hall. specialize (Hall false).
    assert (Hin : In false (arr_validity (PrimArray (data_type f) vals))); [|by specialize (Hall Hin)].
    cbn [arr_validity]. apply in_map_iff. exists None. split; [done|]. by apply list_elem_of_In. }
  destruct (data_type f); cbn [has_nulls] in *; congruence.
Qed.

Lemma table_row_valid sch bs i :
  sch ≠ [] → flat_schema sch → Forall (counted_batch sch) bs → 0 ≤ i < zsum (map snd bs) →
  valid_batch sch (table_row sch bs i).
Proof.
  intros Hne Hflat Hbs Hi. exists (mkBatch sch (table_row sch bs i).1).
  apply record_batch_new with (rows := 1); [by destruct sch|].
  apply Forall2_same_length_lookup_2; [unfold table_row; cbn [fst]; by rewrite length_imap|].
  intros k f a Hf Ha. unfold table_row in Ha. cbn [fst] in Ha. rewrite list_lookup_imap, Hf in Ha.
  injection Ha as <-. by eapply row_value_fits.
Qed.

Section Groups.
Context {R RT : Type} `{Reader R} `{Flatbuffers} `{EncoderLibs} `{DecoderLibs RT}.
Context `{Codecs} `{!CodecsLaws} `{Checksum} (pushdown : bool).
Context (limit : Z) (wasm : WASMWritingContext) (ed : bool) (ct : CompressionType) (Hlimit : 0 ≤ limit).
Context (sch : list Field) (p : Projection) (r : R) (file : list Z) (Hr : ReaderOf R r file).
Context (ctx : WASMReadingContext R RT) (cache : SharedDictionaryCache) (ckt : option ChecksumType).

(** The rows of the columns of a batch are read. *)
Definition batch_rows_read (b : Batch) : Prop :=
  Forall2 (λ f, rows_read pushdown (Some ctx) wasm ct ed (data_type f) (view_type (data_type f))) sch b.1.

Lemma column_rows_read bs i f :
  Forall batch_rows_read bs → sch !! i = Some f →
  Forall (rows_read pushdown (Some ctx) wasm ct ed (data_type f) (view_type (data_type f))) (column i bs).
Proof.
  intros Hbs Hf. induction Hbs as [|b bs HF _ IH]; [constructor|].
  destruct (Forall2_lookup_l _ _ _ _ _ HF Hf) as (a & Ha & Hfa). rewrite (column_cons _ _ _ _ Ha).
  by constructor.
Qed.

(** Of a row group with selected rows one batch is read: its first selected row. *)
Lemma group_row_read ck bs g rg ms m row more :
  group_written (written:=column_written limit wasm ed ct) (length sch) bs g →
  cols_record (len sch) ck file (g_chunks g) (col_metadatas rg) →
  flat_schema sch → Forall (counted_batch sch) bs → Forall batch_rows_read bs →
  len sch < 2 ^ 32 → len (selected p (length sch)) < 2 ^ 32 →
  projects p (length sch) → project p (col_metadatas rg) = Ok ms →
  column_metadatas m = map ColumnMetadata_to_fb ms → ckt = None ∨ ck = true →
  0 ≤ row < zsum (map snd bs) → zsum (map snd bs) < 2 ^ 64 →
  read_row_group pushdown r sch p (Some ctx) cache ckt (m, RowIndexes (row :: more))
  = traverse (read_batch p sch) [table_row sch bs row].
Proof using All.
  intros Hw Hrec Hsch Hbs Hreads Hlen Hsel Hp Hms Hm Hck Hrow Htot.
  apply read_row_group_selected; [done|done|done| |].
  { constructor; [|done]. unfold table_row. cbn [fst]. by rewrite length_imap. }
  intros j i f Hj Hf. assert (Hi : (i < length sch)%nat) by (by eapply lookup_lt_Some).
  destruct (group_column limit wasm ed ct Hlimit sch p file ck bs g rg ms m j i)
    as (chunks & metas & Hchunked & Hchunks & Hcol); [done..|].
  pose proof (Forall_lookup_1 _ _ _ _ Hsch Hf) as Hnn. cbn beta in Hnn.
  pose proof (column_rows_counted sch bs i f Hsch Hbs Hf) as Hn.
  split; [done|]. exists (map Chunk_to_fb metas).
  destruct (chunked_row pushdown (Some ctx) wasm ct ed (data_type f) (view_type (data_type f))
    (primitive_decoder r (Some ctx) cache ckt (map Chunk_to_fb metas) (data_type f)) ck file
    Hr Hck Hnn eq_refl eq_refl limit (column i bs) chunks metas row) as (p' & Hp'); try done.
  - by apply column_rows_read.
  - by rewrite Hn.
  - by rewrite Hn.
  - exists p'. split; [done|]. unfold prim_decode_selected.
    change (index (row :: more) 0) with (@Ok Z row). cbn [obind]. rewrite Hp'. do 2 f_equal.
    unfold column. cbn. by rewrite list_lookup_imap, Hf.
Qed.
End Groups.

(** ** The table *)

(** The numbers of rows of the row groups. *)
Definition group_sizes (groups : list (list Batch)) : list Z := map (λ bs, zsum (map snd bs)) groups.

(** What the row groups with selected rows give, when each gives its first one. *)
Lemma selections_read {M} (row_count : M → Z) (f : M * Selection → outcome (list RecordBatch))
    (rb : Batch → outcome RecordBatch) sch groups ms pre rows :
  flat_schema sch → Forall (counted_batch sch) (pre ++ concat groups) →
  Forall2 (λ bs m, row_count m = zsum (map snd bs) ∧
    ∀ row more, 0 ≤ row < zsum (map snd bs) →
      f (m, RowIndexes (row :: more)) = traverse rb [table_row sch bs row]) groups ms →
  (let! l := traverse f (group_selections row_count (zsum (map snd pre)) rows ms) in Ok (concat l))
  = traverse (λ i, rb (table_row sch (pre ++ concat groups) i))
      (first_selected rows (zsum (map snd pre)) (group_sizes groups)).
Proof.
  intros Hflat Hb HF. revert pre Hb. induction HF as [|bs m groups ms (Hm & Hf) _ IH]; intros pre Hb; [done|].
  unfold group_sizes in *. cbn [group_selections map first_selected concat] in *.
  rewrite Hm. specialize (IH (pre ++ bs)). rewrite <-app_assoc, map_app, zsum_app in IH. specialize (IH Hb).
  rewrite !traverse_app, <-IH.
  destruct (filter _ rows) as [|i g] eqn:Hi.
  - cbn [take traverse app obind]. by destruct (traverse f _).
  - assert (Hrow : zsum (map snd pre) ≤ i < zsum (map snd pre) + zsum (map snd bs)).
    { assert (Hin : i ∈ i :: g) by left. rewrite <-Hi in Hin. by apply list_elem_of_filter in Hin as [? _]. }
    cbn [map app take traverse]. rewrite Hf by lia.
    rewrite (table_row_between sch pre bs (concat groups) i Hflat Hb Hrow).
    destruct g; cbn [traverse take]; destruct (rb _); try done; cbn [obind]; by destruct (traverse f _).
Qed.

Lemma group_sizes_sum groups : zsum (group_sizes groups) = zsum (map snd (concat groups)).
Proof.
  unfold group_sizes. induction groups as [|bs groups IH]; [done|]. cbn [map concat].
  by rewrite map_app, zsum_app, zsum_cons, IH.
Qed.

Lemma group_sizes_nonneg sch groups :
  Forall (Forall (counted_batch sch)) groups → Forall (λ n, 0 ≤ n) (group_sizes groups).
Proof.
  intros Hg. apply Forall_map. eapply Forall_impl; [exact Hg|]. cbn. intros bs Hbs.
  induction Hbs as [|b bs (_ & Hb & _) _ IH]; [done|]. cbn [map]. rewrite zsum_cons. lia.
Qed.

Section Table.
Context {R RT : Type} `{Reader R} `{Flatbuffers} `{!FlatbuffersLaws} `{EncoderLibs} `{DecoderLibs RT}.
Context `{Codecs} `{!CodecsLaws} `{Checksum} `{!ChecksumLaws} `{Sampling}.
Context (keeps : DataType → Prop) `{!VortexSliceLaws keeps}.
Context (string_hash : string → Z) (coeffs : list (Z * Z)).
Context (max : Z) `{!BoundedUnits max} (Hmax : 0 ≤ max).

#[local] Instance selected_table_encoders : LogicalColEncoder LogicalEncoder SharedDictionaryContext :=
  logical_encoder string_hash.
#[local] Instance selected_table_dictionaries : SharedDictionaryOps SharedDictionaryContext :=
  shared_dictionary_ops string_hash coeffs.

Lemma kept_batch_rows (wasm : WASMWritingContext) pushdown ct ed ctx sch (b : Batch) :
  reads_builtin (Some ctx) → finds_runtimes wasm ctx → Forall (column_kept keeps wasm) sch →
  counted_batch sch b → batch_rows_read pushdown wasm ed ct sch ctx b.
Proof using All.
  intros Hctx Hfind Hsch (_ & Hn & HF). unfold batch_rows_read.
  assert (Hgen : ∀ fs cs, Forall (column_kept keeps wasm) fs → Forall2 (fits_field b.2) fs cs →
    Forall2 (λ f, rows_read pushdown (Some ctx) wasm ct ed (data_type f) (view_type (data_type f))) fs cs).
  { intros fs cs Hfs HFs. induction HFs as [|f a fs cs Hfa _ IH]; [constructor|].
    apply Forall_cons in Hfs as [Hf Hfs]. constructor; [|by apply IH].
    destruct (flat_array f a _ (proj1 Hf) Hfa) as [vals ->]. destruct Hfa as (Hl & _). cbn in Hl.
    apply (kept_rows_read pushdown keeps); [done|done|done|lia]. }
  by apply Hgen.
Qed.

(** A reader with selected rows gives one batch of one row for each row group that has
    some of them: the first of them. *)
Lemma first_rows_read pushdown seed builtin sch o w batches file counters :
  0 ≤ iounit_size o → iounit_size o + 2 * max < 2 ^ 32 →
  new_writer pushdown seed builtin sch o = Ok w →
  no_dictionary_column (dictionary_type o) → opt_custom_encunit_len o = ∅ →
  sch ≠ [] → Forall (column_kept keeps (wasm_context w)) sch → binaries_ok (RT:=RT) (wasm_context w) →
  Forall (counted_batch sch) batches → zsum (map snd batches) < 2 ^ 64 →
  write_file w batches = Ok (file, counters) →
  ∃ s1 s,
    sp_write_batches ∅ (opt_row_group_size o) (sp_new w) batches = Ok s1 ∧ sp_finish s1 = Ok s ∧
    (len file - zsum (map group_len (sp_groups s)) < 2 ^ 32 →
     ∀ (b : FileReaderV2Builder (R:=R) (RT:=RT)) rows,
       ReaderOf R (b_reader b) file → wasm_rts b = None → read_ahead b = false →
       b_selection b = RowIndexes rows → Forall (in_u 64) rows → b_projections b = ProjectAll →
       (b_verify_io_unit_checksum b = true → opt_enable_io_unit_checksum o = true) →
       ∃ reader, open_file pushdown b = Ok reader ∧
         read_file pushdown reader
         = Ok (map (λ i, mkBatch (map field_to_view sch) (map to_view (table_row sch batches i).1))
                 (first_selected (merge_sort Z.le rows) 0
                    (group_sizes (batch_groups snd (opt_row_group_size o) batches))))).
Proof using All.
  intros Hs Hfits Hw Hd Hcustom Hne Hkept Hbin Hcounted Htot Hfile.
  assert (Hflat : flat_schema sch) by (eapply Forall_impl; [exact Hkept|]; by intros f [? _]).
  destruct (new_table _ _ _ _ _ _ Hflat Hd Hcustom Hw)
    as (ctx & Hts & Hshare & Hnodict & Hcu & Hrgs & Hnum & Hsmall). specialize (Hsmall Hne).
  destruct (file_reads string_hash coeffs max Hmax (flat_steps string_hash (iounit_size o) (wasm_context w)
    (bool_decide (dictionary_type o = EncoderDictionary)) (opt_compression_type o) Hs)
    pushdown seed builtin sch o w batches file counters (length sch) (length sch) ctx)
    as (s1 & s & Hs1 & Hsf & Hfr); [done..| |done|].
  { eapply Forall_impl; [exact Hcounted|]. intros b (_ & _ & HF). split; [|done].
    by apply Forall2_length in HF. }
  exists s1, s. split; [done|]. split; [done|].
  intros Hlen b rows Hr Hnone Hahead Hsel Hrows Hproj Hck.
  destruct (Hfr Hlen b) as (reader & ms & cx & ckt & Hopen & Hcx & Hckt & Hgroups & Hrf);
    [done|rewrite Hproj; split; [by destruct sch|done]|done|done|].
  exists reader. split; [exact Hopen|]. rewrite Hrf. unfold reads_groups in *. rewrite Hsel, Hproj in *. clear Hrf Hfr.
  set (groups := batch_groups snd (opt_row_group_size o) batches) in *.
  assert (Hcat : concat groups = batches) by apply batch_groups_concat.
  assert (Hsum : zsum (group_sizes groups) = zsum (map snd batches)) by by rewrite <-Hcat, group_sizes_sum.
  assert (Hcg : Forall (Forall (counted_batch sch)) groups)
    by (apply Forall_concat; by rewrite Hcat).
  assert (Hsizes : Forall (λ n, 0 ≤ n) (group_sizes groups)) by by eapply group_sizes_nonneg.
  assert (Hst : Forall2 (λ bs m, row_count m = zsum (map snd bs) ∧
      ∀ row more, 0 ≤ row < zsum (map snd bs) →
        read_row_group pushdown (b_reader b) sch ProjectAll (Some cx) (mkCache [] [] [] []) ckt
          (m, RowIndexes (row :: more))
        = traverse (read_batch ProjectAll sch) [table_row sch bs row]) groups ms).
  { apply Forall2_same_length_lookup_2; [by eapply Forall2_length|]. intros k bs m Hk Hmk.
    pose proof (Forall_lookup_1 _ _ _ _ Hcg Hk) as Hbs.
    pose proof (Forall2_lookup_lr _ _ _ _ _ _ Hgroups Hk Hmk)
      as (g & rg & pms & Hg & Hcr & Hp & Hm & Hrc).
    split; [by rewrite Hrc, (proj1 Hg), (rows_of_counted sch)|]. intros row more Hrow.
    assert (Hle : zsum (map snd bs) ≤ zsum (group_sizes groups))
      by (apply zsum_elem; [done|]; exists k; unfold group_sizes; by rewrite list_lookup_fmap, Hk).
    eapply (group_row_read pushdown _ _ _ _ Hs); [exact Hr|exact Hg|exact Hcr|exact Hflat|exact Hbs| |
      exact Hsmall|cbn; by unfold len; rewrite length_seq|split; [by destruct sch|done]|exact Hp|exact Hm|
      exact Hckt|exact Hrow|lia].
    eapply Forall_impl; [exact Hbs|]. intros bt Hbt.
    apply kept_batch_rows; [apply Hcx|by eapply opened_finds|done|done]. }
  assert (Hcounts : map row_count ms = group_sizes groups).
  { clear - Hst. induction Hst as [|bs m groups ms [Hm _] _ IH]; [done|]. cbn. by rewrite Hm, IH. }
  rewrite (process_selections row_count rows ms); [|done|by rewrite Hcounts|by rewrite Hcounts, Hsum].
  cbn [obind].
  pose proof (selections_read row_count _ _ sch groups ms [] (merge_sort Z.le rows) Hflat
    ltac:(cbn; by rewrite Hcat) Hst) as Hread.
  change (zsum (map snd [])) with 0 in Hread. rewrite Hread. cbn [app]. rewrite Hcat.
  rewrite <-(traverse_map (read_batch ProjectAll sch) (table_row sch batches)).
  rewrite read_all_batches; [by rewrite map_map|done|].
  apply Forall_map. eapply Forall_impl; [by apply first_selected_between|]. cbn. intros i Hi.
  apply table_row_valid; [done|done|done|lia].
Qed.

(** C5: point access.  Of a table that was written, its columns kept by the built-in
    encoding or by the binaries in the file, a reader that was given a selection reads
    one row, wherever it lies in the row groups of the file and in the chunks and units of each
    column: one batch of that row, with its values and nulls, strings as views; and no
    batch when the table has no such row. *)
Theorem selected_row_read pushdown seed builtin sch o w batches file counters :
  0 ≤ iounit_size o → iounit_size o + 2 * max < 2 ^ 32 →
  new_writer pushdown seed builtin sch o = Ok w →
  no_dictionary_column (dictionary_type o) → opt_custom_encunit_len o = ∅ →
  sch ≠ [] → Forall (column_kept keeps (wasm_context w)) sch → binaries_ok (RT:=RT) (wasm_context w) →
  Forall (counted_batch sch) batches → zsum (map snd batches) < 2 ^ 64 →
  write_file w batches = Ok (file, counters) →
  ∃ s1 s,
    sp_write_batches ∅ (opt_row_group_size o) (sp_new w) batches = Ok s1 ∧ sp_finish s1 = Ok s ∧
    (len file - zsum (map group_len (sp_groups s)) < 2 ^ 32 →
     ∀ (b b' : FileReaderV2Builder (R:=R) (RT:=RT)) rows,
       ReaderOf R (b_reader b) file → wasm_rts b = None → read_ahead b = false →
       b_projections b = ProjectAll →
       (b_verify_io_unit_checksum b = true → opt_enable_io_unit_checksum o = true) →
       with_selection b (RowIndexes rows) = Ok b' → Forall (in_u 64) rows →
       ∃ reader i, open_file pushdown b' = Ok reader ∧ rows = [i] ∧
         read_file pushdown reader
         = Ok (if i <? zsum (map snd batches)
               then [mkBatch (map field_to_view sch) (map to_view (table_row sch batches i).1)] else [])).
Proof using All.
  intros Hs Hfits Hw Hd Hcustom Hne Hkept Hbin Hcounted Htot Hfile.
  destruct (first_rows_read _ _ _ _ _ _ _ _ _ Hs Hfits Hw Hd Hcustom Hne Hkept Hbin Hcounted Htot Hfile)
    as (s1 & s & Hs1 & Hsf & Hread). exists s1, s. split; [done|]. split; [done|].
  intros Hlen b b' rows Hr Hnone Hahead Hproj Hck Hb Hrows.
  unfold with_selection in Hb. apply obind_Ok in Hb as (? & Hone & Hb). apply (inj Ok) in Hb as <-.
  destruct rows as [|i [|i' rows]]; [done| |].
  2: { rewrite !len_cons in Hone. pose proof (len_nonneg rows).
       destruct (Z.eqb_spec (1 + (1 + len rows)) 1); [lia|done]. }
  assert (Hi : 0 ≤ i) by (by apply Forall_cons in Hrows as [[? _] _]).
  eapply (Hread Hlen (mkBuilder (b_reader b) (b_projections b) (RowIndexes [i]) (read_ahead b) (wasm_rts b)
    (b_verify_io_unit_checksum b) (b_verify_file_checksum b)) [i]) in Hrows
    as (reader & Hopen & Hrf); [|done..].
  exists reader, i. split; [exact Hopen|]. split; [done|]. rewrite Hrf.
  change (merge_sort Z.le [i]) with [i]. rewrite first_selected_one, group_sizes_sum, batch_groups_concat.
  - destruct (Z.ltb_spec i (zsum (map snd batches))).
    + by rewrite bool_decide_true by lia.
    + by rewrite bool_decide_false by lia.
  - apply (group_sizes_nonneg sch). apply Forall_concat. by rewrite batch_groups_concat.
Qed.
End Table.
