(* ===== verification/WasmExample.v ===== *)
(** * A table with a custom encoding

    A writer that gives its columns of unsigned 16-bit integers to the pattern codec of
    wasm-libs, puts the binary of the codec into the file, and encodes the other column
    itself.  A reader that has only the file gives the table back. *)

From S2P Require Import Prelude Arrow EncUnit Common Footer Options Chunks Encoders.
From S2P Require Import Writer Selection Reader Wire FileRoundtrip WriterSpec Dict SharedDict Buffers.
From S2P Require Import PhysEnc PhysEncFacts LogicalEnc LogicalEncFacts Table.
From S2P Require Import Decoders DictCache LogicalDec OpenFile ReadFile DecoderFacts EndToEnd.
From S2P Require Import Layout Guest ExampleCodecs PatternCodec WasmTable SelectedRead.
From stdpp Require Import list.
Open Scope Z_scope.

(** ** The libraries *)

(** The values of [UInt16]. *)
Definition u16_value (v : option value) : bool :=
  match v with
  | None => true
  | Some (VInt x) => (0 <=? x) && (x <? 2 ^ 16)
  | Some _ => false
  end.

(** The dynamic library of the codec; it refuses blocks of a thousand bytes or more. *)
Definition pattern_call (arr : Array) : outcome (list Z) :=
  match arr with
  | PrimArray UInt16 vals =>
      if forallb u16_value vals then
        let! block := encode_custom UInt16 (len vals) (native_layout 2 vals) in
        if len block <? 1000 then Ok block else Err (NYI "large block")
      else Err (NYI "value")
  | _ => Err (NYI "type")
  end.

Definition pattern_encoders : EncoderLibs := {|
  Library := unit;
  library_new path := if bool_decide (path = "libpattern.so") then Ok tt else Err (General "no library");
  library_call _ name arr :=
    if bool_decide (name = "encode") then pattern_call arr else Err (General "no function");
  vortex_encode _ arr := byte_encode arr;
  list_struct_encode _ _ := Err (NYI "list of structs");
|}.

(** The bytes of the binary, and a runtime that knows what they do. *)
Definition pattern_binary : list Z := [0; 97; 115; 109].

Definition pattern_decoders : DecoderLibs unit := {|
  vortex_decode := byte_decode;
  vortex_slice := @vortex_slice unit byte_decoder;
  vortex_list_decode _ _ := Err (NYI "nested array");
  vortex_list_struct_decode _ _ := Err (NYI "list of structs");
  vortex_list_struct_slice _ _ _ _ := Err (NYI "list of structs");
  call_multi_buf _ name data :=
    if bool_decide (name = WASM_FUNC_GENERAL) then decode_custom data else Err (General "no function");
  Runtime_try_new binary :=
    if bool_decide (binary = pattern_binary) then Ok tt else Err (General "no magic");
  concat_nested _ := Err (NYI "nested array");
|}.

#[local] Existing Instance stored.

Lemma pattern_units_bounded : @BoundedUnits pattern_encoders stored 1000.
Proof.
  split; [|done]. intros wasm dt ed enc arr b ct z Henc Hb ->%stored_compress.
  unfold encode_array in Hb. apply obind_Ok in Hb as (u & Hu & Hb). apply (inj Ok) in Hb as <-.
  rewrite unwrap_res_Ok in Hu. unfold create_encunit_encoder in Henc.
  destruct (data_type_to_wasm_lib wasm dt) as [l|].
  - apply obind_Ok in Henc as (c & _ & Henc). apply (inj Ok) in Henc as <-. cbn [enc_encode custom_encoder] in Hu.
    unfold CustomEncoder_encode in Hu. apply obind_Ok in Hu as (block & Hblock & Hu). apply (inj Ok) in Hu as <-.
    cbn [EncUnit_try_serialize concat]. rewrite app_nil_r. cbn [library_call pattern_encoders] in Hblock.
    case_bool_decide; [|done]. unfold pattern_call in Hblock.
    destruct arr as [[] vals| |]; try done. destruct (forallb u16_value vals); [|done].
    apply obind_Ok in Hblock as (b & _ & Hblock). destruct (Z.ltb_spec (len b) 1000); [|done].
    apply (inj Ok) in Hblock as <-. lia.
  - apply (inj Ok) in Henc as <-. cbn in Hu. apply byte_encode_len in Hu. lia.
Qed.

#[local] Instance pattern_laws : @VortexLaws pattern_encoders unit pattern_decoders byte_kept.
Proof. split. intros ed dt vals u _ _ Hu. by apply (byte_decode_encode (PrimArray dt vals)). Qed.

#[local] Instance pattern_slice_laws : @VortexSliceLaws pattern_encoders unit pattern_decoders byte_kept.
Proof.
  split. exact (@vortex_slice_encode byte_encoder unit byte_decoder byte_kept byte_slice_laws).
Qed.

(** What the library encodes is decoded by the binary. *)
Lemma pattern_decodes c :
  @CustomEncoder_try_new pattern_encoders "libpattern.so" "encode" = Ok c →
  @decodes_units unit pattern_decoders pattern_binary UInt16 (@CustomEncoder_encode pattern_encoders c).
Proof.
  intros Hc. apply (inj Ok) in Hc as <-. exists tt. split; [done|]. intros vals u Hlen Hu.
  unfold CustomEncoder_encode in Hu. apply obind_Ok in Hu as (block & Hblock & Hu). apply (inj Ok) in Hu as <-.
  change (pattern_call (PrimArray UInt16 vals) = Ok block) in Hblock. unfold pattern_call in Hblock.
  destruct (forallb u16_value vals) eqn:Hvals; [|done].
  apply obind_Ok in Hblock as (b & Hb & Hblock). destruct (len b <? 1000); [|done].
  apply (inj Ok) in Hblock as <-. cbn [EncUnit_try_serialize concat]. rewrite app_nil_r.
  assert (Hl : lays_out UInt16 vals (native_layout 2 vals)).
  { apply (native_layout_ok UInt16 2 _ _ eq_refl). apply Forall_forall. intros v Hv x ->.
    rewrite forallb_forall in Hvals. specialize (Hvals (Some x) (proj1 (list_elem_of_In _ _) Hv)).
    destruct x; try done. apply andb_true_iff in Hvals as [H0 H1].
    apply Z.leb_le in H0. apply Z.ltb_lt in H1. by split. }
  destruct (pattern_codec UInt16 u16 vals _ eq_refl Hl Hlen) as (pats & _ & Hcase).
  destruct ((len vals mod 128 =? 0) && (len pats <=? 255)).
  - destruct Hcase as (block & bufs & Hblock & Hdec & Harr).
    pose proof (eq_trans (eq_sym Hb) Hblock) as Heq. apply (inj Ok) in Heq as ->. exists bufs. by split.
  - destruct Hcase as [p Hp]. by rewrite Hp in Hb.
Qed.

(** ** The table *)

Section Example.
#[local] Existing Instance pattern_encoders.
#[local] Existing Instance pattern_decoders.
#[local] Existing Instance stored_laws.
#[local] Existing Instance no_sampling.
#[local] Existing Instance sum_checksum.
#[local] Existing Instance sum_checksum_laws.
#[local] Existing Instance symbol_flatbuffers.
#[local] Existing Instance symbol_flatbuffers_laws.
#[local] Existing Instance pattern_units_bounded.
#[local] Instance pattern_logical : LogicalColEncoder LogicalEncoder SharedDictionaryContext :=
  logical_encoder length_hash.
#[local] Instance pattern_dictionaries : SharedDictionaryOps SharedDictionaryContext :=
  shared_dictionary_ops length_hash constant_coeffs.

Definition pattern_options : FileWriterOptions :=
  mkOptions DEFAULT_IOUNIT_SIZE DEFAULT_ENCODING_UNIT_LEN XxHash false ∅ 256
    (mkCustom {[ 0 := mkWasmLib "libpattern.so" pattern_binary ]} {[ UInt16 := 0 ]})
    EncoderDictionary true Uncompressed.

Definition pattern_schema : list Field := [mkField "n" UInt16 true; mkField "s" Utf8 false].

Definition pattern_batch (ints : list (option value)) : Batch :=
  ([PrimArray UInt16 ints; PrimArray Utf8 (map (λ _, Some (VStr "x")) ints)], len ints).

(** Three batches of one block each, two of them equal, in two row groups. *)
Definition pattern_batches : list Batch :=
  map pattern_batch
    [take 128 pattern_example; take 128 (drop 128 pattern_example); drop 256 pattern_example].

Definition pattern_writer : outcome (FileWriter (E:=LogicalEncoder) (Ctx:=SharedDictionaryContext)) :=
  FileWriter_try_new (create_logical_encoder false (λ _, tt : @Rng no_sampling))
    SharedDictionaryContext_new (Ok []) pattern_schema pattern_options.

Definition pattern_spec : outcome (Spec LogicalEncoder SharedDictionaryContext) :=
  let! w := pattern_writer in
  let! s := sp_write_batches ∅ 256 (sp_new w) pattern_batches in sp_finish s.

(** What is computed of the writer and of its file. *)
Lemma pattern_writer_facts w :
  pattern_writer = Ok w →
  wasm_context w = into_context (custom_encoding_options pattern_options) ∧
  num_physical_columns (state w) = 2 ∧ custom_encunit_len w = ∅ ∧ row_group_size w = 256.
Proof.
  intros Hw. assert (Hf : match pattern_writer with
    | Ok w => Some (num_physical_columns (state w), map_to_list (custom_encunit_len w), row_group_size w)
    | _ => None end = Some (2, [], 256)) by by vm_compute.
  assert (Hc : match pattern_writer with
    | Ok w => wasm_context w = into_context (custom_encoding_options pattern_options)
    | _ => False end) by reflexivity.
  rewrite Hw in Hf, Hc. injection Hf as Hn He Hr. apply map_to_list_empty_iff in He. by split_and!.
Qed.

Lemma pattern_file :
  ∃ w file counters, pattern_writer = Ok w ∧ write_file w pattern_batches = Ok (file, counters).
Proof.
  assert (Hrun : match (let! w := pattern_writer in let! w1 := write_batches w pattern_batches in
        finish_groups w1) with
      | Ok w => Some (len (dictionaries (shared_dictionary_context w))) | _ => None end = Some 0)
    by by vm_compute.
  destruct pattern_writer as [w| |]; [|done..]. cbn [obind] in Hrun. exists w.
  destruct (file_written length_hash constant_coeffs w pattern_batches Hrun) as (file & counters & Hf).
  by exists file, counters.
Qed.

Lemma pattern_file_short w file counters s1 s :
  pattern_writer = Ok w → write_file w pattern_batches = Ok (file, counters) →
  sp_write_batches ∅ 256 (sp_new w) pattern_batches = Ok s1 → sp_finish s1 = Ok s →
  len file - zsum (map group_len (sp_groups s)) < 2 ^ 32.
Proof.
  intros Hw Hf Hs1 Hs. destruct (pattern_writer_facts w Hw) as (Hwc & Hnum & Hc & Hr).
  assert (Hgroups : match pattern_spec with Ok s => Some (len (sp_groups s), dictionaries (sp_ctx s))
    | _ => None end = Some (2, [])) by by vm_compute.
  unfold pattern_spec in Hgroups. rewrite Hw in Hgroups. cbn [obind] in Hgroups. rewrite Hs1 in Hgroups.
  cbn [obind] in Hgroups. rewrite Hs in Hgroups. injection Hgroups as Hn Hd.
  rewrite (file_short length_hash constant_coeffs 1000 false (λ _, tt : @Rng no_sampling) (Ok [])
    pattern_schema pattern_options w pattern_batches file counters s1 s);
    try done; [by rewrite Hnum, Hn, Hwc|by rewrite Hr].
Qed.

(** The integers go through the binary, the strings do not. *)
Lemma pattern_columns_kept w :
  pattern_writer = Ok w → Forall (column_kept byte_kept (wasm_context w)) pattern_schema.
Proof.
  intros Hw. destruct (pattern_writer_facts w Hw) as [-> _]. constructor; [|constructor; [|constructor]].
  - split; [done|]. right.
    apply (through_custom _ _ 0 (mkWasmLib "libpattern.so" pattern_binary) (mkCustomEncoder (H:=pattern_encoders) tt "encode"));
      [done..|by apply pattern_decodes].
  - split; [done|]. left. split; [by eexists|by split].
Qed.

Lemma pattern_binaries_ok w : pattern_writer = Ok w → binaries_ok (RT:=unit) (wasm_context w).
Proof.
  intros Hw. destruct (pattern_writer_facts w Hw) as [-> _]. split.
  - intros id lib Hl. cbn in Hl. apply lookup_singleton_Some in Hl as [<- _]. done.
  - done.
  - repeat constructor. by exists tt.
Qed.

Lemma pattern_batches_valid : Forall (valid_batch pattern_schema) pattern_batches.
Proof. repeat (constructor; [by eexists|]). constructor. Qed.

Lemma wasm_table_reads_back_witness :
  ∃ w file counters reader,
    pattern_writer = Ok w ∧ write_file w pattern_batches = Ok (file, counters) ∧
    open_file false (checking_builder file) = Ok reader ∧
    read_file false reader
    = Ok (map (λ b, mkBatch [mkField "n" UInt16 true; mkField "s" Utf8View false] (map to_view b.1))
            pattern_batches).
Proof.
  destruct pattern_file as (w & file & counters & Hw & Hf).
  destruct (wasm_table_reads_back (R:=FileHandle) (RT:=unit) byte_kept length_hash constant_coeffs 1000
    ltac:(lia) false (λ _, tt : @Rng no_sampling) (Ok []) pattern_schema pattern_options w pattern_batches file
    counters) as (s1 & s & Hs1 & Hs & Hread).
  - done.
  - done.
  - exact Hw.
  - by right.
  - done.
  - done.
  - by apply pattern_columns_kept.
  - by apply pattern_binaries_ok.
  - exact pattern_batches_valid.
  - repeat constructor.
  - exact Hf.
  - destruct (Hread (pattern_file_short w file counters s1 s Hw Hf Hs1 Hs)
      (checking_builder file) (file_reader_of file)) as (reader & Hopen & Hr); [done..|].
    exists w, file, counters, reader. split_and!; [done|exact Hf|exact Hopen|exact Hr].
Defined.

Lemma pattern_batches_counted : Forall (counted_batch pattern_schema) pattern_batches.
Proof. repeat constructor; done. Qed.

(** A row of the second row group, in the third unit of its column. *)
Lemma selected_row_read_witness :
  ∃ w file counters reader,
    pattern_writer = Ok w ∧ write_file w pattern_batches = Ok (file, counters) ∧
    (let! b := with_selection (checking_builder file) (RowIndexes [300]) in open_file false b) = Ok reader ∧
    read_file false reader
    = Ok [mkBatch [mkField "n" UInt16 true; mkField "s" Utf8View false]
            (map to_view (table_row pattern_schema pattern_batches 300).1)].
Proof.
  destruct pattern_file as (w & file & counters & Hw & Hf).
  destruct (selected_row_read (R:=FileHandle) (RT:=unit) byte_kept length_hash constant_coeffs 1000
    ltac:(lia) false (λ _, tt : @Rng no_sampling) (Ok []) pattern_schema pattern_options w pattern_batches file
    counters) as (s1 & s & Hs1 & Hs & Hread).
  - done.
  - done.
  - exact Hw.
  - by right.
  - done.
  - done.
  - by apply pattern_columns_kept.
  - by apply pattern_binaries_ok.
  - exact pattern_batches_counted.
  - done.
  - exact Hf.
  - destruct (Hread (pattern_file_short w file counters s1 s Hw Hf Hs1 Hs)
      (checking_builder file)
      (mkBuilder (mkFile file) ProjectAll (RowIndexes [300]) false None true true) [300]
      (file_reader_of file)) as (reader & i & Hopen & Hi & Hr); [done..|by repeat constructor|].
    injection Hi as <-. exists w, file, counters, reader. split_and!; [done|exact Hf|exact Hopen|exact Hr].
Defined.
End Example.
